(* ===== verification/_CoqProject ===== *)
-Q . S2P
Prelude.v
Utf8.v
GoSort.v
Errs.v
ErrsTheorems.v
ResourcePaths.v
PathSet.v
PathTheorems.v
Selector.v
TraceBuffer.v
TraceReader.v
TraceCodec.v
TraceModel.v
TraceLog.v
TraceEvents.v
TraceHTTP.v
TraceParser.v
TraceRoundtrip.v
TraceCalls.v
TraceRecord.v
TraceLogHeap.v
TraceTheorems.v
Run.v
Scrub.v
ScrubScan.v
ScrubSafe.v
ScrubDoc.v
ScrubWalk.v
ScrubCorrect.v
ScrubPaths.v
ScrubTheorems.v
Workers.v
WorkersTheorems.v
Base32.v
Strconv.v
PubsubAttrs.v
Pubsub.v
PubsubTheorems.v
GoText.v
Directive.v
DirectiveTheorems.v
Uuid.v
UuidTheorems.v
MetaScrub.v
MetaScrubSpec.v
MetaScrubTheorems.v
Shutdown.v
ShutdownTheorems.v
HttpCache.v
HttpCacheTheorems.v
GcsLocks.v
GcsLocksTheorems.v
GcsStore.v
GcsEmu.v
GcsListing.v
GcsUploads.v
GcsResume.v
GcsSafety.v
SvcAuth.v
SvcAuthTheorems.v
SvcAuthSound.v
CallMeta.v
CallMetaTheorems.v
Access.v
AccessTheorems.v
GatewayTheorems.v
AccessWitnesses.v
Middleware.v
MiddlewareTheorems.v
NameAlloc.v
