(* ===== verification/Prelude.v ===== *)
(** * Verification of the Afterpiece core

    Afterpiece is a backend development engine written in Go: a runtime linked into the user's
    application ([runtimes/go]), a compiler that analyses that application ([v2]), and a daemon
    and command line that run and observe it ([cli], [pkg]).  Applications stream a binary trace
    of everything they do; the daemon parses the stream and stores it.  This library models the
    parts of the program whose correctness is a matter of logic rather than of input and output,
    translated from the Go sources, with the theorems that make them correct.  Definitions keep
    the names of the source; a method [m] of a type has the type's prefix ([tb_] for
    [EventBuffer], [l_] for [Log], [tr_] for [traceReader], [tp_] for [traceParser], [rt_] for
    [httpRoundTrip], [b_] for [Builder]).

    ** Components and files

    Foundations
    - Prelude: machine integers as [Z] with explicit wrap-around ([u8], [u32], [u64], [i32],
      [i64]), bytes, Go strings as lists of bytes, little-endian values, shared list lemmas.
    - Utf8: [unicode/utf8] and [strings.ToValidUTF8].  GoSort: string order, [strings.Cut],
      [sort.Search].  GoText: runes, [unicode.IsSpace] and functions of [strings].  Strconv:
      [strconv].  Base32: [encoding/base32] with the ids that use it.  All of these belong to
      the language's standard library and are modelled.
    - Run: results that may panic, and loops that may not return: [returns] and [diverges] are
      stated over all amounts of fuel.

    Structured errors, [runtimes/go/beta/errs] (Errs, ErrsTheorems)
    - An [error] is its [Unwrap] chain; metadata maps live in a heap, since the code shares and
      mutates them.  [Wrap], [WrapCode], [Convert], the accessors, the code and status tables and
      the [Builder].

    Resource paths, [v2/internals/resourcepaths] (ResourcePaths, PathSet, PathTheorems)
    - [Parse] with its positions and diagnostics, [String], and [Set], a trie per HTTP method.
      PathSet states the specification, a conflict relation between paths, and relates the trie
      to the list of routes it holds.

    Selectors, [v2/parser/apis/selector] (Selector)
    - [Parse], [String] and the sorted [Set] with binary search and the linear [ContainsAny].

    Directives, [v2/parser/apis/directive] (Directive, DirectiveTheorems)
    - [fields] with its two passes over ASCII text, [parseOne], [Parse] with the standard and
      the legacy syntax, printing, accessors and [Validate].

    Scrubbing of payloads, [pkg/scrub] and [pkg/scrub/internal/scan] (Scrub)
    - The tolerant JSON scanner as a state machine over the bytes of its input, the stream that
      walks the tokens along the paths to be scrubbed, and [groupNodes], which merges the paths
      into a trie.  ScrubScan relates the scanner to the tokens of a document, ScrubWalk and
      ScrubCorrect the walk to the document tree (ScrubDoc), ScrubSafe bounds the positions on
      every input, ScrubPaths relates the trie to the paths; ScrubTheorems has the results.

    Paths to be scrubbed, [pkg/scrub/metascrub] (MetaScrub, MetaScrubSpec, MetaScrubTheorems)
    - [Compute] and the walk over the types of the application, with its cache of declarations
      and its limit of steps.  MetaScrubSpec says which fields of a type are sensitive;
      the results are handed to the scrubbing of payloads.

    Graceful shutdown, [runtimes/go/appruntime/shared/shutdown] (Shutdown, ShutdownTheorems)
    - The timings and the tracker; the shutdown process as a step relation with contexts,
      deadlines, the goroutines between them, and handlers that fail, panic or never return.

    HTTP cache, [internal/httpcache] (HttpCache, HttpCacheTheorems)
    - Cache control and freshness, Vary, validation, [RoundTrip], bodies that are stored when they
      have been read, and the cache as an interface with its instance in memory.

    Storage emulator, [pkg/emulators/storage]
    - GcsLocks, GcsLocksTheorems: the per-object locks of gcsutil, counted and transient, as a
      step relation over any number of goroutines.
    - GcsStore: metadata, preconditions, ranges, URLs and the store in memory over a B-tree.
    - GcsEmu: all handlers and their dispatch.  GcsListing has the theorems about listings,
      GcsUploads what each request changes and generations, GcsResume uploads in pieces,
      GcsSafety the panics.

    Calls between services and access to endpoints, [runtimes/go/appruntime/apisdk/api]
    - SvcAuth, SvcAuthTheorems, SvcAuthSound: metadata as headers ([transport]), callers
      ([callers.go]) and the authentication methods ([svcauth]).  [AuthPair] is the contract
      between the side that signs and the side that verifies; both methods have it.
    - CallMeta, CallMetaTheorems: [call_meta.go], proved against [AuthPair].
    - Access, AccessTheorems: registration, routing and the checks of [server.go], [services.go],
      [auth.go], [auth_remote.go], [gateway.go] and [handler.go], platform requests
      ([shared/platform]) and cloud trace ids ([shared/cloudtrace]).
    - GatewayTheorems composes a gateway with a service; AccessWitnesses evaluates exchanges.
    - Middleware, MiddlewareTheorems: what runs behind the checks of an endpoint ([handler.go],
      [runtimes/go/middleware]): validation, the chain of middleware, each an arbitrary strategy
      against [next], and the call of the handler.

    Names of generated code, [pkg/namealloc] (NameAlloc)

    Publish/subscribe, [runtimes/go/pubsub]
    - Workers, WorkersTheorems: [WorkConcurrently] of [internal/utils/workers.go] in its three
      modes, a step relation each, with the goroutines, the channel, the mutex-free counters and
      cancellation.
    - PubsubAttrs, Pubsub, PubsubTheorems: message attributes by reflection ([MarshalFields],
      [UnmarshalFields]), the retry schedule [GetDelay], the settlement of messages on Azure, NSQ
      and AWS, the defaults of a subscription, and the trace context that [Publish] sends along
      and the subscriber reads back.

    UUIDs, [runtimes/go/types/uuid] (Uuid, UuidTheorems)
    - Text and binary codecs, SQL values, versions and variants, generation.

    Tracing, application side, [runtimes/go/appruntime/exported/trace2]
    - TraceBuffer: [EventBuffer], an append-only buffer with a ten-byte scratch array.
    - TraceModel: the request model ([exported/model]) and the messages of trace2.proto.
    - TraceLog: [Log], the event header, the process-wide event counter.
    - TraceEvents: all logger methods of events.go.  TraceHTTP: the round trips of http.go.
    - TraceLogHeap: the log's slice in a heap of arrays (module [Heap]) and goroutines that
      interleave inside [Add] (module [Concurrent]).

    Tracing, daemon side
    - TraceReader: [traceReader] of [pkg/traceparser/binreader.go].
    - TraceParser: [pkg/traceparser/parser.go], from [ParseEvent] down to every event type, and
      the time anchor.
    - TraceRecord: the recorder of [cli/daemon/engine/trace2/recorder.go]: its parse loop, and
      (module [Recorder]) its two goroutines, bounded channel and batches as a step relation over
      the store of [sqlite/write.go] (module [SqliteStore]), whose insertions may fail.

    How they interact: a logger method runs a writer on a fresh buffer and hands it to [l_Add],
    which appends header and payload to the log under its lock; the reader takes the log's bytes
    away; the recorder feeds them to [ParseEvent] until an error ends the stream.  TraceCodec
    relates writers to readers ([roundtrips], closed under sequencing), TraceRoundtrip lifts it
    to each logger method, TraceCalls makes the methods one type of calls, and TraceTheorems
    states the results end to end.

    ** What the theorems show

    - Fidelity of the trace: [trace_of_run] (every sequence of logger calls is parsed back
      exactly), [concurrent_log] (so are interleaved ones, with distinct ids),
      [log_buffer_refines] (data handed to a reader is never overwritten),
      [recorder_preserves_trace] and [recorder_can_finish] (the recorder loses, duplicates and
      reorders nothing on the way to the store, which keeps what it can insert, and never gets stuck).
    - Robustness of the parser: [parse_loop_terminates], [truncated_event],
      [parsed_strings_valid].
    - Encodings: [uvarint_roundtrip], [zigzag_roundtrip], [stack_roundtrip],
      [headers_roundtrip], [anchor_to_real].
    - Errors: [Wrap_spec], [Convert_spec], [Builder_Err_spec], [ErrorMessage_joins],
      [HTTPStatus_table].
    - Paths: [Parse_String], [Parse_valid], [Parse_terminates], [path_set_refines] (the trie
      implements the conflict relation) and [routing_unambiguous].
    - Selectors: [selector_roundtrip], [selector_set_spec], [ContainsAny_spec].
    - Directives: [directive_roundtrip], [fields_correct] (the fast path agrees with the general
      one and stays inside its array), [Parse_comment_group].
    - Scrubbing: [scrub_document] (in a well-formed document exactly the values the paths select
      are replaced), [scrub_never_panics] (on any bytes), [groupNodes_equiv].
    - Paths to be scrubbed: [computed_paths] (the paths of a type are those of its sensitive
      fields), [sensitive_fields_scrubbed] (scrubbing with them hides those fields and nothing
      else).
    - Shutdown: [shutdown_exits] (it ends, even if no handler returns), [shutdown_exit] (what the
      exit code says), [timings_bounds].
    - HTTP cache: [http_cache_content] (what the cache holds after any requests),
      [http_sources] (where an answer comes from), [http_hit] (a stored response is found).
    - Storage emulator: [lock_map_refines] and [lock_map_transient] (one mutex per key),
      [gcs_no_lost_update] (preconditions on generations), [gcs_pages] and [gcs_directories]
      (listings), [gcs_resumable] (uploads in pieces), [gcs_panics] (which requests panic),
      [object_url_roundtrip].
    - Calls between services: [call_roundtrip] (what is sent is what is read, over a network that
      may change unsigned headers), [signature_binds] (a signature fixes the signed metadata),
      [caller_text], [private_reached] and [user_required] (who reaches which endpoint),
      [gateway_served] and [remote_auth_passes] (gateway and service agree),
      [platform_accepted].
    - Endpoints: [middleware_in_order] (for any middleware, a request is answered, and middleware
      and handler run in order and at most once), [middleware_composes] (middleware that calls
      [next] at most once is functional composition), [invalid_rejected], [handler_answer].
    - Names of generated code: [names_distinct].
    - Work loops: [work_exactly_once] (every item fetched is processed once, in every
      interleaving), [work_bounds] (workers and batches stay in their limits), [work_progress]
      (they can always return once cancelled).
    - Messages: [attrs_roundtrip], [publish_context], [retry_schedule], [azure_delivery_count].
    - UUIDs: [uuid_texts] (the accepted texts, exactly), [uuid_roundtrip], [uuid_generated].
    - Behaviour that departs from what the code means to do: [stack_overflow_desync] (frames
      past the 255th), [closed_body_never_traced], [Wrap_mutates_cause],
      [Builder_drops_cause_meta], [scrub_hangs_on_truncated], [map_values_not_scrubbed],
      [colon_value_leaks], [pool_fetches_double], [zero_retries_not_defaulted],
      [unlimited_backoff_wraps], [attr_overflow_accepted], [String_method_attr_rejected],
      [long_trace_id_panics], [recursive_paths_order_dependent], [handlers_from_start],
      [default_total_overruns], [failing_handler_exits_clean]; modules [Departures] of
      HttpCacheTheorems, [GcsDepartures] of GcsSafety and [AccessDepartures] of AccessWitnesses,
      [delimiter_loses_objects], [second_next_skips], [numbered_name_reserved],
      [failed_insert_lost] and [empty_wildcard_shared].

    ** Parameters and bounds

    - Class [GoEnv] (TraceBuffer): the symbol table behind [runtime.CallersFrames],
      [encoding/json], and the iteration order over a header map, any permutation of its
      entries.  Paths take [url.ParseRequestURI] and [token.IsIdentifier] as predicates and the
      iteration order over the methods as a function; [stack.Build] is an argument where an
      error is built.
    - Scrubbing takes [strings.EqualFold] as a relation; the work loops take the sizes of
      fetched batches and the outcomes of the work as the choices of a step; attributes take the
      text of floating-point values; publishing takes the topic implementation and
      [encoding/json]; UUIDs take the hash functions, with the length of their sums, and the
      random bytes; a comment group comes with the text that [go/ast] computes for it;
      quoting takes [unicode.IsPrint].
    - The HTTP cache takes the wire form of responses, the parsing of dates and durations, the
      time and the server; the storage emulator takes the time of each request, whether a lock
      was granted (its context may end), JSON, MIME, gzip, MD5, base64 and protocol-buffer
      codecs.  Its B-tree and its cache of uploads are classes with the laws their documentation
      states ([BTreeLaws], [UploadIdsLaws]), for which instances are given.
    - Internal calls take the signing package of the platform and SHA3-256 ([SigningKit], with
      [SigningKitLaws]: headers carry what was signed), HMAC-SHA256, the text of dates, the JSON
      of the user's data ([AuthJSON]) and the router ([HTTPRouter], whose lookups only find what
      was registered); the clock is an argument.  Instances of all of them are given.
    - [None], or [Panicked], is a Go panic; nil dereferences, out-of-range indices and
      impossible sizes of [make] are modelled as such.  [int] is 64 bits wide.
    - Fuel: a varint is written in at most ten rounds, the length of the scratch array
      ([UVarint_loop] has eleven); splitting a path consumes a byte per round; so does
      [ParseEvent] in [parse_all]; a binary search over [n] elements takes at most [n] rounds;
      the walk of [ContainsAny] advances one of two indices; a line has no more runes, and no
      more rounds of the word loop, than bytes; the type walk has one more than its limit of steps;
      a client that lists a bucket needs one round per page; [next] has two more than there is
      middleware; a free name is found within one round more than there are used ones.  Theorems show that the fuel is enough in each
      case, so none of them is conditional on termination.  The loops of the scrubbing stream
      and the redeliveries of a failing message need not end: their theorems say for which input
      they return, and for which they never do.

    ** Not modelled

    Log output, timers (a tick may come at any moment), the SQL statements behind the recorder (each
    may fail at any moment), capacity hints, the JSON and protobuf forms of values, and
    the network.  Of the request model, only the fields the tracing code reads.  The compiler's
    passes over Go syntax, code generation, cloud clients, the command line and the remaining
    parts of the daemon are not modelled; of UUIDs, the verb [%#v] and the JSON of [NullUUID].
    Of the storage emulator, the store on disk and the batch requests; its handlers are modelled
    one after the other, with the locks that separate them in GcsLocks.  Of an endpoint, the
    decoding of requests and the encoding of responses, which the generated program supplies;
    middleware that calls [next] from several goroutines.  Candidates for extension, in this
    order: identifiers ([pkg/idents]), the JSON codecs of the runtime's types.

    This file: the vocabulary all other files share. *)

From stdpp Require Export base list gmap numbers strings option.
From Stdlib Require Export ZArith Lia Strings.Byte.

#[global] Open Scope Z_scope.

(** ** Bytes *)

Abbreviation byte := Init.Byte.byte.
Abbreviation gostring := (list Init.Byte.byte).

Definition Z_of_byte (b : byte) : Z := Z.of_N (Byte.to_N b).

Definition byte_of_Z (z : Z) : byte :=
  match Byte.of_N (Z.to_N (z mod 256)) with
  | Some b => b
  | None => Byte.x00
  end.

#[export] Instance byte_eq_dec : EqDecision byte := Byte.byte_eq_dec.

Lemma Z_of_byte_range b : 0 <= Z_of_byte b < 256.
Proof. unfold Z_of_byte. pose proof (Byte.to_N_bounded b). lia. Qed.

Lemma Z_of_byte_of_Z z : Z_of_byte (byte_of_Z z) = z mod 256.
Proof.
  unfold Z_of_byte, byte_of_Z.
  pose proof (Z.mod_pos_bound z 256 ltac:(lia)) as Hr.
  destruct (Byte.of_N (Z.to_N (z mod 256))) as [b|] eqn:E.
  - apply Byte.to_of_N in E. rewrite E. lia.
  - apply Byte.of_N_None_iff in E. lia.
Qed.

Lemma byte_of_Z_of_byte b : byte_of_Z (Z_of_byte b) = b.
Proof.
  unfold byte_of_Z. rewrite Z.mod_small by apply Z_of_byte_range.
  unfold Z_of_byte. rewrite N2Z.id, Byte.of_to_N. done.
Qed.

Lemma Z_of_byte_inj b1 b2 : Z_of_byte b1 = Z_of_byte b2 -> b1 = b2.
Proof. intros H. rewrite <- (byte_of_Z_of_byte b1), H. apply byte_of_Z_of_byte. Qed.

#[export] Instance byte_countable : Countable byte := inj_countable Byte.to_N Byte.of_N Byte.of_to_N.

(** A Go string literal as its bytes. *)
Definition lit (s : string) : gostring := String.list_byte_of_string s.
Arguments lit s%_string_scope.

(** [len(s)] as a Go [int]. *)
Definition blen {A} (s : list A) : Z := Z.of_nat (length s).

Lemma blen_nonneg {A} (s : list A) : 0 <= blen s.
Proof. unfold blen. lia. Qed.

Lemma blen_app {A} (s t : list A) : blen (s ++ t) = blen s + blen t.
Proof. unfold blen. rewrite length_app. lia. Qed.

Lemma blen_cons {A} (x : A) (s : list A) : blen (x :: s) = 1 + blen s.
Proof. unfold blen. simpl. lia. Qed.

Lemma blen_nil {A} : blen (@nil A) = 0.
Proof. done. Qed.

(** ** Fixed-width integers

    A Go value of type [uintN] or [intN] is a [Z] in the type's range; a conversion wraps. *)

Definition u8 (z : Z) : Z := z mod 2^8.
Definition u32 (z : Z) : Z := z mod 2^32.
Definition u64 (z : Z) : Z := z mod 2^64.
Definition i32 (z : Z) : Z := (z + 2^31) mod 2^32 - 2^31.
Definition i64 (z : Z) : Z := (z + 2^63) mod 2^64 - 2^63.

Definition is_u8 (z : Z) : Prop := 0 <= z < 2^8.
Definition is_u32 (z : Z) : Prop := 0 <= z < 2^32.
Definition is_u64 (z : Z) : Prop := 0 <= z < 2^64.
Definition is_i32 (z : Z) : Prop := -2^31 <= z < 2^31.
Definition is_i64 (z : Z) : Prop := -2^63 <= z < 2^63.

#[global] Hint Unfold is_u8 is_u32 is_u64 is_i32 is_i64 : core.

(** Unfold the width predicates and conversions and finish with [lia]. *)
Ltac width := unfold is_u8, is_u32, is_u64, is_i32, is_i64, u8, u32, u64, i32, i64, blen in *; lia.

Lemma u32_id z : is_u32 z -> u32 z = z.
Proof. intros H. unfold u32. apply Z.mod_small. width. Qed.

Lemma u64_id z : is_u64 z -> u64 z = z.
Proof. intros H. unfold u64. apply Z.mod_small. width. Qed.

Lemma i32_id z : is_i32 z -> i32 z = z.
Proof. intros H. unfold i32. rewrite Z.mod_small; width. Qed.

Lemma i64_id z : is_i64 z -> i64 z = z.
Proof. intros H. unfold i64. rewrite Z.mod_small; width. Qed.

Lemma u32_range z : is_u32 (u32 z).
Proof. apply Z.mod_pos_bound. lia. Qed.

Lemma u64_range z : is_u64 (u64 z).
Proof. apply Z.mod_pos_bound. lia. Qed.

Lemma i64_range z : is_i64 (i64 z).
Proof. pose proof (Z.mod_pos_bound (z + 2^63) (2^64) ltac:(lia)). width. Qed.

Lemma i32_range z : is_i32 (i32 z).
Proof. pose proof (Z.mod_pos_bound (z + 2^31) (2^32) ltac:(lia)). width. Qed.

(** Two's complement: [int64] is determined by the residue modulo 2^64. *)
Lemma i64_mod z1 z2 : z1 mod 2^64 = z2 mod 2^64 -> i64 z1 = i64 z2.
Proof.
  intros H. unfold i64. f_equal.
  rewrite <- (Zplus_mod_idemp_l z1), <- (Zplus_mod_idemp_l z2), H. done.
Qed.

Lemma i64_mod_eq z : i64 z mod 2^64 = z mod 2^64.
Proof.
  unfold i64. rewrite Zminus_mod_idemp_l. f_equal. lia.
Qed.

Lemma i64_add_l a b : i64 (i64 a + b) = i64 (a + b).
Proof.
  apply i64_mod. rewrite <- Zplus_mod_idemp_l, i64_mod_eq, Zplus_mod_idemp_l. done.
Qed.

Lemma i64_u64 z : i64 (u64 z) = i64 z.
Proof. apply i64_mod. unfold u64. apply Z.mod_mod. lia. Qed.

(** ** Little-endian integers *)

Fixpoint le_bytes (n : nat) (x : Z) : list byte :=
  match n with
  | O => []
  | S n => byte_of_Z x :: le_bytes n (Z.shiftr x 8)
  end.

Fixpoint le_value (bs : list byte) : Z :=
  match bs with
  | [] => 0
  | b :: bs => Z_of_byte b + 256 * le_value bs
  end.

Lemma length_le_bytes n x : length (le_bytes n x) = n.
Proof. revert x. induction n; intros x; simpl; [done|]. by rewrite IHn. Qed.

Lemma le_value_bytes n x : le_value (le_bytes n x) = x mod 2 ^ (8 * Z.of_nat n).
Proof.
  revert x. induction n as [|n IH]; intros x; simpl le_value.
  - rewrite Z.mod_1_r. done.
  - rewrite IH, Z_of_byte_of_Z, Z.shiftr_div_pow2 by lia.
    replace (8 * Z.of_nat (S n)) with (8 + 8 * Z.of_nat n) by lia.
    rewrite Z.pow_add_r by lia. change (2 ^ 8) with 256.
    rewrite Z.rem_mul_r by lia. done.
Qed.

Lemma le_value_range bs : 0 <= le_value bs < 2 ^ (8 * blen bs).
Proof.
  induction bs as [|b bs IH]; [done|]. rewrite blen_cons. cbn [le_value].
  replace (8 * (1 + blen bs)) with (8 + 8 * blen bs) by lia.
  rewrite Z.pow_add_r by (pose proof (blen_nonneg bs); lia).
  pose proof (Z_of_byte_range b). lia.
Qed.

Lemma le_bytes_value bs : le_bytes (length bs) (le_value bs) = bs.
Proof.
  induction bs as [|b bs IH]; [done|]. simpl.
  pose proof (Z_of_byte_range b) as Hb. f_equal.
  - apply Z_of_byte_inj. rewrite Z_of_byte_of_Z.
    replace (Z_of_byte b + 256 * le_value bs) with (Z_of_byte b + le_value bs * 256) by lia.
    rewrite Z_mod_plus_full. apply Z.mod_small. lia.
  - rewrite Z.shiftr_div_pow2 by lia. change (2 ^ 8) with 256.
    replace (Z_of_byte b + 256 * le_value bs) with (Z_of_byte b + le_value bs * 256) by lia.
    rewrite Z.div_add, Z.div_small by lia. exact IH.
Qed.

(** The little-endian value determines the bytes of a given length. *)
Lemma le_value_inj bs1 bs2 : length bs1 = length bs2 -> le_value bs1 = le_value bs2 -> bs1 = bs2.
Proof.
  intros Hl Hv. rewrite <- (le_bytes_value bs1), <- (le_bytes_value bs2), Hl, Hv. done.
Qed.

(** [acc | (u << i)] adds when [acc] fits below bit [i]. *)
Lemma lor_shiftl_add acc u i :
  0 <= i -> 0 <= acc < 2 ^ i -> Z.lor acc (Z.shiftl u i) = acc + u * 2 ^ i.
Proof.
  intros Hi Hacc. rewrite <- Z.shiftl_mul_pow2 by lia.
  symmetry. rewrite <- Z.lxor_lor; [apply Z.add_nocarry_lxor|];
    apply Z.bits_inj'; intros k Hk; rewrite Z.land_spec, Z.bits_0, Z.shiftl_spec by lia;
    (destruct (decide (k < i)) as [Hlt|Hge];
     [rewrite (Z.testbit_neg_r u) by lia; by rewrite andb_false_r
     |rewrite <- (Z.mod_small acc (2 ^ i)) by lia;
      rewrite Z.mod_pow2_bits_high by lia; done]).
Qed.
