(* ===== verification/Utf8.v ===== *)
(** The part of Go's [unicode/utf8] and [strings] packages the trace reader relies on:
    the length of the well-formed rune at the head of a string ([utf8.DecodeRuneInString]),
    validity, and [strings.ToValidUTF8] with the replacement rune U+FFFD. *)

From S2P Require Import Prelude.

Definition in_range (lo hi : Z) (b : byte) : bool := (lo <=? Z_of_byte b) && (Z_of_byte b <=? hi).

(** A continuation byte 10xxxxxx. *)
Definition is_cont (b : byte) : bool := in_range 128 191 b.

(** The width of the well-formed UTF-8 sequence at the head of [s]; [None] when the head is not
    the start of one (Go's decoder then reports [RuneError] with width 1). *)
Definition rune_len (s : gostring) : option nat :=
  match s with
  | [] => None
  | b0 :: t =>
      if in_range 0 127 b0 then Some 1%nat
      else if in_range 194 223 b0 then
        match t with
        | b1 :: _ => if is_cont b1 then Some 2%nat else None
        | _ => None
        end
      else if in_range 224 239 b0 then
        match t with
        | b1 :: b2 :: _ =>
            let lo := if Z_of_byte b0 =? 224 then 160 else 128 in
            let hi := if Z_of_byte b0 =? 237 then 159 else 191 in
            if in_range lo hi b1 && is_cont b2 then Some 3%nat else None
        | _ => None
        end
      else if in_range 240 244 b0 then
        match t with
        | b1 :: b2 :: b3 :: _ =>
            let lo := if Z_of_byte b0 =? 240 then 144 else 128 in
            let hi := if Z_of_byte b0 =? 244 then 143 else 191 in
            if in_range lo hi b1 && is_cont b2 && is_cont b3 then Some 4%nat else None
        | _ => None
        end
      else None
  end.

(** The encoding of utf8.RuneError, U+FFFD. *)
Definition rune_error : gostring := [Byte.xef; Byte.xbf; Byte.xbd].

(** [strings.ToValidUTF8(s, "\uFFFD")]: well-formed runes are copied and each maximal run of
    invalid bytes is replaced by one U+FFFD.  [skip] counts the bytes of the current rune still
    to be copied, [invalid] is the Go variable of that name. *)
Fixpoint to_valid_utf8_from (skip : nat) (invalid : bool) (s : gostring) : gostring :=
  match s with
  | [] => []
  | b :: t =>
      match skip with
      | S k => b :: to_valid_utf8_from k invalid t
      | O =>
          match rune_len (b :: t) with
          | Some w => b :: to_valid_utf8_from (w - 1) false t
          | None => (if invalid then [] else rune_error) ++ to_valid_utf8_from 0 true t
          end
      end
  end.

Definition to_valid_utf8 (s : gostring) : gostring := to_valid_utf8_from 0 false s.

(** [utf8.ValidString]. *)
Fixpoint valid_utf8_from (skip : nat) (s : gostring) : bool :=
  match s with
  | [] => (skip =? 0)%nat
  | b :: t =>
      match skip with
      | S k => valid_utf8_from k t
      | O => match rune_len (b :: t) with
             | Some w => valid_utf8_from (w - 1) t
             | None => false
             end
      end
  end.

Definition valid_utf8 (s : gostring) : bool := valid_utf8_from 0 s.

(** ** Facts about one rune *)

Lemma rune_len_bound s w : rune_len s = Some w -> (1 <= w <= length s)%nat.
Proof.
  unfold rune_len. destruct s as [|b0 [|b1 [|b2 [|b3 t]]]]; intros H;
    repeat case_match; simplify_eq; simpl; lia.
Qed.

(** The width depends only on the bytes of the rune itself. *)
Lemma rune_len_prefix s s' w :
  rune_len s = Some w -> take w s = take w s' -> rune_len s' = Some w.
Proof.
  intros H Ht. unfold rune_len in H |- *.
  destruct s as [|b0 s]; [done|]. destruct s' as [|b0' s'].
  { destruct w; [|done]. repeat case_match; simplify_eq. }
  destruct (in_range 0 127 b0) eqn:E1; [|destruct (in_range 194 223 b0) eqn:E2;
    [|destruct (in_range 224 239 b0) eqn:E3; [|destruct (in_range 240 244 b0) eqn:E4; [|done]]]].
  - simplify_eq/=. by rewrite E1.
  - destruct s as [|b1 s]; [done|]. destruct (is_cont b1) eqn:C1; [|done].
    destruct s' as [|b1' s']; simplify_eq/=. by rewrite E1, E2, C1.
  - destruct s as [|b1 [|b2 s]]; [done..|]. case_match eqn:C; [|done].
    destruct s' as [|b1' [|b2' s']]; simplify_eq/=. by rewrite E1, E2, E3, C.
  - destruct s as [|b1 [|b2 [|b3 s]]]; [done..|]. case_match eqn:C; [|done].
    destruct s' as [|b1' [|b2' [|b3' s']]]; simplify_eq/=. by rewrite E1, E2, E3, E4, C.
Qed.

Lemma rune_len_ascii b t : Z_of_byte b <= 127 -> rune_len (b :: t) = Some 1%nat.
Proof.
  intros H. unfold rune_len, in_range.
  pose proof (Z_of_byte_range b). repeat case_match; try done; lia.
Qed.

Lemma to_valid_utf8_from_take k inv s :
  (k <= length s)%nat -> take k (to_valid_utf8_from k inv s) = take k s.
Proof.
  revert k inv. induction s as [|b s IH]; intros [|k] inv Hk; simpl in *; try done.
  rewrite IH by lia. done.
Qed.

(** ** The theorems about [ToValidUTF8] *)

Lemma to_valid_utf8_from_id k inv s :
  valid_utf8_from k s = true -> to_valid_utf8_from k inv s = s.
Proof.
  revert k inv. induction s as [|b s IH]; intros k inv Hv; [done|].
  destruct k as [|k]; cbn [valid_utf8_from to_valid_utf8_from] in *.
  - destruct (rune_len (b :: s)) as [w|]; [|done]. by rewrite IH.
  - by rewrite IH.
Qed.

Lemma to_valid_utf8_from_valid k inv s :
  (k <= length s)%nat -> valid_utf8_from k (to_valid_utf8_from k inv s) = true.
Proof.
  revert k inv. induction s as [|b s IH]; intros k inv Hk.
  - destruct k; simpl in *; [done|lia].
  - destruct k as [|k]; cbn [to_valid_utf8_from] in *; simpl in Hk.
    + destruct (rune_len (b :: s)) as [w|] eqn:E.
      * pose proof (rune_len_bound _ _ E) as Hw. simpl in Hw.
        cbn [valid_utf8_from].
        erewrite rune_len_prefix; [apply IH; lia|exact E|].
        destruct w as [|w]; [lia|]. simpl. f_equal. rewrite Nat.sub_0_r.
        symmetry. apply to_valid_utf8_from_take. lia.
      * destruct inv; [apply IH; lia|]. simpl. apply IH. lia.
    + cbn [valid_utf8_from]. apply IH. lia.
Qed.

(** A valid string is left unchanged. *)
Lemma to_valid_utf8_id s : valid_utf8 s = true -> to_valid_utf8 s = s.
Proof. apply to_valid_utf8_from_id. Qed.

(** The result is always valid UTF-8. *)
Lemma to_valid_utf8_valid s : valid_utf8 (to_valid_utf8 s) = true.
Proof. apply to_valid_utf8_from_valid. lia. Qed.

(** Sanitizing twice is sanitizing once. *)
Lemma to_valid_utf8_idemp s : to_valid_utf8 (to_valid_utf8 s) = to_valid_utf8 s.
Proof. apply to_valid_utf8_id, to_valid_utf8_valid. Qed.

(** Only the empty string is sanitized to the empty string. *)
Lemma to_valid_utf8_nil s : to_valid_utf8 s = [] <-> s = [].
Proof.
  split; [|by intros ->]. destruct s as [|b s]; [done|].
  unfold to_valid_utf8. cbn [to_valid_utf8_from].
  destruct (rune_len (b :: s)); simpl; done.
Qed.

(** ASCII strings are valid. *)
Lemma ascii_valid_utf8 s : Forall (fun b => Z_of_byte b <= 127) s -> valid_utf8 s = true.
Proof.
  unfold valid_utf8. induction 1 as [|b s Hb Hs IH]; [done|].
  cbn [valid_utf8_from]. rewrite rune_len_ascii by done. exact IH.
Qed.

