(* ===== verification/GoSort.v ===== *)
(** Pieces of the Go standard library several components use: string comparison, [strings.Cut] and
    [sort.Search]. *)

From S2P Require Import Prelude.

(** ** Comparing strings *)

(** [<] on strings: byte by byte, a proper prefix is smaller. *)
Fixpoint str_ltb (s t : gostring) : bool :=
  match s, t with
  | _, [] => false
  | [], _ :: _ => true
  | a :: s, b :: t => (Z_of_byte a <? Z_of_byte b) || ((Z_of_byte a =? Z_of_byte b) && str_ltb s t)
  end.

(** [s >= t] *)
Definition str_geb (s t : gostring) : bool := negb (str_ltb s t).

Lemma str_ltb_irrefl s : str_ltb s s = false.
Proof. induction s as [|a s IH]; [done|]. cbn. rewrite Z.ltb_irrefl, Z.eqb_refl. done. Qed.

Lemma str_ltb_trans s t u : str_ltb s t = true -> str_ltb t u = true -> str_ltb s u = true.
Proof.
  revert t u. induction s as [|a s IH]; intros [|b t] [|c u]; cbn; try done.
  rewrite !orb_true_iff, !andb_true_iff, !Z.ltb_lt, !Z.eqb_eq. intros [H1|[H1 H1']] [H2|[H2 H2']]; [lia..|].
  right. split; [lia|]. by eapply IH.
Qed.

Lemma str_trichotomy s t : str_ltb s t = true \/ s = t \/ str_ltb t s = true.
Proof.
  revert t. induction s as [|a s IH]; intros [|b t]; cbn; auto.
  rewrite !orb_true_iff, !andb_true_iff, !Z.ltb_lt, !Z.eqb_eq.
  destruct (Z.lt_trichotomy (Z_of_byte a) (Z_of_byte b)) as [H|[H|H]]; [by auto| |by auto].
  apply Z_of_byte_inj in H as ->. destruct (IH t) as [H|[->|H]]; auto 6.
Qed.

Lemma str_ltb_asym s t : str_ltb s t = true -> str_ltb t s = false.
Proof.
  intros H. destruct (str_ltb t s) eqn:H'; [|done]. pose proof (str_ltb_trans _ _ _ H H') as Hc.
  by rewrite str_ltb_irrefl in Hc.
Qed.

Lemma str_geb_spec s t : str_geb s t = true <-> s = t \/ str_ltb t s = true.
Proof.
  unfold str_geb. rewrite negb_true_iff. split.
  - intros H. destruct (str_trichotomy s t) as [H'|[->|H']]; [congruence | by left | by right].
  - intros [-> | H]; [apply str_ltb_irrefl | by apply str_ltb_asym].
Qed.

(** ** [strings.Cut] *)

Fixpoint Cut (s : gostring) (sep : byte) : gostring * gostring * bool :=
  match s with
  | [] => ([], [], false)
  | b :: s' =>
      if decide (b = sep) then ([], s', true)
      else let '(before, after, found) := Cut s' sep in
           if found then (b :: before, after, true) else (s, [], false)
  end.

Lemma Cut_spec s sep before after found :
  Cut s sep = (before, after, found) ->
  if found then s = before ++ sep :: after /\ (sep ∉ before) else before = s /\ after = [] /\ (sep ∉ s).
Proof.
  revert before after found. induction s as [|b s IH]; intros before after found; cbn [Cut].
  - intros [= <- <- <-]. split_and!; [done..|]. apply not_elem_of_nil.
  - case_decide as Hb.
    + intros [= <- <- <-]. subst. split; [done | apply not_elem_of_nil].
    + destruct (Cut s sep) as [[bf af] fd]. specialize (IH _ _ _ eq_refl). destruct fd; intros [= <- <- <-].
      * destruct IH as [-> Hn]. split; [done|]. by apply not_elem_of_cons.
      * destruct IH as (-> & -> & Hn). split_and!; [done..|]. by apply not_elem_of_cons.
Qed.

Lemma Cut_app before after sep : sep ∉ before -> Cut (before ++ sep :: after) sep = (before, after, true).
Proof.
  induction before as [|b before IH]; intros Hn; cbn [app Cut]; [by rewrite decide_True|].
  apply not_elem_of_cons in Hn as [Hb Hn]. rewrite decide_False by congruence. by rewrite IH.
Qed.

(** ** [sort.Search] *)

(** The loop [for i < j]; [None] when the fuel runs out. *)
Fixpoint search_loop (fuel : nat) (f : nat -> bool) (i j : nat) : option nat :=
  match fuel with
  | O => None
  | S fuel =>
      if decide (i < j)%nat then
        let h := Nat.div2 (i + j) in
        if negb (f h) then search_loop fuel f (S h) j else search_loop fuel f i h
      else Some i
  end.

(** [sort.Search(n, f)]; the interval halves, so [n + 1] rounds are more than enough. *)
Definition Search (n : nat) (f : nat -> bool) : option nat := search_loop (S n) f 0 n.

Lemma div2_between i j : (i < j)%nat -> (i <= Nat.div2 (i + j) < j)%nat.
Proof. intros H. rewrite Nat.div2_div. split; [apply Nat.div_le_lower_bound | apply Nat.Div0.div_lt_upper_bound]; lia. Qed.

Lemma search_loop_spec fuel : forall f i j,
  (j - i < fuel)%nat -> (i <= j)%nat ->
  (forall a b, (a <= b)%nat -> f a = true -> f b = true) ->
  exists k, search_loop fuel f i j = Some k /\ (i <= k <= j)%nat /\
    (forall a, (i <= a < k)%nat -> f a = false) /\ ((k < j)%nat -> f k = true).
Proof.
  induction fuel as [|fuel IH]; intros f i j Hf Hij Hmono; [lia|]. cbn [search_loop]. case_decide as Hlt.
  - pose proof (div2_between i j Hlt) as Hh. set (h := Nat.div2 (i + j)) in *. clearbody h.
    destruct (f h) eqn:Hfh; cbn [negb].
    + destruct (IH f i h) as (k & Hk & Hr & H1 & H2); [lia..|done|]. exists k. split; [done|]. split; [lia|].
      split; [done|]. intros Hkj. apply (Hmono k k); [lia|]. destruct (decide (k < h)%nat); [by apply H2|].
      by replace k with h by lia.
    + destruct (IH f (S h) j) as (k & Hk & Hr & H1 & H2); [lia..|done|]. exists k. split; [done|]. split; [lia|].
      split; [|done]. intros a Ha. destruct (decide (a <= h)%nat) as [Hle|]; [|apply H1; lia].
      destruct (f a) eqn:Hfa; [|done]. by rewrite (Hmono a h Hle Hfa) in Hfh.
  - exists i. split; [done|]. split; [lia|]. split; [intros a Ha; lia | intros; lia].
Qed.

Lemma Search_spec n f :
  (forall a b, (a <= b)%nat -> f a = true -> f b = true) ->
  exists k, Search n f = Some k /\ (k <= n)%nat /\ (forall a, (a < k)%nat -> f a = false) /\ ((k < n)%nat -> f k = true).
Proof.
  intros Hm. destruct (search_loop_spec (S n) f 0 n) as (k & Hk & Hr & H1 & H2); [lia..|done|].
  exists k. split; [done|]. split; [lia|]. split; [|done]. intros a Ha. apply H1. lia.
Qed.
