(* ===== verification/Errs.v ===== *)
(** Structured errors: [runtimes/go/beta/errs] (codes.go, error.go, errs_internal.go, builder.go)
    and the stack value of [appruntime/exported/stack].

    A Go [error] is modelled by its [Unwrap] chain: [nil] is the empty chain, the head is the
    error itself.  A link is either an [*errs.Error] or any other error type, of which the code
    only observes the text.  [Metadata] is a Go map, shared by reference: an [*errs.Error] holds
    the location of its map in a heap of maps, so that the in-place update of [mergeMeta] is
    visible through every error that shares the map. *)

From S2P Require Import Prelude.

(** ** Stacks (appruntime/exported/stack/stack.go) *)

Record Stack := mkStack { Frames : list Z; Off : Z }.

(** [stack.Stack{}] *)
Definition empty_stack : Stack := mkStack [] 0.

(** ** Dynamic values stored in metadata and details *)

Inductive any :=
| AnyStack (s : Stack)
| AnyString (s : gostring)
| AnyOther (id : Z).

Definition mloc := positive.
Abbreviation Metadata := (gmap (list Init.Byte.byte) any).
Abbreviation metaheap := (gmap positive (gmap (list Init.Byte.byte) any)).

(** ** Error codes (codes.go) *)

Definition OK := 0.
Definition Canceled := 1.
Definition Unknown := 2.
Definition InvalidArgument := 3.
Definition DeadlineExceeded := 4.
Definition NotFound := 5.
Definition AlreadyExists := 6.
Definition PermissionDenied := 7.
Definition ResourceExhausted := 8.
Definition FailedPrecondition := 9.
Definition Aborted := 10.
Definition OutOfRange := 11.
Definition Unimplemented := 12.
Definition Internal := 13.
Definition Unavailable := 14.
Definition DataLoss := 15.
Definition Unauthenticated := 16.

Definition codeNames : list gostring :=
  [ lit "ok"; lit "canceled"; lit "unknown"; lit "invalid_argument"; lit "deadline_exceeded";
    lit "not_found"; lit "already_exists"; lit "permission_denied"; lit "resource_exhausted";
    lit "failed_precondition"; lit "aborted"; lit "out_of_range"; lit "unimplemented";
    lit "internal"; lit "unavailable"; lit "data_loss"; lit "unauthenticated" ].

Definition codeStatus : list Z :=
  [ 200; 499; 500; 400; 504; 404; 409; 403; 429; 400; 409; 400; 501; 500; 503; 500; 401 ].

(** Indexing a fixed-size table by an [int]: out of range panics ([None]). *)
Definition table_index {A} (t : list A) (i : Z) : option A :=
  if 0 <=? i then t !! Z.to_nat i else None.

(** [ErrCode.String] and [ErrCode.HTTPStatus] *)
Definition ErrCode_String (c : Z) : option gostring := table_index codeNames c.
Definition ErrCode_HTTPStatus (c : Z) : option Z := table_index codeStatus c.

(** ** Errors (error.go) *)

Record Error := mkError {
  Code : Z;
  Message : gostring;
  Details : option any;
  Meta : option mloc;
  stack : Stack
}.

Inductive errlink :=
| EncoreLink (e : Error)          (* an *errs.Error; its underlying error is the tail *)
| OtherLink (text : gostring).    (* any other type: its Error() text; Unwrap() is the tail *)

Abbreviation error := (list errlink).

(** [errors.As(err, &ee)]: the first [*errs.Error] of the chain. *)
Fixpoint errors_As (err : error) : option Error :=
  match err with
  | [] => None
  | EncoreLink e :: _ => Some e
  | OtherLink _ :: u => errors_As u
  end.

(** The loop of [ErrorMessage] over the underlying chain; [acc] is the builder's content. *)
Fixpoint ErrorMessage_loop (acc : gostring) (next : error) : gostring :=
  match next with
  | [] => acc
  | EncoreLink e :: u =>
      let msg := Message e in
      let sep := if negb (bool_decide (acc = [])) && negb (bool_decide (msg = [])) then lit ": " else [] in
      ErrorMessage_loop (acc ++ sep ++ msg) u
  | OtherLink msg :: _ =>
      let sep := if negb (bool_decide (acc = [])) && negb (bool_decide (msg = [])) then lit ": " else [] in
      acc ++ sep ++ msg
  end.

Definition ErrorMessage (e : Error) (underlying : error) : gostring :=
  match underlying with
  | [] => Message e
  | _ => ErrorMessage_loop (Message e) underlying
  end.

(** [err.Error()] for a non-nil error; [None] is the index panic of an out-of-range code, or the
    nil dereference. *)
Definition Error_text (err : error) : option gostring :=
  match err with
  | [] => None
  | OtherLink t :: _ => Some t
  | EncoreLink e :: u =>
      if Code e =? Unknown then Some (lit "unknown code: " ++ ErrorMessage e u)
      else s ← ErrCode_String (Code e); Some (s ++ lit ": " ++ ErrorMessage e u)
  end.

(** [errs.Code] *)
Definition errs_Code (err : error) : Z :=
  match err with
  | [] => OK
  | _ => match errors_As err with Some e => Code e | None => Unknown end
  end.

(** [errs.Meta]: the contents of the metadata map, [∅] standing for the nil map. *)
Definition errs_Meta (h : metaheap) (err : error) : Metadata :=
  match errors_As err with
  | Some e => match Meta e with Some l => default ∅ (h !! l) | None => ∅ end
  | None => ∅
  end.

(** [errs.Details] *)
Definition errs_Details (err : error) : option any :=
  match errors_As err with Some e => Details e | None => None end.

(** [errs.Stack]: only an outermost [*errs.Error] counts. *)
Definition errs_Stack (err : error) : Stack :=
  match err with
  | EncoreLink e :: _ => stack e
  | _ => empty_stack
  end.

(** ** HTTP statuses (errs_internal.go) *)

Definition HTTPStatus (err : error) : Z :=
  let code := errs_Code err in
  if code =? OK then 200
  else if code =? Canceled then 499
  else if code =? Unknown then 500
  else if code =? InvalidArgument then 400
  else if code =? DeadlineExceeded then 504
  else if code =? NotFound then 404
  else if code =? AlreadyExists then 409
  else if code =? PermissionDenied then 403
  else if code =? ResourceExhausted then 429
  else if code =? FailedPrecondition then 400
  else if code =? Aborted then 409
  else if code =? OutOfRange then 400
  else if code =? Unimplemented then 501
  else if code =? Internal then 500
  else if code =? Unavailable then 503
  else if code =? DataLoss then 500
  else if code =? Unauthenticated then 401
  else 500.

Definition statusToCode : list (Z * Z) :=
  [ (200, OK); (499, Canceled); (500, Internal); (400, InvalidArgument); (401, Unauthenticated);
    (403, PermissionDenied); (404, NotFound); (409, AlreadyExists); (429, ResourceExhausted);
    (501, Unimplemented); (503, Unavailable); (504, DeadlineExceeded) ].

Definition HTTPStatusToCode (status : Z) : Z :=
  match List.find (fun p => p.1 =? status) statusToCode with
  | Some p => p.2
  | None => Unknown
  end.

(** ** Constructing errors *)

(** [mergeMeta(md, pairs)]: panics ([None]) on an odd number of pairs or a non-string key; a nil
    map is allocated when there is something to put in it; otherwise the map is updated in
    place, so the update is visible wherever the map is shared. *)
Fixpoint merge_pairs (md : Metadata) (pairs : list any) : option Metadata :=
  match pairs with
  | [] => Some md
  | AnyString k :: v :: rest => merge_pairs (<[k := v]> md) rest
  | _ => None
  end.

Definition mergeMeta (h : metaheap) (md : option mloc) (pairs : list any)
  : option (metaheap * option mloc) :=
  if negb (Z.of_nat (length pairs) mod 2 =? 0) then None else
  match md, pairs with
  | None, [] => Some (h, None)
  | None, _ => m ← merge_pairs ∅ pairs; let l := fresh (dom h) in Some (<[l := m]> h, Some l)
  | Some l, _ => m ← merge_pairs (default ∅ (h !! l)) pairs; Some (<[l := m]> h, Some l)
  end.

(** [Wrap(err, msg, metaPairs...)]; [built] is the stack [stack.Build] captures. *)
Definition Wrap (built : Stack) (h : metaheap) (err : error) (msg : gostring) (pairs : list any)
  : option (metaheap * error) :=
  match err with
  | [] => Some (h, [])
  | _ =>
      match errors_As err with
      | Some ee =>
          '(h', md) ← mergeMeta h (Meta ee) pairs;
          Some (h', EncoreLink (mkError (Code ee) msg (Details ee) md (stack ee)) :: err)
      | None =>
          '(h', md) ← mergeMeta h None pairs;
          Some (h', EncoreLink (mkError Unknown msg None md built) :: err)
      end
  end.

Definition WrapCode (built : Stack) (h : metaheap) (err : error) (code : Z) (msg : gostring)
    (pairs : list any) : option (metaheap * error) :=
  match err with
  | [] => Some (h, [])
  | _ =>
      if code =? OK then Some (h, []) else
      match errors_As err with
      | Some ee =>
          '(h', md) ← mergeMeta h (Meta ee) pairs;
          Some (h', EncoreLink (mkError code msg (Details ee) md (stack ee)) :: err)
      | None =>
          '(h', md) ← mergeMeta h None pairs;
          Some (h', EncoreLink (mkError code msg None md built) :: err)
      end
  end.

(** [Convert(err)]; [None] is a panic of [err.Error()]. *)
Definition Convert (built : Stack) (err : error) : option error :=
  match err with
  | [] => Some []
  | EncoreLink _ :: _ => Some err
  | OtherLink _ :: _ =>
      match errors_As err with
      | Some e =>
          text ← Error_text err;
          Some (EncoreLink (mkError (Code e) text (Details e) (Meta e) (stack e)) :: err)
      | None => Some (EncoreLink (mkError Unknown [] None None built) :: err)
      end
  end.

(** ** The error builder (builder.go) *)

Record Builder := mkBuilder {
  b_code : Z; b_codeSet : bool;
  b_det : option any; b_detSet : bool;
  b_stack : Stack; b_stackSet : bool;
  b_msg : gostring;
  b_meta : list any;
  b_err : error
}.

Definition B : Builder := mkBuilder 0 false None false empty_stack false [] [] [].

Definition b_Code (c : Z) (b : Builder) : Builder :=
  mkBuilder c true (b_det b) (b_detSet b) (b_stack b) (b_stackSet b) (b_msg b) (b_meta b) (b_err b).

Definition b_Msg (m : gostring) (b : Builder) : Builder :=
  mkBuilder (b_code b) (b_codeSet b) (b_det b) (b_detSet b) (b_stack b) (b_stackSet b) m (b_meta b) (b_err b).

Definition b_Meta (pairs : list any) (b : Builder) : Builder :=
  mkBuilder (b_code b) (b_codeSet b) (b_det b) (b_detSet b) (b_stack b) (b_stackSet b) (b_msg b)
    (b_meta b ++ pairs) (b_err b).

Definition b_Details (d : option any) (b : Builder) : Builder :=
  mkBuilder (b_code b) (b_codeSet b) d true (b_stack b) (b_stackSet b) (b_msg b) (b_meta b) (b_err b).

Definition b_Stack (s : Stack) (b : Builder) : Builder :=
  mkBuilder (b_code b) (b_codeSet b) (b_det b) (b_detSet b) s true (b_msg b) (b_meta b) (b_err b).

Definition b_Cause (err : error) (b : Builder) : Builder :=
  match err with
  | EncoreLink e :: _ =>
      mkBuilder (if b_codeSet b then b_code b else Code e) (b_codeSet b)
        (if b_detSet b then b_det b else Details e) (b_detSet b)
        (if b_stackSet b then b_stack b else stack e) true
        (b_msg b) (b_meta b) err
  | _ => mkBuilder (b_code b) (b_codeSet b) (b_det b) (b_detSet b) (b_stack b) (b_stackSet b)
           (b_msg b) (b_meta b) err
  end.

Definition b_Err (built : Stack) (h : metaheap) (b : Builder) : option (metaheap * error) :=
  let code := if b_code b =? OK then Unknown else b_code b in
  let msg := if bool_decide (b_msg b = []) && bool_decide (length (b_err b) = 0%nat)
             then lit "unknown error" else b_msg b in
  let '(errMeta, s) :=
    if b_stackSet b then (None, b_stack b)
    else match b_err b with
         | EncoreLink e :: _ => (Meta e, stack e)
         | _ => (None, built)
         end in
  '(h', md) ← mergeMeta h errMeta (b_meta b);
  Some (h', EncoreLink (mkError code msg (b_det b) md s) :: b_err b).
