(* ===== verification/ErrsTheorems.v ===== *)
(** Theorems about structured errors ([runtimes/go/beta/errs]).

    Wrapping and conversion keep the code, the details and the cause; the text of an error is the
    join of the messages along its chain; codes and HTTP statuses agree.  Two results describe
    what the metadata handling does: wrapping writes into the wrapped error's own map, and the
    builder drops the metadata of its cause. *)

From S2P Require Import Prelude Errs.

(** ** Messages *)

(** The messages [ErrorMessage] visits: those of the [*Error]s up to the first other error. *)
Fixpoint messages (err : error) : list gostring :=
  match err with
  | [] => []
  | EncoreLink e :: u => Message e :: messages u
  | OtherLink t :: _ => [t]
  end.

(** [strings.Join(l, ": ")] *)
Fixpoint join_colon (l : list gostring) : gostring :=
  match l with
  | [] => []
  | [s] => s
  | s :: l => s ++ lit ": " ++ join_colon l
  end.

Definition nonempty (s : gostring) : Prop := s <> [].
#[export] Instance nonempty_dec s : Decision (nonempty s).
Proof. unfold nonempty. apply _. Defined.

Lemma join_colon_cons s l : l <> [] -> join_colon (s :: l) = s ++ lit ": " ++ join_colon l.
Proof. by destruct l. Qed.

Lemma filter_nonempty_nil l : filter nonempty ([] :: l) = filter nonempty l.
Proof. rewrite filter_cons_False; [done|]. by intros []. Qed.

Lemma filter_nonempty_cons c s l : filter nonempty ((c :: s) :: l) = (c :: s) :: filter nonempty l.
Proof. by rewrite filter_cons_True. Qed.

(** Appending a message to what has been written, with the separator. *)
Definition append_msg (acc msg : gostring) : gostring :=
  acc ++ (if negb (bool_decide (acc = [])) && negb (bool_decide (msg = [])) then lit ": " else []) ++ msg.

Lemma join_append_msg acc msg l :
  join_colon (filter nonempty (append_msg acc msg :: l)) = join_colon (filter nonempty (acc :: msg :: l)).
Proof.
  unfold append_msg. destruct acc as [|c acc], msg as [|d msg]; cbn [bool_decide negb andb app].
  - by rewrite !filter_nonempty_nil.
  - by rewrite filter_nonempty_nil.
  - rewrite app_nil_r, !filter_nonempty_cons, filter_nonempty_nil. done.
  - rewrite !filter_nonempty_cons. rewrite (join_colon_cons (c :: acc)) by done.
    destruct (filter nonempty l) as [|x l']; [done|]. rewrite !join_colon_cons by done.
    cbn [app]. by rewrite <- !app_assoc.
Qed.

Lemma ErrorMessage_loop_join next : forall acc,
  ErrorMessage_loop acc next = join_colon (filter nonempty (acc :: messages next)).
Proof.
  assert (forall s, s = join_colon (filter nonempty [s])) as Hone.
  { intros [|c s]; [by rewrite filter_nonempty_nil | by rewrite filter_nonempty_cons]. }
  induction next as [|[e|t] next IH]; intros acc; cbn [ErrorMessage_loop messages].
  - apply Hone.
  - rewrite IH. apply join_append_msg.
  - rewrite <- join_append_msg. apply Hone.
Qed.

(** The text of an error is, after its code, the messages of the chain joined by ": ", empty
    ones left out. *)
Theorem ErrorMessage_joins (e : Error) (underlying : error) :
  ErrorMessage e underlying = join_colon (filter nonempty (messages (EncoreLink e :: underlying))).
Proof.
  change (messages (EncoreLink e :: underlying)) with (Message e :: messages underlying).
  rewrite <- ErrorMessage_loop_join. by destruct underlying.
Qed.

(** ** Codes and statuses *)

(** The status of an error is the one the table of codes gives, for every code the package
    defines, and the code recovered from that status has the same status again. *)
Theorem HTTPStatus_table (err : error) :
  0 <= errs_Code err <= Unauthenticated ->
  ErrCode_HTTPStatus (errs_Code err) = Some (HTTPStatus err) /\
  ErrCode_HTTPStatus (HTTPStatusToCode (HTTPStatus err)) = Some (HTTPStatus err).
Proof.
  unfold HTTPStatus, Unauthenticated. generalize (errs_Code err). intros c Hc.
  destruct c as [|p|p]; [done | | lia]. do 5 (destruct p as [p|p|]; [| |done]; try lia).
Qed.

Lemma HTTPStatus_table_witness :
  ErrCode_HTTPStatus (errs_Code [EncoreLink (mkError Aborted [] None None empty_stack)]) = Some 409 /\
  ErrCode_HTTPStatus (HTTPStatusToCode 409) = Some 409.
Proof. apply (HTTPStatus_table [EncoreLink (mkError Aborted [] None None empty_stack)]). cbn. unfold Aborted, Unauthenticated. lia. Defined.

(** ** Metadata *)

Definition meta_of (h : metaheap) (md : option mloc) : Metadata :=
  match md with Some l => default ∅ (h !! l) | None => ∅ end.

Lemma mergeMeta_meta h md pairs h' md' :
  mergeMeta h md pairs = Some (h', md') ->
  merge_pairs (meta_of h md) pairs = Some (meta_of h' md') /\ (forall l, md = Some l -> md' = Some l).
Proof.
  unfold mergeMeta. destruct (negb _); [done|]. destruct md as [l|].
  - intros (m & Hm & [= <- <-])%bind_Some. cbn. rewrite lookup_insert_eq. done.
  - destruct pairs as [|p pairs]; [by intros [= <- <-]|].
    intros (m & Hm & [= <- <-])%bind_Some. split; [|done]. cbn [meta_of]. by rewrite lookup_insert_eq.
Qed.

(** A well-formed argument list: keys are strings, one value each. *)
Fixpoint wf_pairs (pairs : list any) : bool :=
  match pairs with
  | [] => true
  | AnyString _ :: _ :: rest => wf_pairs rest
  | _ => false
  end.

Lemma merge_pairs_total pairs : forall m, wf_pairs pairs = true <-> is_Some (merge_pairs m pairs).
Proof.
  assert (forall n pairs m, (length pairs <= n)%nat -> wf_pairs pairs = true <-> is_Some (merge_pairs m pairs)) as H.
  { induction n as [|n IH]; intros [|[s|k|i] [|v rest]] m Hn; cbn in *; try lia;
      try (split; [done | by intros []]); try (split; [by eexists | done]).
    apply IH. lia. }
  intros m. by apply (H (length pairs)).
Qed.

Lemma wf_pairs_even pairs : wf_pairs pairs = true -> Z.of_nat (length pairs) mod 2 = 0.
Proof.
  assert (forall n pairs, (length pairs <= n)%nat -> wf_pairs pairs = true -> Z.of_nat (length pairs) mod 2 = 0) as H.
  { induction n as [|n IH]; intros [|[s|k|i] [|v rest]] Hn Hwf; cbn [length wf_pairs] in *; try done; try lia.
    replace (Z.of_nat (S (S (length rest)))) with (Z.of_nat (length rest) + 1 * 2) by lia.
    rewrite Z_mod_plus_full. apply IH; [lia|done]. }
  by apply (H (length pairs)).
Qed.

Lemma mergeMeta_total h md pairs : wf_pairs pairs = true <-> is_Some (mergeMeta h md pairs).
Proof.
  unfold mergeMeta. split.
  - intros Hwf. rewrite wf_pairs_even by done. cbn [negb Z.eqb].
    destruct md as [l|].
    + apply (merge_pairs_total _ (default ∅ (h !! l))) in Hwf as [m ->]. by eexists.
    + destruct pairs; [by eexists|]. apply (merge_pairs_total _ ∅) in Hwf as [m Hm]. rewrite Hm. by eexists.
  - destruct (negb _); [by intros []|]. destruct md as [l|].
    + intros [? (m & Hm & _)%bind_Some]. by eapply merge_pairs_total.
    + destruct pairs; [done|]. intros [? (m & Hm & _)%bind_Some]. by eapply merge_pairs_total.
Qed.

(** ** Wrapping *)

(** Wrapping a non-nil error never fails on well-formed metadata arguments: the result has the
    given message and the error as its cause, reports the same code, HTTP status and details, the
    stack of the wrapped error if it has one, and the metadata of the wrapped error updated with
    the new pairs. *)
Theorem Wrap_spec (built : Stack) (h : metaheap) (err : error) (msg : gostring) (pairs : list any) :
  err <> [] -> wf_pairs pairs = true ->
  exists h' e, Wrap built h err msg pairs = Some (h', EncoreLink e :: err) /\
    Message e = msg /\
    errs_Code (EncoreLink e :: err) = errs_Code err /\
    HTTPStatus (EncoreLink e :: err) = HTTPStatus err /\
    errs_Details (EncoreLink e :: err) = errs_Details err /\
    errs_Stack (EncoreLink e :: err) = match errors_As err with Some ee => stack ee | None => built end /\
    merge_pairs (errs_Meta h err) pairs = Some (errs_Meta h' (EncoreLink e :: err)).
Proof.
  intros Hne Hp. destruct err as [|l u]; [done|]. unfold Wrap, HTTPStatus, errs_Meta, errs_Details, errs_Code.
  destruct (errors_As (l :: u)) as [ee|].
  - destruct (proj1 (mergeMeta_total h (Meta ee) _) Hp) as [[h' md] Hm]. rewrite Hm.
    destruct (mergeMeta_meta _ _ _ _ _ Hm) as [Hmeta _]. eexists _, _. split; [reflexivity|]. by cbn [errors_As Meta Code Details].
  - destruct (proj1 (mergeMeta_total h None _) Hp) as [[h' md] Hm]. rewrite Hm.
    destruct (mergeMeta_meta _ _ _ _ _ Hm) as [Hmeta _]. eexists _, _. split; [reflexivity|]. by cbn [errors_As Meta Code Details].
Qed.

(** An error with metadata, for the instances. *)
Definition demo_err : error := [EncoreLink (mkError NotFound (lit "no user") None (Some 1%positive) empty_stack)].
Definition demo_heap : metaheap := {[ 1%positive := {[ lit "id" := AnyOther 7 ]} ]}.

Lemma Wrap_spec_witness :
  exists h' e, Wrap empty_stack demo_heap demo_err (lit "lookup") [AnyString (lit "db"); AnyOther 3]
      = Some (h', EncoreLink e :: demo_err) /\
    errs_Code (EncoreLink e :: demo_err) = NotFound /\ HTTPStatus (EncoreLink e :: demo_err) = 404.
Proof.
  destruct (Wrap_spec empty_stack demo_heap demo_err (lit "lookup") [AnyString (lit "db"); AnyOther 3])
    as (h' & e & H1 & _ & H2 & H3 & _); [done | done|].
  exists h', e. split; [exact H1|]. split; [exact H2 | exact H3].
Defined.

(** Wrapping an error that has metadata changes that error's own metadata: the wrapper does not
    copy the map but shares it, so the pairs given to [Wrap] (or [WrapCode]) appear in the wrapped
    error and in everything else that shares its map. *)
Theorem Wrap_mutates_cause (built : Stack) (h h' : metaheap) (err w : error) (msg : gostring)
    (pairs : list any) (ee : Error) (l : mloc) :
  errors_As err = Some ee -> Meta ee = Some l ->
  Wrap built h err msg pairs = Some (h', w) ->
  merge_pairs (errs_Meta h err) pairs = Some (errs_Meta h' err) /\ errs_Meta h' w = errs_Meta h' err.
Proof.
  intros Has Hl Hw. destruct err as [|x u]; [done|]. unfold Wrap in Hw. rewrite Has in Hw.
  apply bind_Some in Hw as ([h1 md] & Hm & [= <- <-]). unfold errs_Meta. rewrite Has.
  destruct (mergeMeta_meta _ _ _ _ _ Hm) as [Hmeta Hsame]. rewrite Hl in *. rewrite (Hsame l eq_refl) in *.
  cbn [errors_As Meta]. done.
Qed.

Lemma Wrap_mutates_cause_witness :
  exists h' w, Wrap empty_stack demo_heap demo_err (lit "lookup") [AnyString (lit "id"); AnyOther 8] = Some (h', w) /\
    errs_Meta demo_heap demo_err = {[ lit "id" := AnyOther 7 ]} /\
    errs_Meta h' demo_err = {[ lit "id" := AnyOther 8 ]}.
Proof.
  eexists _, _. split; [reflexivity|]. split; [reflexivity|].
  match goal with |- errs_Meta ?h' _ = _ =>
    destruct (Wrap_mutates_cause empty_stack demo_heap h' demo_err _ (lit "lookup") [AnyString (lit "id"); AnyOther 8]
      (mkError NotFound (lit "no user") None (Some 1%positive) empty_stack) 1%positive eq_refl eq_refl eq_refl) as [H _]
  end.
  apply (inj Some). rewrite <- H. reflexivity.
Defined.

(** Converting keeps the code and the details, is the identity on errors of the package, and
    keeps the original error as the cause otherwise; converting twice is converting once. *)
Theorem Convert_spec (built : Stack) (err r : error) :
  Convert built err = Some r ->
  errs_Code r = errs_Code err /\ errs_Details r = errs_Details err /\
  (r = err \/ exists e, r = EncoreLink e :: err) /\ Convert built r = Some r.
Proof.
  destruct err as [|[e|t] u]; cbn [Convert]; [intros [= <-]; eauto | intros [= <-]; eauto|].
  unfold errs_Code, errs_Details. destruct (errors_As (OtherLink t :: u)) as [e|] eqn:He.
  - intros (text & Ht & [= <-])%bind_Some. cbn [errors_As Code Details]. eauto 6.
  - intros [= <-]. cbn [errors_As Code Details]. eauto 6.
Qed.

Lemma Convert_spec_witness :
  exists r, Convert empty_stack (OtherLink (lit "outer") :: demo_err) = Some r /\ errs_Code r = NotFound.
Proof.
  eexists. split; [reflexivity|].
  refine (proj1 (Convert_spec empty_stack (OtherLink (lit "outer") :: demo_err) _ _)). reflexivity.
Defined.

(** ** The builder *)

(** What can be built with the exported methods. *)
Inductive built_by : Builder -> Prop :=
| by_B : built_by B
| by_Code c b : built_by b -> built_by (b_Code c b)
| by_Msg m b : built_by b -> built_by (b_Msg m b)
| by_Meta pairs b : built_by b -> built_by (b_Meta pairs b)
| by_Details d b : built_by b -> built_by (b_Details d b)
| by_Stack s b : built_by b -> built_by (b_Stack s b)
| by_Cause err b : built_by b -> built_by (b_Cause err b).

(** [Builder.Err] returns a non-nil error whose code is never OK (it becomes Unknown), whose
    cause is the one given and which has some text; it fails only on malformed metadata pairs. *)
Theorem Builder_Err_spec (built : Stack) (h : metaheap) (b : Builder) :
  wf_pairs (b_meta b) = true ->
  exists h' e, b_Err built h b = Some (h', EncoreLink e :: b_err b) /\
    Code e = (if b_code b =? OK then Unknown else b_code b) /\ Code e <> OK /\
    (b_err b = [] -> Message e <> []) /\ Details e = b_det b.
Proof.
  intros Hp. unfold b_Err.
  destruct (if b_stackSet b then _ else _) as [errMeta s].
  destruct (proj1 (mergeMeta_total h errMeta _) Hp) as [[h' md] ->]. eexists _, _. split; [reflexivity|].
  cbn [Code Message Details]. split; [done|]. split; [by destruct (Z.eqb_spec (b_code b) OK)|].
  split; [|done]. intros ->. cbn. rewrite andb_true_r. case_bool_decide; done.
Qed.

Lemma Builder_Err_spec_witness :
  exists h' e, b_Err empty_stack ∅ (b_Meta [AnyString (lit "k"); AnyOther 1] B) = Some (h', [EncoreLink e]) /\ Code e = Unknown.
Proof.
  destruct (Builder_Err_spec empty_stack ∅ (b_Meta [AnyString (lit "k"); AnyOther 1] B)) as (h' & e & H1 & H2 & _);
    [reflexivity|].
  exists h', e. split; [exact H1 | exact H2].
Defined.

Lemma built_by_stackSet b e u : built_by b -> b_err b = EncoreLink e :: u -> b_stackSet b = true.
Proof.
  induction 1 as [|c b _ IH|m b _ IH|pairs b _ IH|d b _ IH|s b _ IH|err b _ IH]; cbn; try done.
  by destruct err as [|[]].
Qed.

(** The metadata of a builder's cause is never inherited: whatever methods built it, the error
    has exactly the pairs given to [Meta].  The branch of [Err] that reads the cause's metadata is
    unreachable, because [Cause] has marked the stack as set. *)
Theorem Builder_drops_cause_meta (built : Stack) (h h' : metaheap) (b : Builder) (e : Error) (u : error) :
  built_by b -> b_Err built h b = Some (h', EncoreLink e :: u) ->
  merge_pairs ∅ (b_meta b) = Some (meta_of h' (Meta e)).
Proof.
  intros Hb Herr. unfold b_Err in Herr.
  assert ((if b_stackSet b then (None, b_stack b)
     else match b_err b with EncoreLink e :: _ => (Meta e, stack e) | _ => (None, built) end).1 = None) as Hnone.
  { destruct (b_stackSet b) eqn:Hs; [done|]. destruct (b_err b) as [|[e'|] u'] eqn:Hu; [done| |done].
    by rewrite (built_by_stackSet b e' u') in Hs. }
  destruct (if b_stackSet b then _ else _) as [errMeta s]. cbn in Hnone. subst errMeta.
  apply bind_Some in Herr as ([h1 md] & Hm & [= <- <- <-]). by destruct (mergeMeta_meta _ _ _ _ _ Hm).
Qed.

Lemma Builder_drops_cause_meta_witness :
  exists h' e, b_Err empty_stack demo_heap (b_Cause demo_err B) = Some (h', EncoreLink e :: demo_err) /\
    meta_of h' (Meta e) = ∅ /\ errs_Meta demo_heap demo_err = {[ lit "id" := AnyOther 7 ]}.
Proof.
  eexists _, _. split; [reflexivity|]. split.
  - match goal with |- meta_of ?h' (Meta ?e) = _ =>
      pose proof (Builder_drops_cause_meta empty_stack demo_heap h' (b_Cause demo_err B) e demo_err
        (by_Cause demo_err B by_B) eq_refl) as H end.
    apply (inj Some). rewrite <- H. reflexivity.
  - reflexivity.
Defined.
