(* ===== verification/ResourcePaths.v ===== *)
(** Resource paths: [v2/internals/resourcepaths/paths.go].

    [Parse] turns a path into segments, [Path_String] prints it, and a [Set] is a trie per HTTP
    method that rejects paths conflicting with the ones it holds.

    [url.ParseRequestURI] and [token.IsIdentifier] of the Go standard library are parameters:
    which paths are valid URIs and which names are identifiers. *)

From S2P Require Import Prelude.

(** ** Segments and paths *)

Inductive SegmentType := Literal | Param | Wildcard | Fallback.

#[export] Instance SegmentType_eq_dec : EqDecision SegmentType.
Proof. solve_decision. Defined.

(** [schema.BuiltinKind], as far as path parameters use it. *)
Inductive BuiltinKind :=
| KString | KBool | KInt | KInt8 | KInt16 | KInt32 | KInt64 | KUint | KUint8 | KUint16 | KUint32 | KUint64 | KUUID
| KOther (k : Z).

Record Segment := mkSegment {
  Type_ : SegmentType;
  Value : gostring;
  ValueType : BuiltinKind;
  StartPos : Z;
  EndPos : Z
}.

Record Path := mkPath { PathStart : Z; Segments : list Segment }.

Definition slash : byte := Byte.x2f.

(** The character [Parse] strips and [String] writes for the segment's type. *)
Definition type_prefix (t : SegmentType) : gostring :=
  match t with Literal => [] | Param => lit ":" | Wildcard => lit "*" | Fallback => lit "!" end.

Definition Segment_String (s : Segment) : gostring := type_prefix (Type_ s) ++ Value s.

Fixpoint Segments_String (segs : list Segment) : gostring :=
  match segs with
  | [] => []
  | s :: segs => slash :: Segment_String s ++ Segments_String segs
  end.

Definition Path_String (p : Path) : gostring := Segments_String (Segments p).

Definition Path_Params (p : Path) : list Segment := filter (fun s => Type_ s <> Literal) (Segments p).

(** The counting loop of [NumParams]. *)
Definition Path_NumParams (p : Path) : Z :=
  foldl (fun n s => if decide (Type_ s <> Literal) then n + 1 else n) 0 (Segments p).

Definition Path_HasFallback (p : Path) : bool :=
  existsb (fun s => bool_decide (Type_ s = Fallback)) (Segments p).

(** ** Parsing *)

Record Options := mkOptions { AllowWildcard : bool; AllowFallback : bool; PrefixSlash : bool }.

(** The diagnostics [Parse] reports. *)
Inductive parse_err :=
| errEmptyPath | errInvalidPathMissingPrefix | errInvalidPathPrefix | errInvalidPathURI
| errPathContainedQuery | errEmptySegment | errTrailingSlash | errParameterMissingName
| errInvalidParamIdentifier | errWildcardNotLastSegment | errFallbackNotLastSegment.

(** [strings.IndexByte] *)
Fixpoint IndexByte (s : gostring) (c : byte) : option nat :=
  match s with
  | [] => None
  | b :: s => if decide (b = c) then Some O else S <$> IndexByte s c
  end.

Section Parse.
Context (valid_uri : gostring -> bool) (is_identifier : gostring -> bool).

(** The type and the value of a segment's text. *)
Definition classify (o : Options) (val : gostring) : SegmentType * gostring :=
  match val with
  | b :: rest =>
      if decide (b = Byte.x3a) then (Param, rest)
      else if bool_decide (b = Byte.x2a) && AllowWildcard o then (Wildcard, rest)
      else if bool_decide (b = Byte.x21) && AllowFallback o then (Fallback, rest)
      else (Literal, val)
  | [] => (Literal, [])
  end.

(** The splitting loop; [None] when the fuel runs out. *)
Fixpoint split_loop (fuel : nat) (o : Options) (path : gostring) (segStart : Z) (segs : list Segment)
  : option (list Segment + parse_err) :=
  match fuel with
  | O => None
  | S fuel =>
      match path with
      | [] => Some (inl segs)
      | _ =>
          let drop_slash := PrefixSlash o || negb (bool_decide (segs = [])) in
          let path := if drop_slash then drop 1 path else path in
          let segStart := if drop_slash then segStart + 1 else segStart in
          match IndexByte path slash with
          | Some O => Some (inr errEmptySegment)
          | idx =>
              let '(val, path) := match idx with
                                  | None => (path, [])
                                  | Some i => (take i path, drop i path)
                                  end in
              let segEnd := segStart + blen val - 1 in
              let '(segType, value) := classify o val in
              split_loop fuel o path (segEnd + 1)
                (segs ++ [mkSegment segType value KString (segStart - 1) segEnd])
          end
      end
  end.

(** The validation of the segments, in order; the first problem found. *)
Fixpoint validate (segs : list Segment) : option parse_err :=
  match segs with
  | [] => None
  | s :: rest =>
      let problem :=
        match Type_ s with
        | Literal => if bool_decide (Value s = []) then Some errTrailingSlash else None
        | t =>
            if bool_decide (Value s = []) then Some errParameterMissingName
            else if negb (is_identifier (Value s)) then Some errInvalidParamIdentifier
            else match t, rest with
                 | Wildcard, _ :: _ => Some errWildcardNotLastSegment
                 | Fallback, _ :: _ => Some errFallbackNotLastSegment
                 | _, _ => None
                 end
        end in
      match problem with Some e => Some e | None => validate rest end
  end.

(** [None]: the splitting loop ran out of fuel (it does not, see [Parse_total]). *)
Definition Parse (startPos : Z) (path : gostring) (o : Options) : option (Path + parse_err) :=
  match path with
  | [] => Some (inr errEmptyPath)
  | c :: _ =>
      if bool_decide (c <> slash) && PrefixSlash o then Some (inr errInvalidPathMissingPrefix)
      else if bool_decide (c = slash) && negb (PrefixSlash o) then Some (inr errInvalidPathPrefix)
      else
        let urlPath := if PrefixSlash o then path else slash :: path in
        if negb (valid_uri urlPath) then Some (inr errInvalidPathURI)
        else if bool_decide (is_Some (IndexByte path Byte.x3f)) then Some (inr errPathContainedQuery)
        else
          r ← split_loop (S (length path)) o path startPos [];
          Some match r with
               | inr e => inr e
               | inl segs => match validate segs with
                             | Some e => inr e
                             | None => inl (mkPath startPos segs)
                             end
               end
  end.

End Parse.

(** ** Sets of paths *)

Inductive node := Node (s : Segment) (children : list node) (p : option Path).

Definition n_seg (n : node) : Segment := let 'Node s _ _ := n in s.
Definition n_children (n : node) : list node := let 'Node _ c _ := n in c.
Definition n_path (n : node) : option Path := let 'Node _ _ p := n in p.

(** [&node{}] *)
Definition root : node := Node (mkSegment Literal [] (KOther 0) 0 0) [] None.

(** [findPath]: the loop goes down the first children; [None] is its index panic. *)
Fixpoint findPath (n : node) : option Path :=
  let 'Node _ children p := n in
  match p with
  | Some p => Some p
  | None => match children with [] => None | c :: _ => findPath c end
  end.

(** The diagnostics of [Add], with the conflicting value and the path found. *)
Inductive add_err :=
| errDuplicatePath (q : Path)
| errConflictingParameterizedPath (v : gostring) (q : Path)
| errConflictingWildcardPath (v : gostring) (q : Path)
| errConflictingLiteralPath (v : gostring) (q : Path)
| errConflictingFallbackPath (v : gostring) (q : Path)
| PanicIndex.                       (* findPath indexed an empty slice *)

Inductive match_result := MNone | MFound (i : nat) | MErr (e : add_err).

Definition conflict (k : gostring -> Path -> add_err) (seg : Segment) (ch : node) : match_result :=
  match findPath ch with Some q => MErr (k (Value seg) q) | None => MErr PanicIndex end.

(** [match]: the loop over the children from index [i]. *)
Fixpoint match_children (seg : Segment) (i : nat) (children : list node) : match_result :=
  match children with
  | [] => MNone
  | ch :: rest =>
      let cs := n_seg ch in
      match Type_ cs, Type_ seg with
      | Wildcard, Param => conflict errConflictingParameterizedPath seg ch
      | Wildcard, Wildcard => conflict errConflictingWildcardPath seg ch
      | Wildcard, Literal => conflict errConflictingLiteralPath seg ch
      | Param, Param => MFound i
      | Param, Wildcard => conflict errConflictingWildcardPath seg ch
      | Param, Literal => conflict errConflictingLiteralPath seg ch
      | Literal, Wildcard => conflict errConflictingWildcardPath seg ch
      | Literal, Param => conflict errConflictingLiteralPath seg ch
      | Literal, Literal =>
          if decide (Value seg = Value cs) then MFound i else match_children seg (S i) rest
      | Fallback, Fallback => conflict errConflictingFallbackPath seg ch
      | _, _ => match_children seg (S i) rest
      end
  end.

(** One round of the candidate loop on the tree of a method: an error, "no match, go on with the
    next candidate", or the tree afterwards. *)
Inductive add_result := Rejected (e : add_err) | NoMatch | Reached (n : node).

(** The code appends nodes as it goes; below an appended node, which has no children, nothing can be
    rejected, so that returning the tree only on success loses no insertion. *)
Fixpoint add_segments (target : bool) (path : Path) (segs : list Segment) (curr : node) : add_result :=
  let 'Node s children p := curr in
  match segs with
  | [] =>
      match p with
      | Some q => Rejected (errDuplicatePath q)
      | None => Reached (if target then Node s children (Some path) else curr)
      end
  | seg :: segs =>
      match match_children seg 0 children with
      | MErr e => Rejected e
      | MFound i =>
          match children !! i with
          | None => NoMatch
          | Some ch =>
              match add_segments target path segs ch with
              | Reached ch' => Reached (Node s (<[i := ch']> children) p)
              | r => r
              end
          end
      | MNone =>
          if target then
            match add_segments target path segs (Node seg [] None) with
            | Reached ch' => Reached (Node s (children ++ [ch']) p)
            | r => r
            end
          else NoMatch
      end
  end.

Abbreviation PathSet := (gmap (list Init.Byte.byte) node).

(** The candidate methods; [order] is the order in which the map of methods is iterated. *)
Definition candidates (order : list gostring) (method : gostring) : list gostring :=
  (if decide (method = lit "*") then filter (fun m => m <> method) order else [lit "*"]) ++ [method].

(** The candidate loop: the set afterwards, and the diagnostic if there was one. *)
Fixpoint add_candidates (method : gostring) (path : Path) (cands : list gostring) (s : PathSet)
  : PathSet * option add_err :=
  match cands with
  | [] => (s, None)
  | m :: cands =>
      let curr := default root (s !! m) in
      let s := <[m := curr]> s in
      match add_segments (bool_decide (m = method)) path (Segments path) curr with
      | Rejected e => (s, Some e)
      | NoMatch => add_candidates method path cands s
      | Reached n => add_candidates method path cands (<[m := n]> s)
      end
  end.

Definition Set_Add (order : list gostring) (method : gostring) (path : Path) (s : PathSet)
  : PathSet * option add_err :=
  add_candidates method path (candidates order method) s.

Definition NewSet : PathSet := ∅.

(** ** Parsing: what is parsed is what is printed *)

Lemma IndexByte_Some s c i : IndexByte s c = Some i ->
  s = take i s ++ c :: drop (S i) s /\ (c ∉ take i s) /\ (i < length s)%nat.
Proof.
  revert i. induction s as [|b s IH]; intros i; cbn [IndexByte]; [done|]. case_decide as Hb.
  - intros [= <-]. subst. cbn. split; [done|]. split; [apply not_elem_of_nil | lia].
  - intros (j & Hj & ->)%fmap_Some. destruct (IH j Hj) as (H1 & H2 & H3). cbn. split; [by f_equal|].
    split; [|lia]. intros [-> | H]%elem_of_cons; [by destruct Hb | done].
Qed.

Lemma IndexByte_None s c : IndexByte s c = None -> c ∉ s.
Proof.
  induction s as [|b s IH]; cbn [IndexByte]; [intros _; apply not_elem_of_nil|]. case_decide as Hb; [done|].
  intros H%fmap_None. intros [-> | Hin]%elem_of_cons; [by destruct Hb | by apply IH].
Qed.

Lemma classify_string o val : type_prefix (classify o val).1 ++ (classify o val).2 = val.
Proof.
  destruct val as [|b rest]; [done|]. cbn. case_decide; [by subst|].
  destruct (bool_decide (b = Byte.x2a)) eqn:Hw; cbn [andb];
    [apply bool_decide_eq_true in Hw; subst b; destruct (AllowWildcard o); [done|] |];
    (destruct (bool_decide (_ = Byte.x21)) eqn:Hf; cbn [andb];
      [apply bool_decide_eq_true in Hf; subst; destruct (AllowFallback o); done | done]).
Qed.

(** The positions of consecutive segments: each spans its slash and its text. *)
Fixpoint positions_ok (start : Z) (segs : list Segment) : Prop :=
  match segs with
  | [] => True
  | s :: segs => StartPos s = start /\ EndPos s = start + blen (Segment_String s) /\ positions_ok (EndPos s + 1) segs
  end.

(** What the splitting loop makes of a text without a leading slash in question. *)
Definition next_segment (o : Options) (text : gostring) (segStart : Z) : Segment * gostring :=
  let '(val, rest) := match IndexByte text slash with
                      | None => (text, [])
                      | Some i => (take i text, drop i text)
                      end in
  (mkSegment (classify o val).1 (classify o val).2 KString (segStart - 1) (segStart + blen val - 1), rest).

Lemma next_segment_spec o text segStart :
  let '(seg, rest) := next_segment o text segStart in
  text = Segment_String seg ++ rest /\ (slash ∉ Segment_String seg) /\ (rest = [] \/ exists t, rest = slash :: t) /\
  StartPos seg = segStart - 1 /\ EndPos seg = segStart - 1 + blen (Segment_String seg) /\ ValueType seg = KString.
Proof.
  unfold next_segment. destruct (IndexByte text slash) as [i|] eqn:Hi.
  - apply IndexByte_Some in Hi as (Heq & Hn & Hl). unfold Segment_String. cbn [Type_ Value StartPos EndPos].
    rewrite classify_string. split; [by rewrite take_drop|]. split; [done|]. split; [|split; [done|split; [lia|done]]].
    right. exists (drop (S i) text). rewrite Heq at 1. rewrite drop_app_length'; [done|]. rewrite length_take. lia.
  - apply IndexByte_None in Hi. unfold Segment_String. cbn [Type_ Value StartPos EndPos]. rewrite classify_string.
    split; [by rewrite app_nil_r|]. split; [done|]. split; [by left|]. split; [done|]. split; [lia|done].
Qed.

(** One round of the loop. *)
Lemma split_loop_unfold fuel o path segStart segs :
  path <> [] ->
  split_loop (S fuel) o path segStart segs
  = let drop_slash := PrefixSlash o || negb (bool_decide (segs = [])) in
    let text := if drop_slash then drop 1 path else path in
    let start := if drop_slash then segStart + 1 else segStart in
    if bool_decide (IndexByte text slash = Some 0%nat) then Some (inr errEmptySegment)
    else let '(seg, rest) := next_segment o text start in
         split_loop fuel o rest (EndPos seg + 1) (segs ++ [seg]).
Proof.
  intros Hp. cbn [split_loop]. destruct path as [|c path]; [done|]. cbv zeta. unfold next_segment.
  destruct (IndexByte _ slash) as [[|i]|]; cbn [bool_decide EndPos];
    destruct (classify o _) as [t v] eqn:Hc; by rewrite ?Hc.
Qed.

(** What the loop is left with: the segments print to the text that was consumed. *)
Lemma split_loop_spec fuel : forall o path segStart segs r,
  let drop_slash := PrefixSlash o || negb (bool_decide (segs = [])) in
  path <> [] -> (drop_slash = true -> exists t, path = slash :: t) ->
  split_loop fuel o path segStart segs = Some (inl r) ->
  exists new, r = segs ++ new /\
    Segments_String new = (if drop_slash then path else slash :: path) /\
    positions_ok (if drop_slash then segStart else segStart - 1) new /\
    Forall (fun s => (slash ∉ Segment_String s) /\ classify o (Segment_String s) = (Type_ s, Value s)) new.
Proof.
  induction fuel as [|fuel IH]; intros o path segStart segs r drop_slash Hne Hsl; [done|].
  rewrite split_loop_unfold by done. fold drop_slash. cbv zeta.
  set (text := if drop_slash then drop 1 path else path).
  set (start := if drop_slash then segStart + 1 else segStart).
  assert ((if drop_slash then path else slash :: path) = slash :: text) as Htext.
  { subst text. destruct drop_slash; [|done]. by destruct Hsl as [t ->]. }
  case_bool_decide as Hidx; [done|].
  pose proof (next_segment_spec o text start) as Hseg.
  assert (forall seg rest, next_segment o text start = (seg, rest) ->
    classify o (Segment_String seg) = (Type_ seg, Value seg)) as Hcl.
  { intros seg rest. unfold next_segment. destruct (match IndexByte text slash with None => _ | Some i => _ end) as [val rest'].
    intros [= <- _]. unfold Segment_String. cbn [Type_ Value]. rewrite classify_string. by destruct (classify o val). }
  destruct (next_segment o text start) as [seg rest]. destruct Hseg as (Ht & Hns & Hrest & Hsp & Hep & _).
  specialize (Hcl seg rest eq_refl).
  assert (StartPos seg = if drop_slash then segStart else segStart - 1) as Hsp'
    by (rewrite Hsp; subst start; destruct drop_slash; lia).
  destruct Hrest as [-> | [t ->]].
  - intros Hr. destruct fuel; [done|]. cbn in Hr. injection Hr as <-. exists [seg]. split; [done|].
    rewrite Htext, Ht. cbn [Segments_String positions_ok]. split; [done|]. split; [|by apply list.Forall_singleton].
    split; [done|]. split; [lia|done].
  - intros Hr. apply IH in Hr as (new & -> & Hstr & Hpos & Hall); [|done|by eexists].
    replace (PrefixSlash o || negb (bool_decide (segs ++ [seg] = []))) with true in *
      by (rewrite bool_decide_eq_false_2 by (by destruct segs); by rewrite orb_true_r).
    exists (seg :: new). split; [by rewrite <- app_assoc|]. rewrite Htext, Ht. cbn [Segments_String positions_ok].
    split; [by rewrite Hstr|]. split; [|by constructor]. split; [done|]. split; [lia|done].
Qed.

(** The fuel is enough: each round consumes a byte at least. *)
Lemma split_loop_total fuel : forall o path segStart segs,
  (length path < fuel)%nat -> (PrefixSlash o || negb (bool_decide (segs = [])) = false -> head path <> Some slash) ->
  is_Some (split_loop fuel o path segStart segs).
Proof.
  induction fuel as [|fuel IH]; intros o path segStart segs Hf Hh; [lia|].
  destruct (decide (path = [])) as [->|Hne]; [by eexists|]. rewrite split_loop_unfold by done. cbv zeta.
  set (drop_slash := PrefixSlash o || _) in *. set (text := if drop_slash then drop 1 path else path).
  case_bool_decide as Hidx; [by eexists|].
  pose proof (next_segment_spec o text (if drop_slash then segStart + 1 else segStart)) as Hseg.
  destruct (next_segment o text _) as [seg rest]. destruct Hseg as (Ht & _ & Hrest & _).
  apply IH.
  - assert (length text = length (Segment_String seg) + length rest)%nat as Hl by (rewrite Ht at 1; by rewrite length_app).
    assert (length text <= length path)%nat by (subst text; destruct drop_slash; rewrite ?length_drop; lia).
    subst text. destruct drop_slash.
    + rewrite length_drop in Hl. destruct path; [done|]. cbn in *. lia.
    + destruct Hrest as [-> | [t ->]]; [cbn in *; destruct path; [done|]; cbn in *; lia|].
      destruct (Segment_String seg) as [|c val]; [|cbn in *; lia].
      cbn in Ht. exfalso. apply Hh; [done|]. by rewrite Ht.
  - intros Hfalse. rewrite bool_decide_eq_false_2 in Hfalse by (by destruct segs). by rewrite orb_true_r in Hfalse.
Qed.
