(* ===== verification/PathSet.v ===== *)
(** Sets of resource paths: what [Set.Add] accepts.

    The specification is a relation between the paths alone ([conflicts]); the trie of a method
    stores the shapes of its paths ([routes]), and adding a path to a well-formed trie fails
    exactly when it conflicts with one of them. *)

From S2P Require Import Prelude ResourcePaths.

(** ** When two paths conflict *)

(** The shape of a segment: parameter names do not matter. *)
Inductive shape := ShLit (v : gostring) | ShParam | ShWild | ShFall.

#[export] Instance shape_eq_dec : EqDecision shape.
Proof. solve_decision. Defined.

Definition shape_of (s : Segment) : shape :=
  match Type_ s with
  | Literal => ShLit (Value s)
  | Param => ShParam
  | Wildcard => ShWild
  | Fallback => ShFall
  end.

(** Two segments at the same position: they stand for the same node, they cannot coexist, or they
    are told apart. *)
Inductive relation := Same | Clash | Apart.

Definition relate (a b : shape) : relation :=
  match a, b with
  | ShFall, ShFall => Clash
  | ShFall, _ | _, ShFall => Apart
  | ShLit v, ShLit w => if decide (v = w) then Same else Apart
  | ShParam, ShParam => Same
  | _, _ => Clash
  end.

Fixpoint conflicts (p q : list shape) : bool :=
  match p, q with
  | [], [] => true
  | a :: p, b :: q => match relate a b with Same => conflicts p q | Clash => true | Apart => false end
  | _, _ => false
  end.

Definition shapes (p : Path) : list shape := shape_of <$> Segments p.

Lemma relate_sym a b : relate a b = relate b a.
Proof. destruct a, b; cbn; try done. repeat case_decide; congruence. Qed.

Lemma relate_Same a b : relate a b = Same <-> a = b /\ a <> ShFall /\ a <> ShWild.
Proof. destruct a, b; cbn; try case_decide; naive_solver. Qed.

Lemma conflicts_sym p q : conflicts p q = conflicts q p.
Proof.
  revert q. induction p as [|a p IH]; intros [|b q]; cbn; try done. rewrite relate_sym. by rewrite IH.
Qed.

(** ** The paths a trie holds *)

Fixpoint routes (n : node) : list (list shape) :=
  let 'Node _ children p := n in
  (match p with Some _ => [[]] | None => [] end) ++
  (fix go l := match l with
               | [] => []
               | c :: l => (cons (shape_of (n_seg c)) <$> routes c) ++ go l
               end) children.

Definition child_routes (children : list node) : list (list shape) :=
  children ≫= (fun c => cons (shape_of (n_seg c)) <$> routes c).

Lemma routes_Node s children p :
  routes (Node s children p) = match p with Some _ => [[]] | None => [] end ++ child_routes children.
Proof. reflexivity. Qed.

Lemma elem_of_child_routes r children :
  r ∈ child_routes children <-> exists c r', c ∈ children /\ r = shape_of (n_seg c) :: r' /\ r' ∈ routes c.
Proof.
  unfold child_routes. rewrite list_elem_of_bind. split.
  - intros (c & Hr & Hc). apply list_elem_of_fmap in Hr as (r' & -> & Hr'). by eexists _, _.
  - intros (c & r' & Hc & -> & Hr'). exists c. split; [by apply list_elem_of_fmap_2 | done].
Qed.

(** A well-formed trie: below every child there is a path, and siblings are told apart. *)
Inductive wf_node : node -> Prop :=
| wf_Node s children p :
    (forall c, c ∈ children -> wf_node c) ->
    (forall c, c ∈ children -> routes c <> []) ->
    (forall i j ci cj, i <> j -> children !! i = Some ci -> children !! j = Some cj ->
       relate (shape_of (n_seg ci)) (shape_of (n_seg cj)) = Apart) ->
    wf_node (Node s children p).

Lemma wf_root : wf_node root.
Proof. constructor; try done; intros c []%elem_of_nil. Qed.

(** [findPath] does not index an empty slice below a child. *)
Lemma findPath_total n : wf_node n -> routes n <> [] -> is_Some (findPath n).
Proof.
  induction 1 as [s children p _ IH Hne _]. rewrite routes_Node. cbn [findPath].
  destruct p; [by eexists|]. destruct children as [|c l]; [done|]. intros _. apply IH; [left | apply Hne; left].
Qed.

(** ** Looking up a segment among the children *)

Lemma match_children_spec seg children : forall i,
  (forall c, c ∈ children -> is_Some (findPath c)) ->
  match match_children seg i children with
  | MNone => forall c, c ∈ children -> relate (shape_of (n_seg c)) (shape_of seg) = Apart
  | MFound j => exists k c, j = (i + k)%nat /\ children !! k = Some c /\
      relate (shape_of (n_seg c)) (shape_of seg) = Same
  | MErr e => e <> PanicIndex /\ exists c, c ∈ children /\ relate (shape_of (n_seg c)) (shape_of seg) = Clash
  end.
Proof.
  induction children as [|ch children IH]; intros i Hfp; cbn [match_children]; [by intros c []%elem_of_nil|].
  assert (is_Some (findPath ch)) as [q Hq] by (apply Hfp; left).
  assert (forall k, conflict k seg ch = MErr (k (Value seg) q)) as Hconf by (intros k; unfold conflict; by rewrite Hq).
  assert (relate (shape_of (n_seg ch)) (shape_of seg) = Apart ->
    match match_children seg (S i) children with
    | MNone => forall c, c ∈ ch :: children -> relate (shape_of (n_seg c)) (shape_of seg) = Apart
    | MFound j => exists k c, j = (i + k)%nat /\ (ch :: children) !! k = Some c /\
        relate (shape_of (n_seg c)) (shape_of seg) = Same
    | MErr e => e <> PanicIndex /\ exists c, c ∈ ch :: children /\ relate (shape_of (n_seg c)) (shape_of seg) = Clash
    end) as Hap.
  { intros Hrel. specialize (IH (S i) (fun c Hc => Hfp c (list_elem_of_further _ _ _ Hc))).
    destruct (match_children seg (S i) children) as [|j|e].
    - intros c [-> | Hc]%elem_of_cons; [done | by apply IH].
    - destruct IH as (k & c & -> & Hk & Hs). exists (S k), c. split; [lia | done].
    - destruct IH as (He & c & Hc & Hs). split; [done|]. exists c. split; [by right | done]. }
  unfold shape_of in *.
  destruct (Type_ (n_seg ch)) eqn:Tc, (Type_ seg) eqn:Ts; cbn [relate] in *;
    try (by apply Hap);
    try (rewrite Hconf; split; [done|]; exists ch; split; [left | by rewrite Tc]).
  - destruct (decide (Value seg = Value (n_seg ch))) as [Hv|Hv]; rewrite ?Tc in *.
    + exists 0%nat, ch. split; [lia|]. split; [done|]. rewrite Tc. cbn. by rewrite decide_True.
    + apply Hap. by rewrite decide_False.
  - exists 0%nat, ch. split; [lia|]. split; [done|]. by rewrite Tc.
Qed.

(** ** Adding a path to a trie *)

Lemma relate_Same_eq a b c : relate a b = Same -> relate c a = relate c b.
Proof. by intros [-> _]%relate_Same. Qed.

Section AddSegments.
Context (s : Segment) (children : list node) (p : option Path).
Hypothesis Hwf : wf_node (Node s children p).

Lemma wf_child c : c ∈ children -> wf_node c /\ routes c <> [] /\ is_Some (findPath c).
Proof. inversion Hwf; subst. intros Hc. split_and!; auto using findPath_total. Qed.

Lemma wf_apart i j ci cj : i <> j -> children !! i = Some ci -> children !! j = Some cj ->
  relate (shape_of (n_seg ci)) (shape_of (n_seg cj)) = Apart.
Proof. inversion Hwf; subst. eauto. Qed.

(** A clash with a child is a conflict with the paths below it. *)
Lemma clash_conflicts seg ks c :
  c ∈ children -> relate (shape_of (n_seg c)) (shape_of seg) = Clash ->
  exists r, r ∈ routes (Node s children p) /\ conflicts (shape_of seg :: ks) r = true.
Proof.
  intros Hc Hrel. destruct (wf_child c Hc) as (_ & Hne & _).
  destruct (routes c) as [|r rs] eqn:Hr; [done|]. exists (shape_of (n_seg c) :: r).
  split; [|cbn; by rewrite relate_sym, Hrel]. rewrite routes_Node, elem_of_app, elem_of_child_routes. right.
  exists c, r. rewrite Hr. split; [done|]. split; [done | left].
Qed.

(** Told apart from every child, a path conflicts with nothing. *)
Lemma apart_conflicts seg ks :
  (forall c, c ∈ children -> relate (shape_of (n_seg c)) (shape_of seg) = Apart) ->
  forall r, r ∈ routes (Node s children p) -> conflicts (shape_of seg :: ks) r = false.
Proof.
  intros Hap r. rewrite routes_Node, elem_of_app, elem_of_child_routes. intros [Hr|(c & r' & Hc & -> & _)].
  - destruct p; [by apply list_elem_of_singleton in Hr as -> | by apply elem_of_nil in Hr].
  - cbn. by rewrite relate_sym, Hap.
Qed.

(** Descending into the child of the same shape keeps exactly its conflicts. *)
Lemma found_conflicts seg ks k c :
  children !! k = Some c -> relate (shape_of (n_seg c)) (shape_of seg) = Same ->
  (exists r, r ∈ routes (Node s children p) /\ conflicts (shape_of seg :: ks) r = true)
  <-> exists r, r ∈ routes c /\ conflicts ks r = true.
Proof.
  intros Hk Hrel. split.
  - intros (r & Hr & Hcf). rewrite routes_Node, elem_of_app, elem_of_child_routes in Hr.
    destruct Hr as [Hr|(c' & r' & [k' Hk']%list_elem_of_lookup & -> & Hr')].
    { destruct p; [by apply list_elem_of_singleton in Hr as -> | by apply elem_of_nil in Hr]. }
    cbn in Hcf. rewrite relate_sym in Hcf. destruct (decide (k' = k)) as [->|Hne].
    + rewrite Hk in Hk'. injection Hk' as <-. rewrite Hrel in Hcf. by exists r'.
    + rewrite <- (relate_Same_eq _ _ _ Hrel), (wf_apart k' k c' c Hne Hk' Hk) in Hcf. done.
  - intros (r & Hr & Hcf). exists (shape_of (n_seg c) :: r). split; [|cbn; by rewrite relate_sym, Hrel].
    rewrite routes_Node, elem_of_app, elem_of_child_routes. right. exists c, r.
    split; [by eapply list_elem_of_lookup_2 | done].
Qed.
End AddSegments.

(** Replacing a child by one with more routes. *)
Lemma routes_insert s children p i c c' rs :
  children !! i = Some c -> n_seg c' = n_seg c -> routes c' ≡ₚ rs ++ routes c ->
  routes (Node s (<[i := c']> children) p) ≡ₚ (cons (shape_of (n_seg c)) <$> rs) ++ routes (Node s children p).
Proof.
  intros Hi Hseg Hr. rewrite !routes_Node. unfold child_routes.
  rewrite (insert_take_drop _ _ _ ltac:(by eapply lookup_lt_Some)).
  rewrite <- (take_drop_middle children i c Hi) at 3. rewrite !bind_app. cbn. rewrite Hseg, Hr, fmap_app.
  rewrite <- !app_assoc.
  rewrite (Permutation_app_swap_app (mbind _ (take i children)) (_ <$> rs)).
  by rewrite (Permutation_app_swap_app (match p with Some _ => _ | None => _ end) (_ <$> rs)).
Qed.

Lemma wf_insert s children p i c c' :
  wf_node (Node s children p) -> children !! i = Some c -> n_seg c' = n_seg c -> wf_node c' -> routes c' <> [] ->
  wf_node (Node s (<[i := c']> children) p).
Proof.
  intros Hwf Hi Hseg Hc' Hne. inversion Hwf as [? ? ? H1 H2 H3]; subst.
  assert (forall x, x ∈ <[i := c']> children -> x = c' \/ x ∈ children) as Hin.
  { intros x [j Hj]%list_elem_of_lookup. apply list_lookup_insert_Some in Hj as [(-> & -> & _)|[_ Hj]];
      [by left | right; by eapply list_elem_of_lookup_2]. }
  assert (forall j x, <[i := c']> children !! j = Some x -> exists y, children !! j = Some y /\ n_seg y = n_seg x) as Hseg'.
  { intros j x Hj. apply list_lookup_insert_Some in Hj as [(-> & -> & _)|[_ Hj]]; eauto. }
  constructor.
  - intros x Hx. destruct (Hin x Hx) as [->|]; auto.
  - intros x Hx. destruct (Hin x Hx) as [->|]; auto.
  - intros j k cj ck Hjk Hj Hk. destruct (Hseg' j cj Hj) as (yj & Hyj & <-), (Hseg' k ck Hk) as (yk & Hyk & <-). eauto.
Qed.

Lemma wf_append s children p c :
  wf_node (Node s children p) -> wf_node c -> routes c <> [] ->
  (forall x, x ∈ children -> relate (shape_of (n_seg x)) (shape_of (n_seg c)) = Apart) ->
  wf_node (Node s (children ++ [c]) p).
Proof.
  intros Hwf Hc Hne Hap. inversion Hwf as [? ? ? H1 H2 H3]; subst. constructor.
  - intros x [Hx|Hx%list_elem_of_singleton]%elem_of_app; [by apply H1 | by subst x].
  - intros x [Hx|Hx%list_elem_of_singleton]%elem_of_app; [by apply H2 | by subst x].
  - intros i j ci cj Hij Hi Hj.
    apply lookup_app_Some in Hi as [Hi|[Hli Hi]], Hj as [Hj|[Hlj Hj]]; [by eapply H3| | |].
    + apply list_lookup_singleton_Some in Hj as [_ <-]. apply Hap. by eapply list_elem_of_lookup_2.
    + apply list_lookup_singleton_Some in Hi as [_ <-]. rewrite relate_sym. apply Hap. by eapply list_elem_of_lookup_2.
    + apply list_lookup_singleton_Some in Hi as [Hi _], Hj as [Hj _]. lia.
Qed.

Lemma routes_append s children p c :
  routes (Node s (children ++ [c]) p) ≡ₚ (cons (shape_of (n_seg c)) <$> routes c) ++ routes (Node s children p).
Proof.
  rewrite !routes_Node. unfold child_routes. rewrite bind_app. cbn. rewrite app_nil_r, app_assoc.
  apply Permutation_app_comm.
Qed.

(** What adding (or, for another candidate method, checking) a path does to a well-formed trie. *)
Lemma add_segments_spec target path segs : forall n,
  wf_node n ->
  let ks := shape_of <$> segs in
  match add_segments target path segs n with
  | Rejected e => e <> PanicIndex /\ exists r, r ∈ routes n /\ conflicts ks r = true
  | NoMatch => target = false /\ forall r, r ∈ routes n -> conflicts ks r = false
  | Reached n' =>
      (forall r, r ∈ routes n -> conflicts ks r = false) /\
      if target then wf_node n' /\ n_seg n' = n_seg n /\ routes n' ≡ₚ ks :: routes n else n' = n
  end.
Proof.
  induction segs as [|seg segs IH]; intros [s children p] Hwf ks; cbn [add_segments].
  - destruct p as [q|].
    + split; [done|]. exists []. split; [rewrite routes_Node; left | done].
    + split.
      * intros r. rewrite routes_Node. cbn [app]. by intros (c & r' & _ & -> & _)%elem_of_child_routes.
      * destruct target; [|done]. split; [|split; [done|by rewrite !routes_Node]]. inversion Hwf; subst. by constructor.
  - pose proof (match_children_spec seg children 0 (fun c Hc => proj2 (proj2 (wf_child _ _ _ Hwf c Hc)))) as Hm.
    destruct (match_children seg 0 children) as [|i|e].
    + pose proof (apart_conflicts s children p Hwf seg (shape_of <$> segs) Hm) as Hnone.
      destruct target; [|by split].
      specialize (IH (Node seg [] None) ltac:(constructor; try done; intros c []%elem_of_nil)). cbv zeta in IH.
      destruct (add_segments true path segs (Node seg [] None)) as [e| |c'].
      * destruct IH as (_ & r & Hr & _). by apply elem_of_nil in Hr.
      * by destruct IH.
      * destruct IH as (_ & Hwf' & Hseg & Hr). change (routes (Node seg [] None)) with (@nil (list shape)) in Hr.
        split; [exact Hnone|]. split; [|split; [done|]].
        -- apply wf_append; try done; [by intros H0; rewrite H0 in Hr; apply Permutation_nil_cons in Hr|].
           rewrite Hseg. exact Hm.
        -- rewrite routes_append, Hr, Hseg. done.
    + destruct Hm as (k & c & -> & Hk & Hrel). cbn [Nat.add] in *. rewrite Hk.
      assert (c ∈ children) as Hc by (by eapply list_elem_of_lookup_2).
      destruct (wf_child _ _ _ Hwf c Hc) as (Hwc & Hne & _). specialize (IH c Hwc). cbv zeta in IH.
      pose proof (found_conflicts s children p Hwf seg (shape_of <$> segs) k c Hk Hrel) as Hiff.
      assert ((forall r, r ∈ routes c -> conflicts (shape_of <$> segs) r = false) ->
        forall r, r ∈ routes (Node s children p) -> conflicts ks r = false) as Hnone.
      { intros H r Hr. destruct (conflicts ks r) eqn:Hcf; [|done].
        destruct (proj1 Hiff (ex_intro _ r (conj Hr Hcf))) as (r' & Hr' & Hcf'). by rewrite H in Hcf'. }
      destruct (add_segments target path segs c) as [e| |c'].
      * destruct IH as [He Hex]. split; [done|]. by apply Hiff.
      * destruct IH as [Ht H]. split; [done|]. by apply Hnone.
      * destruct IH as [H Ht]. split; [by apply Hnone|]. destruct target.
        -- destruct Ht as (Hwf' & Hseg & Hr). split; [|split; [done|]].
           ++ apply wf_insert with c; try done. intros H0. rewrite H0 in Hr. by apply Permutation_nil_cons in Hr.
           ++ rewrite (routes_insert s children p k c c' [shape_of <$> segs] Hk Hseg Hr). cbn.
              apply relate_Same in Hrel as [-> _]. done.
        -- subst c'. by rewrite list_insert_id.
    + destruct Hm as (He & c & Hc & Hrel). split; [done|].
      destruct (clash_conflicts s children p Hwf seg (shape_of <$> segs) c Hc Hrel) as (r & Hr & Hcf). by exists r.
Qed.

(** ** Sets *)

(** The methods two paths are checked against each other for. *)
Definition overlap (m m' : gostring) : bool := bool_decide (m = m') || bool_decide (m = lit "*") || bool_decide (m' = lit "*").

(** The set as the list of its paths. *)
Abbreviation PathList := (list (list Init.Byte.byte * list shape)).

Definition acceptable (m : gostring) (ks : list shape) (spec : PathList) : Prop :=
  forall m' ks', (m', ks') ∈ spec -> overlap m m' = true -> conflicts ks ks' = false.

(** The paths a set holds for a method. *)
Definition set_routes (s : PathSet) (m : gostring) : list (list shape) :=
  match s !! m with Some n => routes n | None => [] end.

Definition represents (s : PathSet) (spec : PathList) : Prop :=
  (forall m n, s !! m = Some n -> wf_node n) /\
  (forall m ks, ks ∈ set_routes s m <-> (m, ks) ∈ spec).

(** Creating the trees of methods that have none does not change what a set holds. *)
Lemma represents_create s spec m : represents s spec -> represents (<[m := default root (s !! m)]> s) spec.
Proof.
  intros [Hwf Hr]. split.
  - intros m' n [(<- & <-)|[Hne Hm']]%lookup_insert_Some; [|by eapply Hwf].
    destruct (s !! m) as [n|] eqn:Hm; cbn; [by eapply Hwf | apply wf_root].
  - intros m' ks. rewrite <- Hr. unfold set_routes. destruct (decide (m = m')) as [<-|Hne].
    + rewrite lookup_insert_eq. by destruct (s !! m) as [n|].
    + by rewrite lookup_insert_ne.
Qed.

Lemma represents_node s spec m :
  represents s spec -> wf_node (default root (s !! m)) /\
    forall ks, ks ∈ routes (default root (s !! m)) <-> (m, ks) ∈ spec.
Proof.
  intros [Hwf Hr]. split.
  - destruct (s !! m) as [n|] eqn:Hm; cbn; [by eapply Hwf | apply wf_root].
  - intros ks. rewrite <- Hr. unfold set_routes. by destruct (s !! m).
Qed.

(** One candidate that is not the target: it only checks. *)
Lemma check_candidate method path m cands s spec :
  m <> method -> represents s spec ->
  let ks := shapes path in
  let s' := <[m := default root (s !! m)]> s in
  (exists e ks', add_candidates method path (m :: cands) s = (s', Some e) /\ e <> PanicIndex /\
     (m, ks') ∈ spec /\ conflicts ks ks' = true) \/
  (add_candidates method path (m :: cands) s = add_candidates method path cands s' /\
     forall ks', (m, ks') ∈ spec -> conflicts ks ks' = false).
Proof.
  intros Hm Hs ks s'. destruct (represents_node s spec m Hs) as [Hwf Hr].
  pose proof (add_segments_spec false path (Segments path) _ Hwf) as H. cbv zeta in H.
  cbn [add_candidates]. rewrite bool_decide_eq_false_2 by done. fold s'.
  destruct (add_segments false path (Segments path) (default root (s !! m))) as [e| |n].
  - destruct H as (He & r & Hin & Hcf). left. exists e, r. by rewrite <- Hr.
  - destruct H as [_ H]. right. split; [done|]. intros ks' Hin. apply H. by rewrite Hr.
  - destruct H as [H ->]. right. split; [by unfold s'; rewrite insert_insert_eq|]. intros ks' Hin. apply H. by rewrite Hr.
Qed.

(** The target itself. *)
Lemma add_target path m s spec :
  represents s spec ->
  let ks := shapes path in
  match add_segments true path (Segments path) (default root (s !! m)) with
  | Rejected e => e <> PanicIndex /\ exists ks', (m, ks') ∈ spec /\ conflicts ks ks' = true
  | NoMatch => False
  | Reached n => represents (<[m := n]> s) ((m, ks) :: spec) /\ forall ks', (m, ks') ∈ spec -> conflicts ks ks' = false
  end.
Proof.
  intros Hs ks. destruct (represents_node s spec m Hs) as [Hwf Hr].
  pose proof (add_segments_spec true path (Segments path) _ Hwf) as H. cbv zeta in H.
  destruct (add_segments true path (Segments path) (default root (s !! m))) as [e| |n].
  - destruct H as (He & r & Hin & Hcf). split; [done|]. exists r. by rewrite <- Hr.
  - by destruct H.
  - destruct H as (Hnone & Hwf' & _ & Hrn). split; [|intros ks' Hin; apply Hnone; by rewrite Hr].
    destruct Hs as [Hs1 Hs2]. split.
    + intros m' n' [(<- & <-)|[Hne Hm']]%lookup_insert_Some; [done | by eapply Hs1].
    + intros m' ks'. unfold set_routes. rewrite elem_of_cons. destruct (decide (m = m')) as [<-|Hne].
      * rewrite lookup_insert_eq, Hrn, elem_of_cons, Hr. unfold ks, shapes. split; intros [H|H]; auto; left; congruence.
      * rewrite lookup_insert_ne by done. fold (set_routes s m'). rewrite Hs2.
        split; [by right|]. intros [H|H]; [congruence | done].
Qed.

Lemma add_candidates_spec method path cands : forall s spec,
  represents s spec -> (forall m, m ∈ cands -> m <> method) ->
  let ks := shapes path in
  let r := add_candidates method path (cands ++ [method]) s in
  match r.2 with
  | None => represents r.1 ((method, ks) :: spec) /\
      forall m' ks', (m', ks') ∈ spec -> m' ∈ cands ++ [method] -> conflicts ks ks' = false
  | Some e => represents r.1 spec /\ e <> PanicIndex /\
      exists m' ks', (m', ks') ∈ spec /\ m' ∈ cands ++ [method] /\ conflicts ks ks' = true
  end.
Proof.
  induction cands as [|m cands IH]; intros s spec Hs Hne; cbn [app]; cbv zeta.
  - cbn [add_candidates]. pose proof (add_target path method s spec Hs) as Ht. cbv zeta in Ht.
    rewrite bool_decide_eq_true_2 by done. pose proof (represents_create s spec method Hs) as Hs'.
    destruct (add_segments true path (Segments path) (default root (s !! method))) as [e| |n]; cbn [fst snd].
    + destruct Ht as (He & ks' & Hin & Hcf). split; [done|]. split; [done|]. exists method, ks'.
      split; [done|]. split; [left | done].
    + done.
    + destruct Ht as [Hr Hnone]. rewrite insert_insert_eq. split; [done|].
      intros m' ks' Hin Hm'%list_elem_of_singleton. subst m'. by apply Hnone.
  - pose proof (represents_create s spec m Hs) as Hs'.
    destruct (check_candidate method path m (cands ++ [method]) s spec) as
      [(e & ks' & -> & He & Hin & Hcf) | [-> Hnone]]; [apply Hne; left | done | |]; cbn [fst snd].
    + split; [done|]. split; [done|]. exists m, ks'. split; [done|]. split; [left | done].
    + specialize (IH _ spec Hs' (fun x Hx => Hne x (list_elem_of_further _ _ _ Hx))). cbv zeta in IH.
      destruct (add_candidates method path (cands ++ [method]) _) as [s1 [e|]]; cbn [fst snd] in *.
      * destruct IH as (H1 & H2 & m' & ks' & H3 & H4 & H5). split; [done|]. split; [done|].
        exists m', ks'. split; [done|]. split; [by right | done].
      * destruct IH as [H1 H2]. split; [done|].
        intros m' ks' Hin [-> | Hm']%elem_of_cons; [by apply Hnone | by eapply H2].
Qed.

(** The candidates are the methods that overlap with the target. *)
Lemma candidates_overlap order method s spec m' ks' :
  represents s spec -> (forall m, is_Some (s !! m) -> m ∈ order) -> (m', ks') ∈ spec ->
  m' ∈ candidates order method <-> overlap method m' = true.
Proof.
  intros [_ Hr] Hord Hin. unfold candidates, overlap. rewrite elem_of_app, list_elem_of_singleton.
  assert (m' ∈ order) as Ho.
  { apply Hord. apply Hr in Hin. unfold set_routes in Hin. destruct (s !! m'); [by eexists | by apply elem_of_nil in Hin]. }
  rewrite !orb_true_iff, !bool_decide_eq_true. case_decide as Hstar.
  - rewrite list_elem_of_filter. split; [by auto|]. intros _. destruct (decide (m' = method)); auto.
  - rewrite list_elem_of_singleton. naive_solver.
Qed.

Lemma Set_Add_spec order method path s spec :
  represents s spec -> (forall m, is_Some (s !! m) -> m ∈ order) ->
  let r := Set_Add order method path s in
  match r.2 with
  | None => represents r.1 ((method, shapes path) :: spec) /\ acceptable method (shapes path) spec
  | Some e => represents r.1 spec /\ e <> PanicIndex /\ ~ acceptable method (shapes path) spec
  end.
Proof.
  intros Hs Hord. unfold Set_Add.
  pose proof (fun m' ks' => candidates_overlap order method s spec m' ks' Hs Hord) as Hov.
  assert (exists cands, candidates order method = cands ++ [method] /\ forall m, m ∈ cands -> m <> method) as (cands & Hcands & Hne).
  { eexists. split; [reflexivity|]. intros m. case_decide.
    - by intros [? _]%list_elem_of_filter.
    - intros ->%list_elem_of_singleton. congruence. }
  pose proof (add_candidates_spec method path cands s spec Hs Hne) as H. cbv zeta in H. rewrite <- Hcands in H.
  destruct (add_candidates method path (candidates order method) s) as [s' [e|]]; cbn [fst snd] in *.
  - destruct H as (H1 & H2 & m' & ks' & H3 & H4 & H5). split; [done|]. split; [done|]. intros Hacc.
    apply (Hov m' ks' H3) in H4. by rewrite (Hacc m' ks' H3 H4) in H5.
  - destruct H as [H1 H2]. split; [done|]. intros m' ks' Hin Ho. apply (H2 m' ks' Hin). by apply (Hov m' ks' Hin).
Qed.
