(* ===== verification/PathTheorems.v ===== *)
(** Theorems about resource paths: parsing and printing, and what a set of paths accepts. *)

From S2P Require Import Prelude ResourcePaths PathSet.

(** ** Parsing *)

Section Parsing.
Context (valid_uri is_identifier : gostring -> bool).

(** Parsing answers on every input: the splitting loop ends. *)
Lemma Parse_total start path o : is_Some (Parse valid_uri is_identifier start path o).
Proof.
  unfold Parse. destruct path as [|c path]; [by eexists|].
  destruct (bool_decide (c <> slash) && PrefixSlash o); [by eexists|].
  destruct (bool_decide (c = slash) && negb (PrefixSlash o)) eqn:Hc; [by eexists|]. cbv zeta.
  destruct (negb (valid_uri _)); [by eexists|]. destruct (bool_decide (is_Some _)); [by eexists|].
  destruct (split_loop_total (S (length (c :: path))) o (c :: path) start []) as [r ->]; [lia| |by eexists].
  rewrite bool_decide_eq_true_2, orb_false_r by done. intros Ho. rewrite Ho, andb_true_r in Hc.
  apply bool_decide_eq_false in Hc. cbn. congruence.
Qed.

Lemma Parse_Some start path o p :
  Parse valid_uri is_identifier start path o = Some (inl p) ->
  exists c t, path = c :: t /\ (c = slash <-> PrefixSlash o = true) /\
    split_loop (S (length path)) o path start [] = Some (inl (Segments p)) /\
    validate is_identifier (Segments p) = None /\ PathStart p = start.
Proof.
  unfold Parse. destruct path as [|c path]; [done|]. intros H. exists c, path. split; [done|].
  assert (c = slash <-> PrefixSlash o = true) as Hc.
  { repeat case_bool_decide; destruct (PrefixSlash o); cbn in H; try done; split; congruence. }
  split; [done|]. destruct (bool_decide _ && _); [done|]. destruct (bool_decide _ && _); [done|].
  destruct (negb _); [done|]. destruct (bool_decide _); [done|].
  apply bind_Some in H as ([segs|e] & Hs & H); [|done]. rewrite Hs.
  destruct (validate is_identifier segs) eqn:Hv; [done|]. injection H as <-. done.
Qed.
End Parsing.

(** C35. Parsing a path and printing it gives the path back (with a leading slash where the path has
    none), and the positions of the segments tile the source text: each segment spans its slash and
    its text and ends where the next one begins. *)
Theorem Parse_String (valid_uri is_identifier : gostring -> bool) (start : Z) (path : gostring) (o : Options) (p : Path) :
  Parse valid_uri is_identifier start path o = Some (inl p) ->
  Path_String p = (if PrefixSlash o then path else slash :: path) /\
  positions_ok (if PrefixSlash o then start else start - 1) (Segments p) /\ PathStart p = start.
Proof.
  intros (c & t & -> & Hc & Hs & _ & Hst)%Parse_Some.
  apply split_loop_spec in Hs as (new & Hnew & Hstr & Hpos & _); [|done|].
  - cbn in Hnew. rewrite Hnew. unfold Path_String. rewrite Hnew. cbn in Hstr, Hpos. rewrite orb_false_r in *. done.
  - cbn. rewrite orb_false_r. intros Ho. exists t. by rewrite (proj2 Hc Ho).
Qed.

Definition api_options : Options := mkOptions true true true.

Lemma Parse_String_witness :
  exists p, Parse (fun _ => true) (fun _ => true) 100 (lit "/blog/:id/*rest") api_options = Some (inl p) /\
    Path_String p = lit "/blog/:id/*rest" /\ shapes p = [ShLit (lit "blog"); ShParam; ShWild].
Proof.
  eexists. split; [reflexivity|]. split; [|reflexivity].
  refine (proj1 (Parse_String (fun _ => true) (fun _ => true) 100 (lit "/blog/:id/*rest") api_options _ _)). reflexivity.
Defined.

(** C36. What [Parse] accepts: at least one segment, none empty and none with a slash in it; literals
    do not look like parameters; parameter names are identifiers; wildcards and fallbacks occur only
    where the options allow them and only at the end. *)
Theorem Parse_valid (valid_uri is_identifier : gostring -> bool) (start : Z) (path : gostring) (o : Options) (p : Path) :
  Parse valid_uri is_identifier start path o = Some (inl p) ->
  Segments p <> [] /\
  (forall i s, Segments p !! i = Some s ->
    Value s <> [] /\ (slash ∉ Segment_String s) /\ classify o (Segment_String s) = (Type_ s, Value s) /\
    (Type_ s <> Literal -> is_identifier (Value s) = true) /\
    (Type_ s = Wildcard \/ Type_ s = Fallback -> i = pred (length (Segments p)))).
Proof.
  intros (c & t & -> & Hc & Hs & Hv & Hst)%Parse_Some.
  apply split_loop_spec in Hs as (new & Hnew & Hstr & _ & Hall); [|done|].
  2: { cbn. rewrite orb_false_r. intros Ho. exists t. by rewrite (proj2 Hc Ho). }
  cbn in Hnew. rewrite Hnew in *. clear Hnew. split.
  { intros ->. cbn in Hstr. rewrite orb_false_r in Hstr. by destruct (PrefixSlash o). }
  intros i s Hi. rewrite list.Forall_forall in Hall.
  destruct (Hall s (list_elem_of_lookup_2 _ _ _ Hi)) as [Hns Hcl].
  cut (Value s <> [] /\ (Type_ s <> Literal -> is_identifier (Value s) = true) /\
       (Type_ s = Wildcard \/ Type_ s = Fallback -> i = pred (length new))); [naive_solver|].
  clear -Hv Hi. revert i Hi. induction new as [|s' new IH]; intros i Hi; [done|]. cbn [validate] in Hv.
  destruct (match Type_ s' with Literal => _ | _ => _ end) eqn:Hp; [done|].
  destruct i as [|i]; cbn in Hi.
  - injection Hi as ->. destruct (Type_ s); repeat case_bool_decide; try done;
      destruct (is_identifier (Value s)) eqn:Hid; cbn in Hp; try done;
      (split; [done|]); (split; [done|]); (intros [|]; try done); by destruct new.
  - destruct (IH Hv i Hi) as (H1 & H2 & H3). split; [done|]. split; [done|]. intros H. rewrite (H3 H).
    destruct new; [done|]. cbn. lia.
Qed.

Lemma Parse_valid_witness :
  exists p, Parse (fun _ => true) (fun _ => true) 1 (lit "/a/!rest") api_options = Some (inl p) /\ Segments p <> [].
Proof.
  eexists. split; [reflexivity|].
  refine (proj1 (Parse_valid (fun _ => true) (fun _ => true) 1 (lit "/a/!rest") api_options _ _)). reflexivity.
Defined.

(** Parsing always answers, with a path or a diagnostic: the splitting loop needs no more rounds
    than the path has bytes. *)
Theorem Parse_terminates (valid_uri is_identifier : gostring -> bool) (start : Z) (path : gostring) (o : Options) :
  exists r, Parse valid_uri is_identifier start path o = Some r.
Proof. destruct (Parse_total valid_uri is_identifier start path o) as [r Hr]. by exists r. Qed.

(** ** Sets *)

(** The specification of a set: the list of the paths it has accepted. *)
Definition acceptable_b (m : gostring) (ks : list shape) (spec : PathList) : bool :=
  forallb (fun e => negb (overlap m e.1 && conflicts ks e.2)) spec.

Lemma acceptable_b_spec m ks spec : acceptable_b m ks spec = true <-> acceptable m ks spec.
Proof.
  unfold acceptable_b, acceptable. rewrite forallb_forall. split.
  - intros H m' ks' Hin%list_elem_of_In Ho. specialize (H _ Hin). cbn in H. rewrite Ho in H. by destruct (conflicts ks ks').
  - intros H [m' ks'] Hin%list_elem_of_In. cbn. destruct (overlap m m') eqn:Ho; [|done]. by rewrite (H _ _ Hin Ho).
Qed.

Definition spec_add (m : gostring) (p : Path) (spec : PathList) : PathList * bool :=
  if acceptable_b m (shapes p) spec then ((m, shapes p) :: spec, true) else (spec, false).

(** A sequence of additions: whether each succeeded, and the set at the end. *)
Fixpoint add_all (map_order : PathSet -> list gostring) (adds : list (gostring * Path)) (s : PathSet)
  : PathSet * list (option add_err) :=
  match adds with
  | [] => (s, [])
  | (m, p) :: adds =>
      let '(s', e) := Set_Add (map_order s) m p s in
      let '(s'', es) := add_all map_order adds s' in (s'', e :: es)
  end.

Fixpoint spec_add_all (adds : list (gostring * Path)) (spec : PathList) : PathList * list bool :=
  match adds with
  | [] => (spec, [])
  | (m, p) :: adds =>
      let '(spec', ok) := spec_add m p spec in
      let '(spec'', oks) := spec_add_all adds spec' in (spec'', ok :: oks)
  end.

(** The iteration order of a Go map: some order of all its keys. *)
Definition is_map_order (map_order : PathSet -> list gostring) : Prop :=
  forall s m, is_Some (s !! m) -> m ∈ map_order s.

Lemma add_all_spec map_order adds : is_map_order map_order -> forall s spec,
  represents s spec ->
  let r := add_all map_order adds s in let a := spec_add_all adds spec in
  represents r.1 a.1 /\ (fun e => match e with None => true | Some _ => false end) <$> r.2 = a.2 /\
  Forall (fun e => e <> Some PanicIndex) r.2.
Proof.
  intros Hord. induction adds as [|[m p] adds IH]; intros s spec Hs; cbn [add_all spec_add_all]; [done|].
  pose proof (Set_Add_spec (map_order s) m p s spec Hs (Hord s)) as Ha. cbv zeta in Ha.
  unfold spec_add. destruct (acceptable_b m (shapes p) spec) eqn:Hacc.
  - apply acceptable_b_spec in Hacc. destruct (Set_Add (map_order s) m p s) as [s' [e|]]; cbn [fst snd] in Ha;
      [by destruct Ha as (_ & _ & []) |]. destruct Ha as [Hs' _]. specialize (IH s' _ Hs'). cbv zeta in IH.
    destruct (add_all map_order adds s') as [s'' es], (spec_add_all adds _) as [spec'' oks]. cbn in *.
    destruct IH as (H1 & <- & H3). split; [done|]. split; [done|]. by constructor.
  - assert (~ acceptable m (shapes p) spec) as Hn by (rewrite <- acceptable_b_spec; by rewrite Hacc).
    destruct (Set_Add (map_order s) m p s) as [s' [e|]]; cbn [fst snd] in Ha; [|by destruct Ha].
    destruct Ha as (Hs' & He & _). specialize (IH s' _ Hs'). cbv zeta in IH.
    destruct (add_all map_order adds s') as [s'' es], (spec_add_all adds spec) as [spec'' oks]. cbn in *.
    destruct IH as (H1 & <- & H3). split; [done|]. split; [done|]. constructor; [congruence | done].
Qed.

Lemma represents_empty : represents NewSet [].
Proof.
  split; [intros m n H; unfold NewSet in H; by rewrite lookup_empty in H|]. intros m ks. unfold set_routes, NewSet. rewrite lookup_empty.
  split; intros []%elem_of_nil.
Qed.

(** C4. A set of paths refines its specification, the plain list of the paths it has accepted: in any
    sequence of additions, whatever order the runtime iterates over the methods in, an addition
    succeeds exactly when the path conflicts with none of the accepted paths of an overlapping
    method; a rejected path leaves no trace; and looking for the path to report never fails. *)
Theorem path_set_refines (map_order : PathSet -> list gostring) (adds : list (gostring * Path)) :
  is_map_order map_order ->
  let r := add_all map_order adds NewSet in let a := spec_add_all adds [] in
  represents r.1 a.1 /\ (fun e => match e with None => true | Some _ => false end) <$> r.2 = a.2 /\
  Forall (fun e => e <> Some PanicIndex) r.2.
Proof. intros Hord. exact (add_all_spec map_order adds Hord NewSet [] represents_empty). Qed.

(** Paths for the instances. *)
Definition demo_seg (t : SegmentType) (v : gostring) : Segment := mkSegment t v KString 0 0.
Definition demo_paths : list (gostring * Path) :=
  [ (lit "GET", mkPath 0 [demo_seg Literal (lit "blog"); demo_seg Param (lit "id")]);
    (lit "POST", mkPath 1 [demo_seg Literal (lit "blog"); demo_seg Literal (lit "new")]);
    (lit "*", mkPath 2 [demo_seg Literal (lit "blog"); demo_seg Param (lit "x")]);
    (lit "GET", mkPath 3 [demo_seg Fallback (lit "rest")]) ].

Lemma dom_is_map_order : is_map_order (fun s => elements (dom s)).
Proof. intros s m H. by apply elem_of_elements, elem_of_dom. Qed.

Lemma path_set_refines_witness :
  (fun e => match e with None => true | Some _ => false end) <$> (add_all (fun s => elements (dom s)) demo_paths NewSet).2
  = [true; true; false; true].
Proof.
  destruct (path_set_refines (fun s => elements (dom s)) demo_paths dom_is_map_order) as (_ & H & _).
  rewrite H. vm_compute. reflexivity.
Defined.

(** ** Routing *)

(** Which URLs (as their segments) a path stands for, as the kinds of segments are documented: a
    parameter is one non-empty segment, a wildcard and a fallback are zero or more segments. *)
Fixpoint url_matches (p : list shape) (url : list gostring) : bool :=
  match p, url with
  | [], [] => true
  | ShLit v :: p, u :: url => bool_decide (v = u) && url_matches p url
  | ShParam :: p, u :: url => negb (bool_decide (u = [])) && url_matches p url
  | ShWild :: _, _ => true
  | ShFall :: _, _ => true
  | _, _ => false
  end.

(** The wildcard of the path stands for no segment of the URL at all. *)
Definition empty_wildcard (p : list shape) (url : list gostring) : bool := bool_decide (p !! length url = Some ShWild).

Definition has_fallback (p : list shape) : bool := existsb (fun s => bool_decide (s = ShFall)) p.

Definition exempt (p : list shape) (url : list gostring) : bool := empty_wildcard p url || has_fallback p.

Lemma exempt_cons a p u url : exempt p url = true -> exempt (a :: p) (u :: url) = true.
Proof.
  unfold exempt, empty_wildcard. cbn. intros [H|H]%orb_true_iff; apply orb_true_iff; [by left|right].
  unfold has_fallback in *. cbn. by rewrite H, orb_true_r.
Qed.

Lemma exempt_fallback p url : exempt (ShFall :: p) url = true.
Proof. unfold exempt. apply orb_true_r. Qed.

Lemma compatible_disjoint p q url :
  conflicts p q = false -> url_matches p url = true -> url_matches q url = true ->
  exempt p url = true \/ exempt q url = true.
Proof.
  revert q url. induction p as [|a p IH]; intros [|b q] url; cbn [conflicts]; [done| | |].
  - intros _. destruct url; [|done]. destruct b; cbn; try done; by right.
  - intros _. destruct url; [|by destruct a; cbn; try done; destruct (bool_decide _)].
    destruct a; cbn; try done; by left.
  - destruct (relate a b) eqn:Hrel; [|done|].
    + apply relate_Same in Hrel as (<- & Hf & Hw). intros Hc Hp Hq.
      destruct url as [|u url]; [by destruct a|].
      cut (exempt p url = true \/ exempt q url = true); [intros [H|H]; auto using exempt_cons|].
      destruct a; try done; cbn in Hp, Hq; apply andb_true_iff in Hp as [_ Hp], Hq as [_ Hq]; by eapply IH.
    + intros _ Hp Hq. destruct a, b; cbn in *; try done; auto using exempt_fallback.
      destruct url; [done|]. apply andb_true_iff in Hp as [Hp _], Hq as [Hq _].
      apply bool_decide_eq_true in Hp, Hq. subst. by rewrite decide_True in Hrel.
Qed.

Lemma spec_add_all_pairwise adds : forall spec,
  (forall i j mi ki mj kj, i <> j -> spec !! i = Some (mi, ki) -> spec !! j = Some (mj, kj) ->
     overlap mi mj = true -> conflicts ki kj = false) ->
  (forall i j mi ki mj kj, i <> j -> (spec_add_all adds spec).1 !! i = Some (mi, ki) ->
     (spec_add_all adds spec).1 !! j = Some (mj, kj) -> overlap mi mj = true -> conflicts ki kj = false).
Proof.
  induction adds as [|[m p] adds IH]; intros spec Hspec; cbn [spec_add_all]; [done|].
  destruct (spec_add m p spec) as [spec' ok] eqn:Ha. specialize (IH spec').
  destruct (spec_add_all adds spec') as [spec'' oks]. apply IH. clear IH. unfold spec_add in Ha.
  destruct (acceptable_b m (shapes p) spec) eqn:Hacc; injection Ha as <- <-; [|done].
  apply acceptable_b_spec in Hacc.
  intros [|i] [|j] mi ki mj kj Hij Hi Hj Ho; cbn in *; [done| | |].
  - injection Hi as <- <-. eapply Hacc; [by eapply list_elem_of_lookup_2 | done].
  - injection Hj as <- <-. rewrite conflicts_sym. eapply Hacc; [by eapply list_elem_of_lookup_2|].
    unfold overlap in *. rewrite !orb_true_iff, !bool_decide_eq_true in *. naive_solver.
  - eapply (Hspec i j); try done. congruence.
Qed.

(** C5. Routing is unambiguous: of the paths a set holds after any sequence of additions, no two for
    overlapping methods stand for the same URL, unless one of them has a fallback, or a wildcard
    that stands for no segment of the URL. *)
Theorem routing_unambiguous (map_order : PathSet -> list gostring) (adds : list (gostring * Path))
    (mi mj : gostring) (ki kj : list shape) (url : list gostring) :
  is_map_order map_order ->
  let s := (add_all map_order adds NewSet).1 in
  ki ∈ set_routes s mi -> kj ∈ set_routes s mj -> (mi, ki) <> (mj, kj) -> overlap mi mj = true ->
  url_matches ki url = true -> url_matches kj url = true ->
  exempt ki url = true \/ exempt kj url = true.
Proof.
  intros Hord s Hi Hj Hne Ho. apply compatible_disjoint.
  destruct (add_all_spec map_order adds Hord NewSet [] represents_empty) as [[_ Hr] _].
  apply Hr, list_elem_of_lookup in Hi as [i Hi]. apply Hr, list_elem_of_lookup in Hj as [j Hj].
  eapply (spec_add_all_pairwise adds []); [by intros [] | | exact Hi | exact Hj | done].
  intros ->. congruence.
Qed.

Lemma routing_unambiguous_witness :
  exempt [ShFall] [lit "blog"; lit "1"] = true \/ exempt [ShLit (lit "blog"); ShParam] [lit "blog"; lit "1"] = true.
Proof.
  refine (routing_unambiguous (fun s => elements (dom s)) demo_paths (lit "GET") (lit "GET")
    [ShFall] [ShLit (lit "blog"); ShParam] [lit "blog"; lit "1"] dom_is_map_order _ _ _ _ _ _).
  - vm_compute. right. left.
  - vm_compute. left.
  - discriminate.
  - reflexivity.
  - reflexivity.
  - reflexivity.
Defined.

(** A path and the same path followed by a wildcard are both accepted for one method, and both
    stand for the URL of the shorter one. *)
Theorem empty_wildcard_shared :
  let a := demo_seg Literal (lit "a") in
  let adds := [(lit "GET", mkPath 0 [a]); (lit "GET", mkPath 1 [a; demo_seg Wildcard (lit "rest")])] in
  let '(s, errs) := add_all (fun s => elements (dom s)) adds NewSet in
  errs = [None; None] /\ length (filter (fun k => url_matches k [lit "a"] = true) (set_routes s (lit "GET"))) = 2%nat.
Proof. vm_compute. split; reflexivity. Qed.
