(* ===== verification/Selector.v ===== *)
(** Selectors: [v2/parser/apis/selector/selector.go].

    A selector is "all" or a tag; a [Set] is a sorted slice of selectors searched with
    [sort.Search].  The search predicate compares types and values separately, which is an order
    only because a selector of type All has no value; the theorems are about such selectors, the
    ones [Parse] returns. *)

From S2P Require Import Prelude GoSort.

Definition All : gostring := lit "all".
Definition Tag : gostring := lit "tag".

Record Selector := mkSelector { sel_Type : gostring; sel_Value : gostring; startPos : Z; endPos : Z }.

Definition Key (s : Selector) : gostring * gostring := (sel_Type s, sel_Value s).
Definition Equals (s o : Selector) : bool := bool_decide (Key s = Key o).

Definition Selector_String (s : Selector) : gostring :=
  if decide (sel_Type s = All) then lit "all" else sel_Type s ++ lit ":" ++ sel_Value s.

(** ** Parsing *)

Definition in_range (lo hi : Z) (b : byte) : bool := (lo <=? Z_of_byte b) && (Z_of_byte b <=? hi).
Definition lower (b : byte) : bool := in_range 97 122 b.                       (* [a-z] *)
Definition alnum (b : byte) : bool := lower b || in_range 48 57 b.             (* [a-z0-9] *)
Definition tag_char (b : byte) : bool :=                                       (* [-_a-z0-9] *)
  bool_decide (b = Byte.x2d) || bool_decide (b = Byte.x5f) || alnum b.

(** [tagRegexp]: ^[a-z]([-_a-z0-9]*[a-z0-9])?$ *)
Definition tagRegexp (s : gostring) : bool :=
  match s with
  | [] => false
  | b :: rest =>
      lower b && match head (reverse rest) with None => true | Some l => forallb tag_char rest && alnum l end
  end.

Inductive sel_err := errMissingSelectorType | errUnknownSelectorType (t : gostring) | errInvalidSelectorValue (v : gostring).

Definition Selector_Parse (start : Z) (s : gostring) : Selector + sel_err :=
  if decide (s = lit "all") then inl (mkSelector All [] 0 0)
  else
    let '(typ, val, ok) := Cut s Byte.x3a in
    if negb ok then inr errMissingSelectorType
    else
      let sel := mkSelector typ val start (start + blen s) in
      if decide (typ = Tag) then
        if negb (tagRegexp val) then inr (errInvalidSelectorValue val) else inl sel
      else inr (errUnknownSelectorType typ).

(** ** Sets *)

Abbreviation SelectorSet := (list Selector).

(** The search predicate. *)
Definition not_before (v sel : Selector) : bool :=
  str_geb (sel_Type v) (sel_Type sel) && str_geb (sel_Value v) (sel_Value sel).

Definition find_idx (vals : SelectorSet) (sel : Selector) : option nat :=
  Search (length vals) (fun i => match vals !! i with Some v => not_before v sel | None => true end).

Definition at_idx (vals : SelectorSet) (idx : nat) (sel : Selector) : bool :=
  match vals !! idx with Some v => Equals v sel | None => false end.

(** [Add]: the set afterwards and whether the selector was added ([None]: out of fuel). *)
Definition Set_Add (vals : SelectorSet) (sel : Selector) : option (SelectorSet * bool) :=
  idx ← find_idx vals sel;
  if at_idx vals idx sel then Some (vals, false)
  else if decide (idx = length vals) then Some (vals ++ [sel], true)
  else
    let vals := take (idx + 1) vals ++ drop idx vals in
    Some (<[idx := sel]> vals, true).

Definition Set_Contains (vals : SelectorSet) (sel : Selector) : option bool :=
  idx ← find_idx vals sel; Some (at_idx vals idx sel).

Fixpoint Set_Merge (vals other : SelectorSet) : option SelectorSet :=
  match other with
  | [] => Some vals
  | sel :: other => '(vals', _) ← Set_Add vals sel; Set_Merge vals' other
  end.

Definition NewSet (sels : list Selector) : option SelectorSet := Set_Merge [] sels.

(** The two-pointer loop of [ContainsAny]. *)
Fixpoint any_loop (fuel : nat) (s other : SelectorSet) : option bool :=
  match fuel with
  | O => None
  | S fuel =>
      match s, other with
      | iv :: s', jv :: other' =>
          if decide (sel_Type iv = All) then Some true
          else if decide (sel_Type iv = sel_Type jv) then
            if Equals iv jv then Some true
            else if str_ltb (sel_Value iv) (sel_Value jv) then any_loop fuel s' other
            else any_loop fuel s other'
          else if str_ltb (sel_Type iv) (sel_Type jv) then any_loop fuel s' other
          else any_loop fuel s other'
      | _, _ => Some false
      end
  end.

Definition Set_ContainsAny (s other : SelectorSet) : option bool :=
  if existsb (fun sel => bool_decide (sel_Type sel = All)) s then Some true
  else any_loop (S (length s + length other)) s other.

(** ** Order *)

(** The selectors [Parse] returns. *)
Definition wf_selector (s : Selector) : Prop := (sel_Type s = All /\ sel_Value s = []) \/ sel_Type s = Tag.

(** By type, then by value. *)
Definition sel_lt (a b : Selector) : Prop :=
  str_ltb (sel_Type a) (sel_Type b) = true \/ (sel_Type a = sel_Type b /\ str_ltb (sel_Value a) (sel_Value b) = true).

Lemma sel_lt_irrefl a b : Key a = Key b -> ~ sel_lt a b.
Proof. intros [= Ht Hv] [H|[_ H]]; [rewrite Ht in H | rewrite Hv in H]; by rewrite str_ltb_irrefl in H. Qed.

Lemma sel_lt_trans a b c : sel_lt a b -> sel_lt b c -> sel_lt a c.
Proof.
  intros [H1|[E1 H1]] [H2|[E2 H2]]; unfold sel_lt.
  - left. by eapply str_ltb_trans.
  - left. by rewrite <- E2.
  - left. by rewrite E1.
  - right. split; [congruence|]. by eapply str_ltb_trans.
Qed.

Lemma sel_trichotomy a b : sel_lt a b \/ Key a = Key b \/ sel_lt b a.
Proof.
  unfold sel_lt, Key. destruct (str_trichotomy (sel_Type a) (sel_Type b)) as [H|[H|H]]; [by auto| |by auto].
  rewrite H. destruct (str_trichotomy (sel_Value a) (sel_Value b)) as [H'|[H'|H']]; [by auto | rewrite H'; by auto | by auto].
Qed.

(** On well-formed selectors the search predicate is this order. *)
Lemma not_before_spec v sel :
  wf_selector v -> wf_selector sel -> not_before v sel = true <-> Key v = Key sel \/ sel_lt sel v.
Proof.
  intros Hv Hs. unfold not_before, sel_lt, Key. rewrite andb_true_iff, !str_geb_spec.
  destruct Hv as [[-> ->]| ->], Hs as [[-> ->]| ->].
  - split; [by left | by split; left].
  - split; [by intros [[|] _] | by intros [|[|[]]]].
  - split; [by right; left|]. intros _. split; [by right|]. destruct (sel_Value v); [by left | by right].
  - split.
    + intros [_ [-> | H]]; [by left | by right; right].
    + intros [[= ->]|[H|[_ H]]]; [by split; left | done | split; [by left | by right]].
Qed.

Lemma Equals_spec a b : Equals a b = true <-> Key a = Key b.
Proof. apply bool_decide_eq_true. Qed.

(** ** The invariant of a set *)

Definition wf_set (vals : SelectorSet) : Prop :=
  Forall wf_selector vals /\
  forall i j a b, (i < j)%nat -> vals !! i = Some a -> vals !! j = Some b -> sel_lt a b.

Lemma find_idx_spec vals sel :
  wf_set vals -> wf_selector sel ->
  exists k, find_idx vals sel = Some k /\ (k <= length vals)%nat /\
    (forall a v, (a < k)%nat -> vals !! a = Some v -> sel_lt v sel) /\
    (forall a v, (k <= a)%nat -> vals !! a = Some v -> Key v = Key sel \/ sel_lt sel v).
Proof.
  intros [Hwf Hsort] Hs. rewrite list.Forall_forall in Hwf.
  destruct (Search_spec (length vals) (fun i => match vals !! i with Some v => not_before v sel | None => true end))
    as (k & Hk & Hle & Hlow & Hat).
  { intros a b Hab. destruct (vals !! b) as [vb|] eqn:Hb; [|done].
    destruct (lookup_lt_is_Some_2 vals a) as [va Ha]; [apply lookup_lt_Some in Hb; lia|]. rewrite Ha.
    rewrite !not_before_spec by eauto using list_elem_of_lookup_2. intros Hge.
    destruct (decide (a = b)) as [->|]; [congruence|].
    pose proof (Hsort a b va vb ltac:(lia) Ha Hb) as Hlt. destruct Hge as [Heq|Hge].
    - right. destruct Hlt as [Hlt|[Et Hlt]]; injection Heq as Ht Hv; unfold sel_lt; rewrite <- Ht, <- Hv; auto.
    - right. by eapply sel_lt_trans. }
  exists k. split; [done|]. split; [done|].
  assert (forall v, v ∈ vals -> not_before v sel = false -> sel_lt v sel) as Hnb.
  { intros v Hv Hf. destruct (sel_trichotomy v sel) as [H|H]; [done|].
    assert (not_before v sel = true) as Ht by (apply not_before_spec; auto). congruence. }
  split.
  - intros a v Ha Hv. apply Hnb; [by eapply list_elem_of_lookup_2|]. specialize (Hlow a Ha). by rewrite Hv in Hlow.
  - intros a v Ha Hv. assert (k < length vals)%nat as Hlt by (apply lookup_lt_Some in Hv; lia).
    specialize (Hat Hlt). destruct (lookup_lt_is_Some_2 vals k Hlt) as [vk Hvk]. rewrite Hvk in Hat.
    apply not_before_spec in Hat; [|by eauto using list_elem_of_lookup_2..].
    destruct (decide (a = k)) as [->|]; [congruence|].
    pose proof (Hsort k a vk v ltac:(lia) Hvk Hv) as Hkv. right. destruct Hat as [Heq|Hge]; [|by eapply sel_lt_trans].
    injection Heq as Ht Hval. unfold sel_lt in *. by rewrite <- Ht, <- Hval.
Qed.

(** The selector is in the set exactly when it is where the search ends. *)
Lemma at_idx_spec vals sel k :
  wf_set vals -> wf_selector sel -> find_idx vals sel = Some k ->
  at_idx vals k sel = true <-> Key sel ∈ Key <$> vals.
Proof.
  intros Hwf Hs Hk. destruct (find_idx_spec vals sel Hwf Hs) as (k' & Hk' & _ & Hlow & Hhigh).
  rewrite Hk in Hk'. injection Hk' as <-. unfold at_idx. split.
  - destruct (vals !! k) as [v|] eqn:Hv; [|done]. intros Heq%Equals_spec. rewrite <- Heq.
    by apply list_elem_of_fmap_2, list_elem_of_lookup_2 with k.
  - intros (v & Heq & [a Ha]%list_elem_of_lookup)%list_elem_of_fmap.
    destruct (decide (a < k)%nat) as [Hlt|Hge].
    { exfalso. by eapply sel_lt_irrefl; [symmetry; exact Heq | eapply Hlow]. }
    destruct (decide (a = k)) as [->|Hne]; [rewrite Ha; by apply Equals_spec|].
    destruct (lookup_lt_is_Some_2 vals k) as [vk Hvk]; [apply lookup_lt_Some in Ha; lia|].
    pose proof (proj2 Hwf k a vk v ltac:(lia) Hvk Ha) as Hlt. rewrite Hvk. apply Equals_spec.
    destruct (Hhigh k vk ltac:(lia) Hvk) as [|Hc]; [done|]. exfalso.
    eapply sel_lt_irrefl; [exact Heq|]. by eapply sel_lt_trans.
Qed.

(** Inserting where the search ended keeps the set sorted. *)
Lemma lookup_insert_at (vals : SelectorSet) k sel i :
  (k <= length vals)%nat ->
  (take k vals ++ sel :: drop k vals) !! i
  = if decide (i < k)%nat then vals !! i else if decide (i = k) then Some sel else vals !! pred i.
Proof.
  intros Hk. assert (length (take k vals) = k) as Hl by (rewrite length_take; lia).
  repeat case_decide.
  - rewrite lookup_app_l by lia. by apply lookup_take_lt.
  - subst. rewrite lookup_app_r by lia. by rewrite Hl, Nat.sub_diag.
  - rewrite lookup_app_r by lia. rewrite Hl. replace (i - k)%nat with (S (pred i - k)) by lia.
    change ((sel :: drop k vals) !! S (pred i - k)) with (drop k vals !! (pred i - k)%nat).
    rewrite lookup_drop. f_equal. lia.
Qed.

Lemma wf_set_insert vals sel k :
  wf_set vals -> wf_selector sel -> find_idx vals sel = Some k -> Key sel ∉ Key <$> vals ->
  wf_set (take k vals ++ sel :: drop k vals).
Proof.
  intros Hwf Hs Hk Hn. destruct (find_idx_spec vals sel Hwf Hs) as (k' & Hk' & Hle & Hlow & Hhigh).
  rewrite Hk in Hk'. injection Hk' as <-. destruct Hwf as [Hall Hsort]. split.
  - apply Forall_app. split; [by apply Forall_take|]. constructor; [done|]. by apply Forall_drop.
  - assert (forall a v, (k <= a)%nat -> vals !! a = Some v -> sel_lt sel v) as Hhigh'.
    { intros a v Ha Hv. destruct (Hhigh a v Ha Hv) as [Heq|]; [|done]. exfalso. apply Hn. rewrite <- Heq.
      by apply list_elem_of_fmap_2, list_elem_of_lookup_2 with a. }
    intros i j a b Hij. rewrite !lookup_insert_at by done. repeat case_decide; try lia; intros Ha Hb.
    + by eapply (Hsort i j).
    + injection Hb as <-. by eapply Hlow.
    + eapply (Hsort i (pred j)); [lia | done..].
    + injection Ha as <-. eapply Hhigh'; [|exact Hb]. lia.
    + eapply (Hsort (pred i) (pred j)); [lia | done..].
Qed.

Lemma Set_Add_lemma vals sel :
  wf_set vals -> wf_selector sel ->
  exists vals' added, Set_Add vals sel = Some (vals', added) /\ wf_set vals' /\
    (added = true <-> Key sel ∉ Key <$> vals) /\
    (forall k, k ∈ Key <$> vals' <-> k = Key sel \/ k ∈ Key <$> vals).
Proof.
  intros Hwf Hs. destruct (find_idx_spec vals sel Hwf Hs) as (k & Hk & Hle & _).
  pose proof (at_idx_spec vals sel k Hwf Hs Hk) as Hat. unfold Set_Add. rewrite Hk. cbn [mbind option_bind].
  destruct (at_idx vals k sel) eqn:Ha.
  - exists vals, false. split; [done|]. split; [done|]. assert (Key sel ∈ Key <$> vals) as Hin by (by apply Hat).
    split; [by split|]. intros k'. split; [by right|]. by intros [-> |].
  - assert (Key sel ∉ Key <$> vals) as Hn by (intros Hin; apply Hat in Hin; congruence).
    exists (take k vals ++ sel :: drop k vals), true.
    assert (forall k', k' ∈ Key <$> (take k vals ++ sel :: drop k vals) <-> k' = Key sel \/ k' ∈ Key <$> vals) as Hin.
    { intros k'. rewrite <- (take_drop k vals) at 3. rewrite !fmap_app, fmap_cons, !elem_of_app, elem_of_cons. tauto. }
    split; [|split; [by apply wf_set_insert | by split]].
    case_decide as Hend.
    + subst k. by rewrite take_ge, drop_ge.
    + do 2 f_equal. destruct (lookup_lt_is_Some_2 vals k) as [v Hv]; [lia|].
      rewrite Nat.add_1_r, (take_S_r _ _ _ Hv), <- app_assoc. cbn [app].
      rewrite insert_app_r_alt by (rewrite length_take; lia). rewrite length_take, Nat.min_l, Nat.sub_diag by lia. done.
Qed.

Lemma wf_set_tail x l : wf_set (x :: l) -> wf_set l /\ forall v, v ∈ l -> sel_lt x v.
Proof.
  intros [H1 H2]. apply list.Forall_cons in H1 as [_ H1]. split.
  - split; [done|]. intros i j a b Hij Hi Hj. by eapply (H2 (S i) (S j)); [lia|..].
  - intros v [i Hi]%list_elem_of_lookup. by apply (H2 0%nat (S i) x v ltac:(lia)).
Qed.

Definition common (s other : SelectorSet) : Prop := exists k, k ∈ Key <$> s /\ k ∈ Key <$> other.

Lemma common_sym s other : common s other <-> common other s.
Proof. unfold common. naive_solver. Qed.

(** A selector smaller than all of the other set can be skipped. *)
Lemma common_skip x s jv other :
  wf_set (jv :: other) -> sel_lt x jv -> common (x :: s) (jv :: other) <-> common s (jv :: other).
Proof.
  intros Ho Hlt. destruct (wf_set_tail _ _ Ho) as [_ Holt].
  split; intros (k & H1 & H2); exists k; (split; [|done]); [|by right].
  apply elem_of_cons in H1 as [-> |]; [|done]. exfalso.
  apply list_elem_of_fmap in H2 as (v & Hv & Hin). eapply (sel_lt_irrefl x v); [done|].
  apply elem_of_cons in Hin as [-> | Hin]; [done|]. eapply sel_lt_trans; [exact Hlt | by apply Holt].
Qed.

(** The two-pointer loop, on sets without All. *)
Lemma any_loop_spec fuel : forall s other,
  (length s + length other < fuel)%nat -> wf_set s -> wf_set other ->
  Forall (fun v => sel_Type v <> All) s ->
  exists b, any_loop fuel s other = Some b /\ (b = true <-> common s other).
Proof.
  induction fuel as [|fuel IH]; intros s other Hf Hs Ho Hall; [lia|]. cbn [any_loop].
  destruct s as [|iv s]; [exists false; split; [done|]; split; [done|]; by intros (k & []%elem_of_nil & _)|].
  destruct other as [|jv other]; [exists false; split; [done|]; split; [done|]; by intros (k & _ & []%elem_of_nil)|].
  pose proof Hall as [Hiv Hall']%list.Forall_cons. rewrite decide_False by done.
  destruct (IH s (jv :: other)) as (b1 & Hb1 & Hi1); [cbn in *; lia | by eapply wf_set_tail | done..|].
  destruct (IH (iv :: s) other) as (b2 & Hb2 & Hi2); [cbn in *; lia | done | by eapply wf_set_tail | done |].
  assert (sel_lt iv jv -> exists b, Some b1 = Some b /\ (b = true <-> common (iv :: s) (jv :: other))) as Hskip1.
  { intros Hlt. exists b1. split; [done|]. by rewrite common_skip. }
  assert (sel_lt jv iv -> exists b, Some b2 = Some b /\ (b = true <-> common (iv :: s) (jv :: other))) as Hskip2.
  { intros Hlt. exists b2. split; [done|]. by rewrite common_sym, common_skip, common_sym. }
  rewrite Hb1, Hb2. case_decide as Ht; [destruct (Equals iv jv) eqn:Heq|].
  - exists true. split; [done|]. split; [|done]. intros _. exists (Key iv).
    apply Equals_spec in Heq. split; [left|]. rewrite Heq. left.
  - assert (Key iv <> Key jv) as Hne by (rewrite <- Equals_spec; congruence).
    destruct (str_ltb (sel_Value iv) (sel_Value jv)) eqn:Hv; [apply Hskip1; by right|]. apply Hskip2.
    destruct (sel_trichotomy iv jv) as [[Hc|[_ Hc]]|[|]]; try done; [|congruence].
    by rewrite Ht, str_ltb_irrefl in Hc.
  - destruct (str_ltb (sel_Type iv) (sel_Type jv)) eqn:Hlt; [apply Hskip1; by left|]. apply Hskip2.
    destruct (str_trichotomy (sel_Type iv) (sel_Type jv)) as [|[|]]; [congruence | done | by left].
Qed.

(** ** Theorems *)

Lemma str_ltb_All_Tag : str_ltb All Tag = true.
Proof. reflexivity. Qed.

(** Parsing a selector and printing it gives the text back; what is parsed is "all" or a tag with
    a valid value, and parsing the printed form of such a selector gives it back. *)
Theorem selector_roundtrip (start : Z) (s : gostring) (sel : Selector) :
  Selector_Parse start s = inl sel ->
  Selector_String sel = s /\ wf_selector sel /\ (sel_Type sel = Tag -> tagRegexp (sel_Value sel) = true) /\
  Selector_Parse start (Selector_String sel) = inl sel.
Proof.
  intros Hp. cut (Selector_String sel = s /\ wf_selector sel /\ (sel_Type sel = Tag -> tagRegexp (sel_Value sel) = true)).
  { intros (Hs & H1 & H2). rewrite Hs. done. }
  unfold Selector_Parse in Hp. case_decide as Hall.
  - injection Hp as <-. split; [done|]. split; [by left | done].
  - destruct (Cut s Byte.x3a) as [[typ val] ok] eqn:Hc. apply Cut_spec in Hc. destruct ok; cbn in Hp; [|done].
    case_decide as Ht; [|done]. destruct (tagRegexp val) eqn:Hr; [|done]. injection Hp as <-. subst typ.
    destruct Hc as [-> _]. split; [done|]. split; [by right | done].
Qed.

Lemma selector_roundtrip_witness :
  exists sel, Selector_Parse 10 (lit "tag:cache-1") = inl sel /\ Selector_String sel = lit "tag:cache-1".
Proof.
  eexists. split; [reflexivity|]. refine (proj1 (selector_roundtrip 10 (lit "tag:cache-1") _ _)). reflexivity.
Defined.

(** The set operations are those of a finite set of selectors: adding to a sorted set keeps it
    sorted and without duplicates, reports whether the selector was new and adds exactly that
    selector; [Contains] is membership.  The binary search always ends. *)
Theorem selector_set_spec (vals : SelectorSet) (sel : Selector) :
  wf_set vals -> wf_selector sel ->
  (exists vals' added, Set_Add vals sel = Some (vals', added) /\ wf_set vals' /\
     (added = true <-> Key sel ∉ Key <$> vals) /\
     (forall k, k ∈ Key <$> vals' <-> k = Key sel \/ k ∈ Key <$> vals)) /\
  Set_Contains vals sel = Some (bool_decide (Key sel ∈ Key <$> vals)).
Proof.
  intros Hwf Hs. split; [by apply Set_Add_lemma|].
  destruct (find_idx_spec vals sel Hwf Hs) as (k & Hk & _). unfold Set_Contains. rewrite Hk. cbn. f_equal.
  apply eq_true_iff_eq. rewrite bool_decide_eq_true. by apply at_idx_spec.
Qed.

Definition demo_tag (v : gostring) : Selector := mkSelector Tag v 0 0.
Definition demo_all : Selector := mkSelector All [] 0 0.

Lemma demo_set_wf : wf_set [demo_all; demo_tag (lit "a"); demo_tag (lit "c")].
Proof.
  split; [repeat constructor; (by right) || by left|].
  intros [|[|[|i]]] [|[|[|j]]] a b Hij Ha Hb; cbn in *; try lia; simplify_eq; try (by left); by right.
Qed.

Lemma selector_set_spec_witness :
  exists vals', Set_Add [demo_all; demo_tag (lit "a"); demo_tag (lit "c")] (demo_tag (lit "b")) = Some (vals', true) /\
    wf_set vals'.
Proof.
  destruct (selector_set_spec [demo_all; demo_tag (lit "a"); demo_tag (lit "c")] (demo_tag (lit "b")))
    as [(vals' & added & H1 & H2 & _) _]; [apply demo_set_wf | by right|].
  exists vals'. split; [|exact H2]. rewrite H1. injection H1 as <- <-. reflexivity.
Defined.

(** [ContainsAny] decides whether the set selects anything of the other: it contains All, or the
    two have a selector in common.  The linear two-pointer walk agrees with this and always ends. *)
Theorem ContainsAny_spec (s other : SelectorSet) :
  wf_set s -> wf_set other ->
  exists b, Set_ContainsAny s other = Some b /\
    (b = true <-> Exists (fun v => sel_Type v = All) s \/ common s other).
Proof.
  intros Hs Ho. unfold Set_ContainsAny.
  destruct (existsb (fun sel => bool_decide (sel_Type sel = All)) s) eqn:Hall.
  - exists true. split; [done|]. split; [|done]. intros _. left.
    apply existsb_exists in Hall as (v & Hin & Hv). apply list.Exists_exists. exists v.
    split; [by apply list_elem_of_In | by apply bool_decide_eq_true in Hv].
  - assert (Forall (fun v => sel_Type v <> All) s) as Hno.
    { apply list.Forall_forall. intros v Hin Hv. assert (existsb (fun sel => bool_decide (sel_Type sel = All)) s = true); [|congruence].
      apply existsb_exists. exists v. split; [by apply list_elem_of_In | by apply bool_decide_eq_true]. }
    destruct (any_loop_spec (S (length s + length other)) s other) as (b & Hb & Hi); [lia | done..|].
    exists b. split; [done|]. rewrite Hi. split; [by right|]. intros [H|]; [|done].
    apply list.Exists_exists in H as (v & Hin & Hv). rewrite list.Forall_forall in Hno. by destruct (Hno v Hin).
Qed.

Lemma ContainsAny_spec_witness :
  exists b, Set_ContainsAny [demo_all; demo_tag (lit "a"); demo_tag (lit "c")] [] = Some b /\ b = true.
Proof.
  destruct (ContainsAny_spec [demo_all; demo_tag (lit "a"); demo_tag (lit "c")] []) as (b & Hb & Hi).
  - apply demo_set_wf.
  - split; [constructor | done].
  - exists b. split; [exact Hb|]. apply Hi. left. apply Exists_cons_hd. reflexivity.
Defined.
