(* ===== verification/TraceBuffer.v ===== *)
(** The trace event buffer: [EventBuffer] of
    [runtimes/go/appruntime/exported/trace2/log.go].

    An operation on the buffer is a function [EventBuffer -> option EventBuffer]; [None] is a Go
    panic (an index out of range, a nil dereference).  [writes w bs] says that [w] never panics
    and appends exactly [bs]; the lemmas of the [writes] database compute those bytes. *)

From S2P Require Import Prelude Errs.

(** ** State and sequencing *)

Record EventBuffer := mkBuffer { scratch : list byte; buf : list byte }.

Definition W := EventBuffer -> option EventBuffer.

Definition w_skip : W := fun tb => Some tb.
Definition w_panic : W := fun _ => None.
Definition w_seq (w1 w2 : W) : W := fun tb => match w1 tb with Some tb' => w2 tb' | None => None end.

Declare Scope writer_scope.
Delimit Scope writer_scope with writer.
Bind Scope writer_scope with W.
Notation "w1 ;;; w2" := (w_seq w1 w2) (at level 62, right associativity) : writer_scope.
#[global] Open Scope writer_scope.

(** A [for _, x := range l] loop. *)
Fixpoint w_forall {A} (l : list A) (f : A -> W) : W :=
  match l with
  | [] => w_skip
  | x :: l => f x ;;; w_forall l f
  end.

(** Dereferencing a pointer that may be nil. *)
Definition w_deref {A} (p : option A) (k : A -> W) : W :=
  match p with Some x => k x | None => w_panic end.

(** ** The environment of the program

    Code that is not part of the repository and that the trace writer calls: the symbol table
    behind [stack.Format] ([runtime.CallersFrames]), [encoding/json], and the order in which a
    [range] loop visits the entries of a Go map, which the language leaves open. *)

Record FormattedFrame := mkFrame { File : gostring; Line : Z; Func : gostring }.

Class GoEnv := {
  callers_frames : list Z -> list FormattedFrame;
  json_Marshal : any -> list byte + error;
  range_order : gmap (list Init.Byte.byte) (list gostring) -> list (gostring * list gostring);
  range_order_perm : forall m, range_order m ≡ₚ map_to_list m
}.

(** ** Primitives of the buffer *)

Definition NewEventBuffer : EventBuffer := mkBuffer (replicate 10 Byte.x00) [].

Definition tb_Bytes (b : list byte) : W := fun tb => Some (mkBuffer (scratch tb) (buf tb ++ b)).

Definition tb_Byte (b : byte) : W := fun tb => Some (mkBuffer (scratch tb) (buf tb ++ [b])).

(** The loop of [UVarint]: it fills the scratch array from index [i] and returns the array and
    the number of bytes used.  Indexing past the array panics, so eleven rounds are enough for
    any input. *)
Fixpoint UVarint_loop (fuel : nat) (sc : list byte) (i : nat) (u : Z) : option (list byte * nat) :=
  match fuel with
  | O => None
  | S fuel =>
      if decide (i < length sc)%nat then
        if u >=? 0x80 then
          UVarint_loop fuel (<[i := byte_of_Z (Z.lor (u mod 256) 0x80)]> sc) (S i) (Z.shiftr u 7)
        else Some (<[i := byte_of_Z u]> sc, S i)
      else None
  end.

Definition tb_UVarint (u : Z) : W := fun tb =>
  match UVarint_loop 11 (scratch tb) 0 u with
  | Some (sc, i) => tb_Bytes (take i sc) (mkBuffer sc (buf tb))
  | None => None
  end.

Definition tb_String (s : gostring) : W := tb_UVarint (u64 (blen s)) ;;; tb_Bytes s.

Definition tb_ByteString (b : list byte) : W := tb_UVarint (u64 (blen b)) ;;; tb_Bytes b.

Definition tb_TruncatedByteString (b : list byte) (maxLen : Z) (truncationSuffix : list byte) : W :=
  if blen b >? maxLen then
    if maxLen <? 0 then tb_UVarint (u64 (maxLen + blen truncationSuffix)) ;;; w_panic
    else
      tb_UVarint (u64 (maxLen + blen truncationSuffix)) ;;;
      tb_Bytes (take (Z.to_nat maxLen) b) ;;;
      tb_Bytes truncationSuffix
  else tb_ByteString b.

Definition tb_Bool (b : bool) : W := tb_Bytes [if b then Byte.x01 else Byte.x00].

Definition tb_Uint32 (x : Z) : W :=
  tb_Bytes [byte_of_Z x; byte_of_Z (Z.shiftr x 8); byte_of_Z (Z.shiftr x 16); byte_of_Z (Z.shiftr x 24)].

Definition tb_Uint64 (x : Z) : W :=
  tb_Bytes [byte_of_Z x; byte_of_Z (Z.shiftr x 8); byte_of_Z (Z.shiftr x 16); byte_of_Z (Z.shiftr x 24);
            byte_of_Z (Z.shiftr x 32); byte_of_Z (Z.shiftr x 40); byte_of_Z (Z.shiftr x 48);
            byte_of_Z (Z.shiftr x 56)].

(** [^x] at width 32 and 64 *)
Definition not32 (x : Z) : Z := u32 (Z.lnot x).
Definition not64 (x : Z) : Z := u64 (Z.lnot x).

Definition tb_Int32 (x : Z) : W :=
  let u := if x <? 0 then Z.lor (u32 (Z.shiftl (not32 (u32 x)) 1)) 1
           else u32 (Z.shiftl (u32 x) 1) in
  tb_Uint32 u.

Definition signedToUnsigned (i : Z) : Z :=
  if i <? 0 then Z.lor (u64 (Z.shiftl (not64 (u64 i)) 1)) 1
  else u64 (Z.shiftl (u64 i) 1).

Definition tb_Int64 (i : Z) : W := tb_Uint64 (signedToUnsigned i).

Definition tb_Varint (i : Z) : W := tb_UVarint (signedToUnsigned i).

Definition tb_EventID (id : Z) : W := tb_UVarint id.

Definition tb_OptString (s : option gostring) : W :=
  match s with Some s => tb_String s | None => tb_String [] end.

Definition tb_OptUVarint (i : option Z) : W :=
  match i with Some i => tb_UVarint i | None => tb_UVarint 0 end.

(** A float is represented by its IEEE 754 bits ([math.Float32bits], [math.Float64bits]). *)
Definition tb_Float32 (bits : Z) : W := tb_Uint32 bits.
Definition tb_Float64 (bits : Z) : W := tb_Uint64 bits.

Definition tb_Duration (dur : Z) : W := tb_Varint dur.

(** A [time.Time] by its Unix seconds and its nanosecond within the second. *)
Record Time := mkTime { t_Unix : Z; t_Nanosecond : Z }.

Definition tb_Time (t : Time) : W := tb_Int64 (t_Unix t) ;;; tb_Int32 (i32 (t_Nanosecond t)).

(** [Now]: the clock reading is an argument. *)
Definition tb_Now (now : Time) : W := tb_Time now.

(** ** Errors and stacks *)

(** [err.Error()], with the replacement of an empty text. *)
Definition err_msg (err : error) : option gostring :=
  match Error_text err with
  | Some [] => Some (lit "unknown error")
  | r => r
  end.

Definition tb_Err (err : error) : W :=
  match err with
  | [] => tb_String []
  | _ => w_deref (err_msg err) (fun msg => tb_String msg)
  end.

(** The loop of [Stack]: it ranges over all frames. *)
Fixpoint Stack_loop (off prev : Z) (frames : list Z) : W :=
  match frames with
  | [] => w_skip
  | pc :: frames =>
      let p := i64 (u64 (pc - off)) in
      let diff := i64 (p - prev) in
      tb_Varint diff ;;; Stack_loop off p frames
  end.

Definition tb_Stack (s : Stack) : W :=
  let n := blen (Frames s) in
  let n := if n >? 0xFF then 0xFF else n in
  tb_Byte (byte_of_Z n) ;;;
  if n =? 0 then w_skip else Stack_loop (Off s) 0 (Frames s).

Definition tb_ErrWithStack (err : error) : W :=
  match err with
  | [] => tb_String []
  | _ => w_deref (err_msg err) (fun msg => tb_String msg ;;; tb_Stack (errs_Stack err))
  end.

(** [stack.Format]: no frames for an empty stack, the symbolized frames otherwise. *)
Definition stack_Format `{GoEnv} (s : Stack) : list FormattedFrame :=
  if decide (length (Frames s) = 0%nat) then [] else callers_frames (Frames s).

Definition tb_FormattedStack `{GoEnv} (s : Stack) : W :=
  let frames := stack_Format s in
  let n := blen frames in
  let n := if n >? 0xFF then 0xFF else n in
  tb_Byte (byte_of_Z n) ;;;
  if n =? 0 then w_skip
  else w_forall (take (Z.to_nat n) frames)
         (fun f => tb_String (File f) ;;; tb_UVarint (u64 (Line f)) ;;; tb_String (Func f)).

(** ** What an operation writes *)

Definition writes (w : W) (bs : list byte) : Prop :=
  forall tb, length (scratch tb) = 10%nat ->
    exists sc, length sc = 10%nat /\ w tb = Some (mkBuffer sc (buf tb ++ bs)).

Create HintDb writes discriminated.

Lemma writes_skip : writes w_skip [].
Proof. intros [sc b] Hsc. exists sc. rewrite app_nil_r. done. Qed.

Lemma writes_seq w1 w2 b1 b2 : writes w1 b1 -> writes w2 b2 -> writes (w1 ;;; w2) (b1 ++ b2).
Proof.
  intros H1 H2 tb Hsc. destruct (H1 tb Hsc) as (sc1 & Hl1 & E1).
  destruct (H2 (mkBuffer sc1 (buf tb ++ b1)) Hl1) as (sc2 & Hl2 & E2).
  exists sc2. split; [done|]. unfold w_seq. rewrite E1, E2. simpl. by rewrite <- app_assoc.
Qed.

Lemma writes_Bytes b : writes (tb_Bytes b) b.
Proof. intros tb Hsc. by exists (scratch tb). Qed.

Lemma writes_Byte b : writes (tb_Byte b) [b].
Proof. intros tb Hsc. by exists (scratch tb). Qed.

(** The bytes a varint takes: seven bits at a time, least significant group first. *)
Fixpoint uvarint_enc (fuel : nat) (u : Z) : list byte :=
  match fuel with
  | O => []
  | S fuel =>
      if u >=? 0x80 then byte_of_Z (Z.lor (u mod 256) 0x80) :: uvarint_enc fuel (Z.shiftr u 7)
      else [byte_of_Z u]
  end.

Definition uvarint_bytes (u : Z) : list byte := uvarint_enc 10 u.

Lemma UVarint_loop_enc fuel : forall sc i u,
  length sc = 10%nat -> (i < 10)%nat -> (10 - i <= fuel)%nat -> 0 <= u < 2 ^ (7 * Z.of_nat (10 - i)) ->
  exists sc' n, UVarint_loop (S fuel) sc i u = Some (sc', n) /\ length sc' = 10%nat /\
    take n sc' = take i sc ++ uvarint_enc (10 - i) u.
Proof.
  induction fuel as [|fuel IH]; intros sc i u Hsc Hi Hf Hu; [lia|].
  remember (S fuel) as f. cbn [UVarint_loop]. subst f. rewrite decide_True by lia.
  destruct (10 - i)%nat as [|m] eqn:Em; [lia|]. cbn [uvarint_enc].
  destruct (Z.geb_spec u 0x80) as [Hge|Hlt].
  - assert (1 <= m)%nat as Hm.
    { destruct m; [|lia]. change (7 * Z.of_nat 1) with 7 in Hu. lia. }
    destruct (IH (<[i := byte_of_Z (Z.lor (u mod 256) 0x80)]> sc) (S i) (Z.shiftr u 7))
      as (sc' & n & E & Hl & Ht); [by rewrite length_insert|lia|lia| |].
    { replace (10 - S i)%nat with m by lia. rewrite Z.shiftr_div_pow2 by lia.
      split; [apply Z.div_pos; lia|]. apply Z.div_lt_upper_bound; [lia|].
      rewrite <- Z.pow_add_r by lia.
      replace (7 + 7 * Z.of_nat m) with (7 * Z.of_nat (S m)) by lia. lia. }
    exists sc', n. split; [exact E|]. split; [done|].
    rewrite Ht. replace (10 - S i)%nat with m by lia.
    erewrite take_S_r by (apply list_lookup_insert_eq; lia).
    rewrite take_insert_ge by lia. by rewrite <- app_assoc.
  - exists (<[i := byte_of_Z u]> sc), (S i). split; [done|]. rewrite length_insert.
    split; [done|]. erewrite take_S_r by (apply list_lookup_insert_eq; lia).
    rewrite take_insert_ge by lia. done.
Qed.

Lemma writes_UVarint u : is_u64 u -> writes (tb_UVarint u) (uvarint_bytes u).
Proof.
  intros Hu tb Hsc.
  destruct (UVarint_loop_enc 10 (scratch tb) 0 u) as (sc & n & E & Hl & Ht); try lia.
  { split; [apply Hu|]. change (7 * Z.of_nat (10 - 0)) with 70. width. }
  exists sc. split; [done|]. unfold tb_UVarint. rewrite E. cbn [take] in Ht.
  unfold tb_Bytes. cbn [scratch buf]. rewrite Ht. done.
Qed.

Lemma blen_u64 {A} (s : list A) : blen s < 2 ^ 32 -> is_u64 (blen s).
Proof. pose proof (blen_nonneg s). width. Qed.

Lemma length_uvarint_enc fuel u : (1 <= fuel)%nat -> (1 <= length (uvarint_enc fuel u))%nat.
Proof. destruct fuel; [lia|]. simpl. case_match; simpl; lia. Qed.

Lemma length_uvarint_bytes u : (1 <= length (uvarint_bytes u))%nat.
Proof. apply length_uvarint_enc. lia. Qed.

(** Zigzag: a signed integer as an unsigned one with the sign in bit 0. *)
Lemma signedToUnsigned_spec i :
  is_i64 i -> signedToUnsigned i = if i <? 0 then -2 * i - 1 else 2 * i.
Proof.
  intros Hi. unfold signedToUnsigned, not64. destruct (Z.ltb_spec i 0) as [Hn|Hp].
  - assert (u64 (Z.lnot (u64 i)) = - i - 1) as ->.
    { unfold u64. rewrite <- (Z_mod_plus_full i 1), (Z.mod_small (i + 1 * 2 ^ 64)) by width.
      replace (Z.lnot (i + 1 * 2 ^ 64)) with (- i - 1 + (-1) * 2 ^ 64) by (unfold Z.lnot; lia).
      rewrite Z_mod_plus_full. apply Z.mod_small. width. }
    rewrite Z.shiftl_mul_pow2 by lia. rewrite u64_id by width.
    rewrite Z.lor_comm. change 1 with (Z.shiftl 1 0) at 1.
    replace ((- i - 1) * 2 ^ 1) with (Z.shiftl (- i - 1) 1) by (rewrite Z.shiftl_mul_pow2; lia).
    change (Z.shiftl 1 0) with 1. rewrite lor_shiftl_add by lia. lia.
  - rewrite (u64_id i), Z.shiftl_mul_pow2, u64_id by width. lia.
Qed.

Lemma signedToUnsigned_range i : is_i64 i -> is_u64 (signedToUnsigned i).
Proof. intros Hi. rewrite signedToUnsigned_spec by done. destruct (Z.ltb_spec i 0); width. Qed.

Lemma le_bytes_4 x :
  [byte_of_Z x; byte_of_Z (Z.shiftr x 8); byte_of_Z (Z.shiftr x 16); byte_of_Z (Z.shiftr x 24)]
  = le_bytes 4 x.
Proof. cbn [le_bytes]. rewrite !Z.shiftr_shiftr by lia. done. Qed.

Lemma le_bytes_8 x :
  [byte_of_Z x; byte_of_Z (Z.shiftr x 8); byte_of_Z (Z.shiftr x 16); byte_of_Z (Z.shiftr x 24);
   byte_of_Z (Z.shiftr x 32); byte_of_Z (Z.shiftr x 40); byte_of_Z (Z.shiftr x 48);
   byte_of_Z (Z.shiftr x 56)] = le_bytes 8 x.
Proof. cbn [le_bytes]. rewrite !Z.shiftr_shiftr by lia. done. Qed.

Lemma writes_Uint32 x : writes (tb_Uint32 x) (le_bytes 4 x).
Proof. unfold tb_Uint32. rewrite le_bytes_4. apply writes_Bytes. Qed.

Lemma writes_Uint64 x : writes (tb_Uint64 x) (le_bytes 8 x).
Proof. unfold tb_Uint64. rewrite le_bytes_8. apply writes_Bytes. Qed.

#[export] Hint Resolve writes_skip writes_seq writes_Bytes writes_Byte writes_UVarint
  writes_Uint32 writes_Uint64 signedToUnsigned_range : writes.
