(* ===== verification/TraceReader.v ===== *)
(** The trace reader: [pkg/traceparser/binreader.go].

    A read is a function of the reader's state that either returns or panics (the only panic the
    reader itself can raise is a [make] with an impossible size).  Read errors do not stop the
    program: they are recorded, the first one wins, and the read returns a zero value.

    The [*bufio.Reader] is modelled by the bytes it still has to deliver, after which it reports
    io.EOF.  Types: [int] is 64 bits wide. *)

From S2P Require Import Prelude Utf8 TraceBuffer.

(** ** State, outcomes and sequencing *)

Inductive ioerr := EOF | ErrUnexpectedEOF | ErrNegativeCount.

#[export] Instance ioerr_eq_dec : EqDecision ioerr.
Proof. solve_decision. Defined.

Record traceReader := mkReader {
  tr_buf : list byte;         (* what buf still delivers *)
  tr_version : Z;
  tr_bytesRead : Z;
  tr_err : option ioerr       (* any error encountered during reading *)
}.

Inductive panic :=
| PanicMake                   (* makeslice: len or cap out of range *)
| PanicUnknownEvent (typ : Z) (* tp.bailout(fmt.Errorf("unknown event")) *).

Inductive outcome (A : Type) :=
| Ret (a : A) (st : traceReader)
| Panicked (p : panic) (st : traceReader).
Arguments Ret {A} a st.
Arguments Panicked {A} p st.

Definition R (A : Type) : Type := traceReader -> outcome A.

#[export] Instance R_ret : MRet R := fun A a st => Ret a st.
#[export] Instance R_bind : MBind R := fun A B k m st =>
  match m st with
  | Ret a st' => k a st'
  | Panicked p st' => Panicked p st'
  end.
#[export] Instance R_fmap : FMap R := fun A B f m => m ≫= (fun a => mret (f a)).

Definition r_panic {A} (p : panic) : R A := fun st => Panicked p st.

(** [make([]T, n)] for an element size: panics unless [n] is a non-negative [int] whose memory
    fits the address space the runtime manages (48 bits on amd64). *)
Definition maxAlloc : Z := 2 ^ 48.

Definition r_make (elem_size n : Z) : R () := fun st =>
  if (0 <=? n) && (n <? 2 ^ 63) && (n * elem_size <=? maxAlloc) then Ret () st
  else Panicked PanicMake st.

(** A counted loop [for i := 0; i < n; i++] collecting its results. *)
Fixpoint r_repeat {A} (n : nat) (m : R A) : R (list A) :=
  match n with
  | O => mret []
  | S n => x ← m; xs ← r_repeat n m; mret (x :: xs)
  end.

(** ** The reader's operations *)

Definition setErr (err : option ioerr) (st : traceReader) : traceReader :=
  match tr_err st with
  | None => mkReader (tr_buf st) (tr_version st) (tr_bytesRead st) err
  | Some _ => st
  end.

(** [Bytes(b)] with [len(b) = n]: [io.ReadFull] reads what is there; what is missing stays zero,
    with io.EOF when nothing was read and io.ErrUnexpectedEOF when something was. *)
Definition tr_Bytes (n : nat) : R (list byte) := fun st =>
  let got := take n (tr_buf st) in
  let k := length got in
  let err := if decide (k = n) then None else if decide (k = 0%nat) then Some EOF
             else Some ErrUnexpectedEOF in
  Ret (got ++ replicate (n - k) Byte.x00)
    (setErr err (mkReader (drop n (tr_buf st)) (tr_version st) (tr_bytesRead st + Z.of_nat k) (tr_err st))).

(** [Skip(n)]: [bufio.Reader.Discard] refuses a negative count, discards what is there and
    reports io.EOF when it is less than [n]. *)
Definition tr_Skip (n : Z) : R () := fun st =>
  if n <? 0 then Ret () (setErr (Some ErrNegativeCount) st) else
  let k := length (take (Z.to_nat n) (tr_buf st)) in
  Ret () (setErr (if (Z.of_nat k =? n) then None else Some EOF)
    (mkReader (drop (Z.to_nat n) (tr_buf st)) (tr_version st) (tr_bytesRead st + Z.of_nat k) (tr_err st))).

Definition tr_Byte : R byte := fun st =>
  match tr_buf st with
  | [] => Ret Byte.x00 (setErr (Some EOF) st)
  | b :: rest => Ret b (mkReader rest (tr_version st) (tr_bytesRead st + 1) (tr_err st))
  end.

Definition tr_Bool : R bool := b ← tr_Byte; mret (negb (Z_of_byte b =? 0)).

(** The loop of [UVarint]: the value, the rest of the input, the bytes read and whether the
    input ran out (the result is then 0). *)
Fixpoint UVarint_go (i u : Z) (n : Z) (input : list byte) : Z * list byte * Z * bool :=
  match input with
  | [] => (0, [], n, true)
  | b :: rest =>
      let u := Z.lor u (u64 (Z.shiftl (Z.land (Z_of_byte b) 0x7f) i)) in
      if Z.land (Z_of_byte b) 0x80 =? 0 then (u, rest, n + 1, false)
      else UVarint_go (i + 7) u (n + 1) rest
  end.

Definition tr_UVarint : R Z := fun st =>
  let '(u, rest, n, eof) := UVarint_go 0 0 0 (tr_buf st) in
  Ret u (setErr (if eof then Some EOF else None)
           (mkReader rest (tr_version st) (tr_bytesRead st + n) (tr_err st))).

Definition tr_ByteString : R (list byte) :=
  size ← tr_UVarint;
  if size =? 0 then mret []
  else _ ← r_make 1 (i64 size); tr_Bytes (Z.to_nat size).

Definition tr_String : R gostring := s ← tr_ByteString; mret (to_valid_utf8 s).

(** [ptrOrNil]: a pointer to the value unless it is the zero value. *)
Definition ptrOrNil_str (s : gostring) : option gostring :=
  match s with [] => None | _ => Some s end.
Definition ptrOrNil_num (z : Z) : option Z := if z =? 0 then None else Some z.

Definition tr_OptString : R (option gostring) := s ← tr_String; mret (ptrOrNil_str s).
Definition tr_OptUVarint : R (option Z) := u ← tr_UVarint; mret (ptrOrNil_num u).

Definition tr_Uint32 : R Z := b ← tr_Bytes 4; mret (le_value b).
Definition tr_Uint64 : R Z := b ← tr_Bytes 8; mret (le_value b).

Definition tr_Int32 : R Z :=
  u ← tr_Uint32;
  mret (if Z.land u 1 =? 0 then i32 (Z.shiftr u 1) else i32 (Z.lnot (i32 (Z.shiftr u 1)))).

Definition unsignedToSigned (u : Z) : Z :=
  if Z.land u 1 =? 0 then i64 (Z.shiftr u 1) else i64 (Z.lnot (i64 (Z.shiftr u 1))).

Definition tr_Int64 : R Z := u ← tr_Uint64; mret (unsignedToSigned u).

Definition tr_Varint : R Z :=
  u ← tr_UVarint;
  mret (if Z.land u 1 =? 0 then i64 (Z.shiftr u 1) else i64 (Z.lnot (i64 (Z.shiftr u 1)))).

Definition tr_Nanotime : R Z := tr_Int64.
Definition tr_EventID : R Z := tr_UVarint.
Definition tr_Duration : R Z := tr_Varint.

(** Floats are represented by their bits. *)
Definition tr_Float32 : R Z := tr_Uint32.
Definition tr_Float64 : R Z := tr_Uint64.

(** [time.Unix(sec, nsec)]: a nanosecond count outside [0, 1e9) is carried into the seconds
    (with Go's truncated division and the adjustment for a negative remainder). *)
Definition time_Unix (sec nsec : Z) : Time :=
  if (nsec <? 0) || (nsec >=? 10 ^ 9) then
    let n := Z.quot nsec (10 ^ 9) in
    let sec := i64 (sec + n) in
    let nsec := nsec - n * 10 ^ 9 in
    if nsec <? 0 then mkTime (i64 (sec - 1)) (nsec + 10 ^ 9) else mkTime sec nsec
  else mkTime sec nsec.

(** [Time]: a timestamp holds the Unix seconds and the nanosecond, so it is again a [Time]. *)
Definition tr_Time : R Time :=
  sec ← tr_Int64; nsec ← tr_Int32; mret (time_Unix sec nsec).

(** [FromVer(version).Bool(defaultForOlderVersions)] *)
Definition tr_FromVer_Bool (version : Z) (dflt : bool) : R bool := fun st =>
  if tr_version st <? version then Ret dflt st else tr_Bool st.
