(* ===== verification/TraceCodec.v ===== *)
(** The wire format: what the buffer of [trace2/log.go] writes is what the reader of
    [traceparser/binreader.go] reads.

    [roundtrips w v m a]: the bytes [w] writes are exactly the bytes the parser [m] consumes at
    protocol version [v], and [m] returns [a].  The relation is closed under sequencing, so the
    round trip of an event follows from those of its fields; the tactic [roundtrip] does so. *)

From S2P Require Import Prelude Utf8 Errs TraceBuffer TraceReader.

(** ** Reading a known prefix *)

(** [m] consumes exactly [bs] and returns [a], whatever follows; the lengths an event can have
    are below 2^32 (the header has a 32-bit length, and [Add] drops longer events). *)
Definition reads {A} (v : Z) (m : R A) (bs : list byte) (a : A) : Prop :=
  forall rest n, blen bs < 2 ^ 32 ->
    m (mkReader (bs ++ rest) v n None) = Ret a (mkReader rest v (n + blen bs) None).

Definition roundtrips {A} (w : W) (v : Z) (m : R A) (a : A) : Prop :=
  exists bs, writes w bs /\ reads v m bs a.

Create HintDb roundtrip discriminated.

Lemma reads_ret {A} v (a : A) : reads v (mret a) [] a.
Proof. intros rest n _. unfold blen. simpl. rewrite Z.add_0_r. done. Qed.

Lemma roundtrips_ret {A} v (a : A) : roundtrips w_skip v (mret a) a.
Proof. exists []. split; [apply writes_skip | apply reads_ret]. Qed.

Section Sequencing.
Context {A B : Type} (v : Z).

Lemma reads_bind (m : R A) (k : A -> R B) b1 b2 a b :
  reads v m b1 a -> reads v (k a) b2 b -> reads v (m ≫= k) (b1 ++ b2) b.
Proof.
  intros H1 H2 rest n Hl. rewrite blen_app in Hl.
  pose proof (blen_nonneg b1). pose proof (blen_nonneg b2).
  unfold mbind, R_bind. rewrite <- app_assoc, H1 by lia. rewrite H2 by lia.
  rewrite blen_app. by rewrite Z.add_assoc.
Qed.

Lemma roundtrips_bind w1 w2 (m : R A) (k : A -> R B) a b :
  roundtrips w1 v m a -> roundtrips w2 v (k a) b -> roundtrips (w1 ;;; w2) v (m ≫= k) b.
Proof.
  intros (b1 & W1 & R1) (b2 & W2 & R2). exists (b1 ++ b2).
  split; [by apply writes_seq | by eapply reads_bind].
Qed.

Lemma reads_fmap (m : R A) (f : A -> B) bs a :
  reads v m bs a -> reads v (m ≫= (fun x => mret (f x))) bs (f a).
Proof. intros H. rewrite <- (app_nil_r bs). eapply reads_bind; [done|]. apply reads_ret. Qed.

(** The last field of a record. *)
Lemma roundtrips_last w (m : R A) (f : A -> B) a b :
  roundtrips w v m a -> f a = b -> roundtrips w v (m ≫= (fun x => mret (f x))) b.
Proof.
  intros (b1 & W1 & R1) <-. exists b1. split; [done|]. by apply reads_fmap.
Qed.

Lemma roundtrips_eq w (m : R A) a a' : roundtrips w v m a -> a = a' -> roundtrips w v m a'.
Proof. by intros H <-. Qed.
End Sequencing.

(** Writers and readers are compared up to the grouping of their steps. *)
Lemma roundtrips_assoc {A} w1 w2 w3 v (m : R A) a :
  roundtrips (w1 ;;; (w2 ;;; w3)) v m a -> roundtrips ((w1 ;;; w2) ;;; w3) v m a.
Proof.
  intros (bs & Hw & Hr). exists bs. split; [|done]. intros tb Hsc.
  destruct (Hw tb Hsc) as (sc & Hl & E). exists sc. split; [done|].
  rewrite <- E. unfold w_seq. by destruct (w1 tb).
Qed.

(** ** Primitive fields *)

Lemma reads_Bytes v bs : reads v (tr_Bytes (length bs)) bs bs.
Proof.
  intros rest n _. unfold tr_Bytes. cbn [tr_buf tr_version tr_bytesRead tr_err].
  rewrite take_app_length, drop_app_length, decide_True by done.
  rewrite Nat.sub_diag. simpl. by rewrite app_nil_r.
Qed.

Lemma roundtrips_Bytes v bs n : n = length bs -> roundtrips (tb_Bytes bs) v (tr_Bytes n) bs.
Proof. intros ->. exists bs. split; [apply writes_Bytes | apply reads_Bytes]. Qed.

Lemma roundtrips_Byte v b : roundtrips (tb_Byte b) v tr_Byte b.
Proof. exists [b]. split; [apply writes_Byte|]. intros rest n _. done. Qed.

Lemma roundtrips_Bool v b : roundtrips (tb_Bool b) v tr_Bool b.
Proof.
  exists [if b then Byte.x01 else Byte.x00]. split; [apply writes_Bytes|].
  intros rest n _. by destruct b.
Qed.

Lemma roundtrips_FromVer_Bool v v0 d b : v0 <= v -> roundtrips (tb_Bool b) v (tr_FromVer_Bool v0 d) b.
Proof.
  intros Hv. destruct (roundtrips_Bool v b) as (bs & Hw & Hr). exists bs. split; [done|].
  intros rest n Hl. unfold tr_FromVer_Bool. cbn [tr_version].
  rewrite (proj2 (Z.ltb_ge v v0)) by done. by apply Hr.
Qed.

Lemma roundtrips_Uint32 v x : is_u32 x -> roundtrips (tb_Uint32 x) v tr_Uint32 x.
Proof.
  intros Hx. exists (le_bytes 4 x). split; [apply writes_Uint32|].
  replace x with (le_value (le_bytes 4 x)) at 2
    by (rewrite le_value_bytes; apply Z.mod_small, Hx).
  apply reads_fmap. rewrite <- (length_le_bytes 4 x) at 1. apply reads_Bytes.
Qed.

Lemma roundtrips_Uint64 v x : is_u64 x -> roundtrips (tb_Uint64 x) v tr_Uint64 x.
Proof.
  intros Hx. exists (le_bytes 8 x). split; [apply writes_Uint64|].
  replace x with (le_value (le_bytes 8 x)) at 2
    by (rewrite le_value_bytes; apply Z.mod_small, Hx).
  apply reads_fmap. rewrite <- (length_le_bytes 8 x) at 1. apply reads_Bytes.
Qed.

(** An 8-byte identifier written as raw bytes is read as its little-endian value. *)
Lemma roundtrips_raw_Uint64 v bs :
  length bs = 8%nat -> roundtrips (tb_Bytes bs) v tr_Uint64 (le_value bs).
Proof.
  intros Hl. exists bs. split; [apply writes_Bytes|].
  apply reads_fmap. rewrite <- Hl. apply reads_Bytes.
Qed.

(** ** Varints *)

Lemma land_0x80 b : Z.land (Z_of_byte b) 0x80 = if Z_of_byte b >=? 0x80 then 0x80 else 0.
Proof. by destruct b. Qed.

Lemma land_0x7f b : Z.land b 0x7f = b mod 128.
Proof. change 0x7f with (Z.ones 7). rewrite Z.land_ones by lia. done. Qed.

Lemma lor_0x80 u : Z.lor (u mod 256) 0x80 = u mod 128 + 128.
Proof.
  assert (forall b, Z.lor (Z_of_byte b) 0x80 = Z_of_byte b mod 128 + 128) as H by (by intros []).
  rewrite <- Z_of_byte_of_Z, H, Z_of_byte_of_Z.
  rewrite Z.mod_mod_divide by (by exists 2). done.
Qed.

(** One group of the decoder: [acc] holds the bits below [i]. *)
Lemma uvarint_go_enc fuel : forall u i acc n rest,
  0 <= i -> 0 <= u -> u * 2 ^ i < 2 ^ 64 -> 0 <= acc < 2 ^ i ->
  (1 <= fuel)%nat -> u < 2 ^ (7 * Z.of_nat fuel) ->
  UVarint_go i acc n (uvarint_enc fuel u ++ rest)
  = (acc + u * 2 ^ i, rest, n + blen (uvarint_enc fuel u), false).
Proof.
  induction fuel as [|fuel IH]; intros u i acc n rest Hi Hu Hov Hacc Hn Hf; [lia|].
  cbn [uvarint_enc]. destruct (Z.geb_spec u 0x80) as [Hge|Hlt]; cbn [app UVarint_go].
  - rewrite lor_0x80. pose proof (Z.mod_pos_bound u 128 ltac:(lia)) as Hm.
    rewrite land_0x80, Z_of_byte_of_Z, (Z.mod_small (u mod 128 + 128)) by lia.
    rewrite (proj2 (Z.geb_le (u mod 128 + 128) 0x80)) by lia.
    cbn [Z.eqb]. rewrite land_0x7f.
    replace ((u mod 128 + 128) mod 128) with (u mod 128)
      by (rewrite <- Zplus_mod_idemp_r, Z_mod_same_full, Z.add_0_r, Z.mod_mod by lia; done).
    assert (u = 128 * (u / 128) + u mod 128) as Hdiv by (apply Z.div_mod; lia).
    assert (0 < 2 ^ i) as Hpos by (apply Z.pow_pos_nonneg; lia).
    rewrite u64_id by (rewrite Z.shiftl_mul_pow2 by lia; width).
    rewrite lor_shiftl_add by lia. rewrite Z.shiftr_div_pow2 by lia. change (2 ^ 7) with 128.
    assert (2 ^ (i + 7) = 128 * 2 ^ i) as Hp by (rewrite Z.pow_add_r by lia; lia).
    rewrite IH; rewrite ?Hp; try nia.
    + rewrite blen_cons. f_equal. f_equal; [f_equal|]; nia || lia.
    + destruct fuel; [|lia]. change (2 ^ (7 * Z.of_nat 1)) with 128 in Hf. lia.
    + apply Z.div_lt_upper_bound; [lia|]. change 128 with (2 ^ 7).
      rewrite <- Z.pow_add_r by lia.
      replace (7 + 7 * Z.of_nat fuel) with (7 * Z.of_nat (S fuel)) by lia. lia.
  - rewrite land_0x80, Z_of_byte_of_Z, (Z.mod_small u) by lia.
    destruct (Z.geb_spec u 0x80); [lia|]. cbn [Z.eqb]. rewrite land_0x7f, (Z.mod_small u) by lia.
    assert (0 < 2 ^ i) by (apply Z.pow_pos_nonneg; lia).
    rewrite u64_id by (rewrite Z.shiftl_mul_pow2 by lia; width).
    rewrite lor_shiftl_add by lia. done.
Qed.

Lemma reads_UVarint v u : is_u64 u -> reads v tr_UVarint (uvarint_bytes u) u.
Proof.
  intros Hu rest n _. unfold tr_UVarint. cbn [tr_buf tr_version tr_bytesRead tr_err].
  unfold uvarint_bytes. rewrite uvarint_go_enc;
    [|lia|apply Hu|rewrite Z.mul_1_r; apply Hu|lia|lia|change (7 * Z.of_nat 10) with 70; width].
  cbn [setErr tr_err].
  rewrite Z.mul_1_r, Z.add_0_l. done.
Qed.

Lemma roundtrips_UVarint v u : is_u64 u -> roundtrips (tb_UVarint u) v tr_UVarint u.
Proof. intros Hu. exists (uvarint_bytes u). split; [by apply writes_UVarint | by apply reads_UVarint]. Qed.

(** ** Signed integers *)

Lemma land_1 u : Z.land u 1 = u mod 2.
Proof. change 1 with (Z.ones 1) at 1. apply Z.land_ones. lia. Qed.

(** Undoing the zigzag at width [w] (32 or 64). *)
Lemma zigzag_inverse (wrap : Z -> Z) (i lo : Z) :
  (forall z, -lo <= z < lo -> wrap z = z) -> -lo <= i < lo ->
  let u := if i <? 0 then -2 * i - 1 else 2 * i in
  (if Z.land u 1 =? 0 then wrap (Z.shiftr u 1) else wrap (Z.lnot (wrap (Z.shiftr u 1)))) = i.
Proof.
  intros Hw Hi u. subst u. rewrite land_1, Z.shiftr_div_pow2 by lia. change (2 ^ 1) with 2.
  destruct (Z.ltb_spec i 0) as [Hn|Hp].
  - replace (-2 * i - 1) with (1 + (- i - 1) * 2) by lia.
    rewrite Z_mod_plus_full, Z.div_add by lia. change (1 mod 2 =? 0) with false.
    change (1 / 2) with 0. cbn [Z.eqb]. rewrite Z.add_0_l, (Hw (- i - 1)) by lia.
    rewrite Hw; unfold Z.lnot; lia.
  - replace (2 * i) with (0 + i * 2) by lia. rewrite Z_mod_plus_full, Z.div_add by lia.
    change (0 mod 2 =? 0) with true. change (0 / 2) with 0. rewrite Hw; lia.
Qed.

Lemma unsignedToSigned_inverse i : is_i64 i -> unsignedToSigned (signedToUnsigned i) = i.
Proof.
  intros Hi. rewrite signedToUnsigned_spec by done.
  apply (zigzag_inverse i64 i (2 ^ 63)); [apply i64_id | apply Hi].
Qed.

Lemma roundtrips_Int64 v i : is_i64 i -> roundtrips (tb_Int64 i) v tr_Int64 i.
Proof.
  intros Hi. eapply roundtrips_last; [apply roundtrips_Uint64, signedToUnsigned_range, Hi|].
  by apply unsignedToSigned_inverse.
Qed.

Lemma roundtrips_Varint v i : is_i64 i -> roundtrips (tb_Varint i) v tr_Varint i.
Proof.
  intros Hi. eapply roundtrips_last; [apply roundtrips_UVarint, signedToUnsigned_range, Hi|].
  by apply unsignedToSigned_inverse.
Qed.

Lemma roundtrips_Int32 v i : is_i32 i -> roundtrips (tb_Int32 i) v tr_Int32 i.
Proof.
  intros Hi.
  assert ((if i <? 0 then Z.lor (u32 (Z.shiftl (not32 (u32 i)) 1)) 1 else u32 (Z.shiftl (u32 i) 1))
          = if i <? 0 then -2 * i - 1 else 2 * i) as Hu.
  { unfold not32. destruct (Z.ltb_spec i 0) as [Hn|Hp].
    - assert (u32 (Z.lnot (u32 i)) = - i - 1) as ->.
      { unfold u32. rewrite <- (Z_mod_plus_full i 1), (Z.mod_small (i + 1 * 2 ^ 32)) by width.
        replace (Z.lnot (i + 1 * 2 ^ 32)) with (- i - 1 + (-1) * 2 ^ 32) by (unfold Z.lnot; lia).
        rewrite Z_mod_plus_full. apply Z.mod_small. width. }
      rewrite u32_id by (rewrite Z.shiftl_mul_pow2; width).
      rewrite Z.lor_comm, lor_shiftl_add by lia. lia.
    - rewrite (u32_id i), Z.shiftl_mul_pow2, u32_id by width. lia. }
  unfold tb_Int32. rewrite Hu. eapply roundtrips_last.
  - apply roundtrips_Uint32. destruct (Z.ltb_spec i 0); width.
  - apply (zigzag_inverse i32 i (2 ^ 31)); [apply i32_id | apply Hi].
Qed.

(** ** Strings *)

Lemma u64_blen {A} (s : list A) : blen s < 2 ^ 32 -> u64 (blen s) = blen s.
Proof. intros H. by apply u64_id, blen_u64. Qed.

Lemma roundtrips_ByteString v b : roundtrips (tb_ByteString b) v tr_ByteString b.
Proof.
  exists (uvarint_bytes (u64 (blen b)) ++ b). split.
  { apply writes_seq; [apply writes_UVarint, u64_range | apply writes_Bytes]. }
  intros rest n Hl. rewrite blen_app in Hl. pose proof (blen_nonneg b) as Hb.
  pose proof (blen_nonneg (uvarint_bytes (u64 (blen b)))).
  assert (u64 (blen b) = blen b) as Hu by (apply u64_blen; lia). rewrite Hu in *.
  unfold tr_ByteString, mbind, R_bind. rewrite <- app_assoc.
  rewrite reads_UVarint by (try apply blen_u64; lia).
  destruct (Z.eqb_spec (blen b) 0) as [E|E].
  { destruct b as [|x b]; [|rewrite blen_cons in E; pose proof (blen_nonneg b); lia].
    rewrite app_nil_r. done. }
  unfold r_make. rewrite i64_id by width.
  rewrite (proj2 (Z.leb_le 0 (blen b))), (proj2 (Z.ltb_lt (blen b) _)),
    (proj2 (Z.leb_le (blen b * 1) _)) by (unfold maxAlloc; lia).
  cbn [andb]. unfold blen at 1. rewrite Nat2Z.id, reads_Bytes by lia.
  rewrite blen_app, Z.add_assoc. done.
Qed.

Lemma roundtrips_String v s : roundtrips (tb_String s) v tr_String (to_valid_utf8 s).
Proof. eapply roundtrips_last; [apply roundtrips_ByteString | done]. Qed.

Lemma roundtrips_raw_String v s : roundtrips (tb_String s) v tr_ByteString s.
Proof. apply roundtrips_ByteString. Qed.

Lemma roundtrips_OptString v s :
  roundtrips (tb_OptString s) v tr_OptString (ptrOrNil_str (to_valid_utf8 (default [] s))).
Proof. destruct s; (eapply roundtrips_last; [apply roundtrips_String | done]). Qed.

Lemma roundtrips_OptUVarint v u :
  (forall x, u = Some x -> is_u64 x) ->
  roundtrips (tb_OptUVarint u) v tr_OptUVarint (ptrOrNil_num (default 0 u)).
Proof.
  intros Hu. destruct u as [u|]; (eapply roundtrips_last; [apply roundtrips_UVarint | done]).
  - by apply Hu.
  - width.
Qed.

(** ** Time *)

(** The times the wire format carries exactly. *)
Definition wf_time (t : Time) : Prop := is_i64 (t_Unix t) /\ 0 <= t_Nanosecond t < 10 ^ 9.

Lemma roundtrips_Time v t : wf_time t -> roundtrips (tb_Time t) v tr_Time t.
Proof.
  intros [Hs Hn]. unfold tb_Time. rewrite i32_id by width.
  eapply roundtrips_bind; [by apply roundtrips_Int64|].
  eapply roundtrips_last; [apply roundtrips_Int32; width|].
  unfold time_Unix. rewrite (proj2 (Z.ltb_ge (t_Nanosecond t) 0)) by lia.
  destruct (Z.geb_spec (t_Nanosecond t) (10 ^ 9)); [lia|]. by destruct t.
Qed.

(** ** Counted sequences *)

(** What a writer appends is determined by the writer. *)
Lemma writes_det w b1 b2 : writes w b1 -> writes w b2 -> b1 = b2.
Proof.
  intros H1 H2. destruct (H1 NewEventBuffer) as (sc1 & _ & E1); [done|].
  destruct (H2 NewEventBuffer) as (sc2 & _ & E2); [done|].
  rewrite E1 in E2. by simplify_eq/=.
Qed.

(** A round trip of at least one byte: the elements of a counted sequence are of this kind, so
    that the number of elements is bounded by the number of bytes. *)
Definition roundtrips1 {A} (w : W) (v : Z) (m : R A) (a : A) : Prop :=
  exists bs, bs <> [] /\ writes w bs /\ reads v m bs a.

Lemma roundtrips1_of {A} w v (m : R A) a :
  (exists bs, bs <> [] /\ writes w bs) -> roundtrips w v m a -> roundtrips1 w v m a.
Proof.
  intros (bs & Hne & Hw) (bs' & Hw' & Hr).
  rewrite (writes_det _ _ _ Hw Hw') in Hne. by exists bs'.
Qed.

Lemma roundtrips1_bind {A B} w1 w2 v (m : R A) (k : A -> R B) a b :
  roundtrips1 w1 v m a -> roundtrips w2 v (k a) b -> roundtrips1 (w1 ;;; w2) v (m ≫= k) b.
Proof.
  intros (b1 & Hne & W1 & R1) (b2 & W2 & R2). exists (b1 ++ b2).
  split; [by destruct b1|]. split; [by apply writes_seq | by eapply reads_bind].
Qed.

Lemma roundtrips1_last {A B} w v (m : R A) (f : A -> B) a b :
  roundtrips1 w v m a -> f a = b -> roundtrips1 w v (m ≫= (fun x => mret (f x))) b.
Proof. intros (b1 & Hne & W1 & R1) <-. exists b1. split; [done|]. split; [done|]. by apply reads_fmap. Qed.

Lemma roundtrips1_ByteString v b : roundtrips1 (tb_ByteString b) v tr_ByteString b.
Proof.
  apply roundtrips1_of; [|apply roundtrips_ByteString].
  exists (uvarint_bytes (u64 (blen b)) ++ b). split.
  - pose proof (length_uvarint_bytes (u64 (blen b))). by destruct (uvarint_bytes _); simpl in *; [lia|].
  - apply writes_seq; [apply writes_UVarint, u64_range | apply writes_Bytes].
Qed.

Lemma roundtrips1_String v s : roundtrips1 (tb_String s) v tr_String (to_valid_utf8 s).
Proof. eapply roundtrips1_last; [apply roundtrips1_ByteString | done]. Qed.

Lemma roundtrips1_Byte v b : roundtrips1 (tb_Byte b) v tr_Byte b.
Proof. exists [b]. split; [done|]. split; [apply writes_Byte|]. intros rest n _. done. Qed.

Lemma roundtrips1_Varint v i : is_i64 i -> roundtrips1 (tb_Varint i) v tr_Varint i.
Proof.
  intros Hi. apply roundtrips1_of; [|by apply roundtrips_Varint].
  exists (uvarint_bytes (signedToUnsigned i)). split.
  - pose proof (length_uvarint_bytes (signedToUnsigned i)). by destruct (uvarint_bytes _); simpl in *; [lia|].
  - by apply writes_UVarint, signedToUnsigned_range.
Qed.

(** A loop over a list against a counted loop of reads. *)
Lemma roundtrips_repeat {A B} v (f : A -> W) (m : R B) (g : A -> B) (l : list A) :
  (forall x, x ∈ l -> roundtrips1 (f x) v m (g x)) ->
  exists bs, blen l <= blen bs /\ writes (w_forall l f) bs /\ reads v (r_repeat (length l) m) bs (g <$> l).
Proof.
  induction l as [|x l IH]; intros H.
  - exists []. split; [done|]. split; [apply writes_skip | apply reads_ret].
  - destruct (H x) as (b1 & Hne & W1 & R1); [left|].
    destruct IH as (b2 & Hl & W2 & R2); [intros y Hy; apply H; by right|].
    exists (b1 ++ b2). split; [|split].
    + rewrite blen_cons, blen_app. destruct b1; [done|]. rewrite blen_cons.
      pose proof (blen_nonneg b1). lia.
    + by apply writes_seq.
    + cbn [r_repeat length fmap list_fmap]. eapply reads_bind; [done|]. by apply reads_fmap.
Qed.

(** A length prefix, then the elements; [K] is what the parser does with the length. *)
Lemma roundtrips_counted {A B C} v (f : A -> W) (m : R B) (g : A -> B) (l : list A) (K : Z -> R C) c :
  (forall x, x ∈ l -> roundtrips1 (f x) v m (g x)) ->
  (forall bs, blen l < 2 ^ 32 -> reads v (r_repeat (length l) m) bs (g <$> l) -> reads v (K (blen l)) bs c) ->
  roundtrips (tb_UVarint (u64 (blen l)) ;;; w_forall l f) v (tr_UVarint ≫= K) c.
Proof.
  intros Hel HK. destruct (roundtrips_repeat v f m g l Hel) as (bs & Hl & Hw & Hr).
  exists (uvarint_bytes (u64 (blen l)) ++ bs). split.
  { apply writes_seq; [apply writes_UVarint, u64_range | done]. }
  intros rest n Hlen. rewrite blen_app in Hlen. pose proof (blen_nonneg (uvarint_bytes (u64 (blen l)))).
  assert (u64 (blen l) = blen l) as Hu by (apply u64_blen; lia). rewrite Hu in *.
  assert (blen l < 2 ^ 32) as Hll by lia. revert Hlen. rewrite <- blen_app. revert rest n.
  change (reads v (tr_UVarint ≫= K) (uvarint_bytes (blen l) ++ bs) c).
  eapply reads_bind; [apply reads_UVarint, blen_u64; lia|]. apply HK; [lia|done].
Qed.

(** Allocating room for the elements of a sequence that fits in an event succeeds. *)
Lemma r_make_ok sz n st : 0 <= n < 2 ^ 32 -> 0 <= sz <= 2 ^ 16 -> r_make sz n st = Ret () st.
Proof.
  intros Hn Hs. unfold r_make, maxAlloc.
  rewrite (proj2 (Z.leb_le 0 n)), (proj2 (Z.ltb_lt n (2 ^ 63))), (proj2 (Z.leb_le (n * sz) (2 ^ 48))) by nia.
  done.
Qed.

Lemma reads_make {A} v sz n (k : R A) bs a :
  0 <= n < 2 ^ 32 -> 0 <= sz <= 2 ^ 16 -> reads v k bs a -> reads v (r_make sz n ≫= (fun _ => k)) bs a.
Proof.
  intros Hn Hs Hk rest m Hl. unfold mbind, R_bind. rewrite r_make_ok by done. by apply Hk.
Qed.
