(* ===== verification/TraceModel.v ===== *)
(** The request model the trace log records
    ([runtimes/go/appruntime/exported/model/request.go] and [trace.go]), and the messages the
    trace parser produces ([proto/afterpiece/engine/trace2/trace2.proto]).

    Pointers that may be nil are options.  A nil byte slice and an empty one are both [[]]: the
    code only ever takes their length and their elements.  Fields of interface or function type
    that no modelled code reads (loggers, contexts, decoded payloads) are left out. *)

From S2P Require Import Prelude Errs TraceBuffer.

(** ** model/trace.go *)

(** [TraceID] is [[16]byte] and [SpanID] is [[8]byte]. *)
Definition is_TraceID (id : list byte) : Prop := length id = 16%nat.
Definition is_SpanID (id : list byte) : Prop := length id = 8%nat.

(** ** model/request.go *)

Inductive RequestType := RPCCall | AuthHandler | PubSubMessage | Test.

#[export] Instance RequestType_eq_dec : EqDecision RequestType.
Proof. solve_decision. Defined.

Record RPCDesc := mkRPCDesc {
  desc_Service : gostring;
  desc_SvcNum : Z;
  desc_Endpoint : gostring;
  desc_AuthHandler : bool;
  desc_Raw : bool;
  desc_Tags : list gostring;
  desc_Exposed : bool;
  desc_AuthRequired : bool
}.

Record PathParam := mkPathParam { pp_Name : gostring; pp_Value : gostring }.

Abbreviation Header := (gmap (list Init.Byte.byte) (list (list Init.Byte.byte))).

Record RPCData := mkRPCData {
  rpc_Desc : option RPCDesc;
  rpc_HTTPMethod : gostring;
  rpc_Path : gostring;
  rpc_PathParams : list PathParam;
  rpc_UserID : gostring;
  rpc_NonRawPayload : list byte;
  rpc_RequestHeaders : Header;
  rpc_FromEncorePlatform : bool;
  rpc_ServiceToServiceCall : bool;
  rpc_Mocked : bool
}.

Record PubSubMsgData := mkMsgData {
  msg_Service : gostring;
  msg_Topic : gostring;
  msg_Subscription : gostring;
  msg_MessageID : gostring;
  msg_Published : Time;
  msg_Attempt : Z;
  msg_Payload : list byte
}.

(** What the code asks a [*testing.T]. *)
Record testing_T := mkT { T_Name : gostring; T_Failed : bool }.

Record TestData := mkTestData {
  test_Current : option testing_T;
  test_Service : gostring;
  test_TestFile : gostring;
  test_TestLine : Z;
  test_UserID : gostring
}.

Record Request := mkRequest {
  req_Type : RequestType;
  req_TraceID : list byte;
  req_SpanID : list byte;
  req_ParentSpanID : list byte;
  req_ParentTraceID : list byte;
  req_CallerEventID : Z;
  req_ExtCorrelationID : gostring;
  req_Traced : bool;
  req_DefLoc : Z;
  req_SvcNum : Z;
  req_RPCData : option RPCData;
  req_MsgData : option PubSubMsgData;
  req_Test : option TestData
}.

(** [Request.Service]: [None] is a nil dereference. *)
Definition req_Service (req : Request) : option gostring :=
  match req_Type req with
  | RPCCall | AuthHandler =>
      d ← req_RPCData req; desc ← rpc_Desc d; Some (desc_Service desc)
  | PubSubMessage => d ← req_MsgData req; Some (msg_Service d)
  | Test => match req_Test req with Some t => Some (test_Service t) | None => Some [] end
  end.

Record Response := mkResponse {
  resp_HTTPStatus : Z;
  resp_Duration : Z;
  resp_Err : error;
  resp_Payload : list byte;
  resp_AuthUID : gostring;
  resp_RawResponseHeaders : Header
}.

Record APICall := mkAPICall {
  call_ID : Z;
  call_Source : option Request;
  call_DefLoc : Z;
  call_TargetServiceName : gostring;
  call_TargetEndpointName : gostring;
  call_StartEventID : Z
}.

Definition LevelTrace := 0.
Definition LevelDebug := 1.
Definition LevelInfo := 2.
Definition LevelWarn := 3.
Definition LevelError := 4.

Definition ErrField := 1.
Definition StringField := 2.
Definition BoolField := 3.
Definition TimeField := 4.
Definition DurationField := 5.
Definition UUIDField := 6.
Definition JSONField := 7.
Definition IntField := 8.
Definition UintField := 9.
Definition Float32Field := 10.
Definition Float64Field := 11.

(** ** The messages of trace2.proto *)

Module tracepb2.

Record TraceID := mkTraceID { High : Z; Low : Z }.

(** The [IsZero] method of [proto/afterpiece/engine/trace2/trace_util.go] on a non-nil id. *)
Definition TraceID_IsZero (id : TraceID) : bool := (Low id =? 0) && (High id =? 0).

Record StackFrame := mkStackFrame { sf_Filename : gostring; sf_Func : gostring; sf_Line : Z }.
Record StackTrace := mkStackTrace { Pcs : list Z; st_Frames : list StackFrame }.
Record Error := mkErr { err_Msg : gostring; err_Stack : option StackTrace }.

Inductive SpanStart_Data :=
| SpanStart_Request (ServiceName EndpointName HttpMethod Path : gostring) (PathParams : list gostring)
    (RequestHeaders : gmap (list Init.Byte.byte) (list Init.Byte.byte)) (RequestPayload : list byte)
    (ExtCorrelationId Uid : option gostring) (Mocked : bool)
| SpanStart_Auth (ServiceName EndpointName : gostring) (AuthPayload : list byte)
| SpanStart_PubsubMessage (ServiceName TopicName SubscriptionName MessageId : gostring) (Attempt : Z)
    (PublishTime : Time) (MessagePayload : list byte)
| SpanStart_Test (ServiceName TestName Uid TestFile : gostring) (TestLine : Z).

Record SpanStart := mkSpanStart {
  ss_Goid : Z;
  ss_ParentTraceId : option TraceID;
  ss_ParentSpanId : option Z;
  ss_DefLoc : option Z;
  ss_CallerEventId : option Z;
  ss_ExternalCorrelationId : option gostring;
  ss_Data : SpanStart_Data
}.

Inductive SpanEnd_Data :=
| SpanEnd_Request (ServiceName EndpointName : gostring) (HttpStatusCode : Z)
    (ResponseHeaders : gmap (list Init.Byte.byte) (list Init.Byte.byte)) (ResponsePayload : list byte)
| SpanEnd_Auth (ServiceName EndpointName Uid : gostring) (UserData : list byte)
| SpanEnd_PubsubMessage (ServiceName TopicName SubscriptionName : gostring)
| SpanEnd_Test (ServiceName TestName : gostring) (Failed Skipped : bool).

Record SpanEnd := mkSpanEnd {
  se_DurationNanos : Z;
  se_Error : option Error;
  se_PanicStack : option StackTrace;
  se_ParentTraceId : option TraceID;
  se_ParentSpanId : option Z;
  se_Data : SpanEnd_Data
}.

Inductive CompletionType := ROLLBACK | COMMIT.
Inductive CacheCallEnd_Result := Cache_UNKNOWN | Cache_OK | Cache_NO_SUCH_KEY | Cache_CONFLICT | Cache_ERR.
Inductive LogMessage_Level := Level_DEBUG | Level_INFO | Level_ERROR | Level_WARN | Level_TRACE.

Record BucketObjectAttributes := mkAttrs {
  oa_Size : option Z; oa_Version : option gostring; oa_Etag : option gostring;
  oa_ContentType : option gostring
}.

Inductive HTTPTraceEvent_Data :=
| HTTP_GetConn (HostPort : gostring)
| HTTP_GotConn (Reused WasIdle : bool) (IdleDurationNs : Z)
| HTTP_GotFirstResponseByte
| HTTP_Got1XxResponse (Code : Z)
| HTTP_DnsStart (Host : gostring)
| HTTP_DnsDone (Err : list byte) (Addrs : list (list byte))
| HTTP_ConnectStart (Network Addr : gostring)
| HTTP_ConnectDone (Network Addr : gostring) (Err : list byte)
| HTTP_TlsHandshakeStart
| HTTP_TlsHandshakeDone (Err : list byte) (TlsVersion CipherSuite : Z) (ServerName NegotiatedProtocol : gostring)
| HTTP_WroteHeaders
| HTTP_WroteRequest (Err : list byte)
| HTTP_Wait100Continue
| HTTP_ClosedBody (Err : list byte).

Record HTTPTraceEvent := mkHTTPEvent { he_Nanotime : Z; he_Data : HTTPTraceEvent_Data }.

Inductive LogField_Value :=
| LogField_Error (e : option Error)
| LogField_Str (s : gostring)
| LogField_Bool (b : bool)
| LogField_Time (t : Time)
| LogField_Dur (d : Z)
| LogField_Uuid (u : list byte)
| LogField_Json (j : list byte)
| LogField_Int (i : Z)
| LogField_Uint (u : Z)
| LogField_Float32 (bits : Z)
| LogField_Float64 (bits : Z).

Record LogField := mkLogField { lf_Key : gostring; lf_Value : LogField_Value }.

Inductive SpanEvent_Data :=
| SpanEvent_LogMessage (Level : LogMessage_Level) (Msg : gostring) (Fields : list (option LogField))
    (Stack : option StackTrace)
| SpanEvent_BodyStream (IsResponse Overflowed : bool) (Data : list byte)
| SpanEvent_RpcCallStart (TargetServiceName TargetEndpointName : gostring) (Stack : option StackTrace)
| SpanEvent_RpcCallEnd (Err : option Error)
| SpanEvent_DbTransactionStart (Stack : option StackTrace)
| SpanEvent_DbTransactionEnd (Completion : CompletionType) (Stack : option StackTrace) (Err : option Error)
| SpanEvent_DbQueryStart (Query : gostring) (Stack : option StackTrace)
| SpanEvent_DbQueryEnd (Err : option Error)
| SpanEvent_HttpCallStart (CorrelationParentSpanId : Z) (Method Url : gostring)
    (Stack : option StackTrace) (StartNanotime : Z)
| SpanEvent_HttpCallEnd (StatusCode : option Z) (Err : option Error) (TraceEvents : list HTTPTraceEvent)
| SpanEvent_PubsubPublishStart (Topic : gostring) (Message : list byte) (Stack : option StackTrace)
| SpanEvent_PubsubPublishEnd (MessageId : option gostring) (Err : option Error)
| SpanEvent_CacheCallStart (Operation : gostring) (Write : bool) (Stack : option StackTrace)
    (Keys : list gostring)
| SpanEvent_CacheCallEnd (Result : CacheCallEnd_Result) (Err : option Error)
| SpanEvent_ServiceInitStart (Service : gostring)
| SpanEvent_ServiceInitEnd (Err : option Error)
| SpanEvent_BucketObjectUploadStart (Bucket Object : gostring) (Attrs : BucketObjectAttributes)
    (Stack : option StackTrace)
| SpanEvent_BucketObjectUploadEnd (Size : option Z) (Version : option gostring) (Err : option Error)
| SpanEvent_BucketObjectDownloadStart (Bucket Object : gostring) (Version : option gostring)
    (Stack : option StackTrace)
| SpanEvent_BucketObjectDownloadEnd (Size : option Z) (Err : option Error)
| SpanEvent_BucketObjectGetAttrsStart (Bucket Object : gostring) (Version : option gostring)
    (Stack : option StackTrace)
| SpanEvent_BucketObjectGetAttrsEnd (Err : option Error) (Attrs : option BucketObjectAttributes)
| SpanEvent_BucketListObjectsStart (Bucket : gostring) (Prefix : option gostring)
    (Stack : option StackTrace)
| SpanEvent_BucketListObjectsEnd (Err : option Error) (Observed : Z) (HasMore : bool)
| SpanEvent_BucketDeleteObjectsStart (Bucket : gostring) (Stack : option StackTrace)
    (Entries : list (gostring * option gostring))
| SpanEvent_BucketDeleteObjectsEnd (Err : option Error).

Record SpanEvent := mkSpanEvent {
  sv_Goid : Z;
  sv_DefLoc : option Z;
  sv_CorrelationEventId : option Z;
  sv_Data : SpanEvent_Data
}.

Inductive Event :=
| TraceEvent_SpanStart (s : SpanStart)
| TraceEvent_SpanEnd (s : SpanEnd)
| TraceEvent_SpanEvent (s : SpanEvent).

Record TraceEvent := mkTraceEvent {
  te_TraceId : TraceID;
  te_SpanId : Z;
  te_EventId : Z;
  te_EventTime : Time;
  te_Event : Event
}.

End tracepb2.
