(* ===== verification/TraceLog.v ===== *)
(** The trace log: [Log] of [runtimes/go/appruntime/exported/trace2/log.go].

    A logger method runs against the state of its log and the process-wide event counter
    [nextEventID]; [None] is a panic.  The monotonic clock [nanotime] is an argument of the
    methods that read it.  Here the log's buffer is its contents; the file TraceLogHeap models
    the slice behind it. *)

From S2P Require Import Prelude Errs TraceBuffer.

(** ** State *)

Record Log := mkLog { data : list byte; done : bool }.

Definition NewLog : Log := mkLog [] false.

Record Event := mkEvent {
  ev_Type : Z;
  ev_TraceID : list byte;
  ev_SpanID : list byte;
  ev_Data : EventBuffer
}.

(** The log a method is called on ([None] for a nil receiver) and [nextEventID]. *)
Record LogState := mkState { l_log : option Log; nextEventID : Z }.

Definition LogM (A : Type) : Type := LogState -> option (A * LogState).

#[export] Instance LogM_ret : MRet LogM := fun A a s => Some (a, s).
#[export] Instance LogM_bind : MBind LogM := fun A B k m s =>
  match m s with Some (a, s') => k a s' | None => None end.

(** ** Adding events *)

(** [nextEventID.Add(1)], skipping the value 0 which stands for "no event". *)
Definition next_event_id (ctr : Z) : Z :=
  let id := u64 (ctr + 1) in
  if id =? 0 then u64 (id + 1) else id.

Definition event_header (typ eventID ts : Z) (traceID spanID : list byte) (ln : Z) : list byte :=
  [byte_of_Z typ] ++
  [byte_of_Z eventID; byte_of_Z (Z.shiftr eventID 8); byte_of_Z (Z.shiftr eventID 16);
   byte_of_Z (Z.shiftr eventID 24); byte_of_Z (Z.shiftr eventID 32); byte_of_Z (Z.shiftr eventID 40);
   byte_of_Z (Z.shiftr eventID 48); byte_of_Z (Z.shiftr eventID 56)] ++
  [byte_of_Z ts; byte_of_Z (Z.shiftr ts 8); byte_of_Z (Z.shiftr ts 16);
   byte_of_Z (Z.shiftr ts 24); byte_of_Z (Z.shiftr ts 32); byte_of_Z (Z.shiftr ts 40);
   byte_of_Z (Z.shiftr ts 48); byte_of_Z (Z.shiftr ts 56)] ++
  traceID ++
  spanID ++
  [byte_of_Z ln; byte_of_Z (Z.shiftr ln 8); byte_of_Z (Z.shiftr ln 16); byte_of_Z (Z.shiftr ln 24)].

(** [Add]: a nil log and an event too large for the header's length field yield event id 0 and
    leave the counter alone. *)
Definition l_Add (nano : Z) (e : Event) : LogM Z := fun s =>
  match l_log s with
  | None => Some (0, s)
  | Some l =>
      let eventData := buf (ev_Data e) in
      let ln := blen eventData in
      if ln >? 2 ^ 32 - 1 then Some (0, s) else
      let eventID := next_event_id (nextEventID s) in
      let ts := signedToUnsigned nano in
      let header := event_header (ev_Type e) eventID ts (ev_TraceID e) (ev_SpanID e) ln in
      Some (eventID, mkState (Some (mkLog (data l ++ header ++ eventData) (done l))) eventID)
  end.

(** The common tail of the logger methods: fill a fresh buffer and add the event. *)
Definition l_emit (nano : Z) (typ : Z) (traceID spanID : list byte) (w : W) : LogM Z := fun s =>
  match w NewEventBuffer with
  | Some tb => l_Add nano (mkEvent typ traceID spanID tb) s
  | None => None
  end.

(** ** Reading the log *)

(** [clearDataBuf]: whichever branch is taken, the new buffer is empty. *)
Definition clearDataBuf (l : Log) : Log := mkLog [] (done l).

Definition l_GetAndClear (l : Log) : (list byte * bool) * Log :=
  ((data l, done l), clearDataBuf l).

Definition l_MarkDone (l : Log) : Log := mkLog (data l) true.

(** The blocking readers: [None] while the loop condition keeps them waiting. *)
Definition l_WaitAndClear (l : Log) : option ((list byte * bool) * Log) :=
  if (blen (data l) =? 0) && negb (done l) then None
  else Some ((data l, done l), clearDataBuf l).

Definition l_WaitUntilDone (l : Log) : option Log := if done l then Some l else None.

(** [elapsed] is [time.Since(now)] at the time the loop condition is evaluated. *)
Definition l_WaitAtLeast (dur elapsed : Z) (l : Log) : option (bool * Log) :=
  if negb (done l) && (elapsed <? dur) then None else Some (done l, l).
