(* ===== verification/TraceEvents.v ===== *)
(** The logger methods: [runtimes/go/appruntime/exported/trace2/events.go].

    A method is modelled in two parts: what it puts in the event buffer (a writer, named
    [w_<Method>]) and the method itself (named [l_<Method>]), which runs the writer on a fresh
    buffer and adds the event to the log.  The size hints of [NewEventBuffer] only reserve
    capacity and are not modelled. *)

From S2P Require Import Prelude Errs TraceBuffer TraceModel TraceLog.

(** ** Event types *)

Definition RequestSpanStart := 0x01.
Definition RequestSpanEnd := 0x02.
Definition AuthSpanStart := 0x03.
Definition AuthSpanEnd := 0x04.
Definition PubsubMessageSpanStart := 0x05.
Definition PubsubMessageSpanEnd := 0x06.
Definition DBTransactionStart := 0x07.
Definition DBTransactionEnd := 0x08.
Definition DBQueryStart := 0x09.
Definition DBQueryEnd := 0x0A.
Definition RPCCallStart := 0x0B.
Definition RPCCallEnd := 0x0C.
Definition HTTPCallStart := 0x0D.
Definition HTTPCallEnd := 0x0E.
Definition LogMessage := 0x0F.
Definition PubsubPublishStart := 0x10.
Definition PubsubPublishEnd := 0x11.
Definition ServiceInitStart := 0x12.
Definition ServiceInitEnd := 0x13.
Definition CacheCallStart := 0x14.
Definition CacheCallEnd := 0x15.
Definition BodyStream := 0x16.
Definition TestStart := 0x17.
Definition TestEnd := 0x18.
Definition BucketObjectUploadStart := 0x19.
Definition BucketObjectUploadEnd := 0x1A.
Definition BucketObjectDownloadStart := 0x1B.
Definition BucketObjectDownloadEnd := 0x1C.
Definition BucketObjectGetAttrsStart := 0x1D.
Definition BucketObjectGetAttrsEnd := 0x1E.
Definition BucketListObjectsStart := 0x1F.
Definition BucketListObjectsEnd := 0x20.
Definition BucketDeleteObjectsStart := 0x21.
Definition BucketDeleteObjectsEnd := 0x22.

(** The names [EventType.String] gives the types 1 to 0x22, in order. *)
Definition event_type_names : list gostring :=
  [ lit "RequestSpanStart"; lit "RequestSpanEnd"; lit "AuthSpanStart"; lit "AuthSpanEnd";
    lit "PubsubMessageSpanStart"; lit "PubsubMessageSpanEnd"; lit "DBTransactionStart";
    lit "DBTransactionEnd"; lit "QueryStart"; lit "QueryEnd"; lit "RPCCallStart"; lit "RPCCallEnd";
    lit "HTTPCallStart"; lit "HTTPCallEnd"; lit "LogMessage"; lit "PubsubPublishStart";
    lit "PubsubPublishEnd"; lit "ServiceInitStart"; lit "ServiceInitEnd"; lit "CacheCallStart";
    lit "CacheCallEnd"; lit "BodyStream"; lit "TestStart"; lit "TestEnd";
    lit "BucketObjectUploadStart"; lit "BucketObjectUploadEnd"; lit "BucketObjectDownloadStart";
    lit "BucketObjectDownloadEnd"; lit "BucketObjectGetAttrsStart"; lit "BucketObjectGetAttrsEnd";
    lit "BucketListObjectsStart"; lit "BucketListObjectsEnd"; lit "BucketDeleteObjectsStart";
    lit "BucketDeleteObjectsEnd" ].

(** One hexadecimal digit, as [fmt] prints it with [%x]. *)
Definition hexdigit (d : Z) : byte := byte_of_Z (if d <? 10 then 48 + d else 87 + d).

Definition EventType_String (te : Z) : gostring :=
  match (if 1 <=? te then event_type_names !! Z.to_nat (te - 1) else None) with
  | Some s => s
  | None => lit "Unknown(" ++ (if te <? 16 then [hexdigit te] else [hexdigit (te / 16); hexdigit (te mod 16)])
            ++ lit ")"
  end.

(** ** Common parts of the events *)

Record EventParams := mkParams { TraceID : list byte; SpanID : list byte; Goid : Z; DefLoc : Z }.

Record spanStartEventData := mkSpanStartData {
  ssd_Goid : Z;
  ssd_ParentTraceID : list byte;
  ssd_ParentSpanID : list byte;
  ssd_DefLoc : Z;
  ssd_CallerEventID : Z;
  ssd_ExtCorrelationID : gostring
}.

Definition newSpanStartEvent (data : spanStartEventData) : W :=
  tb_UVarint (ssd_Goid data) ;;;
  tb_Bytes (ssd_ParentTraceID data) ;;;
  tb_Bytes (ssd_ParentSpanID data) ;;;
  tb_UVarint (ssd_DefLoc data) ;;;
  tb_UVarint (ssd_CallerEventID data) ;;;
  tb_String (ssd_ExtCorrelationID data).

Record spanEndEventData := mkSpanEndData {
  sed_Duration : Z;
  sed_Err : error;
  sed_ParentTraceID : list byte;
  sed_ParentSpanID : list byte
}.

(** The stack recorded under "panic_stack" in the error's metadata, if it is one. *)
Definition panic_stack (h : metaheap) (err : error) : Stack :=
  match errs_Meta h err !! lit "panic_stack" with
  | Some (AnyStack s) => s
  | _ => empty_stack
  end.

Section Events.
Context `{E : GoEnv}.

Definition newSpanEndEvent (h : metaheap) (data : spanEndEventData) : W :=
  tb_Duration (sed_Duration data) ;;;
  tb_ErrWithStack (sed_Err data) ;;;
  tb_FormattedStack (panic_stack h (sed_Err data)) ;;;
  tb_Bytes (sed_ParentTraceID data) ;;;
  tb_Bytes (sed_ParentSpanID data).

Definition newEvent (common : EventParams) (correlationEventID : Z) : W :=
  tb_UVarint (DefLoc common) ;;;
  tb_UVarint (Goid common) ;;;
  tb_EventID correlationEventID.

Definition logHeaders (headers : Header) : W :=
  tb_UVarint (u64 (blen (range_order headers))) ;;;
  w_forall (range_order headers) (fun kv =>
    tb_String kv.1 ;;; tb_String (default [] (head kv.2))).

(** ** Spans *)

Definition span_start_data (req : Request) (goid : Z) : spanStartEventData :=
  mkSpanStartData goid (req_ParentTraceID req) (req_ParentSpanID req) (req_DefLoc req)
    (req_CallerEventID req) (req_ExtCorrelationID req).

Definition w_RequestSpanStart (req : Request) (goid : Z) : W :=
  w_deref (req_RPCData req) (fun data => w_deref (rpc_Desc data) (fun desc =>
  newSpanStartEvent (span_start_data req goid) ;;;
  tb_String (desc_Service desc) ;;;
  tb_String (desc_Endpoint desc) ;;;
  tb_String (rpc_HTTPMethod data) ;;;
  tb_String (rpc_Path data) ;;;
  (tb_UVarint (u64 (blen (rpc_PathParams data))) ;;;
   w_forall (rpc_PathParams data) (fun pp => tb_String (pp_Value pp))) ;;;
  logHeaders (rpc_RequestHeaders data) ;;;
  tb_ByteString (rpc_NonRawPayload data) ;;;
  tb_String (req_ExtCorrelationID req) ;;;
  tb_String (rpc_UserID data) ;;;
  tb_Bool (rpc_Mocked data))).

Definition l_RequestSpanStart (nano : Z) (req : Request) (goid : Z) : LogM Z :=
  l_emit nano RequestSpanStart (req_TraceID req) (req_SpanID req) (w_RequestSpanStart req goid).

Definition w_RequestSpanEnd (h : metaheap) (req : Request) (resp : Response) : W :=
  w_deref (req_RPCData req) (fun data => w_deref (rpc_Desc data) (fun desc =>
  newSpanEndEvent h (mkSpanEndData (resp_Duration resp) (resp_Err resp)
    (req_ParentTraceID req) (req_ParentSpanID req)) ;;;
  tb_String (desc_Service desc) ;;;
  tb_String (desc_Endpoint desc) ;;;
  tb_UVarint (u64 (resp_HTTPStatus resp)) ;;;
  logHeaders (resp_RawResponseHeaders resp) ;;;
  tb_ByteString (resp_Payload resp))).

Definition l_RequestSpanEnd (nano : Z) (h : metaheap) (p : EventParams) (req : Request)
    (resp : Response) : LogM Z :=
  l_emit nano RequestSpanEnd (TraceID p) (SpanID p) (w_RequestSpanEnd h req resp).

Definition w_AuthSpanStart (req : Request) (goid : Z) : W :=
  w_deref (req_RPCData req) (fun data => w_deref (rpc_Desc data) (fun desc =>
  newSpanStartEvent (span_start_data req goid) ;;;
  tb_String (desc_Service desc) ;;;
  tb_String (desc_Endpoint desc) ;;;
  tb_ByteString (rpc_NonRawPayload data))).

Definition l_AuthSpanStart (nano : Z) (req : Request) (goid : Z) : LogM Z :=
  l_emit nano AuthSpanStart (req_TraceID req) (req_SpanID req) (w_AuthSpanStart req goid).

Definition w_AuthSpanEnd (h : metaheap) (req : Request) (resp : Response) : W :=
  w_deref (req_RPCData req) (fun data => w_deref (rpc_Desc data) (fun desc =>
  newSpanEndEvent h (mkSpanEndData (resp_Duration resp) (resp_Err resp)
    (req_ParentTraceID req) (req_ParentSpanID req)) ;;;
  tb_String (desc_Service desc) ;;;
  tb_String (desc_Endpoint desc) ;;;
  tb_String (resp_AuthUID resp) ;;;
  tb_ByteString (resp_Payload resp))).

Definition l_AuthSpanEnd (nano : Z) (h : metaheap) (p : EventParams) (req : Request)
    (resp : Response) : LogM Z :=
  l_emit nano AuthSpanEnd (TraceID p) (SpanID p) (w_AuthSpanEnd h req resp).

Definition w_PubsubMessageSpanStart (req : Request) (goid : Z) : W :=
  w_deref (req_MsgData req) (fun data =>
  newSpanStartEvent (span_start_data req goid) ;;;
  tb_String (msg_Service data) ;;;
  tb_String (msg_Topic data) ;;;
  tb_String (msg_Subscription data) ;;;
  tb_String (msg_MessageID data) ;;;
  tb_UVarint (u64 (msg_Attempt data)) ;;;
  tb_Time (msg_Published data) ;;;
  tb_ByteString (msg_Payload data)).

Definition l_PubsubMessageSpanStart (nano : Z) (req : Request) (goid : Z) : LogM Z :=
  l_emit nano PubsubMessageSpanStart (req_TraceID req) (req_SpanID req)
    (w_PubsubMessageSpanStart req goid).

Definition w_PubsubMessageSpanEnd (h : metaheap) (req : Request) (resp : Response) : W :=
  w_deref (req_MsgData req) (fun msg =>
  newSpanEndEvent h (mkSpanEndData (resp_Duration resp) (resp_Err resp)
    (req_ParentTraceID req) (req_ParentSpanID req)) ;;;
  tb_String (msg_Service msg) ;;;
  tb_String (msg_Topic msg) ;;;
  tb_String (msg_Subscription msg)).

Definition l_PubsubMessageSpanEnd (nano : Z) (h : metaheap) (p : EventParams) (req : Request)
    (resp : Response) : LogM Z :=
  l_emit nano PubsubMessageSpanEnd (TraceID p) (SpanID p) (w_PubsubMessageSpanEnd h req resp).

Definition w_TestSpanStart (req : Request) (goid : Z) : W :=
  w_deref (req_Test req) (fun data => w_deref (test_Current data) (fun t =>
  newSpanStartEvent (span_start_data req goid) ;;;
  tb_String (test_Service data) ;;;
  tb_String (T_Name t) ;;;
  tb_String (test_UserID data) ;;;
  tb_String (test_TestFile data) ;;;
  tb_Uint32 (test_TestLine data))).

Definition l_TestSpanStart (nano : Z) (req : Request) (goid : Z) : LogM Z :=
  l_emit nano TestStart (req_TraceID req) (req_SpanID req) (w_TestSpanStart req goid).

(** [errors.New("test failed")] when the test failed; [since] is [time.Since(p.Req.Start)]. *)
Definition test_err (t : testing_T) : error :=
  if T_Failed t then [OtherLink (lit "test failed")] else [].

Definition w_TestSpanEnd (h : metaheap) (since : Z) (req : Request) (failed skipped : bool) : W :=
  w_deref (req_Test req) (fun desc => w_deref (test_Current desc) (fun t =>
  newSpanEndEvent h (mkSpanEndData since (test_err t) (req_ParentTraceID req) (req_ParentSpanID req)) ;;;
  tb_String (test_Service desc) ;;;
  tb_String (T_Name t) ;;;
  tb_Bool failed ;;;
  tb_Bool skipped)).

Definition l_TestSpanEnd (nano : Z) (h : metaheap) (since : Z) (p : EventParams) (req : Request)
    (failed skipped : bool) : LogM Z :=
  l_emit nano TestEnd (TraceID p) (SpanID p) (w_TestSpanEnd h since req failed skipped).

(** ** Calls and queries

    [built] is the stack [stack.Build] captures. *)

Definition w_RPCCallStart (built : Stack) (call : APICall) (goid : Z) : W :=
  newEvent (mkParams [] [] goid (call_DefLoc call)) 0 ;;;
  tb_String (call_TargetServiceName call) ;;;
  tb_String (call_TargetEndpointName call) ;;;
  tb_Stack built.

Definition l_RPCCallStart (nano : Z) (built : Stack) (call : APICall) (goid : Z) : LogM Z := fun s =>
  match call_Source call with
  | Some src => l_emit nano RPCCallStart (req_TraceID src) (req_SpanID src) (w_RPCCallStart built call goid) s
  | None => None
  end.

Definition w_RPCCallEnd (call : APICall) (goid : Z) (err : error) : W :=
  newEvent (mkParams [] [] goid 0) (call_StartEventID call) ;;;
  tb_ErrWithStack err.

Definition l_RPCCallEnd (nano : Z) (call : APICall) (goid : Z) (err : error) : LogM Z := fun s =>
  match call_Source call with
  | Some src => l_emit nano RPCCallEnd (req_TraceID src) (req_SpanID src) (w_RPCCallEnd call goid err) s
  | None => None
  end.

Record DBQueryStartParams := mkDBQueryStart { dq_P : EventParams; dq_TxStartID : Z; dq_Stack : Stack; dq_Query : gostring }.

Definition w_DBQueryStart (p : DBQueryStartParams) : W :=
  newEvent (dq_P p) (dq_TxStartID p) ;;;
  tb_String (dq_Query p) ;;;
  tb_Stack (dq_Stack p).

Definition l_DBQueryStart (nano : Z) (p : DBQueryStartParams) : LogM Z :=
  l_emit nano DBQueryStart (TraceID (dq_P p)) (SpanID (dq_P p)) (w_DBQueryStart p).

Definition w_DBQueryEnd (p : EventParams) (startID : Z) (err : error) : W :=
  newEvent p startID ;;; tb_ErrWithStack err.

Definition l_DBQueryEnd (nano : Z) (p : EventParams) (startID : Z) (err : error) : LogM Z :=
  l_emit nano DBQueryEnd (TraceID p) (SpanID p) (w_DBQueryEnd p startID err).

Definition w_DBTransactionStart (p : EventParams) (stk : Stack) : W :=
  newEvent p 0 ;;; tb_Stack stk.

Definition l_DBTransactionStart (nano : Z) (p : EventParams) (stk : Stack) : LogM Z :=
  l_emit nano DBTransactionStart (TraceID p) (SpanID p) (w_DBTransactionStart p stk).

Record DBTransactionEndParams := mkDBTransactionEnd {
  dt_P : EventParams; dt_StartID : Z; dt_Commit : bool; dt_Err : error; dt_Stack : Stack }.

Definition w_DBTransactionEnd (p : DBTransactionEndParams) : W :=
  newEvent (dt_P p) (dt_StartID p) ;;;
  tb_Bool (dt_Commit p) ;;;
  tb_Stack (dt_Stack p) ;;;
  tb_ErrWithStack (dt_Err p).

Definition l_DBTransactionEnd (nano : Z) (p : DBTransactionEndParams) : LogM Z :=
  l_emit nano DBTransactionEnd (TraceID (dt_P p)) (SpanID (dt_P p)) (w_DBTransactionEnd p).

Record PubsubPublishStartParams := mkPubsubPublishStart {
  ps_P : EventParams; ps_Topic : gostring; ps_Message : list byte; ps_Stack : Stack }.

Definition w_PubsubPublishStart (p : PubsubPublishStartParams) : W :=
  newEvent (ps_P p) 0 ;;;
  tb_String (ps_Topic p) ;;;
  tb_ByteString (ps_Message p) ;;;
  tb_Stack (ps_Stack p).

Definition l_PubsubPublishStart (nano : Z) (p : PubsubPublishStartParams) : LogM Z :=
  l_emit nano PubsubPublishStart (TraceID (ps_P p)) (SpanID (ps_P p)) (w_PubsubPublishStart p).

Record PubsubPublishEndParams := mkPubsubPublishEnd {
  pe_P : EventParams; pe_StartID : Z; pe_MessageID : gostring; pe_Err : error }.

Definition w_PubsubPublishEnd (p : PubsubPublishEndParams) : W :=
  newEvent (pe_P p) (pe_StartID p) ;;;
  tb_String (pe_MessageID p) ;;;
  tb_ErrWithStack (pe_Err p).

Definition l_PubsubPublishEnd (nano : Z) (p : PubsubPublishEndParams) : LogM Z :=
  l_emit nano PubsubPublishEnd (TraceID (pe_P p)) (SpanID (pe_P p)) (w_PubsubPublishEnd p).

Record ServiceInitStartParams := mkServiceInitStart { si_P : EventParams; si_Service : gostring }.

Definition w_ServiceInitStart (p : ServiceInitStartParams) : W :=
  newEvent (si_P p) 0 ;;; tb_String (si_Service p).

Definition l_ServiceInitStart (nano : Z) (p : ServiceInitStartParams) : LogM Z :=
  l_emit nano ServiceInitStart (TraceID (si_P p)) (SpanID (si_P p)) (w_ServiceInitStart p).

Definition w_ServiceInitEnd (p : EventParams) (start : Z) (err : error) : W :=
  newEvent p start ;;; tb_ErrWithStack err.

Definition l_ServiceInitEnd (nano : Z) (p : EventParams) (start : Z) (err : error) : LogM Z :=
  l_emit nano ServiceInitEnd (TraceID p) (SpanID p) (w_ServiceInitEnd p start err).

Record CacheCallStartParams := mkCacheCallStart {
  cs_P : EventParams; cs_Operation : gostring; cs_IsWrite : bool; cs_Keys : list gostring; cs_Stack : Stack }.

Definition w_CacheCallStart (p : CacheCallStartParams) : W :=
  newEvent (cs_P p) 0 ;;;
  tb_String (cs_Operation p) ;;;
  tb_Bool (cs_IsWrite p) ;;;
  tb_Stack (cs_Stack p) ;;;
  (tb_UVarint (u64 (blen (cs_Keys p))) ;;; w_forall (cs_Keys p) tb_String).

Definition l_CacheCallStart (nano : Z) (p : CacheCallStartParams) : LogM Z :=
  l_emit nano CacheCallStart (TraceID (cs_P p)) (SpanID (cs_P p)) (w_CacheCallStart p).

(** [CacheCallResult], a byte. *)
Definition CacheOK := 1.
Definition CacheNoSuchKey := 2.
Definition CacheConflict := 3.
Definition CacheErr := 4.

Record CacheCallEndParams := mkCacheCallEnd {
  ce_P : EventParams; ce_StartID : Z; ce_Res : Z; ce_Err : error }.

Definition w_CacheCallEnd (p : CacheCallEndParams) : W :=
  newEvent (ce_P p) (ce_StartID p) ;;;
  tb_Byte (byte_of_Z (ce_Res p)) ;;;
  tb_ErrWithStack (ce_Err p).

Definition l_CacheCallEnd (nano : Z) (p : CacheCallEndParams) : LogM Z :=
  l_emit nano CacheCallEnd (TraceID (ce_P p)) (SpanID (ce_P p)) (w_CacheCallEnd p).

Record BodyStreamParams := mkBodyStream {
  bs_P : EventParams; bs_IsResponse : bool; bs_Overflowed : bool; bs_Data : list byte }.

Definition body_flags (isResponse overflowed : bool) : Z :=
  let flags := 0 in
  let flags := if isResponse then Z.lor flags (Z.shiftl 1 0) else flags in
  if overflowed then Z.lor flags (Z.shiftl 1 1) else flags.

Definition w_BodyStream (p : BodyStreamParams) : W :=
  newEvent (bs_P p) 0 ;;;
  tb_Byte (byte_of_Z (body_flags (bs_IsResponse p) (bs_Overflowed p))) ;;;
  tb_ByteString (bs_Data p).

Definition l_BodyStream (nano : Z) (p : BodyStreamParams) : LogM Z :=
  l_emit nano BodyStream (TraceID (bs_P p)) (SpanID (bs_P p)) (w_BodyStream p).

(** ** Object storage *)

Record BucketObjectAttributes := mkBucketAttrs {
  ba_Size : option Z; ba_Version : option gostring; ba_ETag : option gostring; ba_ContentType : option gostring }.

Definition tb_bucketObjectAttrs (attrs : BucketObjectAttributes) : W :=
  tb_OptUVarint (ba_Size attrs) ;;;
  tb_OptString (ba_Version attrs) ;;;
  tb_OptString (ba_ETag attrs) ;;;
  tb_OptString (ba_ContentType attrs).

Record BucketObjectUploadStartParams := mkUploadStart {
  us_P : EventParams; us_Bucket : gostring; us_Object : gostring; us_Attrs : BucketObjectAttributes; us_Stack : Stack }.

Definition w_BucketObjectUploadStart (p : BucketObjectUploadStartParams) : W :=
  newEvent (us_P p) 0 ;;;
  tb_String (us_Bucket p) ;;;
  tb_String (us_Object p) ;;;
  tb_bucketObjectAttrs (us_Attrs p) ;;;
  tb_Stack (us_Stack p).

Definition l_BucketObjectUploadStart (nano : Z) (p : BucketObjectUploadStartParams) : LogM Z :=
  l_emit nano BucketObjectUploadStart (TraceID (us_P p)) (SpanID (us_P p)) (w_BucketObjectUploadStart p).

Record BucketObjectUploadEndParams := mkUploadEnd {
  ue_P : EventParams; ue_StartID : Z; ue_Err : error; ue_Size : Z; ue_Version : option gostring }.

Definition w_BucketObjectUploadEnd (p : BucketObjectUploadEndParams) : W :=
  newEvent (ue_P p) (ue_StartID p) ;;;
  tb_UVarint (ue_Size p) ;;;
  tb_OptString (ue_Version p) ;;;
  tb_ErrWithStack (ue_Err p).

Definition l_BucketObjectUploadEnd (nano : Z) (p : BucketObjectUploadEndParams) : LogM Z :=
  l_emit nano BucketObjectUploadEnd (TraceID (ue_P p)) (SpanID (ue_P p)) (w_BucketObjectUploadEnd p).

Record BucketObjectDownloadStartParams := mkDownloadStart {
  ds_P : EventParams; ds_Bucket : gostring; ds_Object : gostring; ds_Version : option gostring; ds_Stack : Stack }.

Definition w_BucketObjectDownloadStart (p : BucketObjectDownloadStartParams) : W :=
  newEvent (ds_P p) 0 ;;;
  tb_String (ds_Bucket p) ;;;
  tb_String (ds_Object p) ;;;
  tb_OptString (ds_Version p) ;;;
  tb_Stack (ds_Stack p).

Definition l_BucketObjectDownloadStart (nano : Z) (p : BucketObjectDownloadStartParams) : LogM Z :=
  l_emit nano BucketObjectDownloadStart (TraceID (ds_P p)) (SpanID (ds_P p)) (w_BucketObjectDownloadStart p).

Record BucketObjectDownloadEndParams := mkDownloadEnd {
  de_P : EventParams; de_StartID : Z; de_Err : error; de_Size : Z }.

Definition w_BucketObjectDownloadEnd (p : BucketObjectDownloadEndParams) : W :=
  newEvent (de_P p) (de_StartID p) ;;;
  tb_UVarint (de_Size p) ;;;
  tb_ErrWithStack (de_Err p).

Definition l_BucketObjectDownloadEnd (nano : Z) (p : BucketObjectDownloadEndParams) : LogM Z :=
  l_emit nano BucketObjectDownloadEnd (TraceID (de_P p)) (SpanID (de_P p)) (w_BucketObjectDownloadEnd p).

Record BucketObjectGetAttrsStartParams := mkGetAttrsStart {
  gs_P : EventParams; gs_Bucket : gostring; gs_Object : gostring; gs_Version : option gostring; gs_Stack : Stack }.

Definition w_BucketObjectGetAttrsStart (p : BucketObjectGetAttrsStartParams) : W :=
  newEvent (gs_P p) 0 ;;;
  tb_String (gs_Bucket p) ;;;
  tb_String (gs_Object p) ;;;
  tb_OptString (gs_Version p) ;;;
  tb_Stack (gs_Stack p).

Definition l_BucketObjectGetAttrsStart (nano : Z) (p : BucketObjectGetAttrsStartParams) : LogM Z :=
  l_emit nano BucketObjectGetAttrsStart (TraceID (gs_P p)) (SpanID (gs_P p)) (w_BucketObjectGetAttrsStart p).

Record BucketObjectGetAttrsEndParams := mkGetAttrsEnd {
  ge_P : EventParams; ge_StartID : Z; ge_Err : error; ge_Attrs : option BucketObjectAttributes }.

Definition w_BucketObjectGetAttrsEnd (p : BucketObjectGetAttrsEndParams) : W :=
  newEvent (ge_P p) (ge_StartID p) ;;;
  tb_ErrWithStack (ge_Err p) ;;;
  match ge_Err p with
  | [] => w_deref (ge_Attrs p) tb_bucketObjectAttrs
  | _ => w_skip
  end.

Definition l_BucketObjectGetAttrsEnd (nano : Z) (p : BucketObjectGetAttrsEndParams) : LogM Z :=
  l_emit nano BucketObjectGetAttrsEnd (TraceID (ge_P p)) (SpanID (ge_P p)) (w_BucketObjectGetAttrsEnd p).

Record BucketListObjectsStartParams := mkListStart {
  ls_P : EventParams; ls_Bucket : gostring; ls_Prefix : option gostring; ls_Stack : Stack }.

Definition w_BucketListObjectsStart (p : BucketListObjectsStartParams) : W :=
  newEvent (ls_P p) 0 ;;;
  tb_String (ls_Bucket p) ;;;
  tb_OptString (ls_Prefix p) ;;;
  tb_Stack (ls_Stack p).

Definition l_BucketListObjectsStart (nano : Z) (p : BucketListObjectsStartParams) : LogM Z :=
  l_emit nano BucketListObjectsStart (TraceID (ls_P p)) (SpanID (ls_P p)) (w_BucketListObjectsStart p).

Record BucketListObjectsEndParams := mkListEnd {
  le_P : EventParams; le_StartID : Z; le_Err : error; le_Observed : Z; le_HasMore : bool }.

Definition w_BucketListObjectsEnd (p : BucketListObjectsEndParams) : W :=
  newEvent (le_P p) (le_StartID p) ;;;
  tb_ErrWithStack (le_Err p) ;;;
  tb_UVarint (le_Observed p) ;;;
  tb_Bool (le_HasMore p).

Definition l_BucketListObjectsEnd (nano : Z) (p : BucketListObjectsEndParams) : LogM Z :=
  l_emit nano BucketListObjectsEnd (TraceID (le_P p)) (SpanID (le_P p)) (w_BucketListObjectsEnd p).

Record BucketDeleteObjectsEntry := mkDeleteEntry { be_Object : gostring; be_Version : option gostring }.

Record BucketDeleteObjectsStartParams := mkDeleteStart {
  xs_P : EventParams; xs_Bucket : gostring; xs_Objects : list BucketDeleteObjectsEntry; xs_Stack : Stack }.

Definition w_BucketDeleteObjectsStart (p : BucketDeleteObjectsStartParams) : W :=
  newEvent (xs_P p) 0 ;;;
  tb_String (xs_Bucket p) ;;;
  tb_Stack (xs_Stack p) ;;;
  (tb_UVarint (u64 (blen (xs_Objects p))) ;;;
   w_forall (xs_Objects p) (fun e => tb_String (be_Object e) ;;; tb_OptString (be_Version e))).

Definition l_BucketDeleteObjectsStart (nano : Z) (p : BucketDeleteObjectsStartParams) : LogM Z :=
  l_emit nano BucketDeleteObjectsStart (TraceID (xs_P p)) (SpanID (xs_P p)) (w_BucketDeleteObjectsStart p).

Record BucketDeleteObjectsEndParams := mkDeleteEnd { xe_P : EventParams; xe_StartID : Z; xe_Err : error }.

Definition w_BucketDeleteObjectsEnd (p : BucketDeleteObjectsEndParams) : W :=
  newEvent (xe_P p) (xe_StartID p) ;;; tb_ErrWithStack (xe_Err p).

Definition l_BucketDeleteObjectsEnd (nano : Z) (p : BucketDeleteObjectsEndParams) : LogM Z :=
  l_emit nano BucketDeleteObjectsEnd (TraceID (xe_P p)) (SpanID (xe_P p)) (w_BucketDeleteObjectsEnd p).

(** ** Log messages *)

(** The dynamic values [addLogField] distinguishes; the integer types share a case per
    signedness, all converted to 64 bits.  Any other type is marshalled to JSON. *)
Inductive LogValue :=
| VError (err : error)
| VString (s : gostring)
| VBool (b : bool)
| VTime (t : Time)
| VDuration (d : Z)
| VUUID (u : list byte)
| VInt (i : Z)            (* int8, int16, int32, int64, int *)
| VUint (u : Z)           (* uint8, uint16, uint32, uint64, uint *)
| VFloat32 (bits : Z)
| VFloat64 (bits : Z)
| VOther (v : any).

Record LogField := mkField { f_Key : gostring; f_Value : LogValue }.

Definition addLogField (key : gostring) (val : LogValue) : W :=
  match val with
  | VError err => tb_Byte (byte_of_Z ErrField) ;;; tb_String key ;;; tb_ErrWithStack err
  | VString s => tb_Byte (byte_of_Z StringField) ;;; tb_String key ;;; tb_String s
  | VBool b => tb_Byte (byte_of_Z BoolField) ;;; tb_String key ;;; tb_Bool b
  | VTime t => tb_Byte (byte_of_Z TimeField) ;;; tb_String key ;;; tb_Time t
  | VDuration d => tb_Byte (byte_of_Z DurationField) ;;; tb_String key ;;; tb_Int64 d
  | VUUID u => tb_Byte (byte_of_Z UUIDField) ;;; tb_String key ;;; tb_Bytes u
  | VOther v =>
      tb_Byte (byte_of_Z JSONField) ;;; tb_String key ;;;
      match json_Marshal v with
      | inr err => tb_ByteString [] ;;; tb_ErrWithStack err
      | inl data => tb_ByteString data ;;; tb_ErrWithStack []
      end
  | VInt i => tb_Byte (byte_of_Z IntField) ;;; tb_String key ;;; tb_Varint i
  | VUint u => tb_Byte (byte_of_Z UintField) ;;; tb_String key ;;; tb_UVarint u
  | VFloat32 b => tb_Byte (byte_of_Z Float32Field) ;;; tb_String key ;;; tb_Float32 b
  | VFloat64 b => tb_Byte (byte_of_Z Float64Field) ;;; tb_String key ;;; tb_Float64 b
  end.

Record LogMessageParams := mkLogMessage {
  lm_P : EventParams; lm_Level : Z; lm_Msg : gostring; lm_Stack : Stack; lm_Fields : list LogField }.

Definition w_LogMessage (p : LogMessageParams) : W :=
  newEvent (lm_P p) 0 ;;;
  tb_Byte (byte_of_Z (lm_Level p)) ;;;
  tb_String (lm_Msg p) ;;;
  (tb_UVarint (u64 (blen (lm_Fields p))) ;;;
   w_forall (lm_Fields p) (fun f => addLogField (f_Key f) (f_Value f))) ;;;
  tb_Stack (lm_Stack p).

Definition l_LogMessage (nano : Z) (p : LogMessageParams) : LogM Z :=
  l_emit nano LogMessage (TraceID (lm_P p)) (SpanID (lm_P p)) (w_LogMessage p).

End Events.
