(* ===== verification/TraceHTTP.v ===== *)
(** Outgoing HTTP calls: [runtimes/go/appruntime/exported/trace2/http.go].

    [HTTPBeginRoundTrip] logs the start of a call and creates the round trip whose callbacks
    collect connection events; [HTTPCompleteRoundTrip] writes them out with the end event. *)

From S2P Require Import Prelude Errs TraceBuffer TraceModel TraceLog TraceEvents.

(** ** Event codes and data *)

Definition GetConn := 1.
Definition GotConn := 2.
Definition GotFirstResponseByte := 3.
Definition Got1xxResponse := 4.
Definition DNSStart := 5.
Definition DNSDone := 6.
Definition ConnectStart := 7.
Definition ConnectDone := 8.
Definition TLSHandshakeStart := 9.
Definition TLSHandshakeDone := 10.
Definition WroteHeaders := 11.
Definition WroteRequest := 12.
Definition Wait100Continue := 13.
Definition ClosedBody := 14.

Inductive httpEventData :=
| getConnEvent (hostPort : gostring)
| gotConnEvent (reused wasIdle : bool) (idleTime : Z)
| got1xxResponseEvent (code : Z)
| dnsStartEvent (host : gostring)
| dnsDoneEvent (err : error) (addrs : list (list byte))
| connectStartEvent (network addr : gostring)
| connectDoneEvent (network addr : gostring) (err : error)
| tlsHandshakeDoneEvent (version cipherSuite : Z) (serverName negotiatedProtocol : gostring) (err : error)
| wroteRequestEvent (err : error)
| closedBodyEvent (err : error).

Record httpEvent := mkHttpEvent { he_code : Z; he_ts : Z; he_data : option httpEventData }.

(** The [Encode] methods. *)
Definition http_Encode (d : httpEventData) : W :=
  match d with
  | getConnEvent hostPort => tb_String hostPort
  | gotConnEvent reused wasIdle idleTime => tb_Bool reused ;;; tb_Bool wasIdle ;;; tb_Int64 idleTime
  | got1xxResponseEvent code => tb_Varint code
  | dnsStartEvent host => tb_String host
  | dnsDoneEvent err addrs =>
      match err with
      | [] => tb_String []
      | _ => w_deref (err_msg err) (fun msg => tb_String msg)
      end ;;;
      (tb_UVarint (u64 (blen addrs)) ;;; w_forall addrs tb_ByteString)
  | connectStartEvent network addr => tb_String network ;;; tb_String addr
  | connectDoneEvent network addr err => tb_String network ;;; tb_String addr ;;; tb_Err err
  | tlsHandshakeDoneEvent version cipherSuite serverName negotiatedProtocol err =>
      tb_Err err ;;; tb_Uint32 version ;;; tb_Uint32 cipherSuite ;;;
      tb_String serverName ;;; tb_String negotiatedProtocol
  | wroteRequestEvent err => tb_Err err
  | closedBodyEvent err => tb_Err err
  end.

(** ** The round trip and its callbacks *)

Record httpRoundTrip := mkRoundTrip {
  rt_TraceID : list byte;
  rt_SpanID : list byte;
  rt_StartID : Z;
  rt_CorrelationParentSpanID : list byte;
  rt_events : list httpEvent
}.

(** [addEvent]; [ts] is the clock reading. *)
Definition rt_addEvent (ts : Z) (code : Z) (d : option httpEventData) (rt : httpRoundTrip) : httpRoundTrip :=
  mkRoundTrip (rt_TraceID rt) (rt_SpanID rt) (rt_StartID rt) (rt_CorrelationParentSpanID rt)
    (rt_events rt ++ [mkHttpEvent code ts d]).

Definition rt_getConn ts hostPort := rt_addEvent ts GetConn (Some (getConnEvent hostPort)).
Definition rt_gotConn ts reused wasIdle idle := rt_addEvent ts GotConn (Some (gotConnEvent reused wasIdle idle)).
Definition rt_gotFirstResponseByte ts := rt_addEvent ts GotFirstResponseByte None.
Definition rt_got1xxResponse ts code := rt_addEvent ts Got1xxResponse (Some (got1xxResponseEvent code)).
Definition rt_dnsStart ts host := rt_addEvent ts DNSStart (Some (dnsStartEvent host)).
Definition rt_dnsDone ts err addrs := rt_addEvent ts DNSDone (Some (dnsDoneEvent err addrs)).
Definition rt_connectStart ts network addr := rt_addEvent ts ConnectStart (Some (connectStartEvent network addr)).
Definition rt_connectDone ts network addr err := rt_addEvent ts ConnectDone (Some (connectDoneEvent network addr err)).
Definition rt_tlsHandshakeStart ts := rt_addEvent ts TLSHandshakeStart None.
Definition rt_tlsHandshakeDone ts version cipher server proto err :=
  rt_addEvent ts TLSHandshakeDone (Some (tlsHandshakeDoneEvent version cipher server proto err)).
Definition rt_wroteHeaders ts := rt_addEvent ts WroteHeaders None.
Definition rt_wroteRequest ts err := rt_addEvent ts WroteRequest (Some (wroteRequestEvent err)).
Definition rt_wait100Continue ts := rt_addEvent ts Wait100Continue None.
Definition rt_closedBody ts err := rt_addEvent ts ClosedBody (Some (closedBodyEvent err)).

(** Closing a wrapped response body ([closeTracker], [writerCloseTracker]): the error of the
    wrapped body is recorded and returned. *)
Definition closeTracker_Close (ts : Z) (err : error) (rt : httpRoundTrip) : error * httpRoundTrip :=
  (err, rt_closedBody ts err rt).

Definition encode_event (e : httpEvent) : W :=
  tb_Byte (byte_of_Z (he_code e)) ;;;
  tb_Int64 (he_ts e) ;;;
  match he_data e with Some d => http_Encode d | None => w_skip end.

Definition rt_encodeEvents (rt : httpRoundTrip) : W :=
  tb_UVarint (u64 (blen (rt_events rt))) ;;; w_forall (rt_events rt) encode_event.

(** ** Begin and complete *)

Section RoundTrip.
Context `{E : GoEnv}.

Definition w_HTTPCallStart (goid : Z) (callSpanID : list byte) (method url : gostring)
    (built : Stack) (nanotime : Z) : W :=
  newEvent (mkParams [] [] goid 0) 0 ;;;
  tb_Bytes callSpanID ;;;
  tb_String method ;;;
  tb_String url ;;;
  tb_Stack built ;;;
  tb_Int64 nanotime.

(** [HTTPBeginRoundTrip]: [gen] is the outcome of [model.GenSpanID]; [nano1] and [nano2] are the
    clock readings of the event body and of [Add].  The result is the error of the span id
    generator, or the round trip put in the request's context (none for a nil log). *)
Definition l_HTTPBeginRoundTrip (nano1 nano2 : Z) (gen : list byte + error) (built : Stack)
    (method url : gostring) (req : Request) (goid : Z) : LogM (option httpRoundTrip + error) := fun s =>
  match l_log s with
  | None => Some (inl None, s)
  | Some _ =>
      match gen with
      | inr err => Some (inr err, s)
      | inl callSpanID =>
          match l_emit nano2 HTTPCallStart (req_TraceID req) (req_SpanID req)
                  (w_HTTPCallStart goid callSpanID method url built nano1) s with
          | Some (eventID, s') =>
              Some (inl (Some (mkRoundTrip (req_TraceID req) (req_SpanID req) eventID callSpanID [])), s')
          | None => None
          end
      end
  end.

Definition w_HTTPCallEnd (goid : Z) (rt : httpRoundTrip) (status : option Z) (err : error) : W :=
  newEvent (mkParams [] [] goid 0) (rt_StartID rt) ;;;
  match status with Some code => tb_UVarint (u64 code) | None => tb_UVarint 0 end ;;;
  tb_ErrWithStack err ;;;
  rt_encodeEvents rt.

(** [HTTPCompleteRoundTrip]: [rt] is what the context holds, [status] the status code when there
    is a response.  The result says whether the response body is wrapped, that is, whether
    closing it will call [closedBody]. *)
Definition l_HTTPCompleteRoundTrip (nano : Z) (rt : option httpRoundTrip) (method : gostring)
    (status : option Z) (goid : Z) (err : error) : LogM bool := fun s =>
  match rt with
  | None => Some (false, s)
  | Some rt =>
      match l_emit nano HTTPCallEnd (rt_TraceID rt) (rt_SpanID rt) (w_HTTPCallEnd goid rt status err) s with
      | Some (_, s') =>
          Some (negb (bool_decide (method = lit "HEAD")) && bool_decide (is_Some status), s')
      | None => None
      end
  end.

End RoundTrip.

(** ** The life of a round trip

    The callbacks [HTTPBeginRoundTrip] installs may run at any time; the body is wrapped, and can
    report that it was closed, only once [HTTPCompleteRoundTrip] has run. *)

Inductive callback :=
| CB_getConn (hostPort : gostring)
| CB_gotConn (reused wasIdle : bool) (idle : Z)
| CB_gotFirstResponseByte
| CB_got1xxResponse (code : Z)
| CB_dnsStart (host : gostring)
| CB_dnsDone (err : error) (addrs : list (list byte))
| CB_connectStart (network addr : gostring)
| CB_connectDone (network addr : gostring) (err : error)
| CB_tlsHandshakeStart
| CB_tlsHandshakeDone (version cipher : Z) (server proto : gostring) (err : error)
| CB_wroteHeaders
| CB_wroteRequest (err : error)
| CB_wait100Continue.

Definition run_callback (ts : Z) (cb : callback) : httpRoundTrip -> httpRoundTrip :=
  match cb with
  | CB_getConn hostPort => rt_getConn ts hostPort
  | CB_gotConn reused wasIdle idle => rt_gotConn ts reused wasIdle idle
  | CB_gotFirstResponseByte => rt_gotFirstResponseByte ts
  | CB_got1xxResponse code => rt_got1xxResponse ts code
  | CB_dnsStart host => rt_dnsStart ts host
  | CB_dnsDone err addrs => rt_dnsDone ts err addrs
  | CB_connectStart network addr => rt_connectStart ts network addr
  | CB_connectDone network addr err => rt_connectDone ts network addr err
  | CB_tlsHandshakeStart => rt_tlsHandshakeStart ts
  | CB_tlsHandshakeDone version cipher server proto err => rt_tlsHandshakeDone ts version cipher server proto err
  | CB_wroteHeaders => rt_wroteHeaders ts
  | CB_wroteRequest err => rt_wroteRequest ts err
  | CB_wait100Continue => rt_wait100Continue ts
  end.

Record lifecycle := mkLife {
  life_rt : httpRoundTrip;
  life_log : LogState;
  life_completed : option (list httpEvent);   (* the events the end event was written with *)
  life_wrapped : bool                         (* the response body is wrapped *)
}.

Inductive life_step : lifecycle -> lifecycle -> Prop :=
| LS_callback ts cb rt s c w :
    life_step (mkLife rt s c w) (mkLife (run_callback ts cb rt) s c w)
| LS_complete nano method status goid err rt s s' w' :
    l_HTTPCompleteRoundTrip nano (Some rt) method status goid err s = Some (w', s') ->
    life_step (mkLife rt s None false) (mkLife rt s' (Some (rt_events rt)) w')
| LS_close ts err rt s c :
    life_step (mkLife rt s c true) (mkLife (closeTracker_Close ts err rt).2 s c true).
