(* ===== verification/TraceParser.v ===== *)
(** The trace parser: [pkg/traceparser/parser.go].

    Each [tp_<method>] is the method of the Go parser; the fields of a composite literal are
    read in the order in which they are written, as the language prescribes. *)

From S2P Require Import Prelude Utf8 TraceBuffer TraceReader TraceModel TraceLog TraceEvents TraceHTTP.
Import tracepb2.

(** ** Shared parts *)

(** [option.AsOptional] followed by [PtrOrNil] or [GetOrElse(nil)]: zero values become nil. *)
Definition tp_traceID : R TraceID :=
  b ← tr_Bytes 16;
  mret (mkTraceID (le_value (drop 8 b)) (le_value (take 8 b))).

Definition tp_spanID : R Z := b ← tr_Bytes 8; mret (le_value b).

(** [stack]: the program counters are returned as the differences that were read. *)
Definition tp_stack : R (option StackTrace) :=
  n ← tr_Byte;
  if Z_of_byte n =? 0 then mret None
  else
    diffs ← r_repeat (Z.to_nat (Z_of_byte n)) tr_Varint;
    mret (Some (mkStackTrace diffs [])).

Definition tp_formattedFrame : R StackFrame :=
  filename ← tr_String;
  line ← tr_UVarint;
  func ← tr_String;
  mret (mkStackFrame filename func (i32 line)).

Definition tp_formattedStack : R (option StackTrace) :=
  n ← tr_Byte;
  if Z_of_byte n =? 0 then mret None
  else
    frames ← r_repeat (Z.to_nat (Z_of_byte n)) tp_formattedFrame;
    mret (Some (mkStackTrace [] frames)).

Definition tp_errWithStack : R (option Error) :=
  msg ← tr_String;
  match msg with
  | [] => mret None
  | _ => stk ← tp_stack; mret (Some (mkErr msg stk))
  end.

(** The counted loop of [headers]: later entries overwrite earlier ones with the same key. *)
Fixpoint headers_loop (n : nat) (headers : gmap (list Init.Byte.byte) (list Init.Byte.byte))
  : R (gmap (list Init.Byte.byte) (list Init.Byte.byte)) :=
  match n with
  | O => mret headers
  | S n =>
      k ← tr_String;
      x ← tr_String;
      headers_loop n (<[k := x]> headers)
  end.

(** [headers]: [make(map, n)] treats [n] as a hint and never panics. *)
Definition tp_headers : R (gmap (list Init.Byte.byte) (list Init.Byte.byte)) :=
  n ← tr_UVarint;
  if n =? 0 then mret ∅ else headers_loop (Z.to_nat (i64 n)) ∅.

(** [make([]string, n)] followed by the loop filling it. *)
Definition tp_strings : R (list gostring) :=
  n ← tr_UVarint;
  _ ← r_make 16 n;
  r_repeat (Z.to_nat (i64 n)) tr_String.

(** ** Spans *)

Record spanStartEvent := mkSpanStartEvent {
  sst_Goid : Z;
  sst_ParentTraceID : option TraceID;
  sst_ParentSpanID : option Z;
  sst_DefLoc : option Z;
  sst_CallerEventID : option Z;
  sst_ExtCorrelationID : option gostring
}.

Definition tp_spanStartEvent : R spanStartEvent :=
  goid ← tr_UVarint;
  parentTraceID ← tp_traceID;
  parentSpanID ← tr_Uint64;
  defLoc ← tr_UVarint;
  callerEventID ← tr_UVarint;
  extCorrelationID ← tr_String;
  mret (mkSpanStartEvent (u32 goid)
          (if TraceID_IsZero parentTraceID then None else Some parentTraceID)
          (ptrOrNil_num parentSpanID)
          (ptrOrNil_num (u32 defLoc))
          (ptrOrNil_num callerEventID)
          (ptrOrNil_str extCorrelationID)).

Definition span_start_msg (s : spanStartEvent) (d : SpanStart_Data) : SpanStart :=
  mkSpanStart (sst_Goid s) (sst_ParentTraceID s) (sst_ParentSpanID s) (sst_DefLoc s)
    (sst_CallerEventID s) (sst_ExtCorrelationID s) d.

Record spanEndEvent := mkSpanEndEvent {
  snd_DurationNanos : Z;
  snd_Err : option Error;
  snd_PanicStack : option StackTrace;
  snd_ParentTraceID : option TraceID;
  snd_ParentSpanID : option Z
}.

Definition tp_spanEndEvent : R spanEndEvent :=
  dur ← tr_Duration;
  err ← tp_errWithStack;
  panicStack ← tp_formattedStack;
  parentTraceID ← tp_traceID;
  parentSpanID ← tr_Uint64;
  mret (mkSpanEndEvent (if dur <? 0 then 0 else dur) err panicStack
          (if TraceID_IsZero parentTraceID then None else Some parentTraceID)
          (ptrOrNil_num parentSpanID)).

Definition span_end_msg (s : spanEndEvent) (d : SpanEnd_Data) : SpanEnd :=
  mkSpanEnd (snd_DurationNanos s) (snd_Err s) (snd_PanicStack s) (snd_ParentTraceID s)
    (snd_ParentSpanID s) d.

(** The closure reading the path parameters: nil for none. *)
Definition tp_pathParams : R (list gostring) :=
  n ← tr_UVarint;
  if n =? 0 then mret []
  else _ ← r_make 16 n; r_repeat (Z.to_nat (i64 n)) tr_String.

Definition tp_requestSpanStart : R SpanStart :=
  spanStart ← tp_spanStartEvent;
  serviceName ← tr_String;
  endpointName ← tr_String;
  httpMethod ← tr_String;
  path ← tr_String;
  pathParams ← tp_pathParams;
  requestHeaders ← tp_headers;
  requestPayload ← tr_ByteString;
  extCorrelationId ← tr_String;
  uid ← tr_String;
  mocked ← tr_FromVer_Bool 15 false;
  mret (span_start_msg spanStart
    (SpanStart_Request serviceName endpointName httpMethod path pathParams requestHeaders
       requestPayload (ptrOrNil_str extCorrelationId) (ptrOrNil_str uid) mocked)).

Definition tp_requestSpanEnd : R SpanEnd :=
  spanEnd ← tp_spanEndEvent;
  serviceName ← tr_String;
  endpointName ← tr_String;
  httpStatusCode ← tr_UVarint;
  responseHeaders ← tp_headers;
  responsePayload ← tr_ByteString;
  mret (span_end_msg spanEnd
    (SpanEnd_Request serviceName endpointName (u32 httpStatusCode) responseHeaders responsePayload)).

Definition tp_authSpanStart : R SpanStart :=
  spanStart ← tp_spanStartEvent;
  serviceName ← tr_String;
  endpointName ← tr_String;
  authPayload ← tr_ByteString;
  mret (span_start_msg spanStart (SpanStart_Auth serviceName endpointName authPayload)).

Definition tp_authSpanEnd : R SpanEnd :=
  spanEnd ← tp_spanEndEvent;
  serviceName ← tr_String;
  endpointName ← tr_String;
  uid ← tr_String;
  userData ← tr_ByteString;
  mret (span_end_msg spanEnd (SpanEnd_Auth serviceName endpointName uid userData)).

Definition tp_pubsubMessageSpanStart : R SpanStart :=
  spanStart ← tp_spanStartEvent;
  serviceName ← tr_String;
  topicName ← tr_String;
  subscriptionName ← tr_String;
  messageId ← tr_String;
  attempt ← tr_UVarint;
  publishTime ← tr_Time;
  messagePayload ← tr_ByteString;
  mret (span_start_msg spanStart
    (SpanStart_PubsubMessage serviceName topicName subscriptionName messageId (u32 attempt)
       publishTime messagePayload)).

Definition tp_pubsubMessageSpanEnd : R SpanEnd :=
  spanEnd ← tp_spanEndEvent;
  serviceName ← tr_String;
  topicName ← tr_String;
  subscriptionName ← tr_String;
  mret (span_end_msg spanEnd (SpanEnd_PubsubMessage serviceName topicName subscriptionName)).

Definition tp_testSpanStart : R SpanStart :=
  spanStart ← tp_spanStartEvent;
  serviceName ← tr_String;
  testName ← tr_String;
  uid ← tr_String;
  testFile ← tr_String;
  testLine ← tr_Uint32;
  mret (span_start_msg spanStart (SpanStart_Test serviceName testName uid testFile testLine)).

Definition tp_testSpanEnd : R SpanEnd :=
  spanEnd ← tp_spanEndEvent;
  serviceName ← tr_String;
  testName ← tr_String;
  failed ← tr_Bool;
  skipped ← tr_Bool;
  mret (span_end_msg spanEnd (SpanEnd_Test serviceName testName failed skipped)).

(** ** Span events *)

Definition tp_rpcCallStart : R SpanEvent_Data :=
  targetServiceName ← tr_String;
  targetEndpointName ← tr_String;
  stk ← tp_stack;
  mret (SpanEvent_RpcCallStart targetServiceName targetEndpointName stk).

Definition tp_rpcCallEnd : R SpanEvent_Data := err ← tp_errWithStack; mret (SpanEvent_RpcCallEnd err).

Definition tp_dbQueryStart : R SpanEvent_Data :=
  query ← tr_String;
  stk ← tp_stack;
  mret (SpanEvent_DbQueryStart query stk).

Definition tp_dbQueryEnd : R SpanEvent_Data := err ← tp_errWithStack; mret (SpanEvent_DbQueryEnd err).

Definition tp_dbTransactionStart : R SpanEvent_Data := stk ← tp_stack; mret (SpanEvent_DbTransactionStart stk).

Definition tp_dbTransactionEnd : R SpanEvent_Data :=
  commit ← tr_Bool;
  stk ← tp_stack;
  err ← tp_errWithStack;
  mret (SpanEvent_DbTransactionEnd (if commit : bool then COMMIT else ROLLBACK) stk err).

Definition tp_pubsubPublishStart : R SpanEvent_Data :=
  topic ← tr_String;
  message ← tr_ByteString;
  stk ← tp_stack;
  mret (SpanEvent_PubsubPublishStart topic message stk).

Definition tp_pubsubPublishEnd : R SpanEvent_Data :=
  messageId ← tr_String;
  err ← tp_errWithStack;
  mret (SpanEvent_PubsubPublishEnd (ptrOrNil_str messageId) err).

Definition tp_serviceInitStart : R SpanEvent_Data := service ← tr_String; mret (SpanEvent_ServiceInitStart service).

Definition tp_serviceInitEnd : R SpanEvent_Data := err ← tp_errWithStack; mret (SpanEvent_ServiceInitEnd err).

Definition tp_httpCallStart : R SpanEvent_Data :=
  correlationParentSpanId ← tr_Uint64;
  method ← tr_String;
  url ← tr_String;
  stk ← tp_stack;
  startNanotime ← tr_Int64;
  mret (SpanEvent_HttpCallStart correlationParentSpanId method url stk startNanotime).

(** [httpEvent]: an unknown code yields nil without reading further. *)
Definition tp_httpEvent : R (option HTTPTraceEvent) :=
  codeb ← tr_Byte;
  nanotime ← tr_Int64;
  let code := Z_of_byte codeb in
  let ev d := Some (mkHTTPEvent nanotime d) in
  if code =? GetConn then hostPort ← tr_String; mret (ev (HTTP_GetConn hostPort))
  else if code =? GotConn then
    reused ← tr_Bool; wasIdle ← tr_Bool; idle ← tr_Int64; mret (ev (HTTP_GotConn reused wasIdle idle))
  else if code =? GotFirstResponseByte then mret (ev HTTP_GotFirstResponseByte)
  else if code =? Got1xxResponse then c ← tr_Varint; mret (ev (HTTP_Got1XxResponse (i32 c)))
  else if code =? DNSStart then host ← tr_String; mret (ev (HTTP_DnsStart host))
  else if code =? DNSDone then
    err ← tr_ByteString;
    addrs ← (n ← tr_UVarint; r_repeat (Z.to_nat (i64 n)) tr_ByteString);
    mret (ev (HTTP_DnsDone err addrs))
  else if code =? ConnectStart then
    network ← tr_String; addr ← tr_String; mret (ev (HTTP_ConnectStart network addr))
  else if code =? ConnectDone then
    network ← tr_String; addr ← tr_String; err ← tr_ByteString; mret (ev (HTTP_ConnectDone network addr err))
  else if code =? TLSHandshakeStart then mret (ev HTTP_TlsHandshakeStart)
  else if code =? TLSHandshakeDone then
    err ← tr_ByteString; version ← tr_Uint32; cipher ← tr_Uint32; server ← tr_String; proto ← tr_String;
    mret (ev (HTTP_TlsHandshakeDone err version cipher server proto))
  else if code =? WroteHeaders then mret (ev HTTP_WroteHeaders)
  else if code =? WroteRequest then err ← tr_ByteString; mret (ev (HTTP_WroteRequest err))
  else if code =? Wait100Continue then mret (ev HTTP_Wait100Continue)
  else if code =? ClosedBody then err ← tr_ByteString; mret (ev (HTTP_ClosedBody err))
  else mret None.

Definition tp_httpCallEnd : R SpanEvent_Data :=
  status ← tr_UVarint;
  err ← tp_errWithStack;
  events ← (n ← tr_UVarint;
            _ ← r_make 8 n;
            r_repeat (Z.to_nat (i64 n)) tp_httpEvent);
  mret (SpanEvent_HttpCallEnd (ptrOrNil_num (u32 status)) err (omap id events)).

Definition tp_cacheCallStart : R SpanEvent_Data :=
  operation ← tr_String;
  write ← tr_Bool;
  stk ← tp_stack;
  keys ← tp_strings;
  mret (SpanEvent_CacheCallStart operation write stk keys).

Definition cache_result (res : Z) : CacheCallEnd_Result :=
  if res =? CacheOK then Cache_OK
  else if res =? CacheNoSuchKey then Cache_NO_SUCH_KEY
  else if res =? CacheConflict then Cache_CONFLICT
  else if res =? CacheErr then Cache_ERR
  else Cache_UNKNOWN.

Definition tp_cacheCallEnd : R SpanEvent_Data :=
  res ← tr_Byte;
  err ← tp_errWithStack;
  mret (SpanEvent_CacheCallEnd (cache_result (Z_of_byte res)) err).

Definition tp_bucketObjectAttrs : R tracepb2.BucketObjectAttributes :=
  size ← tr_OptUVarint;
  version ← tr_OptString;
  etag ← tr_OptString;
  contentType ← tr_OptString;
  mret (mkAttrs size version etag contentType).

Definition tp_bucketObjectUploadStart : R SpanEvent_Data :=
  bucket ← tr_String;
  object ← tr_String;
  attrs ← tp_bucketObjectAttrs;
  stk ← tp_stack;
  mret (SpanEvent_BucketObjectUploadStart bucket object attrs stk).

Definition tp_bucketObjectUploadEnd : R SpanEvent_Data :=
  size ← tr_OptUVarint;
  version ← tr_OptString;
  err ← tp_errWithStack;
  mret (SpanEvent_BucketObjectUploadEnd size version err).

Definition tp_bucketObjectDownloadStart : R SpanEvent_Data :=
  bucket ← tr_String;
  object ← tr_String;
  version ← tr_OptString;
  stk ← tp_stack;
  mret (SpanEvent_BucketObjectDownloadStart bucket object version stk).

Definition tp_bucketObjectDownloadEnd : R SpanEvent_Data :=
  size ← tr_OptUVarint;
  err ← tp_errWithStack;
  mret (SpanEvent_BucketObjectDownloadEnd size err).

Definition tp_deleteEntry : R (gostring * option gostring) :=
  object ← tr_String;
  version ← tr_OptString;
  mret (object, version).

Definition tp_bucketDeleteObjectsStart : R SpanEvent_Data :=
  bucket ← tr_String;
  stk ← tp_stack;
  entries ← (num ← tr_UVarint; r_repeat (Z.to_nat (i64 num)) tp_deleteEntry);
  mret (SpanEvent_BucketDeleteObjectsStart bucket stk entries).

Definition tp_bucketDeleteObjectsEnd : R SpanEvent_Data :=
  err ← tp_errWithStack; mret (SpanEvent_BucketDeleteObjectsEnd err).

Definition tp_bucketListObjectsStart : R SpanEvent_Data :=
  bucket ← tr_String;
  prefix ← tr_OptString;
  stk ← tp_stack;
  mret (SpanEvent_BucketListObjectsStart bucket prefix stk).

Definition tp_bucketListObjectsEnd : R SpanEvent_Data :=
  err ← tp_errWithStack;
  observed ← tr_UVarint;
  hasMore ← tr_Bool;
  mret (SpanEvent_BucketListObjectsEnd err observed hasMore).

Definition tp_bucketObjectGetAttrsStart : R SpanEvent_Data :=
  bucket ← tr_String;
  object ← tr_String;
  version ← tr_OptString;
  stk ← tp_stack;
  mret (SpanEvent_BucketObjectGetAttrsStart bucket object version stk).

Definition tp_bucketObjectGetAttrsEnd : R SpanEvent_Data :=
  err ← tp_errWithStack;
  match err with
  | None => attrs ← tp_bucketObjectAttrs; mret (SpanEvent_BucketObjectGetAttrsEnd err (Some attrs))
  | Some _ => mret (SpanEvent_BucketObjectGetAttrsEnd err None)
  end.

Definition tp_bodyStream : R SpanEvent_Data :=
  flags ← tr_Byte;
  d ← tr_ByteString;
  mret (SpanEvent_BodyStream (Z.land (Z_of_byte flags) 1 =? 1) (Z.land (Z_of_byte flags) 2 =? 2) d).

Definition log_level (b : Z) : LogMessage_Level :=
  if b =? LevelTrace then Level_TRACE
  else if b =? LevelDebug then Level_DEBUG
  else if b =? LevelInfo then Level_INFO
  else if b =? LevelWarn then Level_WARN
  else if b =? LevelError then Level_ERROR
  else Level_TRACE.

(** [logField]: an unknown type yields nil after the key has been read. *)
Definition tp_logField : R (option tracepb2.LogField) :=
  typb ← tr_Byte;
  key ← tr_String;
  let typ := Z_of_byte typb in
  let f x := Some (mkLogField key x) in
  if typ =? ErrField then e ← tp_errWithStack; mret (f (LogField_Error e))
  else if typ =? StringField then s ← tr_String; mret (f (LogField_Str s))
  else if typ =? BoolField then b ← tr_Bool; mret (f (LogField_Bool b))
  else if typ =? TimeField then t ← tr_Time; mret (f (LogField_Time t))
  else if typ =? DurationField then d ← tr_Int64; mret (f (LogField_Dur d))
  else if typ =? UUIDField then u ← tr_Bytes 16; mret (f (LogField_Uuid u))
  else if typ =? JSONField then
    val ← tr_ByteString;
    err ← tp_errWithStack;
    mret (f match err with Some e => LogField_Error (Some e) | None => LogField_Json val end)
  else if typ =? IntField then i ← tr_Varint; mret (f (LogField_Int i))
  else if typ =? UintField then u ← tr_UVarint; mret (f (LogField_Uint u))
  else if typ =? Float32Field then b ← tr_Float32; mret (f (LogField_Float32 b))
  else if typ =? Float64Field then b ← tr_Float64; mret (f (LogField_Float64 b))
  else mret None.

Definition tp_logMessage : R SpanEvent_Data :=
  level ← tr_Byte;
  msg ← tr_String;
  fields ← (n ← tr_UVarint;
            _ ← r_make 8 (i64 n);
            r_repeat (Z.to_nat (i64 n)) tp_logField);
  stk ← tp_stack;
  mret (SpanEvent_LogMessage (log_level (Z_of_byte level)) msg fields stk).

(** The dispatch of [spanEvent]. *)
Definition tp_spanEvent_data (typ : Z) : R SpanEvent_Data :=
  if typ =? RPCCallStart then tp_rpcCallStart
  else if typ =? RPCCallEnd then tp_rpcCallEnd
  else if typ =? DBQueryStart then tp_dbQueryStart
  else if typ =? DBQueryEnd then tp_dbQueryEnd
  else if typ =? DBTransactionStart then tp_dbTransactionStart
  else if typ =? DBTransactionEnd then tp_dbTransactionEnd
  else if typ =? PubsubPublishStart then tp_pubsubPublishStart
  else if typ =? PubsubPublishEnd then tp_pubsubPublishEnd
  else if typ =? HTTPCallStart then tp_httpCallStart
  else if typ =? HTTPCallEnd then tp_httpCallEnd
  else if typ =? LogMessage then tp_logMessage
  else if typ =? ServiceInitStart then tp_serviceInitStart
  else if typ =? ServiceInitEnd then tp_serviceInitEnd
  else if typ =? CacheCallStart then tp_cacheCallStart
  else if typ =? CacheCallEnd then tp_cacheCallEnd
  else if typ =? BodyStream then tp_bodyStream
  else if typ =? BucketObjectUploadStart then tp_bucketObjectUploadStart
  else if typ =? BucketObjectUploadEnd then tp_bucketObjectUploadEnd
  else if typ =? BucketObjectDownloadStart then tp_bucketObjectDownloadStart
  else if typ =? BucketObjectDownloadEnd then tp_bucketObjectDownloadEnd
  else if typ =? BucketObjectGetAttrsStart then tp_bucketObjectGetAttrsStart
  else if typ =? BucketObjectGetAttrsEnd then tp_bucketObjectGetAttrsEnd
  else if typ =? BucketListObjectsStart then tp_bucketListObjectsStart
  else if typ =? BucketListObjectsEnd then tp_bucketListObjectsEnd
  else if typ =? BucketDeleteObjectsStart then tp_bucketDeleteObjectsStart
  else if typ =? BucketDeleteObjectsEnd then tp_bucketDeleteObjectsEnd
  else r_panic (PanicUnknownEvent typ).

Definition tp_spanEvent (typ : Z) : R SpanEvent :=
  defLoc ← tr_UVarint;
  goid ← tr_UVarint;
  correlationEventID ← tr_EventID;
  d ← tp_spanEvent_data typ;
  mret (mkSpanEvent (u32 goid) (if u32 defLoc >? 0 then Some (u32 defLoc) else None)
          (if correlationEventID >? 0 then Some correlationEventID else None) d).

(** ** Events *)

(** The body of [parseEvent], before its deferred recovery. *)
Definition tp_event (typ : Z) : R tracepb2.Event :=
  if typ =? RequestSpanStart then s ← tp_requestSpanStart; mret (TraceEvent_SpanStart s)
  else if typ =? RequestSpanEnd then s ← tp_requestSpanEnd; mret (TraceEvent_SpanEnd s)
  else if typ =? AuthSpanStart then s ← tp_authSpanStart; mret (TraceEvent_SpanStart s)
  else if typ =? AuthSpanEnd then s ← tp_authSpanEnd; mret (TraceEvent_SpanEnd s)
  else if typ =? PubsubMessageSpanStart then s ← tp_pubsubMessageSpanStart; mret (TraceEvent_SpanStart s)
  else if typ =? PubsubMessageSpanEnd then s ← tp_pubsubMessageSpanEnd; mret (TraceEvent_SpanEnd s)
  else if typ =? TestStart then s ← tp_testSpanStart; mret (TraceEvent_SpanStart s)
  else if typ =? TestEnd then s ← tp_testSpanEnd; mret (TraceEvent_SpanEnd s)
  else s ← tp_spanEvent typ; mret (TraceEvent_SpanEvent s).

(** [trace2.TimeAnchor] and [ToReal]: the anchor's instant plus the distance in nanoseconds. *)
Record TimeAnchor := mkAnchor { ta_nano : Z; ta_real : Time }.

(** [Time.Add]: the seconds and nanoseconds of the duration (truncated division), then a carry. *)
Definition time_Add (t : Time) (d : Z) : Time :=
  let dsec := Z.quot d (10 ^ 9) in
  let nsec := t_Nanosecond t + Z.rem d (10 ^ 9) in
  let '(dsec, nsec) :=
    if nsec >=? 10 ^ 9 then (dsec + 1, nsec - 10 ^ 9)
    else if nsec <? 0 then (dsec - 1, nsec + 10 ^ 9)
    else (dsec, nsec) in
  mkTime (i64 (t_Unix t + dsec)) nsec.

Definition ta_ToReal (ta : TimeAnchor) (nano : Z) : Time :=
  time_Add (ta_real ta) (i64 (nano - ta_nano ta)).

Record header := mkHeader {
  h_Type : Z; h_EventID : Z; h_Nanotime : Z; h_TraceID : tracepb2.TraceID; h_SpanID : Z; h_Len : Z }.

Definition tp_header (typ : Z) : R header :=
  eventID ← tr_Uint64;
  nanotime ← tr_Nanotime;
  traceID ← tp_traceID;
  spanID ← tr_Uint64;
  len ← tr_Uint32;
  mret (mkHeader typ eventID nanotime traceID spanID len).

(** The errors [ParseEvent] returns. *)
Inductive parse_error :=
| PE_io (e : ioerr)
| PE_recovered (typ : Z) (p : panic)   (* "parse event %v: %v" around a recovered panic *)
| PE_overflowed (typ : Z).

(** [ParseEvent] after the header: the body, and how an end of input inside it is reported. *)
Definition ParseEvent_body (ta : TimeAnchor) (h : header) (st : traceReader)
  : option TraceEvent * option parse_error * list byte :=
  let bytesReadAfterHeader := tr_bytesRead st in
  match tp_event (h_Type h) st with
  | Panicked p st => (None, Some (PE_recovered (h_Type h) p), tr_buf st)
  | Ret ev st =>
      let n := tr_bytesRead st - bytesReadAfterHeader in
      let err :=
        match tr_err st with
        | None => None
        | Some EOF =>
            if n =? h_Len h then Some (PE_io EOF)
            else if n <? h_Len h then Some (PE_io ErrUnexpectedEOF)
            else Some (PE_overflowed (h_Type h))
        | Some e => Some (PE_io e)
        end in
      (Some (mkTraceEvent (h_TraceID h) (h_SpanID h) (h_EventID h) (ta_ToReal ta (h_Nanotime h)) ev),
       err, tr_buf st)
  end.

(** [ParseEvent]: the event (nil on an error before or inside its body), the error and what is
    left in the buffer. *)
Definition ParseEvent (ta : TimeAnchor) (version : Z) (input : list byte)
  : option TraceEvent * option parse_error * list byte :=
  match tr_Byte (mkReader input version 0 None) with
  | Panicked p st => (None, Some (PE_recovered 0 p), tr_buf st)
  | Ret typb st =>
    match tr_err st with
    | Some e => (None, Some (PE_io e), tr_buf st)
    | None =>
      match tp_header (Z_of_byte typb) st with
      | Panicked p st => (None, Some (PE_recovered (Z_of_byte typb) p), tr_buf st)
      | Ret h st =>
        match tr_err st with
        | Some e => (None, Some (PE_io e), tr_buf st)
        | None => ParseEvent_body ta h st
        end
      end
    end
  end.
