(* ===== verification/TraceRoundtrip.v ===== *)
(** What the logger methods write is what the trace parser reads back.

    For each logger method, the message the parser returns is given as a function of the
    method's arguments (the [pb_] definitions), and the writer of the method round-trips with
    the parser's method for that event type. *)

From S2P Require Import Prelude Utf8 Errs TraceBuffer TraceReader TraceCodec TraceModel TraceLog.
From S2P Require Import TraceEvents TraceHTTP TraceParser.
Import tracepb2.

(** ** Well-formed values

    The ranges are those of the Go types; a stack has at most 255 frames ([stack.Build] captures
    at most 101), and an error's text can be computed (its code has a name). *)

Definition wf_stack (s : Stack) : Prop := (length (Frames s) <= 255)%nat.

Definition wf_error (err : error) : Prop :=
  (err <> [] -> is_Some (Error_text err)) /\ wf_stack (errs_Stack err).

(** ** The parsed form of the shared parts *)

(** The differences between successive program counters, relative to the offset. *)
Fixpoint stack_diffs (off prev : Z) (frames : list Z) : list Z :=
  match frames with
  | [] => []
  | pc :: frames =>
      let p := i64 (u64 (pc - off)) in
      i64 (p - prev) :: stack_diffs off p frames
  end.

Definition pb_stack (s : Stack) : option StackTrace :=
  match Frames s with
  | [] => None
  | frames => Some (mkStackTrace (stack_diffs (Off s) 0 frames) [])
  end.

Definition pb_error (err : error) : option tracepb2.Error :=
  match err with
  | [] => None
  | _ => Some (mkErr (to_valid_utf8 (default [] (err_msg err))) (pb_stack (errs_Stack err)))
  end.

Definition pb_frame (f : FormattedFrame) : StackFrame :=
  mkStackFrame (to_valid_utf8 (File f)) (to_valid_utf8 (Func f)) (i32 (u64 (Line f))).

Definition pb_formattedStack `{GoEnv} (s : Stack) : option StackTrace :=
  match stack_Format s with
  | [] => None
  | frames => Some (mkStackTrace [] (pb_frame <$> take 255 frames))
  end.

Definition pb_traceID (id : list byte) : TraceID := mkTraceID (le_value (drop 8 id)) (le_value (take 8 id)).

Definition pb_optTraceID (id : list byte) : option TraceID :=
  if TraceID_IsZero (pb_traceID id) then None else Some (pb_traceID id).

Definition pb_optSpanID (id : list byte) : option Z := ptrOrNil_num (le_value id).

Definition pb_optString (s : option gostring) : option gostring :=
  ptrOrNil_str (to_valid_utf8 (default [] s)).

(** The header map: the first value of each key, in the order the entries were visited. *)
Definition pb_headers `{GoEnv} (hs : Header) : gmap (list Init.Byte.byte) (list Init.Byte.byte) :=
  foldl (fun m kv => <[to_valid_utf8 kv.1 := to_valid_utf8 (default [] (head kv.2))]> m) ∅ (range_order hs).

(** ** Automation *)

#[export] Hint Resolve roundtrips_Byte roundtrips_Bool roundtrips_Uint32 roundtrips_Uint64
  roundtrips_raw_Uint64 roundtrips_UVarint roundtrips_Int64 roundtrips_Varint roundtrips_Int32
  roundtrips_ByteString roundtrips_String roundtrips_raw_String roundtrips_OptString
  roundtrips_OptUVarint roundtrips_Time roundtrips_ret u64_range i64_range u32_range : roundtrip.
#[export] Hint Extern 2 (is_u64 _) => (solve [width]) : roundtrip.
#[export] Hint Extern 2 (is_u32 _) => (solve [width]) : roundtrip.
#[export] Hint Extern 2 (is_i64 _) => (solve [width]) : roundtrip.
#[export] Hint Extern 2 (_ <= _) => lia : roundtrip.

(** One field of an event, against one step of its parser. *)
Ltac rt_field := solve [eauto 3 with roundtrip].
Ltac rt_step :=
  first [ rt_field
        | eapply roundtrips_bind; [rt_field | cbv beta]
        | eapply roundtrips_last; [rt_field | try reflexivity] ].
(** An event whose writer and parser go through the same fields. *)
Ltac roundtrip := repeat rt_step.

(** ** The shared parts *)

Lemma Stack_loop_forall off prev frames :
  Stack_loop off prev frames = w_forall (stack_diffs off prev frames) tb_Varint.
Proof.
  revert prev. induction frames as [|pc frames IH]; intros prev; [done|]. cbn. by rewrite IH.
Qed.

Lemma length_stack_diffs off prev frames : length (stack_diffs off prev frames) = length frames.
Proof. revert prev. induction frames; intros prev; simpl; [done|]. by f_equal. Qed.

Lemma stack_diffs_i64 off prev frames x : x ∈ stack_diffs off prev frames -> is_i64 x.
Proof.
  revert prev. induction frames as [|pc frames IH]; intros prev; cbn; [by intros []%elem_of_nil|].
  intros [-> | H]%elem_of_cons; [apply i64_range | by eapply IH].
Qed.

Lemma Z_of_byte_small n : 0 <= n < 256 -> Z_of_byte (byte_of_Z n) = n.
Proof. intros H. rewrite Z_of_byte_of_Z. by apply Z.mod_small. Qed.

(** A one-byte count, then that many elements. *)
Lemma roundtrips_byte_counted {A B C} v (f : A -> W) (m : R B) (g : A -> B) (l : list A) (K : list B -> C) :
  (1 <= length l <= 255)%nat ->
  (forall x, x ∈ l -> roundtrips1 (f x) v m (g x)) ->
  roundtrips (w_forall l f) v
    (xs ← r_repeat (Z.to_nat (Z_of_byte (byte_of_Z (blen l)))) m; mret (K xs)) (K (g <$> l)).
Proof.
  intros Hl Hel. destruct (roundtrips_repeat v f m g l Hel) as (bs & _ & Hw & Hr).
  eapply roundtrips_last; [|done]. exists bs. split; [done|].
  rewrite Z_of_byte_small by width. unfold blen. by rewrite Nat2Z.id.
Qed.

Lemma roundtrips_Stack v s : wf_stack s -> roundtrips (tb_Stack s) v tp_stack (pb_stack s).
Proof.
  intros Hs. unfold wf_stack in Hs. unfold tb_Stack, tp_stack, pb_stack.
  destruct (Z.gtb_spec (blen (Frames s)) 0xFF) as [H|_]; [width|].
  eapply roundtrips_bind; [apply roundtrips_Byte|]. cbv beta.
  rewrite Z_of_byte_small by width.
  destruct (Frames s) as [|pc frames] eqn:E; [apply roundtrips_ret|].
  rewrite (proj2 (Z.eqb_neq (blen (pc :: frames)) 0)) by (rewrite blen_cons; width).
  rewrite Stack_loop_forall, <- E in *. rewrite E in *.
  replace (blen (pc :: frames)) with (Z_of_byte (byte_of_Z (blen (stack_diffs (Off s) 0 (pc :: frames)))))
    by (unfold blen; rewrite length_stack_diffs; apply Z_of_byte_small; width).
  rewrite <- (list_fmap_id (stack_diffs (Off s) 0 (pc :: frames))) at 3.
  apply (roundtrips_byte_counted v tb_Varint tr_Varint id _ (fun ds => Some (mkStackTrace ds []))).
  - rewrite length_stack_diffs. simpl in *. lia.
  - intros x Hx. by apply roundtrips1_Varint, (stack_diffs_i64 (Off s) 0 (pc :: frames)).
Qed.

Lemma err_msg_nonempty err msg : err_msg err = Some msg -> msg <> [].
Proof. unfold err_msg. destruct (Error_text err) as [[|]|]; intros; simplify_eq; done. Qed.

Lemma wf_error_msg err : wf_error err -> err <> [] -> exists msg, err_msg err = Some msg.
Proof.
  intros [H _] Hne. destruct (H Hne) as [t Ht]. unfold err_msg. rewrite Ht. destruct t; eauto.
Qed.

Lemma roundtrips_ErrWithStack v err :
  wf_error err -> roundtrips (tb_ErrWithStack err) v tp_errWithStack (pb_error err).
Proof.
  intros Hwf. unfold tb_ErrWithStack, tp_errWithStack, pb_error.
  destruct err as [|l err'] eqn:E.
  { rewrite <- (app_nil_r []). destruct (roundtrips_String v []) as (bs & Hw & Hr).
    exists bs. split; [done|]. rewrite <- (app_nil_r bs). eapply reads_bind; [done|].
    apply reads_ret. }
  rewrite <- E in Hwf |- *. destruct (wf_error_msg err Hwf) as [msg Hm]; [by rewrite E|].
  rewrite Hm. cbn [w_deref default].
  eapply roundtrips_bind; [apply roundtrips_String|]. cbv beta.
  destruct (to_valid_utf8 msg) as [|c t] eqn:Ev.
  { exfalso. eapply err_msg_nonempty; [exact Hm|]. by apply to_valid_utf8_nil. }
  eapply roundtrips_last; [apply roundtrips_Stack, Hwf|]. unfold id. by rewrite Ev.
Qed.

(** Errors recorded by their text only, and read as raw bytes. *)
Definition raw_err (err : error) : list byte :=
  match err with [] => [] | _ => default [] (err_msg err) end.

Lemma roundtrips_Err v err : wf_error err -> roundtrips (tb_Err err) v tr_ByteString (raw_err err).
Proof.
  intros Hwf. unfold tb_Err, raw_err. destruct err as [|l err'] eqn:E; [apply roundtrips_ByteString|].
  rewrite <- E in Hwf |- *. destruct (wf_error_msg err Hwf) as [msg Hm]; [by rewrite E|].
  rewrite Hm. apply roundtrips_ByteString.
Qed.

Lemma roundtrips_traceID v id : is_TraceID id -> roundtrips (tb_Bytes id) v tp_traceID (pb_traceID id).
Proof. intros H. eapply roundtrips_last; [by apply roundtrips_Bytes | done]. Qed.

#[export] Hint Resolve roundtrips_Stack roundtrips_ErrWithStack roundtrips_Err roundtrips_traceID : roundtrip.

Section Env.
Context `{E : GoEnv}.

Lemma roundtrips_FormattedStack v s :
  roundtrips (tb_FormattedStack s) v tp_formattedStack (pb_formattedStack s).
Proof.
  unfold tb_FormattedStack, tp_formattedStack, pb_formattedStack.
  set (frames := stack_Format s). clearbody frames.
  set (n := if blen frames >? 0xFF then 0xFF else blen frames).
  assert (n = blen (take 255 frames)) as Hn.
  { unfold n, blen. rewrite length_take. destruct (Z.gtb_spec (Z.of_nat (length frames)) 0xFF); lia. }
  assert (take (Z.to_nat n) frames = take 255 frames) as Ht.
  { rewrite Hn. unfold blen. rewrite Nat2Z.id, length_take.
    destruct (decide (255 <= length frames)%nat); [f_equal; lia|]. rewrite !take_ge by lia. done. }
  assert (length (take 255 frames) <= 255)%nat as Hle by (rewrite length_take; lia).
  eapply roundtrips_bind; [apply roundtrips_Byte|]. cbv beta. rewrite Ht, Hn.
  rewrite Z_of_byte_small at 1 by width.
  destruct frames as [|f frames]; [apply roundtrips_ret|].
  rewrite (proj2 (Z.eqb_neq (blen (take 255 (f :: frames))) 0)) by (cbn [take]; rewrite blen_cons; width).
  apply (roundtrips_byte_counted v _ tp_formattedFrame pb_frame _ (fun fs => Some (mkStackTrace [] fs))).
  - split; [cbn [take length]; lia | done].
  - intros x _. eapply roundtrips1_bind; [apply roundtrips1_String|]. roundtrip.
Qed.

(** [headers_loop] is a counted loop of key-value pairs folded into a map. *)
Definition header_entry : R (gostring * gostring) := k ← tr_String; x ← tr_String; mret (k, x).

Lemma headers_loop_repeat n m st :
  headers_loop n m st
  = (r_repeat n header_entry ≫= (fun kvs => mret (foldl (fun m kv => <[kv.1 := kv.2]> m) m kvs))) st.
Proof.
  revert m st. induction n as [|n IH]; intros m st; [done|].
  cbn [headers_loop r_repeat]. unfold mbind, R_bind.
  change (header_entry st) with
    (match tr_String st with
     | Ret k st1 => match tr_String st1 with Ret x st2 => Ret (k, x) st2 | Panicked p st2 => Panicked p st2 end
     | Panicked p st1 => Panicked p st1
     end).
  destruct (tr_String st) as [k st1|]; [|done]. destruct (tr_String st1) as [x st2|]; [|done].
  rewrite IH. unfold mbind, R_bind. by destruct (r_repeat n header_entry st2).
Qed.

Lemma roundtrips_headers v hs : roundtrips (logHeaders hs) v tp_headers (pb_headers hs).
Proof.
  unfold logHeaders, tp_headers, pb_headers. set (l := range_order hs). clearbody l.
  eapply (roundtrips_counted v _ header_entry
    (fun kv => (to_valid_utf8 kv.1, to_valid_utf8 (default [] (head kv.2))))).
  { intros kv _. eapply roundtrips1_bind; [apply roundtrips1_String|]. roundtrip. }
  intros bs Hl Hr. destruct (Z.eqb_spec (blen l) 0) as [Hz|Hnz].
  { destruct l as [|x l]; [|rewrite blen_cons in Hz; pose proof (blen_nonneg l); lia].
    intros rest n Hb. specialize (Hr rest n Hb). injection Hr as Hb' Hn'.
    cbn. unfold mret, R_ret. by rewrite Hb', <- Hn'. }
  intros rest n Hb. rewrite headers_loop_repeat. rewrite i64_id by width.
  unfold blen at 1. rewrite Nat2Z.id. unfold mbind, R_bind. rewrite (Hr rest n Hb).
  cbn [mret R_ret]. f_equal. rewrite foldl_fmap. done.
Qed.
End Env.

#[export] Hint Resolve roundtrips_FormattedStack roundtrips_headers : roundtrip.

(** ** Spans *)

Definition wf_request (req : Request) : Prop :=
  is_TraceID (req_TraceID req) /\ is_SpanID (req_SpanID req) /\
  is_TraceID (req_ParentTraceID req) /\ is_SpanID (req_ParentSpanID req) /\
  is_u64 (req_CallerEventID req) /\ is_u32 (req_DefLoc req).

Definition wf_response (resp : Response) : Prop :=
  is_i64 (resp_Duration resp) /\ wf_error (resp_Err resp).

(** The fields every span start shares. *)
Definition pb_spanStart (req : Request) (goid : Z) (d : SpanStart_Data) : SpanStart :=
  mkSpanStart goid (pb_optTraceID (req_ParentTraceID req)) (pb_optSpanID (req_ParentSpanID req))
    (ptrOrNil_num (req_DefLoc req)) (ptrOrNil_num (req_CallerEventID req))
    (ptrOrNil_str (to_valid_utf8 (req_ExtCorrelationID req))) d.

(** The fields every span end shares; a negative duration is recorded as 0. *)
Definition pb_spanEnd `{GoEnv} (h : metaheap) (dur : Z) (err : error) (req : Request) (d : SpanEnd_Data) : SpanEnd :=
  mkSpanEnd (Z.max 0 dur) (pb_error err) (pb_formattedStack (panic_stack h err))
    (pb_optTraceID (req_ParentTraceID req)) (pb_optSpanID (req_ParentSpanID req)) d.

Lemma u32_u64 x : u32 (u64 x) = u32 x.
Proof. unfold u32, u64. rewrite Z.mod_mod_divide; [done|]. by exists (2 ^ 32). Qed.

Lemma roundtrips_spanStart v req goid :
  wf_request req -> is_u32 goid ->
  exists s, roundtrips (newSpanStartEvent (span_start_data req goid)) v tp_spanStartEvent s
    /\ forall d, span_start_msg s d = pb_spanStart req goid d.
Proof.
  intros (_ & _ & Ht & Hs & Hc & Hd) Hg. eexists. split.
  - unfold newSpanStartEvent, tp_spanStartEvent, span_start_data.
    cbn [ssd_Goid ssd_ParentTraceID ssd_ParentSpanID ssd_DefLoc ssd_CallerEventID ssd_ExtCorrelationID].
    unfold is_SpanID in Hs. roundtrip.
  - intros d. unfold span_start_msg, pb_spanStart. cbn. by rewrite !u32_id by done.
Qed.

Section Spans.
Context `{E : GoEnv} (v : Z) (h : metaheap) (req : Request).
Hypothesis Hreq : wf_request req.

Lemma roundtrips_spanEnd dur err :
  is_i64 dur -> wf_error err ->
  exists s, roundtrips (newSpanEndEvent h (mkSpanEndData dur err (req_ParentTraceID req) (req_ParentSpanID req)))
      v tp_spanEndEvent s
    /\ forall d, span_end_msg s d = pb_spanEnd h dur err req d.
Proof.
  destruct Hreq as (_ & _ & Ht & Hs & _). intros Hd He. eexists. split.
  - unfold newSpanEndEvent, tp_spanEndEvent, tb_Duration, tr_Duration.
    cbn [sed_Duration sed_Err sed_ParentTraceID sed_ParentSpanID].
    unfold is_SpanID in Hs. roundtrip.
  - intros d. unfold span_end_msg, pb_spanEnd. cbn.
    replace (Z.max 0 dur) with (if dur <? 0 then 0 else dur) by (destruct (Z.ltb_spec dur 0); lia). done.
Qed.
End Spans.

(** ** Counted lists *)

(** Reading the elements after the count, with or without a [make] before the loop. *)
Lemma reads_counted {A} v (m : R A) (xs : list A) {B} (l : list B) bs :
  blen l < 2 ^ 32 -> reads v (r_repeat (length l) m) bs xs ->
  reads v (r_repeat (Z.to_nat (i64 (blen l))) m) bs xs.
Proof.
  intros Hl Hr. pose proof (blen_nonneg l). rewrite i64_id by width.
  unfold blen. by rewrite Nat2Z.id.
Qed.

Lemma roundtrips_list {A B} v (f : A -> W) (m : R B) (g : A -> B) (l : list A) :
  (forall x, x ∈ l -> roundtrips1 (f x) v m (g x)) ->
  roundtrips (tb_UVarint (u64 (blen l)) ;;; w_forall l f) v
    (n ← tr_UVarint; r_repeat (Z.to_nat (i64 n)) m) (g <$> l).
Proof.
  intros Hel. eapply (roundtrips_counted v f m g l _ (g <$> l) Hel). intros bs Hl. by apply reads_counted.
Qed.

Lemma roundtrips_make_list {A B} v sz (c : Z -> Z) (f : A -> W) (m : R B) (g : A -> B) (l : list A) :
  0 <= sz <= 2 ^ 16 -> (forall n, 0 <= n < 2 ^ 32 -> c n = n) ->
  (forall x, x ∈ l -> roundtrips1 (f x) v m (g x)) ->
  roundtrips (tb_UVarint (u64 (blen l)) ;;; w_forall l f) v
    (n ← tr_UVarint; _ ← r_make sz (c n); r_repeat (Z.to_nat (i64 n)) m) (g <$> l).
Proof.
  intros Hsz Hc Hel. eapply (roundtrips_counted v f m g l _ (g <$> l) Hel). intros bs Hl Hr.
  pose proof (blen_nonneg l). rewrite Hc by lia. apply reads_make; [lia|done|]. by apply reads_counted.
Qed.

Lemma roundtrips_pathParams v (l : list PathParam) :
  roundtrips (tb_UVarint (u64 (blen l)) ;;; w_forall l (fun pp => tb_String (pp_Value pp))) v
    tp_pathParams ((to_valid_utf8 ∘ pp_Value) <$> l).
Proof.
  eapply (roundtrips_counted v _ tr_String (to_valid_utf8 ∘ pp_Value)).
  { intros pp _. apply roundtrips1_String. }
  intros bs Hl Hr. pose proof (blen_nonneg l). destruct (Z.eqb_spec (blen l) 0) as [Hz|Hnz].
  - destruct l as [|x l]; [done|]. rewrite blen_cons in Hz. pose proof (blen_nonneg l). lia.
  - apply reads_make; [lia|lia|]. by apply reads_counted.
Qed.

Lemma roundtrips_strings v (l : list gostring) :
  roundtrips (tb_UVarint (u64 (blen l)) ;;; w_forall l tb_String) v tp_strings (to_valid_utf8 <$> l).
Proof.
  apply (roundtrips_make_list v 16 id tb_String tr_String to_valid_utf8); [lia|done|].
  intros. apply roundtrips1_String.
Qed.

#[export] Hint Resolve roundtrips_pathParams roundtrips_strings roundtrips_FromVer_Bool : roundtrip.

(** ** The logger methods, span by span

    [pb_<Method>] is the message of the trace the method records; [None] when the method
    dereferences a nil pointer of its request. *)

Section SpanMethods.
Context `{E : GoEnv}.

Definition pb_RequestSpanStart (req : Request) (goid : Z) : option SpanStart :=
  data ← req_RPCData req; desc ← rpc_Desc data;
  Some (pb_spanStart req goid (SpanStart_Request
    (to_valid_utf8 (desc_Service desc)) (to_valid_utf8 (desc_Endpoint desc))
    (to_valid_utf8 (rpc_HTTPMethod data)) (to_valid_utf8 (rpc_Path data))
    ((to_valid_utf8 ∘ pp_Value) <$> rpc_PathParams data) (pb_headers (rpc_RequestHeaders data))
    (rpc_NonRawPayload data) (ptrOrNil_str (to_valid_utf8 (req_ExtCorrelationID req)))
    (ptrOrNil_str (to_valid_utf8 (rpc_UserID data))) (rpc_Mocked data))).

Definition pb_RequestSpanEnd (h : metaheap) (req : Request) (resp : Response) : option SpanEnd :=
  data ← req_RPCData req; desc ← rpc_Desc data;
  Some (pb_spanEnd h (resp_Duration resp) (resp_Err resp) req (SpanEnd_Request
    (to_valid_utf8 (desc_Service desc)) (to_valid_utf8 (desc_Endpoint desc))
    (u32 (resp_HTTPStatus resp)) (pb_headers (resp_RawResponseHeaders resp)) (resp_Payload resp))).

Definition pb_AuthSpanStart (req : Request) (goid : Z) : option SpanStart :=
  data ← req_RPCData req; desc ← rpc_Desc data;
  Some (pb_spanStart req goid (SpanStart_Auth
    (to_valid_utf8 (desc_Service desc)) (to_valid_utf8 (desc_Endpoint desc)) (rpc_NonRawPayload data))).

Definition pb_AuthSpanEnd (h : metaheap) (req : Request) (resp : Response) : option SpanEnd :=
  data ← req_RPCData req; desc ← rpc_Desc data;
  Some (pb_spanEnd h (resp_Duration resp) (resp_Err resp) req (SpanEnd_Auth
    (to_valid_utf8 (desc_Service desc)) (to_valid_utf8 (desc_Endpoint desc))
    (to_valid_utf8 (resp_AuthUID resp)) (resp_Payload resp))).

Definition pb_PubsubMessageSpanStart (req : Request) (goid : Z) : option SpanStart :=
  data ← req_MsgData req;
  Some (pb_spanStart req goid (SpanStart_PubsubMessage
    (to_valid_utf8 (msg_Service data)) (to_valid_utf8 (msg_Topic data))
    (to_valid_utf8 (msg_Subscription data)) (to_valid_utf8 (msg_MessageID data))
    (u32 (msg_Attempt data)) (msg_Published data) (msg_Payload data))).

Definition pb_PubsubMessageSpanEnd (h : metaheap) (req : Request) (resp : Response) : option SpanEnd :=
  msg ← req_MsgData req;
  Some (pb_spanEnd h (resp_Duration resp) (resp_Err resp) req (SpanEnd_PubsubMessage
    (to_valid_utf8 (msg_Service msg)) (to_valid_utf8 (msg_Topic msg)) (to_valid_utf8 (msg_Subscription msg)))).

Definition pb_TestSpanStart (req : Request) (goid : Z) : option SpanStart :=
  data ← req_Test req; t ← test_Current data;
  Some (pb_spanStart req goid (SpanStart_Test
    (to_valid_utf8 (test_Service data)) (to_valid_utf8 (T_Name t)) (to_valid_utf8 (test_UserID data))
    (to_valid_utf8 (test_TestFile data)) (test_TestLine data))).

Definition pb_TestSpanEnd (h : metaheap) (since : Z) (req : Request) (failed skipped : bool) : option SpanEnd :=
  desc ← req_Test req; t ← test_Current desc;
  Some (pb_spanEnd h since (test_err t) req (SpanEnd_Test
    (to_valid_utf8 (test_Service desc)) (to_valid_utf8 (T_Name t)) failed skipped)).

Ltac span_start Hreq Hg :=
  let s := fresh "s" in let Hs := fresh "Hs" in let Heq := fresh "Heq" in
  match goal with |- roundtrips (newSpanStartEvent (span_start_data ?req ?goid) ;;; _) ?v _ _ =>
    destruct (roundtrips_spanStart v req goid Hreq Hg) as (s & Hs & Heq);
    eapply roundtrips_bind; [exact Hs | cbv beta; roundtrip; try apply Heq]
  end.
Ltac span_end Hreq Hd He :=
  let s := fresh "s" in let Hs := fresh "Hs" in let Heq := fresh "Heq" in
  match goal with |- roundtrips (newSpanEndEvent ?h (mkSpanEndData ?dur ?err (req_ParentTraceID ?req) _) ;;; _) ?v _ _ =>
    destruct (roundtrips_spanEnd v h req Hreq dur err Hd He) as (s & Hs & Heq);
    eapply roundtrips_bind; [exact Hs | cbv beta; roundtrip; rewrite ?u32_u64; try apply Heq]
  end.

(** Following the pointers of the request. *)
Ltac deref :=
  repeat match goal with
  | |- (_ ≫= _) = Some _ -> _ => let x := fresh in let Hx := fresh "Hx" in
      intros (x & Hx & ?)%bind_Some; rewrite Hx; cbn [w_deref]
  | H : (_ ≫= _) = Some _ |- _ => let x := fresh in let Hx := fresh "Hx" in
      apply bind_Some in H as (x & Hx & H); rewrite Hx; cbn [w_deref]
  | H : Some _ = Some _ |- _ => injection H as <-
  end.

Lemma roundtrips_RequestSpanStart v req goid m :
  15 <= v -> wf_request req -> is_u32 goid -> pb_RequestSpanStart req goid = Some m ->
  roundtrips (w_RequestSpanStart req goid) v tp_requestSpanStart m.
Proof. intros Hv Hreq Hg Hm. unfold pb_RequestSpanStart, w_RequestSpanStart in *. deref. span_start Hreq Hg. Qed.

Lemma roundtrips_RequestSpanEnd v h req resp m :
  wf_request req -> wf_response resp -> pb_RequestSpanEnd h req resp = Some m ->
  roundtrips (w_RequestSpanEnd h req resp) v tp_requestSpanEnd m.
Proof.
  intros Hreq [Hd He] Hm. unfold pb_RequestSpanEnd, w_RequestSpanEnd in *. deref. span_end Hreq Hd He.
Qed.

Lemma roundtrips_AuthSpanStart v req goid m :
  wf_request req -> is_u32 goid -> pb_AuthSpanStart req goid = Some m ->
  roundtrips (w_AuthSpanStart req goid) v tp_authSpanStart m.
Proof. intros Hreq Hg Hm. unfold pb_AuthSpanStart, w_AuthSpanStart in *. deref. span_start Hreq Hg. Qed.

Lemma roundtrips_AuthSpanEnd v h req resp m :
  wf_request req -> wf_response resp -> pb_AuthSpanEnd h req resp = Some m ->
  roundtrips (w_AuthSpanEnd h req resp) v tp_authSpanEnd m.
Proof.
  intros Hreq [Hd He] Hm. unfold pb_AuthSpanEnd, w_AuthSpanEnd in *. deref. span_end Hreq Hd He.
Qed.

Lemma roundtrips_PubsubMessageSpanStart v req goid m :
  wf_request req -> is_u32 goid -> (forall d, req_MsgData req = Some d -> wf_time (msg_Published d)) ->
  pb_PubsubMessageSpanStart req goid = Some m ->
  roundtrips (w_PubsubMessageSpanStart req goid) v tp_pubsubMessageSpanStart m.
Proof.
  intros Hreq Hg Ht Hm. unfold pb_PubsubMessageSpanStart, w_PubsubMessageSpanStart in *. deref.
  pose proof (Ht _ Hx). span_start Hreq Hg. by rewrite u32_u64, Heq.
Qed.

Lemma roundtrips_PubsubMessageSpanEnd v h req resp m :
  wf_request req -> wf_response resp -> pb_PubsubMessageSpanEnd h req resp = Some m ->
  roundtrips (w_PubsubMessageSpanEnd h req resp) v tp_pubsubMessageSpanEnd m.
Proof.
  intros Hreq [Hd He] Hm. unfold pb_PubsubMessageSpanEnd, w_PubsubMessageSpanEnd in *. deref.
  span_end Hreq Hd He.
Qed.

Lemma roundtrips_TestSpanStart v req goid m :
  wf_request req -> is_u32 goid -> (forall d, req_Test req = Some d -> is_u32 (test_TestLine d)) ->
  pb_TestSpanStart req goid = Some m ->
  roundtrips (w_TestSpanStart req goid) v tp_testSpanStart m.
Proof.
  intros Hreq Hg Hl Hm. unfold pb_TestSpanStart, w_TestSpanStart in *. deref.
  pose proof (Hl _ Hx). span_start Hreq Hg.
Qed.

Lemma roundtrips_TestSpanEnd v h since req failed skipped m :
  wf_request req -> is_i64 since -> pb_TestSpanEnd h since req failed skipped = Some m ->
  roundtrips (w_TestSpanEnd h since req failed skipped) v tp_testSpanEnd m.
Proof.
  intros Hreq Hd Hm. unfold pb_TestSpanEnd, w_TestSpanEnd in *. deref.
  assert (forall t, wf_error (test_err t)) as He.
  { intros t. unfold test_err, wf_error, wf_stack. by destruct (T_Failed t); cbn; split; try lia. }
  match goal with |- context [test_err ?t] => pose proof (He t) as Het end. span_end Hreq Hd Het.
Qed.
End SpanMethods.

(** ** Span events *)

Definition wf_params (p : EventParams) : Prop :=
  is_TraceID (TraceEvents.TraceID p) /\ is_SpanID (SpanID p) /\ is_u32 (Goid p) /\ is_u32 (DefLoc p).

Definition pb_event (goid defLoc corr : Z) (d : SpanEvent_Data) : SpanEvent :=
  mkSpanEvent goid (ptrOrNil_num defLoc) (ptrOrNil_num corr) d.

Lemma ptrOrNil_pos z : 0 <= z -> (if z >? 0 then Some z else None) = ptrOrNil_num z.
Proof.
  intros H. unfold ptrOrNil_num. destruct (Z.gtb_spec z 0), (Z.eqb_spec z 0); (done || lia).
Qed.

Lemma roundtrips_spanEvent v typ p corr w d :
  is_u32 (Goid p) -> is_u32 (DefLoc p) -> is_u64 corr ->
  roundtrips w v (tp_spanEvent_data typ) d ->
  roundtrips (newEvent p corr ;;; w) v (tp_spanEvent typ) (pb_event (Goid p) (DefLoc p) corr d).
Proof.
  intros Hg Hl Hc Hw. unfold newEvent, tp_spanEvent, tb_EventID, tr_EventID, pb_event.
  repeat apply roundtrips_assoc.
  eapply roundtrips_bind; [by apply roundtrips_UVarint; width|].
  apply roundtrips_assoc. eapply roundtrips_bind; [by apply roundtrips_UVarint; width|].
  eapply roundtrips_bind; [by apply roundtrips_UVarint|].
  eapply roundtrips_last; [exact Hw|]. rewrite !u32_id by done. rewrite !ptrOrNil_pos by width. done.
Qed.

Definition pb_attrs (a : TraceEvents.BucketObjectAttributes) : BucketObjectAttributes :=
  mkAttrs (ptrOrNil_num (default 0 (ba_Size a))) (pb_optString (ba_Version a)) (pb_optString (ba_ETag a))
    (pb_optString (ba_ContentType a)).

Definition wf_attrs (a : TraceEvents.BucketObjectAttributes) : Prop :=
  forall n, ba_Size a = Some n -> is_u64 n.

Lemma roundtrips_bucketObjectAttrs v a :
  wf_attrs a -> roundtrips (tb_bucketObjectAttrs a) v tp_bucketObjectAttrs (pb_attrs a).
Proof. intros H. unfold tb_bucketObjectAttrs, tp_bucketObjectAttrs, wf_attrs in *. roundtrip. Qed.

(** An optional unsigned field of the parser that the writer always fills. *)
Lemma roundtrips_UVarint_opt v u : is_u64 u -> roundtrips (tb_UVarint u) v tr_OptUVarint (ptrOrNil_num u).
Proof. intros Hu. eapply roundtrips_last; [by apply roundtrips_UVarint | done]. Qed.

#[export] Hint Resolve roundtrips_bucketObjectAttrs roundtrips_UVarint_opt : roundtrip.

(** *** Log fields *)

Lemma roundtrips_Float32 v b : is_u32 b -> roundtrips (tb_Float32 b) v tr_Float32 b.
Proof. apply roundtrips_Uint32. Qed.

Lemma roundtrips_Float64 v b : is_u64 b -> roundtrips (tb_Float64 b) v tr_Float64 b.
Proof. apply roundtrips_Uint64. Qed.

#[export] Hint Resolve roundtrips_Float32 roundtrips_Float64 : roundtrip.

Section LogFields.
Context `{E : GoEnv}.

Definition pb_value (val : LogValue) : LogField_Value :=
  match val with
  | VError err => LogField_Error (pb_error err)
  | VString s => LogField_Str (to_valid_utf8 s)
  | VBool b => LogField_Bool b
  | VTime t => LogField_Time t
  | VDuration d => LogField_Dur d
  | VUUID u => LogField_Uuid u
  | VInt i => LogField_Int i
  | VUint u => LogField_Uint u
  | VFloat32 b => LogField_Float32 b
  | VFloat64 b => LogField_Float64 b
  | VOther x =>
      match json_Marshal x with
      | inl data => LogField_Json data
      | inr err => LogField_Error (pb_error err)
      end
  end.

Definition pb_field (f : TraceEvents.LogField) : tracepb2.LogField := mkLogField (to_valid_utf8 (f_Key f)) (pb_value (f_Value f)).

Definition wf_value (val : LogValue) : Prop :=
  match val with
  | VError err => wf_error err
  | VString _ | VBool _ => True
  | VTime t => wf_time t
  | VDuration d => is_i64 d
  | VUUID u => length u = 16%nat
  | VInt i => is_i64 i
  | VUint u => is_u64 u
  | VFloat32 b => is_u32 b
  | VFloat64 b => is_u64 b
  | VOther x => forall err, json_Marshal x = inr err -> err <> [] /\ wf_error err
  end.

Lemma roundtrips_addLogField v key val :
  wf_value val ->
  roundtrips1 (addLogField key val) v tp_logField (Some (mkLogField (to_valid_utf8 key) (pb_value val))).
Proof.
  intros Hwf. unfold tp_logField.
  destruct val; cbn [addLogField pb_value wf_value] in *;
    try (eapply roundtrips1_bind; [apply roundtrips1_Byte | cbv beta zeta];
         rewrite Z_of_byte_small by (cbv; split; [discriminate | reflexivity]);
         eapply roundtrips_bind; [apply roundtrips_String | cbn -[tb_Float32 tr_Float32 tb_Float64 tr_Float64]; roundtrip]).
  - eapply roundtrips_last; [by apply roundtrips_Bytes | done].
  - match goal with |- context [json_Marshal ?x] => destruct (json_Marshal x) as [data|err] end.
    + eapply roundtrips_bind; [rt_field|].
      eapply roundtrips_last; [apply (roundtrips_ErrWithStack v [])|done].
      by split; [|unfold wf_stack; cbn; lia].
    + destruct (Hwf err eq_refl) as [Hne He]. eapply roundtrips_bind; [rt_field|].
      eapply roundtrips_last; [by apply roundtrips_ErrWithStack|]. by destruct err.
Qed.
End LogFields.

(** *** HTTP events *)

Definition pb_httpData (code : Z) (d : option httpEventData) : option HTTPTraceEvent_Data :=
  match d with
  | Some (getConnEvent hostPort) => Some (HTTP_GetConn (to_valid_utf8 hostPort))
  | Some (gotConnEvent reused wasIdle idle) => Some (HTTP_GotConn reused wasIdle idle)
  | Some (got1xxResponseEvent c) => Some (HTTP_Got1XxResponse (i32 c))
  | Some (dnsStartEvent host) => Some (HTTP_DnsStart (to_valid_utf8 host))
  | Some (dnsDoneEvent err addrs) => Some (HTTP_DnsDone (raw_err err) addrs)
  | Some (connectStartEvent network addr) => Some (HTTP_ConnectStart (to_valid_utf8 network) (to_valid_utf8 addr))
  | Some (connectDoneEvent network addr err) =>
      Some (HTTP_ConnectDone (to_valid_utf8 network) (to_valid_utf8 addr) (raw_err err))
  | Some (tlsHandshakeDoneEvent version cipher server proto err) =>
      Some (HTTP_TlsHandshakeDone (raw_err err) version cipher (to_valid_utf8 server) (to_valid_utf8 proto))
  | Some (wroteRequestEvent err) => Some (HTTP_WroteRequest (raw_err err))
  | Some (closedBodyEvent err) => Some (HTTP_ClosedBody (raw_err err))
  | None =>
      if code =? GotFirstResponseByte then Some HTTP_GotFirstResponseByte
      else if code =? TLSHandshakeStart then Some HTTP_TlsHandshakeStart
      else if code =? WroteHeaders then Some HTTP_WroteHeaders
      else if code =? Wait100Continue then Some HTTP_Wait100Continue
      else None
  end.

Definition pb_httpEvent (e : httpEvent) : option HTTPTraceEvent :=
  mkHTTPEvent (he_ts e) <$> pb_httpData (he_code e) (he_data e).

(** The events the callbacks create: the code is that of the data. *)
Definition wf_httpData (code : Z) (d : option httpEventData) : Prop :=
  match d with
  | Some (getConnEvent _) => code = GetConn
  | Some (gotConnEvent _ _ idle) => code = GotConn /\ is_i64 idle
  | Some (got1xxResponseEvent c) => code = Got1xxResponse /\ is_i64 c
  | Some (dnsStartEvent _) => code = DNSStart
  | Some (dnsDoneEvent err _) => code = DNSDone /\ wf_error err
  | Some (connectStartEvent _ _) => code = ConnectStart
  | Some (connectDoneEvent _ _ err) => code = ConnectDone /\ wf_error err
  | Some (tlsHandshakeDoneEvent version cipher _ _ err) =>
      code = TLSHandshakeDone /\ is_u32 version /\ is_u32 cipher /\ wf_error err
  | Some (wroteRequestEvent err) => code = WroteRequest /\ wf_error err
  | Some (closedBodyEvent err) => code = ClosedBody /\ wf_error err
  | None => code ∈ [GotFirstResponseByte; TLSHandshakeStart; WroteHeaders; Wait100Continue]
  end.

Definition wf_httpEvent (e : httpEvent) : Prop := is_i64 (he_ts e) /\ wf_httpData (he_code e) (he_data e).

Lemma roundtrips_addrs v (addrs : list (list byte)) :
  roundtrips (tb_UVarint (u64 (blen addrs)) ;;; w_forall addrs tb_ByteString) v
    (n ← tr_UVarint; r_repeat (Z.to_nat (i64 n)) tr_ByteString) addrs.
Proof.
  rewrite <- (list_fmap_id addrs) at 3. apply roundtrips_list. intros. apply roundtrips1_ByteString.
Qed.

#[export] Hint Resolve roundtrips_addrs : roundtrip.

Lemma roundtrips_httpEvent v e :
  wf_httpEvent e ->
  roundtrips1 (encode_event e) v tp_httpEvent (pb_httpEvent e).
Proof.
  destruct e as [code ts d]. intros [Hts Hd]. cbn [he_ts he_code he_data] in *.
  unfold encode_event, tp_httpEvent, pb_httpEvent. cbn [he_ts he_code he_data].
  eapply roundtrips1_bind; [apply roundtrips1_Byte|]. cbv beta.
  eapply roundtrips_bind; [by apply roundtrips_Int64|]. cbv beta zeta.
  destruct d as [[]|]; cbn [wf_httpData pb_httpData http_Encode fmap option_fmap option_map] in *;
    destruct_and?; subst; try (rewrite Z_of_byte_small by (cbv; split; [discriminate | reflexivity]);
      cbn -[tb_Err tr_ByteString tb_Bool tb_Int64 tr_Int64 tr_Bool tb_UVarint u64]; by roundtrip).
  repeat (apply elem_of_cons in Hd as [->|Hd]; [|]); try apply roundtrips_ret. by apply elem_of_nil in Hd.
Qed.

Lemma roundtrips_httpEvents v rt :
  Forall wf_httpEvent (rt_events rt) ->
  roundtrips (rt_encodeEvents rt) v
    (n ← tr_UVarint; _ ← r_make 8 n; r_repeat (Z.to_nat (i64 n)) tp_httpEvent) (pb_httpEvent <$> rt_events rt).
Proof.
  intros H. apply (roundtrips_make_list v 8 id encode_event); [lia | done |].
  intros e He. apply roundtrips_httpEvent. rewrite list.Forall_forall in H. by apply H.
Qed.

#[export] Hint Resolve roundtrips_httpEvents : roundtrip.
