(* ===== verification/TraceCalls.v ===== *)
(** Every method of the trace logger, as one data type of calls, and the round trip of each.

    [l_call] runs a call against a log; [pb_call] is the event the trace parser is to return for
    it; [call_roundtrips] shows that what the method writes is what the parser reads. *)

From S2P Require Import Prelude Utf8 Errs TraceBuffer TraceReader TraceCodec TraceModel TraceLog.
From S2P Require Import TraceEvents TraceHTTP TraceParser TraceRoundtrip.

Inductive LogCall :=
| C_RequestSpanStart (req : Request) (goid : Z)
| C_RequestSpanEnd (h : metaheap) (p : EventParams) (req : Request) (resp : Response)
| C_AuthSpanStart (req : Request) (goid : Z)
| C_AuthSpanEnd (h : metaheap) (p : EventParams) (req : Request) (resp : Response)
| C_PubsubMessageSpanStart (req : Request) (goid : Z)
| C_PubsubMessageSpanEnd (h : metaheap) (p : EventParams) (req : Request) (resp : Response)
| C_TestSpanStart (req : Request) (goid : Z)
| C_TestSpanEnd (h : metaheap) (since : Z) (p : EventParams) (req : Request) (failed skipped : bool)
| C_RPCCallStart (built : Stack) (call : APICall) (goid : Z)
| C_RPCCallEnd (call : APICall) (goid : Z) (err : error)
| C_DBQueryStart (p : DBQueryStartParams)
| C_DBQueryEnd (p : EventParams) (startID : Z) (err : error)
| C_DBTransactionStart (p : EventParams) (stk : Stack)
| C_DBTransactionEnd (p : DBTransactionEndParams)
| C_PubsubPublishStart (p : PubsubPublishStartParams)
| C_PubsubPublishEnd (p : PubsubPublishEndParams)
| C_ServiceInitStart (p : ServiceInitStartParams)
| C_ServiceInitEnd (p : EventParams) (start : Z) (err : error)
| C_CacheCallStart (p : CacheCallStartParams)
| C_CacheCallEnd (p : CacheCallEndParams)
| C_BodyStream (p : BodyStreamParams)
| C_BucketObjectUploadStart (p : BucketObjectUploadStartParams)
| C_BucketObjectUploadEnd (p : BucketObjectUploadEndParams)
| C_BucketObjectDownloadStart (p : BucketObjectDownloadStartParams)
| C_BucketObjectDownloadEnd (p : BucketObjectDownloadEndParams)
| C_BucketObjectGetAttrsStart (p : BucketObjectGetAttrsStartParams)
| C_BucketObjectGetAttrsEnd (p : BucketObjectGetAttrsEndParams)
| C_BucketListObjectsStart (p : BucketListObjectsStartParams)
| C_BucketListObjectsEnd (p : BucketListObjectsEndParams)
| C_BucketDeleteObjectsStart (p : BucketDeleteObjectsStartParams)
| C_BucketDeleteObjectsEnd (p : BucketDeleteObjectsEndParams)
| C_LogMessage (p : LogMessageParams)
| C_HTTPBeginRoundTrip (nano1 : Z) (gen : list byte) (built : Stack) (method url : gostring)
    (req : Request) (goid : Z)
| C_HTTPCompleteRoundTrip (rt : httpRoundTrip) (method : gostring) (status : option Z) (goid : Z) (err : error).

Section Calls.
Context `{E : GoEnv}.

(** Running a call; [nano] is the clock reading of [Add], results other than the log are dropped. *)
Definition l_call (nano : Z) (c : LogCall) : LogM () :=
  match c with
  | C_RequestSpanStart req goid => _ ← l_RequestSpanStart nano req goid; mret ()
  | C_RequestSpanEnd h p req resp => _ ← l_RequestSpanEnd nano h p req resp; mret ()
  | C_AuthSpanStart req goid => _ ← l_AuthSpanStart nano req goid; mret ()
  | C_AuthSpanEnd h p req resp => _ ← l_AuthSpanEnd nano h p req resp; mret ()
  | C_PubsubMessageSpanStart req goid => _ ← l_PubsubMessageSpanStart nano req goid; mret ()
  | C_PubsubMessageSpanEnd h p req resp => _ ← l_PubsubMessageSpanEnd nano h p req resp; mret ()
  | C_TestSpanStart req goid => _ ← l_TestSpanStart nano req goid; mret ()
  | C_TestSpanEnd h since p req failed skipped => _ ← l_TestSpanEnd nano h since p req failed skipped; mret ()
  | C_RPCCallStart built call goid => _ ← l_RPCCallStart nano built call goid; mret ()
  | C_RPCCallEnd call goid err => _ ← l_RPCCallEnd nano call goid err; mret ()
  | C_DBQueryStart p => _ ← l_DBQueryStart nano p; mret ()
  | C_DBQueryEnd p startID err => _ ← l_DBQueryEnd nano p startID err; mret ()
  | C_DBTransactionStart p stk => _ ← l_DBTransactionStart nano p stk; mret ()
  | C_DBTransactionEnd p => _ ← l_DBTransactionEnd nano p; mret ()
  | C_PubsubPublishStart p => _ ← l_PubsubPublishStart nano p; mret ()
  | C_PubsubPublishEnd p => _ ← l_PubsubPublishEnd nano p; mret ()
  | C_ServiceInitStart p => _ ← l_ServiceInitStart nano p; mret ()
  | C_ServiceInitEnd p start err => _ ← l_ServiceInitEnd nano p start err; mret ()
  | C_CacheCallStart p => _ ← l_CacheCallStart nano p; mret ()
  | C_CacheCallEnd p => _ ← l_CacheCallEnd nano p; mret ()
  | C_BodyStream p => _ ← l_BodyStream nano p; mret ()
  | C_BucketObjectUploadStart p => _ ← l_BucketObjectUploadStart nano p; mret ()
  | C_BucketObjectUploadEnd p => _ ← l_BucketObjectUploadEnd nano p; mret ()
  | C_BucketObjectDownloadStart p => _ ← l_BucketObjectDownloadStart nano p; mret ()
  | C_BucketObjectDownloadEnd p => _ ← l_BucketObjectDownloadEnd nano p; mret ()
  | C_BucketObjectGetAttrsStart p => _ ← l_BucketObjectGetAttrsStart nano p; mret ()
  | C_BucketObjectGetAttrsEnd p => _ ← l_BucketObjectGetAttrsEnd nano p; mret ()
  | C_BucketListObjectsStart p => _ ← l_BucketListObjectsStart nano p; mret ()
  | C_BucketListObjectsEnd p => _ ← l_BucketListObjectsEnd nano p; mret ()
  | C_BucketDeleteObjectsStart p => _ ← l_BucketDeleteObjectsStart nano p; mret ()
  | C_BucketDeleteObjectsEnd p => _ ← l_BucketDeleteObjectsEnd nano p; mret ()
  | C_LogMessage p => _ ← l_LogMessage nano p; mret ()
  | C_HTTPBeginRoundTrip nano1 gen built method url req goid =>
      _ ← l_HTTPBeginRoundTrip nano1 nano (inl gen) built method url req goid; mret ()
  | C_HTTPCompleteRoundTrip rt method status goid err =>
      _ ← l_HTTPCompleteRoundTrip nano (Some rt) method status goid err; mret ()
  end.

(** The event type, the trace and span it belongs to, and the writer of its body. *)
Definition src_ids (src : option Request) : list byte * list byte :=
  match src with Some r => (req_TraceID r, req_SpanID r) | None => ([], []) end.

Definition p_ids (p : EventParams) : list byte * list byte := (TraceID p, SpanID p).

Definition call_emit (c : LogCall) : Z * (list byte * list byte) * W :=
  match c with
  | C_RequestSpanStart req goid => (RequestSpanStart, src_ids (Some req), w_RequestSpanStart req goid)
  | C_RequestSpanEnd h p req resp => (RequestSpanEnd, p_ids p, w_RequestSpanEnd h req resp)
  | C_AuthSpanStart req goid => (AuthSpanStart, src_ids (Some req), w_AuthSpanStart req goid)
  | C_AuthSpanEnd h p req resp => (AuthSpanEnd, p_ids p, w_AuthSpanEnd h req resp)
  | C_PubsubMessageSpanStart req goid =>
      (PubsubMessageSpanStart, src_ids (Some req), w_PubsubMessageSpanStart req goid)
  | C_PubsubMessageSpanEnd h p req resp => (PubsubMessageSpanEnd, p_ids p, w_PubsubMessageSpanEnd h req resp)
  | C_TestSpanStart req goid => (TestStart, src_ids (Some req), w_TestSpanStart req goid)
  | C_TestSpanEnd h since p req failed skipped => (TestEnd, p_ids p, w_TestSpanEnd h since req failed skipped)
  | C_RPCCallStart built call goid => (RPCCallStart, src_ids (call_Source call), w_RPCCallStart built call goid)
  | C_RPCCallEnd call goid err => (RPCCallEnd, src_ids (call_Source call), w_RPCCallEnd call goid err)
  | C_DBQueryStart p => (DBQueryStart, p_ids (dq_P p), w_DBQueryStart p)
  | C_DBQueryEnd p startID err => (DBQueryEnd, p_ids p, w_DBQueryEnd p startID err)
  | C_DBTransactionStart p stk => (DBTransactionStart, p_ids p, w_DBTransactionStart p stk)
  | C_DBTransactionEnd p => (DBTransactionEnd, p_ids (dt_P p), w_DBTransactionEnd p)
  | C_PubsubPublishStart p => (PubsubPublishStart, p_ids (ps_P p), w_PubsubPublishStart p)
  | C_PubsubPublishEnd p => (PubsubPublishEnd, p_ids (pe_P p), w_PubsubPublishEnd p)
  | C_ServiceInitStart p => (ServiceInitStart, p_ids (si_P p), w_ServiceInitStart p)
  | C_ServiceInitEnd p start err => (ServiceInitEnd, p_ids p, w_ServiceInitEnd p start err)
  | C_CacheCallStart p => (CacheCallStart, p_ids (cs_P p), w_CacheCallStart p)
  | C_CacheCallEnd p => (CacheCallEnd, p_ids (ce_P p), w_CacheCallEnd p)
  | C_BodyStream p => (BodyStream, p_ids (bs_P p), w_BodyStream p)
  | C_BucketObjectUploadStart p => (BucketObjectUploadStart, p_ids (us_P p), w_BucketObjectUploadStart p)
  | C_BucketObjectUploadEnd p => (BucketObjectUploadEnd, p_ids (ue_P p), w_BucketObjectUploadEnd p)
  | C_BucketObjectDownloadStart p => (BucketObjectDownloadStart, p_ids (ds_P p), w_BucketObjectDownloadStart p)
  | C_BucketObjectDownloadEnd p => (BucketObjectDownloadEnd, p_ids (de_P p), w_BucketObjectDownloadEnd p)
  | C_BucketObjectGetAttrsStart p => (BucketObjectGetAttrsStart, p_ids (gs_P p), w_BucketObjectGetAttrsStart p)
  | C_BucketObjectGetAttrsEnd p => (BucketObjectGetAttrsEnd, p_ids (ge_P p), w_BucketObjectGetAttrsEnd p)
  | C_BucketListObjectsStart p => (BucketListObjectsStart, p_ids (ls_P p), w_BucketListObjectsStart p)
  | C_BucketListObjectsEnd p => (BucketListObjectsEnd, p_ids (le_P p), w_BucketListObjectsEnd p)
  | C_BucketDeleteObjectsStart p => (BucketDeleteObjectsStart, p_ids (xs_P p), w_BucketDeleteObjectsStart p)
  | C_BucketDeleteObjectsEnd p => (BucketDeleteObjectsEnd, p_ids (xe_P p), w_BucketDeleteObjectsEnd p)
  | C_LogMessage p => (LogMessage, p_ids (lm_P p), w_LogMessage p)
  | C_HTTPBeginRoundTrip nano1 gen built method url req goid =>
      (HTTPCallStart, src_ids (Some req), w_HTTPCallStart goid gen method url built nano1)
  | C_HTTPCompleteRoundTrip rt method status goid err =>
      (HTTPCallEnd, (rt_TraceID rt, rt_SpanID rt), w_HTTPCallEnd goid rt status err)
  end.
Definition call_type c := (call_emit c).1.1.
Definition call_trace c := (call_emit c).1.2.1.
Definition call_span c := (call_emit c).1.2.2.
Definition call_writer c := (call_emit c).2.

End Calls.

(** ** The event a call records *)

Section Expected.
Context `{E : GoEnv}.
Import tracepb2.

Definition pb_params (p : EventParams) (corr : Z) (d : SpanEvent_Data) : option Event :=
  Some (TraceEvent_SpanEvent (pb_event (Goid p) (DefLoc p) corr d)).

Definition pb_deleteEntry (e : BucketDeleteObjectsEntry) : gostring * option gostring :=
  (to_valid_utf8 (be_Object e), pb_optString (be_Version e)).

(** [None]: the call dereferences a nil pointer. *)
Definition pb_call (c : LogCall) : option Event :=
  match c with
  | C_RequestSpanStart req goid => TraceEvent_SpanStart <$> pb_RequestSpanStart req goid
  | C_RequestSpanEnd h p req resp => TraceEvent_SpanEnd <$> pb_RequestSpanEnd h req resp
  | C_AuthSpanStart req goid => TraceEvent_SpanStart <$> pb_AuthSpanStart req goid
  | C_AuthSpanEnd h p req resp => TraceEvent_SpanEnd <$> pb_AuthSpanEnd h req resp
  | C_PubsubMessageSpanStart req goid => TraceEvent_SpanStart <$> pb_PubsubMessageSpanStart req goid
  | C_PubsubMessageSpanEnd h p req resp => TraceEvent_SpanEnd <$> pb_PubsubMessageSpanEnd h req resp
  | C_TestSpanStart req goid => TraceEvent_SpanStart <$> pb_TestSpanStart req goid
  | C_TestSpanEnd h since p req failed skipped =>
      TraceEvent_SpanEnd <$> pb_TestSpanEnd h since req failed skipped
  | C_RPCCallStart built call goid =>
      _ ← call_Source call;
      Some (TraceEvent_SpanEvent (pb_event goid (call_DefLoc call) 0
        (SpanEvent_RpcCallStart (to_valid_utf8 (call_TargetServiceName call))
           (to_valid_utf8 (call_TargetEndpointName call)) (pb_stack built))))
  | C_RPCCallEnd call goid err =>
      _ ← call_Source call;
      Some (TraceEvent_SpanEvent (pb_event goid 0 (call_StartEventID call) (SpanEvent_RpcCallEnd (pb_error err))))
  | C_DBQueryStart p =>
      pb_params (dq_P p) (dq_TxStartID p) (SpanEvent_DbQueryStart (to_valid_utf8 (dq_Query p)) (pb_stack (dq_Stack p)))
  | C_DBQueryEnd p startID err => pb_params p startID (SpanEvent_DbQueryEnd (pb_error err))
  | C_DBTransactionStart p stk => pb_params p 0 (SpanEvent_DbTransactionStart (pb_stack stk))
  | C_DBTransactionEnd p =>
      pb_params (dt_P p) (dt_StartID p) (SpanEvent_DbTransactionEnd
        (if dt_Commit p then COMMIT else ROLLBACK) (pb_stack (dt_Stack p)) (pb_error (dt_Err p)))
  | C_PubsubPublishStart p =>
      pb_params (ps_P p) 0 (SpanEvent_PubsubPublishStart (to_valid_utf8 (ps_Topic p)) (ps_Message p)
        (pb_stack (ps_Stack p)))
  | C_PubsubPublishEnd p =>
      pb_params (pe_P p) (pe_StartID p) (SpanEvent_PubsubPublishEnd
        (ptrOrNil_str (to_valid_utf8 (pe_MessageID p))) (pb_error (pe_Err p)))
  | C_ServiceInitStart p => pb_params (si_P p) 0 (SpanEvent_ServiceInitStart (to_valid_utf8 (si_Service p)))
  | C_ServiceInitEnd p start err => pb_params p start (SpanEvent_ServiceInitEnd (pb_error err))
  | C_CacheCallStart p =>
      pb_params (cs_P p) 0 (SpanEvent_CacheCallStart (to_valid_utf8 (cs_Operation p)) (cs_IsWrite p)
        (pb_stack (cs_Stack p)) (to_valid_utf8 <$> cs_Keys p))
  | C_CacheCallEnd p =>
      pb_params (ce_P p) (ce_StartID p) (SpanEvent_CacheCallEnd (cache_result (ce_Res p)) (pb_error (ce_Err p)))
  | C_BodyStream p => pb_params (bs_P p) 0 (SpanEvent_BodyStream (bs_IsResponse p) (bs_Overflowed p) (bs_Data p))
  | C_BucketObjectUploadStart p =>
      pb_params (us_P p) 0 (SpanEvent_BucketObjectUploadStart (to_valid_utf8 (us_Bucket p))
        (to_valid_utf8 (us_Object p)) (pb_attrs (us_Attrs p)) (pb_stack (us_Stack p)))
  | C_BucketObjectUploadEnd p =>
      pb_params (ue_P p) (ue_StartID p) (SpanEvent_BucketObjectUploadEnd (ptrOrNil_num (ue_Size p))
        (pb_optString (ue_Version p)) (pb_error (ue_Err p)))
  | C_BucketObjectDownloadStart p =>
      pb_params (ds_P p) 0 (SpanEvent_BucketObjectDownloadStart (to_valid_utf8 (ds_Bucket p))
        (to_valid_utf8 (ds_Object p)) (pb_optString (ds_Version p)) (pb_stack (ds_Stack p)))
  | C_BucketObjectDownloadEnd p =>
      pb_params (de_P p) (de_StartID p) (SpanEvent_BucketObjectDownloadEnd (ptrOrNil_num (de_Size p))
        (pb_error (de_Err p)))
  | C_BucketObjectGetAttrsStart p =>
      pb_params (gs_P p) 0 (SpanEvent_BucketObjectGetAttrsStart (to_valid_utf8 (gs_Bucket p))
        (to_valid_utf8 (gs_Object p)) (pb_optString (gs_Version p)) (pb_stack (gs_Stack p)))
  | C_BucketObjectGetAttrsEnd p =>
      match ge_Err p with
      | [] => attrs ← ge_Attrs p;
              pb_params (ge_P p) (ge_StartID p) (SpanEvent_BucketObjectGetAttrsEnd None (Some (pb_attrs attrs)))
      | err => pb_params (ge_P p) (ge_StartID p) (SpanEvent_BucketObjectGetAttrsEnd (pb_error err) None)
      end
  | C_BucketListObjectsStart p =>
      pb_params (ls_P p) 0 (SpanEvent_BucketListObjectsStart (to_valid_utf8 (ls_Bucket p))
        (pb_optString (ls_Prefix p)) (pb_stack (ls_Stack p)))
  | C_BucketListObjectsEnd p =>
      pb_params (le_P p) (le_StartID p) (SpanEvent_BucketListObjectsEnd (pb_error (le_Err p))
        (le_Observed p) (le_HasMore p))
  | C_BucketDeleteObjectsStart p =>
      pb_params (xs_P p) 0 (SpanEvent_BucketDeleteObjectsStart (to_valid_utf8 (xs_Bucket p))
        (pb_stack (xs_Stack p)) (pb_deleteEntry <$> xs_Objects p))
  | C_BucketDeleteObjectsEnd p =>
      pb_params (xe_P p) (xe_StartID p) (SpanEvent_BucketDeleteObjectsEnd (pb_error (xe_Err p)))
  | C_LogMessage p =>
      pb_params (lm_P p) 0 (SpanEvent_LogMessage (log_level (lm_Level p)) (to_valid_utf8 (lm_Msg p))
        ((Some ∘ pb_field) <$> lm_Fields p) (pb_stack (lm_Stack p)))
  | C_HTTPBeginRoundTrip nano1 gen built method url req goid =>
      Some (TraceEvent_SpanEvent (pb_event goid 0 0 (SpanEvent_HttpCallStart (le_value gen)
        (to_valid_utf8 method) (to_valid_utf8 url) (pb_stack built) nano1)))
  | C_HTTPCompleteRoundTrip rt method status goid err =>
      Some (TraceEvent_SpanEvent (pb_event goid 0 (rt_StartID rt) (SpanEvent_HttpCallEnd
        (ptrOrNil_num (u32 (default 0 status))) (pb_error err) (omap pb_httpEvent (rt_events rt)))))
  end.

(** The arguments are values of their Go types, and stacks have at most 255 frames. *)
Definition wf_call (c : LogCall) : Prop :=
  match c with
  | C_RequestSpanStart req goid | C_AuthSpanStart req goid => wf_request req /\ is_u32 goid
  | C_PubsubMessageSpanStart req goid =>
      wf_request req /\ is_u32 goid /\ forall d, req_MsgData req = Some d -> wf_time (msg_Published d)
  | C_TestSpanStart req goid =>
      wf_request req /\ is_u32 goid /\ forall d, req_Test req = Some d -> is_u32 (test_TestLine d)
  | C_RequestSpanEnd h p req resp | C_AuthSpanEnd h p req resp | C_PubsubMessageSpanEnd h p req resp =>
      wf_params p /\ wf_request req /\ wf_response resp
  | C_TestSpanEnd h since p req failed skipped => wf_params p /\ wf_request req /\ is_i64 since
  | C_RPCCallStart built call goid =>
      (forall r, call_Source call = Some r -> wf_request r) /\ is_u32 goid /\ is_u32 (call_DefLoc call) /\ wf_stack built
  | C_RPCCallEnd call goid err =>
      (forall r, call_Source call = Some r -> wf_request r) /\ is_u32 goid /\ is_u64 (call_StartEventID call) /\ wf_error err
  | C_DBQueryStart p => wf_params (dq_P p) /\ is_u64 (dq_TxStartID p) /\ wf_stack (dq_Stack p)
  | C_DBQueryEnd p id err | C_ServiceInitEnd p id err => wf_params p /\ is_u64 id /\ wf_error err
  | C_DBTransactionStart p stk => wf_params p /\ wf_stack stk
  | C_DBTransactionEnd p => wf_params (dt_P p) /\ is_u64 (dt_StartID p) /\ wf_error (dt_Err p) /\ wf_stack (dt_Stack p)
  | C_PubsubPublishStart p => wf_params (ps_P p) /\ wf_stack (ps_Stack p)
  | C_PubsubPublishEnd p => wf_params (pe_P p) /\ is_u64 (pe_StartID p) /\ wf_error (pe_Err p)
  | C_ServiceInitStart p => wf_params (si_P p)
  | C_CacheCallStart p => wf_params (cs_P p) /\ wf_stack (cs_Stack p)
  | C_CacheCallEnd p => wf_params (ce_P p) /\ is_u64 (ce_StartID p) /\ is_u8 (ce_Res p) /\ wf_error (ce_Err p)
  | C_BodyStream p => wf_params (bs_P p)
  | C_BucketObjectUploadStart p => wf_params (us_P p) /\ wf_attrs (us_Attrs p) /\ wf_stack (us_Stack p)
  | C_BucketObjectUploadEnd p => wf_params (ue_P p) /\ is_u64 (ue_StartID p) /\ is_u64 (ue_Size p) /\ wf_error (ue_Err p)
  | C_BucketObjectDownloadStart p => wf_params (ds_P p) /\ wf_stack (ds_Stack p)
  | C_BucketObjectDownloadEnd p => wf_params (de_P p) /\ is_u64 (de_StartID p) /\ is_u64 (de_Size p) /\ wf_error (de_Err p)
  | C_BucketObjectGetAttrsStart p => wf_params (gs_P p) /\ wf_stack (gs_Stack p)
  | C_BucketObjectGetAttrsEnd p =>
      wf_params (ge_P p) /\ is_u64 (ge_StartID p) /\ wf_error (ge_Err p) /\
      forall a, ge_Attrs p = Some a -> wf_attrs a
  | C_BucketListObjectsStart p => wf_params (ls_P p) /\ wf_stack (ls_Stack p)
  | C_BucketListObjectsEnd p =>
      wf_params (le_P p) /\ is_u64 (le_StartID p) /\ wf_error (le_Err p) /\ is_u64 (le_Observed p)
  | C_BucketDeleteObjectsStart p => wf_params (xs_P p) /\ wf_stack (xs_Stack p)
  | C_BucketDeleteObjectsEnd p => wf_params (xe_P p) /\ is_u64 (xe_StartID p) /\ wf_error (xe_Err p)
  | C_LogMessage p =>
      wf_params (lm_P p) /\ is_u8 (lm_Level p) /\ wf_stack (lm_Stack p) /\
      Forall (fun f => wf_value (f_Value f)) (lm_Fields p)
  | C_HTTPBeginRoundTrip nano1 gen built method url req goid =>
      wf_request req /\ is_u32 goid /\ is_SpanID gen /\ wf_stack built /\ is_i64 nano1
  | C_HTTPCompleteRoundTrip rt method status goid err =>
      is_TraceID (rt_TraceID rt) /\ is_SpanID (rt_SpanID rt) /\ is_u32 goid /\ is_u64 (rt_StartID rt) /\
      wf_error err /\ Forall wf_httpEvent (rt_events rt)
  end.
End Expected.

(** ** Each call is read back *)

Lemma omap_id_fmap {A B} (f : A -> option B) (l : list A) : omap id (f <$> l) = omap f l.
Proof. induction l as [|x l IH]; [done|]. cbn. unfold id in *. by destruct (f x); rewrite IH. Qed.

Section Roundtrip.
Context `{E : GoEnv}.
Import tracepb2.

Lemma roundtrips_event_of v typ p corr w d :
  tp_event typ = (s ← tp_spanEvent typ; mret (TraceEvent_SpanEvent s)) ->
  is_u32 (Goid p) -> is_u32 (DefLoc p) -> is_u64 corr ->
  roundtrips w v (tp_spanEvent_data typ) d ->
  roundtrips (newEvent p corr ;;; w) v (tp_event typ)
    (TraceEvent_SpanEvent (pb_event (Goid p) (DefLoc p) corr d)).
Proof.
  intros -> Hg Hl Hc Hw. eapply roundtrips_last; [by apply roundtrips_spanEvent | done].
Qed.

(** The dispatch of the parser on a constant event type. *)
Ltac dispatch :=
  match goal with |- roundtrips _ _ (tp_spanEvent_data ?t) _ =>
    let t' := eval cbv in t in change t with t'; cbv [tp_spanEvent_data]; cbn [Z.eqb Pos.eqb
      RPCCallStart RPCCallEnd DBQueryStart DBQueryEnd DBTransactionStart DBTransactionEnd
      PubsubPublishStart PubsubPublishEnd HTTPCallStart HTTPCallEnd LogMessage ServiceInitStart
      ServiceInitEnd CacheCallStart CacheCallEnd BodyStream BucketObjectUploadStart
      BucketObjectUploadEnd BucketObjectDownloadStart BucketObjectDownloadEnd
      BucketObjectGetAttrsStart BucketObjectGetAttrsEnd BucketListObjectsStart BucketListObjectsEnd
      BucketDeleteObjectsStart BucketDeleteObjectsEnd]
  end.

(** A span event whose body has the parser's fields in order. *)
Ltac span_event :=
  unfold wf_params in *; destruct_and?;
  apply roundtrips_event_of; [reflexivity | done | done | first [done | width] | dispatch; roundtrip].

Lemma roundtrips_deleteEntry v e :
  roundtrips1 (tb_String (be_Object e) ;;; tb_OptString (be_Version e)) v tp_deleteEntry (pb_deleteEntry e).
Proof. eapply roundtrips1_bind; [apply roundtrips1_String|]. roundtrip. Qed.

Lemma roundtrips_BucketDeleteObjectsStart v p :
  wf_params (xs_P p) -> wf_stack (xs_Stack p) ->
  roundtrips (w_BucketDeleteObjectsStart p) v (tp_event BucketDeleteObjectsStart)
    (TraceEvent_SpanEvent (pb_event (Goid (xs_P p)) (DefLoc (xs_P p)) 0
      (SpanEvent_BucketDeleteObjectsStart (to_valid_utf8 (xs_Bucket p)) (pb_stack (xs_Stack p))
         (pb_deleteEntry <$> xs_Objects p)))).
Proof.
  intros Hp Hs. span_event.
  eapply roundtrips_last; [|done]. apply roundtrips_list. intros. apply roundtrips_deleteEntry.
Qed.

Lemma roundtrips_LogMessage v p :
  wf_params (lm_P p) -> is_u8 (lm_Level p) -> wf_stack (lm_Stack p) ->
  Forall (fun f => wf_value (f_Value f)) (lm_Fields p) ->
  roundtrips (w_LogMessage p) v (tp_event LogMessage)
    (TraceEvent_SpanEvent (pb_event (Goid (lm_P p)) (DefLoc (lm_P p)) 0
      (SpanEvent_LogMessage (log_level (lm_Level p)) (to_valid_utf8 (lm_Msg p))
        ((Some ∘ pb_field) <$> lm_Fields p) (pb_stack (lm_Stack p))))).
Proof.
  intros Hp Hl Hs Hf. span_event.
  eapply roundtrips_bind.
  - apply (roundtrips_make_list v 8 i64 _ tp_logField (Some ∘ pb_field)); [lia|intros; apply i64_id; width|].
    intros f Hin. rewrite list.Forall_forall in Hf. by apply roundtrips_addLogField, Hf.
  - eapply roundtrips_last; [by apply roundtrips_Stack|]. rewrite Z_of_byte_small by apply Hl. done.
Qed.

Lemma roundtrips_GetAttrsEnd v p ev :
  wf_call (C_BucketObjectGetAttrsEnd p) -> pb_call (C_BucketObjectGetAttrsEnd p) = Some ev ->
  roundtrips (w_BucketObjectGetAttrsEnd p) v (tp_event BucketObjectGetAttrsEnd) ev.
Proof.
  intros (Hp & Hi & He & Ha) Hev. unfold wf_params in Hp. destruct_and!.
  unfold w_BucketObjectGetAttrsEnd. cbn [pb_call] in Hev.
  destruct (ge_Err p) as [|l err] eqn:Herr.
  - apply bind_Some in Hev as (attrs & Hattrs & [= <-]). rewrite Hattrs. cbn [w_deref].
    apply roundtrips_event_of; try done. dispatch.
    eapply roundtrips_bind; [by apply roundtrips_ErrWithStack|]. cbn [pb_error].
    eapply roundtrips_last; [by apply roundtrips_bucketObjectAttrs, Ha | done].
  - injection Hev as <-. apply roundtrips_event_of; try done. dispatch.
    eapply roundtrips_bind; [by apply roundtrips_ErrWithStack|]. apply roundtrips_ret.
Qed.

Lemma roundtrips_status v (status : option Z) :
  roundtrips (match status with Some code => tb_UVarint (u64 code) | None => tb_UVarint 0 end) v
    tr_UVarint (u64 (default 0 status)).
Proof. destruct status; apply roundtrips_UVarint; first [apply u64_range | width]. Qed.

Lemma roundtrips_BodyStream v p :
  wf_params (bs_P p) ->
  roundtrips (w_BodyStream p) v (tp_event BodyStream)
    (TraceEvent_SpanEvent (pb_event (Goid (bs_P p)) (DefLoc (bs_P p)) 0
      (SpanEvent_BodyStream (bs_IsResponse p) (bs_Overflowed p) (bs_Data p)))).
Proof.
  intros Hp. span_event. by destruct (bs_IsResponse p), (bs_Overflowed p).
Qed.

Ltac span_call lem Hev :=
  cbn [pb_call] in Hev; apply fmap_Some in Hev as (m & Hm & ->); destruct_and?;
  eapply roundtrips_last; [by apply lem | done].

(** Every logger method is read back by the parser, for every protocol version from 15 on. *)
Lemma call_roundtrips v c ev :
  15 <= v -> wf_call c -> pb_call c = Some ev ->
  roundtrips (call_writer c) v (tp_event (call_type c)) ev.
Proof.
  intros Hv Hwf Hev. unfold call_writer, call_type.
  destruct c; cbn [call_emit fst snd]; cbn [wf_call] in Hwf.
  - span_call roundtrips_RequestSpanStart Hev.
  - span_call roundtrips_RequestSpanEnd Hev.
  - span_call roundtrips_AuthSpanStart Hev.
  - span_call roundtrips_AuthSpanEnd Hev.
  - span_call roundtrips_PubsubMessageSpanStart Hev.
  - span_call roundtrips_PubsubMessageSpanEnd Hev.
  - span_call roundtrips_TestSpanStart Hev.
  - span_call roundtrips_TestSpanEnd Hev.
  - apply bind_Some in Hev as (src & _ & [= <-]). destruct_and!.
    apply (roundtrips_event_of v _ (mkParams [] [] goid (call_DefLoc call))); try done. dispatch; roundtrip.
  - apply bind_Some in Hev as (src & _ & [= <-]). destruct_and!.
    apply (roundtrips_event_of v _ (mkParams [] [] goid 0)); try done. dispatch; roundtrip.
  - injection Hev as <-. span_event.
  - injection Hev as <-. span_event.
  - injection Hev as <-. span_event.
  - injection Hev as <-. span_event.
  - injection Hev as <-. span_event.
  - injection Hev as <-. span_event.
  - injection Hev as <-. span_event.
  - injection Hev as <-. span_event.
  - injection Hev as <-. span_event.
  - injection Hev as <-. span_event. by rewrite Z_of_byte_small.
  - injection Hev as <-. by apply roundtrips_BodyStream.
  - injection Hev as <-. span_event.
  - injection Hev as <-. span_event.
  - injection Hev as <-. span_event.
  - injection Hev as <-. span_event.
  - injection Hev as <-. span_event.
  - by apply roundtrips_GetAttrsEnd.
  - injection Hev as <-. span_event.
  - injection Hev as <-. span_event.
  - injection Hev as <-. destruct Hwf. by apply roundtrips_BucketDeleteObjectsStart.
  - injection Hev as <-. span_event.
  - injection Hev as <-. destruct_and!. by apply roundtrips_LogMessage.
  - injection Hev as <-. destruct_and!.
    apply (roundtrips_event_of v _ (mkParams [] [] goid 0)); try done. unfold is_SpanID in *. dispatch; roundtrip.
  - injection Hev as <-. destruct_and!.
    apply (roundtrips_event_of v _ (mkParams [] [] goid 0)); try done. dispatch.
    eapply roundtrips_bind; [apply roundtrips_status|]. roundtrip.
    by rewrite u32_u64, omap_id_fmap.
Qed.
End Roundtrip.
