(* ===== verification/TraceRecord.v ===== *)
(** From the log to the recorded trace: [ParseEvent] on what [Add] appended, and the recorder
    loop of [cli/daemon/engine/trace2/recorder.go].

    - every read leaves a suffix of its input ([tidy]), so the recorder's parse loop ends on
      every finite stream;
    - an event that was added to a log is parsed back, with its header, whatever follows it;
    - the recorder's goroutines neither lose, duplicate nor reorder events on the way to the store,
      which drops those it cannot insert. *)

From S2P Require Import Prelude Utf8 Errs TraceBuffer TraceReader TraceCodec TraceModel TraceLog.
From S2P Require Import TraceEvents TraceHTTP TraceParser TraceRoundtrip TraceCalls.

(** ** Well-behaved readers

    Every read leaves a suffix of its input and the version alone, a recorded error stays, and a
    read that ends without an error depends only on the bytes it consumed. *)

Definition out_state {A} (o : outcome A) : traceReader := match o with Ret _ st | Panicked _ st => st end.

Record tidy {A} (m : R A) : Prop := {
  tidy_left : forall st, (length (tr_buf (out_state (m st))) <= length (tr_buf st))%nat;
  tidy_sticky : forall st, tr_err (out_state (m st)) = None -> tr_err st = None;
  tidy_version : forall st, tr_version (out_state (m st)) = tr_version st;
  tidy_local : forall st a st', m st = Ret a st' -> tr_err st' = None ->
    exists used, tr_buf st = used ++ tr_buf st' /\
      forall rest n, m (mkReader (used ++ rest) (tr_version st) n None)
        = Ret a (mkReader rest (tr_version st) (n + blen used) None)
}.

Create HintDb tidy discriminated.

Lemma setErr_buf e st : tr_buf (setErr e st) = tr_buf st.
Proof. unfold setErr. by destruct (tr_err st). Qed.

Lemma setErr_version e st : tr_version (setErr e st) = tr_version st.
Proof. unfold setErr. by destruct (tr_err st). Qed.

Lemma setErr_None e st : tr_err (setErr e st) = None -> e = None /\ tr_err st = None.
Proof. unfold setErr. by destruct (tr_err st) eqn:He; cbn; rewrite ?He. Qed.

(** A reader that leaves the state alone when it returns. *)
Lemma tidy_pure {A} (m : R A) : (forall st, (exists a, m = mret a) \/ exists p, m st = Panicked p st) -> tidy m.
Proof.
  intros H. split; intros st; try (destruct (H st) as [[a ->]|[p ->]]; done).
  intros a st' Heq He. destruct (H st) as [[b ->]|[p Hp]]; [|congruence].
  injection Heq as -> <-. exists []. split; [done|]. intros rest n. unfold blen. cbn. by rewrite Z.add_0_r.
Qed.

Lemma tidy_ret {A} (a : A) : tidy (mret a).
Proof. apply tidy_pure. eauto. Qed.

Lemma tidy_panic {A} p : @tidy A (r_panic p).
Proof. apply tidy_pure. intros st. right. by exists p. Qed.

Lemma tidy_make sz n : tidy (r_make sz n).
Proof.
  apply tidy_pure. intros st. unfold r_make. destruct (_ && _); [left; by exists () | right; by exists PanicMake].
Qed.

Lemma tidy_bind {A B} (m : R A) (k : A -> R B) :
  tidy m -> (forall a, tidy (k a)) -> tidy (m ≫= k).
Proof.
  intros Hm Hk. unfold mbind, R_bind. split; intros st.
  - pose proof (tidy_left m Hm st). destruct (m st) as [a st'|p st']; [|done].
    pose proof (tidy_left (k a) (Hk a) st'). cbn [out_state] in *. lia.
  - pose proof (tidy_sticky m Hm st). destruct (m st) as [a st'|p st']; [|done].
    pose proof (tidy_sticky (k a) (Hk a) st'). cbn [out_state] in *. auto.
  - pose proof (tidy_version m Hm st). destruct (m st) as [a st'|p st']; [|done].
    pose proof (tidy_version (k a) (Hk a) st'). cbn [out_state] in *. congruence.
  - intros b st2. destruct (m st) as [a st1|p st1] eqn:H1; [|done]. intros H2 He.
    pose proof (tidy_sticky (k a) (Hk a) st1) as Hs. rewrite H2 in Hs. specialize (Hs He).
    pose proof (tidy_version m Hm st) as Hv. rewrite H1 in Hv. cbn [out_state] in Hv.
    destruct (tidy_local m Hm st a st1 H1 Hs) as (u1 & E1 & X1).
    destruct (tidy_local (k a) (Hk a) st1 b st2 H2 He) as (u2 & E2 & X2).
    exists (u1 ++ u2). split; [by rewrite E1, E2, app_assoc|]. intros rest n.
    rewrite <- app_assoc, X1, <- Hv, X2, blen_app. by rewrite Z.add_assoc.
Qed.

Lemma tidy_repeat {A} n (m : R A) : tidy m -> tidy (r_repeat n m).
Proof.
  intros Hm. induction n as [|n IH]; [apply tidy_ret|].
  apply tidy_bind; [done|]. intros a. apply tidy_bind; [done|]. intros. apply tidy_ret.
Qed.

Lemma tidy_Bytes n : tidy (tr_Bytes n).
Proof.
  split; intros st; unfold tr_Bytes; cbn [out_state]; rewrite ?setErr_buf, ?setErr_version; cbn; try done.
  - rewrite length_drop. lia.
  - by intros [_ H]%setErr_None.
  - intros a st' [= <- <-] [He1 He]%setErr_None. rewrite setErr_buf. cbn [tr_buf tr_err] in *.
    case_decide as Hk; [|by destruct (decide _)]. exists (take n (tr_buf st)).
    split; [by rewrite take_drop|]. intros rest m. cbn [tr_buf tr_version tr_bytesRead tr_err].
    remember (take n (tr_buf st)) as used eqn:Hu. clear Hu. subst n.
    rewrite take_app_length, drop_app_length, Nat.sub_diag, decide_True by done. done.
Qed.

Lemma tidy_Byte : tidy tr_Byte.
Proof.
  split; intros st; unfold tr_Byte; destruct (tr_buf st) as [|b rest] eqn:Eb; cbn [out_state];
    rewrite ?setErr_buf, ?setErr_version, ?Eb; cbn; try done; try lia.
  - by intros [_ H]%setErr_None.
  - by intros a st' [= <- <-] [H _]%setErr_None.
  - intros a st' [= <- <-] He. cbn in *. exists [b]. split; [done|]. intros rest' n. done.
Qed.

Lemma UVarint_go_local input : forall i u n,
  (length (UVarint_go i u n input).1.1.2 <= length input)%nat /\
  forall x rest m, UVarint_go i u n input = (x, rest, m, false) ->
    exists used, input = used ++ rest /\ m = n + blen used /\
      forall rest' n', UVarint_go i u n' (used ++ rest') = (x, rest', n' + blen used, false).
Proof.
  induction input as [|b input IH]; intros i u n; cbn [UVarint_go]; [done|].
  destruct (_ =? 0) eqn:Hb; cbn [fst snd length].
  - split; [lia|]. intros x rest m [= <- <- <-]. exists [b]. split_and!; [done..|].
    intros rest' n'. cbn. by rewrite Hb.
  - destruct (IH (i + 7) (Z.lor u (u64 (Z.land (Z_of_byte b) 127 ≪ i))) (n + 1)) as [Hl Hloc].
    split; [lia|]. intros x rest m Hgo. destruct (Hloc _ _ _ Hgo) as (used & -> & -> & Hx).
    exists (b :: used). split_and!; [done | rewrite blen_cons; lia |].
    intros rest' n'. cbn [app UVarint_go]. rewrite Hb, Hx, blen_cons. f_equal. f_equal. lia.
Qed.

Lemma tidy_UVarint : tidy tr_UVarint.
Proof.
  split; intros st; destruct (UVarint_go_local (tr_buf st) 0 0 0) as [Hl Hloc]; unfold tr_UVarint;
    destruct (UVarint_go 0 0 0 (tr_buf st)) as [[[u rest] n] eof] eqn:Hgo; cbn [out_state fst snd] in *;
    rewrite ?setErr_buf, ?setErr_version; cbn [tr_buf tr_version]; try done.
  - by intros [_ H]%setErr_None.
  - intros a st' [= <- <-] [He1 He]%setErr_None. rewrite setErr_buf. cbn [tr_buf tr_err] in *.
    destruct eof; [done|]. destruct (Hloc _ _ _ eq_refl) as (used & Hin & -> & Hx).
    exists used. split; [done|]. intros rest' m. cbn [tr_buf tr_version tr_bytesRead tr_err].
    rewrite Hx. done.
Qed.

#[export] Hint Resolve tidy_ret tidy_panic tidy_make tidy_repeat tidy_Bytes tidy_Byte
  tidy_UVarint : tidy.

(** Going through a parser: its steps are binds, branches and reads. *)
Ltac tidying :=
  repeat first
    [ progress eauto 2 with tidy
    | apply tidy_bind; [|intros ?]
    | progress cbv beta zeta
    | match goal with |- tidy (if ?b then _ else _) => destruct b end
    | match goal with |- tidy (match ?x with _ => _ end) => destruct x end ].

Lemma tidy_ByteString : tidy tr_ByteString. Proof. unfold tr_ByteString. tidying. Qed.
#[export] Hint Resolve tidy_ByteString : tidy.

Lemma tidy_String : tidy tr_String. Proof. unfold tr_String. tidying. Qed.
Lemma tidy_Bool : tidy tr_Bool. Proof. unfold tr_Bool. tidying. Qed.
Lemma tidy_Uint32 : tidy tr_Uint32. Proof. unfold tr_Uint32. tidying. Qed.
Lemma tidy_Uint64 : tidy tr_Uint64. Proof. unfold tr_Uint64. tidying. Qed.
Lemma tidy_Varint : tidy tr_Varint. Proof. unfold tr_Varint. tidying. Qed.
#[export] Hint Resolve tidy_String tidy_Bool tidy_Uint32 tidy_Uint64 tidy_Varint : tidy.

Lemma tidy_Int32 : tidy tr_Int32. Proof. unfold tr_Int32. tidying. Qed.
Lemma tidy_Int64 : tidy tr_Int64. Proof. unfold tr_Int64. tidying. Qed.
Lemma tidy_OptString : tidy tr_OptString. Proof. unfold tr_OptString. tidying. Qed.
Lemma tidy_OptUVarint : tidy tr_OptUVarint. Proof. unfold tr_OptUVarint. tidying. Qed.
#[export] Hint Resolve tidy_Int32 tidy_Int64 tidy_OptString tidy_OptUVarint : tidy.

Lemma tidy_Time : tidy tr_Time. Proof. unfold tr_Time. tidying. Qed.
Lemma tidy_FromVer_Bool v d : tidy (tr_FromVer_Bool v d).
Proof.
  pose proof (tidy_ret d) as Hd. split; intros st; unfold tr_FromVer_Bool.
  - destruct (_ <? _); [done | apply tidy_Bool].
  - destruct (_ <? _); [done | apply tidy_Bool].
  - destruct (_ <? _); [done | apply tidy_Bool].
  - cbn [tr_version]. destruct (_ <? _); [apply (tidy_local _ Hd) | apply (tidy_local _ tidy_Bool)].
Qed.
Lemma tidy_stack : tidy tp_stack. Proof. unfold tp_stack. tidying. Qed.
Lemma tidy_formattedFrame : tidy tp_formattedFrame. Proof. unfold tp_formattedFrame. tidying. Qed.
#[export] Hint Resolve tidy_Time tidy_FromVer_Bool tidy_stack tidy_formattedFrame : tidy.

Lemma tidy_formattedStack : tidy tp_formattedStack. Proof. unfold tp_formattedStack. tidying. Qed.
Lemma tidy_errWithStack : tidy tp_errWithStack. Proof. unfold tp_errWithStack. tidying. Qed.
Lemma tidy_traceID : tidy tp_traceID. Proof. unfold tp_traceID. tidying. Qed.
Lemma tidy_headers_loop n m : tidy (headers_loop n m).
Proof. revert m. induction n; intros m; cbn [headers_loop]; tidying. Qed.
#[export] Hint Resolve tidy_formattedStack tidy_errWithStack tidy_traceID tidy_headers_loop : tidy.

Lemma tidy_headers : tidy tp_headers. Proof. unfold tp_headers. tidying. Qed.
Lemma tidy_strings : tidy tp_strings. Proof. unfold tp_strings. tidying. Qed.
Lemma tidy_pathParams : tidy tp_pathParams. Proof. unfold tp_pathParams. tidying. Qed.
Lemma tidy_spanStartEvent : tidy tp_spanStartEvent. Proof. unfold tp_spanStartEvent. tidying. Qed.
Lemma tidy_spanEndEvent : tidy tp_spanEndEvent. Proof. unfold tp_spanEndEvent, tr_Duration. tidying. Qed.
Lemma tidy_attrs : tidy tp_bucketObjectAttrs. Proof. unfold tp_bucketObjectAttrs. tidying. Qed.
Lemma tidy_deleteEntry : tidy tp_deleteEntry. Proof. unfold tp_deleteEntry. tidying. Qed.
Lemma tidy_httpEvent : tidy tp_httpEvent. Proof. unfold tp_httpEvent. tidying. Qed.
Lemma tidy_logField : tidy tp_logField. Proof. unfold tp_logField, tr_Float32, tr_Float64. tidying. Qed.
#[export] Hint Resolve tidy_headers tidy_strings tidy_pathParams tidy_spanStartEvent
  tidy_spanEndEvent tidy_attrs tidy_deleteEntry tidy_httpEvent tidy_logField : tidy.

Lemma tidy_spanEvent_data typ : tidy (tp_spanEvent_data typ).
Proof.
  unfold tp_spanEvent_data. repeat (case_match; [
    unfold tp_rpcCallStart, tp_rpcCallEnd, tp_dbQueryStart, tp_dbQueryEnd, tp_dbTransactionStart,
      tp_dbTransactionEnd, tp_pubsubPublishStart, tp_pubsubPublishEnd, tp_httpCallStart, tp_httpCallEnd,
      tp_logMessage, tp_serviceInitStart, tp_serviceInitEnd, tp_cacheCallStart, tp_cacheCallEnd,
      tp_bodyStream, tp_bucketObjectUploadStart, tp_bucketObjectUploadEnd, tp_bucketObjectDownloadStart,
      tp_bucketObjectDownloadEnd, tp_bucketObjectGetAttrsStart, tp_bucketObjectGetAttrsEnd,
      tp_bucketListObjectsStart, tp_bucketListObjectsEnd, tp_bucketDeleteObjectsStart,
      tp_bucketDeleteObjectsEnd; tidying|]). tidying.
Qed.

Lemma tidy_event typ : tidy (tp_event typ).
Proof.
  pose proof (tidy_spanEvent_data typ).
  unfold tp_event, tp_spanEvent, tr_EventID, tp_requestSpanStart, tp_requestSpanEnd, tp_authSpanStart,
    tp_authSpanEnd, tp_pubsubMessageSpanStart, tp_pubsubMessageSpanEnd, tp_testSpanStart, tp_testSpanEnd.
  tidying.
Qed.

Lemma tidy_header typ : tidy (tp_header typ).
Proof. unfold tp_header, tr_Nanotime. tidying. Qed.

(** ** The recorder's parse loop *)

Lemma ParseEvent_cons ta v b input :
  ParseEvent ta v (b :: input)
  = match tp_header (Z_of_byte b) (mkReader input v 1 None) with
    | Panicked p st => (None, Some (PE_recovered (Z_of_byte b) p), tr_buf st)
    | Ret h st =>
        match tr_err st with
        | Some e => (None, Some (PE_io e), tr_buf st)
        | None => ParseEvent_body ta h st
        end
    end.
Proof. reflexivity. Qed.

Lemma tidy_Ret {A} (m : R A) st a st' :
  tidy m -> m st = Ret a st' -> (length (tr_buf st') <= length (tr_buf st))%nat.
Proof. intros H Heq. pose proof (tidy_left m H st) as Hl. by rewrite Heq in Hl. Qed.

Lemma tidy_Panicked {A} (m : R A) st p st' :
  tidy m -> m st = Panicked p st' -> (length (tr_buf st') <= length (tr_buf st))%nat.
Proof. intros H Heq. pose proof (tidy_left m H st) as Hl. by rewrite Heq in Hl. Qed.

Lemma ParseEvent_body_left ta h st : (length (ParseEvent_body ta h st).2 <= length (tr_buf st))%nat.
Proof.
  unfold ParseEvent_body. destruct (tp_event (h_Type h) st) as [ev st'|p st'] eqn:He.
  - by apply tidy_Ret in He; [|apply tidy_event].
  - by apply tidy_Panicked in He; [|apply tidy_event].
Qed.

Lemma ParseEvent_left ta v b input : (length (ParseEvent ta v (b :: input)).2 <= length input)%nat.
Proof.
  rewrite ParseEvent_cons. destruct (tp_header _ _) as [h st|p st] eqn:Hh.
  - apply tidy_Ret in Hh; [|apply tidy_header]. cbn [tr_buf] in Hh.
    pose proof (ParseEvent_body_left ta h st). destruct (tr_err st); cbn [snd]; lia.
  - by apply tidy_Panicked in Hh; [|apply tidy_header].
Qed.

(** A successful [ParseEvent] consumes at least its type byte. *)
Lemma ParseEvent_consumes ta v input ev rest :
  ParseEvent ta v input = (ev, None, rest) -> (length rest < length input)%nat.
Proof.
  destruct input as [|b input]; [done|]. intros Heq. pose proof (ParseEvent_left ta v b input) as H.
  rewrite Heq in H. cbn [snd length] in *. lia.
Qed.

(** The goroutine of [RecordTrace]: the events it sends and the error that ends it. *)
Fixpoint parse_all (fuel : nat) (ta : TimeAnchor) (v : Z) (input : list byte)
  : option (list tracepb2.TraceEvent * parse_error) :=
  match fuel with
  | O => None
  | S fuel =>
      let '(ev, err, rest) := ParseEvent ta v input in
      match err with
      | None => '(evs, e) ← parse_all fuel ta v rest; Some (option_list ev ++ evs, e)
      | Some e => Some (option_list ev, e)
      end
  end.

Definition parse_stream ta v input := parse_all (S (length input)) ta v input.

Lemma parse_all_total fuel ta v input :
  (length input < fuel)%nat -> is_Some (parse_all fuel ta v input).
Proof.
  revert input. induction fuel as [|fuel IH]; intros input Hf; [lia|]. cbn [parse_all].
  destruct (ParseEvent ta v input) as [[ev [e|]] rest] eqn:Hp; [done|].
  apply ParseEvent_consumes in Hp. destruct (IH rest) as [[evs e] ->]; [lia|]. done.
Qed.

Lemma parse_all_mono fuel fuel' ta v input r :
  (fuel <= fuel')%nat -> parse_all fuel ta v input = Some r -> parse_all fuel' ta v input = Some r.
Proof.
  revert fuel' input r. induction fuel as [|fuel IH]; intros fuel' input r Hle; [done|].
  destruct fuel' as [|fuel']; [lia|]. cbn [parse_all].
  destruct (ParseEvent ta v input) as [[ev [e|]] rest]; [done|].
  intros ([evs e] & Hp & Hr)%bind_Some. rewrite (IH fuel' _ _ ltac:(lia) Hp). done.
Qed.

(** One round of the loop. *)
Lemma parse_stream_unfold ta v input :
  parse_stream ta v input
  = let '(ev, err, rest) := ParseEvent ta v input in
    match err with
    | None => '(evs, e) ← parse_stream ta v rest; Some (option_list ev ++ evs, e)
    | Some e => Some (option_list ev, e)
    end.
Proof.
  unfold parse_stream at 1. cbn [parse_all].
  destruct (ParseEvent ta v input) as [[ev [e|]] rest] eqn:Hp; [done|].
  apply ParseEvent_consumes in Hp. unfold parse_stream.
  destruct (parse_all_total (S (length rest)) ta v rest) as [r Hr]; [lia|].
  rewrite Hr, (parse_all_mono (S (length rest)) (length input) ta v rest r); [done | lia | done].
Qed.

(** ** Parsing an event of a log *)

Section Emitted.
Context `{E : GoEnv} (ta : TimeAnchor) (v : Z).

Definition recorded (id nano : Z) (tid sid : list byte) (ev : tracepb2.Event) : tracepb2.TraceEvent :=
  tracepb2.mkTraceEvent (pb_traceID tid) (le_value sid) id (ta_ToReal ta nano) ev.

Lemma header_roundtrips typ id nano tid sid ln :
  is_u64 id -> is_i64 nano -> is_TraceID tid -> is_SpanID sid -> is_u32 ln ->
  roundtrips (tb_Uint64 id ;;; tb_Int64 nano ;;; tb_Bytes tid ;;; tb_Bytes sid ;;; tb_Uint32 ln) v
    (tp_header typ) (mkHeader typ id nano (pb_traceID tid) (le_value sid) ln).
Proof.
  intros. unfold tp_header, tr_Nanotime, is_SpanID in *.
  do 4 (eapply roundtrips_bind; [eauto 3 with roundtrip|]).
  eapply roundtrips_last; [by apply roundtrips_Uint32 | done].
Qed.

Lemma header_bytes typ id nano tid sid ln :
  is_i64 nano ->
  exists hb, event_header typ id (signedToUnsigned nano) tid sid ln = byte_of_Z typ :: hb /\
    writes (tb_Uint64 id ;;; tb_Int64 nano ;;; tb_Bytes tid ;;; tb_Bytes sid ;;; tb_Uint32 ln) hb.
Proof.
  intros Hn. unfold event_header. rewrite !le_bytes_8, le_bytes_4. eexists. split; [reflexivity|].
  repeat apply writes_seq; auto with writes. apply writes_Uint64.
Qed.

Lemma length_event_header typ id ts tid sid ln :
  is_TraceID tid -> is_SpanID sid -> blen (event_header typ id ts tid sid ln) = 45.
Proof.
  unfold is_TraceID, is_SpanID, blen, event_header. intros Ht Hs. rewrite !length_app. cbn. lia.
Qed.

(** [ParseEvent] undoes [Add]. *)
Lemma ParseEvent_emitted typ id nano tid sid w ev body rest :
  is_u8 typ -> is_u64 id -> is_i64 nano -> is_TraceID tid -> is_SpanID sid ->
  roundtrips w v (tp_event typ) ev -> writes w body -> blen body <= 2 ^ 32 - 1 ->
  ParseEvent ta v (event_header typ id (signedToUnsigned nano) tid sid (blen body) ++ body ++ rest)
  = (Some (recorded id nano tid sid ev), None, rest).
Proof.
  intros Hty Hid Hn Ht Hs (body' & Hw' & Hr) Hw Hb.
  rewrite (writes_det _ _ _ Hw' Hw) in Hr. clear body' Hw'.
  assert (is_u32 (blen body)) as Hb32 by (pose proof (blen_nonneg body); width).
  destruct (header_bytes typ id nano tid sid (blen body) Hn) as (hb & Heq & Hhw).
  destruct (header_roundtrips typ id nano tid sid (blen body)) as (hb' & Hhw' & Hhr); [done..|].
  rewrite (writes_det _ _ _ Hhw' Hhw) in Hhr. clear hb' Hhw'.
  pose proof (length_event_header typ id (signedToUnsigned nano) tid sid (blen body) Ht Hs) as Hlen.
  rewrite Heq, blen_cons in Hlen. rewrite Heq.
  cbn [app]. rewrite ParseEvent_cons, Z_of_byte_small by apply Hty.
  rewrite Hhr by lia. cbn [tr_err]. unfold ParseEvent_body. cbn [h_Type]. rewrite Hr by lia. done.
Qed.
End Emitted.

(** ** Truncated input *)

(** A reader of whole events reports an error on a proper prefix of an event. *)
Lemma reads_prefix {A} v (m : R A) bs a p q n :
  tidy m -> reads v m bs a -> blen bs < 2 ^ 32 -> bs = p ++ q -> q <> [] ->
  forall x st', m (mkReader p v n None) = Ret x st' -> tr_err st' <> None.
Proof.
  intros Hm Hr Hl Hpq Hq x st' Hrun He.
  destruct (tidy_local m Hm _ _ _ Hrun He) as (used & Hp & Hx). cbn [tr_buf tr_version] in *.
  specialize (Hr [] n Hl). rewrite app_nil_r, Hpq, Hp, <- app_assoc, Hx in Hr.
  injection Hr as _ Hnil _. by apply app_eq_nil in Hnil as [_ ->].
Qed.

Lemma ParseEvent_body_error ta h st :
  (forall x st', tp_event (h_Type h) st = Ret x st' -> tr_err st' <> None) ->
  exists ev err rest, ParseEvent_body ta h st = (ev, Some err, rest).
Proof.
  intros H. unfold ParseEvent_body. destruct (tp_event (h_Type h) st) as [ev st'|p st']; [|by eexists _, _, _].
  specialize (H ev st' eq_refl). destruct (tr_err st') as [[]|]; [|by eexists _, _, _..|done].
  destruct (_ =? _); [by eexists _, _, _|]. destruct (_ <? _); by eexists _, _, _.
Qed.

Section Truncated.
Context `{E : GoEnv} (ta : TimeAnchor) (v : Z).

Lemma ParseEvent_truncated typ id nano tid sid w ev body p q :
  is_u8 typ -> is_u64 id -> is_i64 nano -> is_TraceID tid -> is_SpanID sid ->
  roundtrips w v (tp_event typ) ev -> writes w body -> blen body <= 2 ^ 32 - 1 ->
  event_header typ id (signedToUnsigned nano) tid sid (blen body) ++ body = p ++ q -> q <> [] ->
  exists ev err rest, ParseEvent ta v p = (ev, Some err, rest).
Proof.
  intros Hty Hid Hn Ht Hs (body' & Hw' & Hr) Hw Hb Hpq Hq.
  rewrite (writes_det _ _ _ Hw' Hw) in Hr. clear body' Hw'.
  assert (is_u32 (blen body)) as Hb32 by (pose proof (blen_nonneg body); width).
  destruct (header_bytes typ id nano tid sid (blen body) Hn) as (hb & Heq & Hhw).
  destruct (header_roundtrips v typ id nano tid sid (blen body)) as (hb' & Hhw' & Hhr); [done..|].
  rewrite (writes_det _ _ _ Hhw' Hhw) in Hhr. clear hb' Hhw'.
  pose proof (length_event_header typ id (signedToUnsigned nano) tid sid (blen body) Ht Hs) as Hlen.
  rewrite Heq, blen_cons in Hlen. rewrite Heq in Hpq.
  destruct p as [|b p]; [by eexists _, _, _|]. injection Hpq as <- Hpq.
  rewrite ParseEvent_cons, Z_of_byte_small by apply Hty.
  destruct (app_eq_inv _ _ _ _ Hpq) as [(p2 & Hhb & ->) | (p2 & -> & Hbody)].
  - destruct p2 as [|b2 p2].
    + rewrite app_nil_r in Hhb. subst p. rewrite <- (app_nil_r hb), Hhr by lia. cbn [tr_err].
      apply ParseEvent_body_error. cbn [h_Type].
      by apply (reads_prefix v _ body ev [] body); [apply tidy_event | | lia | |].
    + pose proof (reads_prefix v (tp_header typ) hb _ p (b2 :: p2) 1 (tidy_header typ) Hhr) as Hpre.
      destruct (tp_header typ (mkReader p v 1 None)) as [h st|? st]; [|by eexists _, _, _].
      specialize (Hpre ltac:(lia) Hhb ltac:(done) h st eq_refl). destruct (tr_err st); [by eexists _, _, _ | done].
  - rewrite Hhr by lia. cbn [tr_err]. apply ParseEvent_body_error. cbn [h_Type].
    by apply (reads_prefix v _ body ev p2 q); [apply tidy_event | | lia | |].
Qed.
End Truncated.

(** ** Sequences of calls *)

Section Runs.
Context `{E : GoEnv} (ta : TimeAnchor) (v : Z).

Fixpoint run_calls (cs : list (Z * LogCall)) : LogM () :=
  match cs with
  | [] => mret ()
  | (nano, c) :: cs => _ ← l_call nano c; run_calls cs
  end.

(** The body of the event, and whether its length fits the header. *)
Definition call_body (c : LogCall) : list byte :=
  match call_writer c NewEventBuffer with Some tb => buf tb | None => [] end.

Definition fits (c : LogCall) : bool := blen (call_body c) <=? 2 ^ 32 - 1.

(** The trace a run records, from a counter: events too large for the header are left out. *)
Fixpoint expected (ctr : Z) (cs : list (Z * LogCall)) : list tracepb2.TraceEvent :=
  match cs with
  | [] => []
  | (nano, c) :: cs =>
      if fits c then
        let id := next_event_id ctr in
        option_list (recorded ta id nano (call_trace c) (call_span c) <$> pb_call c) ++ expected id cs
      else expected ctr cs
  end.

Definition wf_run (nc : Z * LogCall) : Prop :=
  is_i64 nc.1 /\ wf_call nc.2 /\ is_Some (pb_call nc.2).

Lemma next_event_id_range ctr : is_u64 (next_event_id ctr).
Proof. unfold next_event_id. case_match; apply u64_range. Qed.

Lemma call_type_u8 c : is_u8 (call_type c).
Proof. destruct c; cbv; split; (discriminate || reflexivity). Qed.

Lemma call_ids c : wf_call c -> is_Some (pb_call c) -> is_TraceID (call_trace c) /\ is_SpanID (call_span c).
Proof.
  intros Hwf [ev Hev]. unfold call_trace, call_span.
  destruct c; cbn [call_emit fst snd src_ids p_ids wf_call] in *; unfold wf_request, wf_params in *;
    destruct_and?; try done;
    (cbn [pb_call] in Hev; apply bind_Some in Hev as (src & Hsrc & _); rewrite Hsrc;
     match goal with H : forall r, _ = Some r -> _ |- _ => specialize (H src Hsrc) end;
     cbn; by destruct_and!).
Qed.

(** The logger methods are [l_emit] of their type, ids and writer. *)
Lemma l_call_emit nano c s :
  is_Some (pb_call c) -> is_Some (l_log s) ->
  l_call nano c s
  = (_ ← l_emit nano (call_type c) (call_trace c) (call_span c) (call_writer c); mret ()) s.
Proof.
  intros [ev Hev] [l Hl]. destruct c; try reflexivity.
  - apply bind_Some in Hev as (src & Hsrc & _). unfold l_call, l_RPCCallStart, call_trace, call_span, mbind, LogM_bind.
    cbn [call_emit fst snd]. by rewrite Hsrc.
  - apply bind_Some in Hev as (src & Hsrc & _). unfold l_call, l_RPCCallEnd, call_trace, call_span, mbind, LogM_bind.
    cbn [call_emit fst snd]. by rewrite Hsrc.
  - unfold l_call, l_HTTPBeginRoundTrip, mbind, LogM_bind, mret, LogM_ret. rewrite Hl. cbn [src_ids].
    unfold call_type, call_trace, call_span, call_writer. cbn [call_emit fst snd src_ids].
    by destruct (l_emit _ _ _ _ _ s) as [[]|].
  - unfold l_call, l_HTTPCompleteRoundTrip, mbind, LogM_bind, mret, LogM_ret.
    unfold call_type, call_trace, call_span, call_writer. cbn [call_emit fst snd].
    by destruct (l_emit _ _ _ _ _ s) as [[]|].
Qed.

Lemma call_writes c ev : wf_call c -> pb_call c = Some ev -> writes (call_writer c) (call_body c).
Proof.
  intros Hwf Hev. destruct (call_roundtrips 15 c ev) as (bs & Hw & _); [lia|done..|].
  unfold call_body. destruct (Hw NewEventBuffer) as (sc & _ & ->); [done|]. done.
Qed.

(** One call: what it appends, and what the parse loop makes of it. *)
Lemma l_call_step nano c s l :
  15 <= v -> wf_run (nano, c) -> l_log s = Some l ->
  exists bs,
    let ctr' := if fits c then next_event_id (nextEventID s) else nextEventID s in
    l_call nano c s = Some ((), mkState (Some (mkLog (data l ++ bs) (done l))) ctr') /\
    forall rest, parse_stream ta v (bs ++ rest)
      = '(evs, e) ← parse_stream ta v rest; Some (expected (nextEventID s) [(nano, c)] ++ evs, e).
Proof.
  intros Hv (Hn & Hwf & [ev Hev]) Hl. cbn [fst snd] in *.
  pose proof (call_writes c ev Hwf Hev) as Hw.
  destruct (call_ids c) as [Ht Hs]; [done|by eexists|].
  destruct (Hw NewEventBuffer) as (sc & _ & Hbuf); [done|]. cbn [buf NewEventBuffer app] in Hbuf.
  setoid_rewrite l_call_emit; [|by eexists|by eexists].
  unfold l_emit, l_Add, mbind, LogM_bind, fits. rewrite Hbuf. cbn [ev_Data buf]. rewrite Hl.
  cbn [expected]. unfold fits. rewrite Z.gtb_ltb, Z.ltb_antisym.
  destruct (Z.leb_spec (blen (call_body c)) (2 ^ 32 - 1)) as [Hle|Hgt]; cbn [negb].
  - eexists. split; [reflexivity|]. intros rest. rewrite <- app_assoc, parse_stream_unfold.
    cbn [ev_Type ev_TraceID ev_SpanID]. rewrite (ParseEvent_emitted ta v _ _ _ _ _ (call_writer c) ev);
      [|by auto using call_type_u8, next_event_id_range, call_roundtrips..].
    rewrite Hev. cbn [fmap option_fmap option_map option_list app]. done.
  - exists []. split.
    + rewrite app_nil_r. destruct s as [l' ctr], l. cbn in *. by simplify_eq.
    + intros rest. cbn [app]. by destruct (parse_stream ta v rest) as [[]|].
Qed.

Lemma parse_stream_nil : parse_stream ta v [] = Some ([], PE_io EOF).
Proof. done. Qed.

Lemma bind_app {A B} (m : option (list A * B)) (l1 l2 : list A) :
  ('(evs, e) ← ('(evs, e) ← m; Some (l2 ++ evs, e)); Some (l1 ++ evs, e))
  = '(evs, e) ← m; Some ((l1 ++ l2) ++ evs, e).
Proof. destruct m as [[evs e]|]; [|done]. cbn. by rewrite app_assoc. Qed.

Lemma expected_cons ctr nano c cs :
  expected ctr ((nano, c) :: cs)
  = expected ctr [(nano, c)] ++ expected (if fits c then next_event_id ctr else ctr) cs.
Proof. cbn [expected]. destruct (fits c); [|done]. by rewrite app_nil_r. Qed.

Lemma run_calls_stream cs : forall s l,
  15 <= v -> Forall wf_run cs -> l_log s = Some l ->
  exists s' bs, run_calls cs s = Some ((), s') /\
    l_log s' = Some (mkLog (data l ++ bs) (done l)) /\
    forall rest, parse_stream ta v (bs ++ rest)
      = '(evs, e) ← parse_stream ta v rest; Some (expected (nextEventID s) cs ++ evs, e).
Proof.
  induction cs as [|[nano c] cs IH]; intros s l Hv Hwf Hl.
  - exists s, []. split; [done|]. split; [rewrite app_nil_r, Hl; by destruct l|].
    intros rest. cbn [app expected]. by destruct (parse_stream ta v rest) as [[]|].
  - apply list.Forall_cons in Hwf as [Hc Hcs].
    destruct (l_call_step nano c s l Hv Hc Hl) as (b1 & Hrun & Hp1). cbv zeta in Hrun.
    set (s1 := mkState _ _) in Hrun.
    destruct (IH s1 (mkLog (data l ++ b1) (done l)) Hv Hcs eq_refl) as (s' & b2 & Hr & Hl' & Hp2).
    exists s', (b1 ++ b2). split; [|split].
    + cbn [run_calls]. unfold mbind, LogM_bind. by rewrite Hrun.
    + rewrite Hl'. cbn. by rewrite app_assoc.
    + intros rest. rewrite <- app_assoc, Hp1, Hp2. cbn [nextEventID]. rewrite bind_app, <- expected_cons. done.
Qed.
End Runs.

(** ** The store of the daemon ([cli/daemon/engine/trace2/sqlite/write.go]) *)

Module SqliteStore.

(** How the insertion of an event can end: the event cannot be marshalled, the row is not inserted,
    the row is inserted but the index of spans is not updated, or all is well. *)
Inductive insertion := MarshalFailed | InsertFailed | IndexFailed | Inserted.

Definition keeps_row (o : insertion) : bool := match o with IndexFailed | Inserted => true | _ => false end.

(** [insertEvent]: whether it reports an error, and the rows of [trace_event]. *)
Definition insertEvent (o : insertion) (ev : tracepb2.TraceEvent) (rows : list tracepb2.TraceEvent) : bool * list tracepb2.TraceEvent :=
  match o with
  | MarshalFailed | InsertFailed => (true, rows)
  | IndexFailed => (true, rows ++ [ev])
  | Inserted => (false, rows ++ [ev])
  end.

(** [WriteEvents], with an outcome for each event ([Inserted] where the list ends): errors are logged
    and the loop goes on, so it never reports one. *)
Fixpoint WriteEvents (os : list insertion) (events rows : list tracepb2.TraceEvent) : bool * list tracepb2.TraceEvent :=
  match events with
  | [] => (false, rows)
  | ev :: events =>
      let '(_, rows) := insertEvent (default Inserted (head os)) ev rows in
      WriteEvents (tail os) events rows
  end.

(** The events with their outcomes. *)
Fixpoint attempts (os : list insertion) (events : list tracepb2.TraceEvent) : list (tracepb2.TraceEvent * insertion) :=
  match events with [] => [] | ev :: events => (ev, default Inserted (head os)) :: attempts (tail os) events end.

Definition kept (l : list (tracepb2.TraceEvent * insertion)) : list tracepb2.TraceEvent := (List.filter (fun p => keeps_row p.2) l).*1.

Lemma kept_app l1 l2 : kept (l1 ++ l2) = kept l1 ++ kept l2.
Proof. unfold kept. by rewrite List.filter_app, fmap_app. Qed.

Lemma attempts_events os events : (attempts os events).*1 = events.
Proof. revert os. induction events as [|ev events IH]; intros os; [done|]. cbn. by rewrite IH. Qed.

Lemma WriteEvents_spec os events : forall rows, WriteEvents os events rows = (false, rows ++ kept (attempts os events)).
Proof.
  revert os. induction events as [|ev events IH]; intros os rows; cbn [WriteEvents attempts]; [by rewrite app_nil_r|].
  destruct (default Inserted (head os)) eqn:Ho; cbn [insertEvent]; rewrite IH; unfold kept; cbn; by rewrite <- ?app_assoc.
Qed.

End SqliteStore.

(** ** The recorder's goroutines *)

(** [RecordTrace] runs a producer that parses the stream and sends events over a channel of
    capacity 100, and a consumer that batches them into the store.  A step is one round of
    either loop; the outcomes of the insertions of a batch are choices of the step. *)

Module Recorder.
Import SqliteStore.

Inductive producer := PRunning (input : list byte) | PClosed (err : parse_error).

(** [written] is a record for the proofs: every event handed to the store, with its outcome. *)
Record state := mkRec {
  prod : producer;
  eventCh : list tracepb2.TraceEvent;
  pendingWrites : list tracepb2.TraceEvent;
  store : list tracepb2.TraceEvent;
  written : list (tracepb2.TraceEvent * insertion);
  returned : bool
}.

Definition chan_cap : nat := 100.

(** [writeEvents]: an empty batch is not written. *)
Definition writeEvents (os : list insertion) (ev stored : list tracepb2.TraceEvent) : bool * list tracepb2.TraceEvent :=
  match ev with [] => (false, stored) | _ => WriteEvents os ev stored end.

(** [flushWrites] on the pending events and the store: the batch is kept if the store reports an
    error. *)
Definition flushWrites (os : list insertion) (pending stored : list tracepb2.TraceEvent)
  : list tracepb2.TraceEvent * list tracepb2.TraceEvent :=
  let '(err, stored) := writeEvents os pending stored in
  if err then (pending, stored) else ([], stored).

(** A flush: the state after it. *)
Definition flushed (os : list insertion) (p : producer) (ch pend st : list tracepb2.TraceEvent) (w : list (tracepb2.TraceEvent * insertion)) (ret : bool) : state :=
  let '(pend', st') := flushWrites os pend st in mkRec p ch pend' st' (w ++ attempts os pend) ret.

Inductive step (ta : TimeAnchor) (v : Z) : state -> state -> Prop :=
| S_parse input ev err rest ch pend st w :
    ParseEvent ta v input = (ev, err, rest) ->
    (is_Some ev -> length ch < chan_cap)%nat ->
    step ta v (mkRec (PRunning input) ch pend st w false)
      (mkRec (match err with None => PRunning rest | Some e => PClosed e end)
         (ch ++ option_list ev) pend st w false)
| S_recv os p ev ch pend st w :
    let pend' := pend ++ [ev] in
    step ta v (mkRec p (ev :: ch) pend st w false)
      (if decide (100 <= length pend')%nat then flushed os p ch pend' st w false else mkRec p ch pend' st w false)
| S_tick os p ch pend st w :
    step ta v (mkRec p ch pend st w false) (flushed os p ch pend st w false)
| S_closed os e pend st w :
    step ta v (mkRec (PClosed e) [] pend st w false) (flushed os (PClosed e) [] pend st w true).

Definition init (input : list byte) : state := mkRec (PRunning input) [] [] [] [] false.

(** The events still to be parsed. *)
Definition remaining ta v (p : producer) : list tracepb2.TraceEvent :=
  match p with
  | PRunning input => match parse_stream ta v input with Some (evs, _) => evs | None => [] end
  | PClosed _ => []
  end.

(** Everything the recorder has handed to the store, holds or will parse, in order. *)
Definition all_events ta v (s : state) : list tracepb2.TraceEvent :=
  (written s).*1 ++ pendingWrites s ++ eventCh s ++ remaining ta v (prod s).

Lemma flushed_spec os p ch pend st w ret :
  flushed os p ch pend st w ret = mkRec p ch [] (st ++ kept (attempts os pend)) (w ++ attempts os pend) ret.
Proof.
  unfold flushed, flushWrites, writeEvents. destruct pend as [|ev pend]; [cbn; by rewrite !app_nil_r|]. by rewrite WriteEvents_spec.
Qed.

Lemma remaining_parse ta v input ev err rest :
  ParseEvent ta v input = (ev, err, rest) ->
  remaining ta v (PRunning input)
  = option_list ev ++ remaining ta v (match err with None => PRunning rest | Some e => PClosed e end).
Proof.
  intros Hp. unfold remaining. rewrite parse_stream_unfold, Hp.
  destruct err as [e|]; [by rewrite app_nil_r|].
  destruct (parse_all_total (S (length rest)) ta v rest) as [[evs e] Hr]; [lia|].
  unfold parse_stream. rewrite Hr. done.
Qed.

(** The rows are those the outcomes left. *)
Definition rows_kept (s : state) : Prop := store s = kept (written s).

Lemma flushed_all ta v os p ch pend st w ret :
  all_events ta v (flushed os p ch pend st w ret) = w.*1 ++ pend ++ ch ++ remaining ta v p.
Proof. rewrite flushed_spec. unfold all_events. cbn. by rewrite fmap_app, attempts_events, <- app_assoc. Qed.

Lemma flushed_rows os p ch pend st w ret : st = kept w -> rows_kept (flushed os p ch pend st w ret).
Proof. intros ->. rewrite flushed_spec. unfold rows_kept. cbn [store written]. by rewrite kept_app. Qed.

Lemma step_all_events ta v s s' : step ta v s s' -> all_events ta v s' = all_events ta v s.
Proof.
  intros Hs. destruct Hs as [input ev err rest ch pend st w Hp _ | os p ev ch pend st w pend' | os p ch pend st w | os e pend st w].
  - unfold all_events. cbn [written pendingWrites eventCh prod]. rewrite (remaining_parse _ _ _ _ _ _ Hp). by rewrite <- app_assoc.
  - case_decide; [rewrite flushed_all|]; unfold all_events, pend'; cbn [written pendingWrites eventCh prod]; by rewrite <- !app_assoc.
  - by rewrite flushed_all.
  - by rewrite flushed_all.
Qed.

Lemma step_rows ta v s s' : step ta v s s' -> rows_kept s -> rows_kept s'.
Proof. intros Hs Hr. destruct Hs; try case_decide; first [exact (flushed_rows _ _ _ _ _ _ _ Hr) | exact Hr]. Qed.

Lemma steps_all_events ta v s s' : rtc (step ta v) s s' -> all_events ta v s' = all_events ta v s.
Proof. induction 1 as [|s1 s2 s3 H _ IH]; [done|]. by rewrite IH, (step_all_events _ _ _ _ H). Qed.

Lemma steps_rows ta v s s' : rtc (step ta v) s s' -> rows_kept s -> rows_kept s'.
Proof. induction 1 as [|s1 s2 s3 H _ IH]; [done|]. intros Hr. apply IH. by eapply step_rows. Qed.

(** The channel never holds more than its capacity. *)
Lemma step_chan ta v s s' : step ta v s s' -> (length (eventCh s) <= chan_cap -> length (eventCh s') <= chan_cap)%nat.
Proof.
  intros Hs H. destruct Hs as [? ev | | |]; rewrite ?flushed_spec; try case_decide; rewrite ?flushed_spec; cbn [eventCh] in *; cbn [length] in *; try lia.
  rewrite length_app. destruct ev; cbn; [|lia].
  match goal with Hc : is_Some _ -> _ |- _ => specialize (Hc (mk_is_Some _ _ eq_refl)) end. unfold chan_cap in *. lia.
Qed.

(** ** Runs in which every insertion succeeds *)

Lemma attempts_nil_kept events : kept (attempts [] events) = events.
Proof. induction events as [|ev events IH]; [done|]. unfold kept in *. cbn. by rewrite IH. Qed.

Lemma flushed_nil p ch pend st w ret : flushed [] p ch pend st w ret = mkRec p ch [] (st ++ pend) (w ++ attempts [] pend) ret.
Proof. by rewrite flushed_spec, attempts_nil_kept. Qed.

(** The consumer can always drain the channel. *)
Lemma drain ta v p ch pend st w :
  exists pend' w' new, rtc (step ta v) (mkRec p ch pend st w false) (mkRec p [] pend' (st ++ new) w' false) /\ new ++ pend' = pend ++ ch.
Proof.
  revert pend st w. induction ch as [|ev ch IH]; intros pend st w; [exists pend, w, []; rewrite !app_nil_r; by split|].
  pose proof (S_recv ta v [] p ev ch pend st w) as Hs. cbv zeta in Hs. rewrite flushed_nil in Hs. case_decide.
  - destruct (IH [] (st ++ pend ++ [ev]) (w ++ attempts [] (pend ++ [ev]))) as (pend' & w' & new & H' & E).
    exists pend', w', (pend ++ [ev] ++ new). split; [eapply rtc_l; [exact Hs|by rewrite <- !app_assoc in H']|].
    cbn in E. by rewrite <- !app_assoc, E.
  - destruct (IH (pend ++ [ev]) st w) as (pend' & w' & new & H' & E). exists pend', w', new.
    split; [eapply rtc_l; [exact Hs|exact H']|]. by rewrite E, <- app_assoc.
Qed.

(** The producer can always get to the end of its input. *)
Lemma parses ta v n : forall input ch pend st w, (length input < n)%nat ->
  exists e pend' w' new, rtc (step ta v) (mkRec (PRunning input) ch pend st w false) (mkRec (PClosed e) [] pend' (st ++ new) w' false) /\
    new ++ pend' = pend ++ ch ++ remaining ta v (PRunning input).
Proof.
  induction n as [|n IH]; intros input ch pend st w Hn; [lia|].
  destruct (drain ta v (PRunning input) ch pend st w) as (pend1 & w1 & new1 & H1 & E1).
  destruct (ParseEvent ta v input) as [[ev err] rest] eqn:Hp.
  pose proof (S_parse ta v input ev err rest [] pend1 (st ++ new1) w1 Hp (fun _ => Nat.lt_0_succ _)) as H2.
  rewrite (remaining_parse _ _ _ _ _ _ Hp). destruct err as [e|].
  - destruct (drain ta v (PClosed e) ([] ++ option_list ev) pend1 (st ++ new1) w1) as (pend2 & w2 & new2 & H3 & E3).
    exists e, pend2, w2, (new1 ++ new2). split; [etrans; [exact H1|]; eapply rtc_l; [exact H2|by rewrite <- app_assoc in H3]|].
    cbn in *. by rewrite <- app_assoc, E3, app_assoc, E1, app_nil_r, <- app_assoc.
  - apply ParseEvent_consumes in Hp.
    destruct (IH rest ([] ++ option_list ev) pend1 (st ++ new1) w1) as (e & pend2 & w2 & new2 & H3 & E3); [lia|].
    exists e, pend2, w2, (new1 ++ new2). split; [etrans; [exact H1|]; eapply rtc_l; [exact H2|by rewrite <- app_assoc in H3]|].
    cbn in *. by rewrite <- app_assoc, E3, app_assoc, E1, <- app_assoc.
Qed.

(** No deadlock: the recorder can always get to its return, with every event it still has stored. *)
Lemma can_finish ta v p ch pend st w :
  exists s', rtc (step ta v) (mkRec p ch pend st w false) s' /\ returned s' = true /\
    store s' = st ++ pend ++ ch ++ remaining ta v p.
Proof.
  assert (exists e pend' w' new, rtc (step ta v) (mkRec p ch pend st w false) (mkRec (PClosed e) [] pend' (st ++ new) w' false) /\
    new ++ pend' = pend ++ ch ++ remaining ta v p) as (e & pend' & w' & new & Hpath & E).
  { destruct p as [input|e].
    - by apply (parses ta v (S (length input))); lia.
    - destruct (drain ta v (PClosed e) ch pend st w) as (pend' & w' & new & H & E). exists e, pend', w', new. cbn. by rewrite app_nil_r. }
  exists (flushed [] (PClosed e) [] pend' (st ++ new) w' true). split; [eapply rtc_r; [exact Hpath|apply S_closed]|].
  rewrite flushed_nil. cbn. split; [done|]. by rewrite <- app_assoc, E.
Qed.

(** ** Runs of a short trace *)

Lemma parses_into ta v n : forall input ch pend st w evs e, (length input < n)%nat -> parse_stream ta v input = Some (evs, e) ->
  (length ch + length evs <= chan_cap)%nat ->
  rtc (step ta v) (mkRec (PRunning input) ch pend st w false) (mkRec (PClosed e) (ch ++ evs) pend st w false).
Proof.
  induction n as [|n IH]; intros input ch pend st w evs e Hn Hp Hc; [lia|]. rewrite parse_stream_unfold in Hp.
  destruct (ParseEvent ta v input) as [[ev err] rest] eqn:Ep.
  assert (forall evs', evs = option_list ev ++ evs' -> is_Some ev -> (length ch < chan_cap)%nat) as Hroom.
  { intros evs' -> [x ->]. cbn in Hc. lia. }
  destruct err as [e'|].
  - injection Hp as <- <-. eapply rtc_once, (S_parse ta v input ev (Some e') rest); [done|]. apply (Hroom []). by rewrite app_nil_r.
  - apply bind_Some in Hp as ([evs' e'] & Hr & [= <- <-]). eapply rtc_l; [apply (S_parse ta v input ev None rest); [done|by eapply Hroom]|].
    rewrite app_assoc. apply IH; [apply ParseEvent_consumes in Ep; lia|done|]. rewrite !length_app in *. lia.
Qed.

Lemma receives ta v p : forall ch pend st w, (length pend + length ch < 100)%nat ->
  rtc (step ta v) (mkRec p ch pend st w false) (mkRec p [] (pend ++ ch) st w false).
Proof.
  induction ch as [|ev ch IH]; intros pend st w Hl; [by rewrite app_nil_r|]. cbn [length] in Hl.
  pose proof (S_recv ta v [] p ev ch pend st w) as Hs. cbv zeta in Hs. rewrite decide_False in Hs by (rewrite length_app; cbn; lia).
  eapply rtc_l; [exact Hs|]. rewrite (app_assoc pend [ev] ch : pend ++ ev :: ch = _). apply IH. rewrite length_app. cbn. lia.
Qed.

(** A short trace can be handed over in one batch, and its insertions can end in any way. *)
Lemma one_batch ta v input evs e os : parse_stream ta v input = Some (evs, e) -> (length evs < 100)%nat ->
  rtc (step ta v) (init input) (mkRec (PClosed e) [] [] (kept (attempts os evs)) (attempts os evs) true).
Proof.
  intros Hp Hl. etrans; [eapply (parses_into ta v (S (length input))); [lia|exact Hp|cbn; unfold chan_cap; lia]|].
  etrans; [apply receives; cbn; lia|]. pose proof (S_closed ta v os e evs [] []) as Hs. rewrite flushed_spec in Hs. by apply rtc_once.
Qed.

End Recorder.
