(* ===== verification/TraceLogHeap.v ===== *)
(** The log's buffer as a Go slice, and concurrent use of the log.

    [Heap] models [Log.data] as a slice into a heap of arrays, with append in place when the
    capacity allows and [clearDataBuf] keeping the tail of the array; it refines the log of
    TraceLog, and shows that the data a reader was handed is never overwritten by later events,
    although it may share its array with them.

    [Concurrent] interleaves the atomic steps of any number of [Add] calls with a reader. *)

From S2P Require Import Prelude Utf8 Errs TraceBuffer TraceReader TraceCodec TraceModel TraceLog.
From S2P Require Import TraceEvents TraceHTTP TraceParser TraceRoundtrip TraceCalls TraceRecord.

Module Heap.

(** ** Slices *)

Record slice := mkSlice { arr : nat; off : nat; len : nat; cap : nat }.

(** Arrays by allocation number; the next number to allocate. *)
Record heap := mkHeap { arrays : gmap nat (list byte); fresh_arr : nat }.

Definition array (h : heap) (a : nat) : list byte := default [] (arrays h !! a).

Definition contents (h : heap) (s : slice) : list byte := take (len s) (drop (off s) (array h (arr s))).

(** Overwriting [bs] at position [i] of an array. *)
Definition blit (i : nat) (bs l : list byte) : list byte := take i l ++ bs ++ drop (i + length bs) l.

Definition alloc (h : heap) (l : list byte) : nat * heap :=
  (fresh_arr h, mkHeap (<[fresh_arr h := l]> (arrays h)) (S (fresh_arr h))).

(** [append(s, bs...)]: in place when the capacity allows, and otherwise in a new array.  The
    capacity of the new array is up to the runtime, [extra] bytes more than needed. *)
Definition append (extra : nat) (s : slice) (bs : list byte) (h : heap) : slice * heap :=
  if decide (len s + length bs <= cap s)%nat then
    (mkSlice (arr s) (off s) (len s + length bs) (cap s),
     mkHeap (<[arr s := blit (off s + len s) bs (array h (arr s))]> (arrays h)) (fresh_arr h))
  else
    let new := contents h s ++ bs in
    let '(a, h') := alloc h (new ++ replicate extra Byte.x00) in
    (mkSlice a 0 (length new) (length new + extra), h').

Definition maxBufferSize : Z := 100 * Z.shiftl 10 20.
Definition initialBufferSize : Z := 10 * Z.shiftl 10 20.

(** [clearDataBuf]: a new array when the capacity is too large, and otherwise the empty tail
    [l.data[len(l.data):]] of the array in use. *)
Definition clearDataBuf (max init : Z) (s : slice) (h : heap) : slice * heap :=
  if Z.of_nat (cap s) >? max then
    let '(a, h') := alloc h (replicate (Z.to_nat init) Byte.x00) in (mkSlice a 0 0 (Z.to_nat init), h')
  else (mkSlice (arr s) (off s + len s) 0 (cap s - len s), h).

(** ** The log over the heap *)

Record hlog := mkHLog {
  mem : heap;
  hdata : slice;
  hdone : bool;
  handed : list slice            (* the slices readers were handed *)
}.

Inductive op := OAdd (extra : nat) (event : list byte) | OGetAndClear | OMarkDone.

Definition h_step (o : op) (l : hlog) : hlog :=
  match o with
  | OAdd extra event =>
      let '(s, h) := append extra (hdata l) event (mem l) in mkHLog h s (hdone l) (handed l)
  | OGetAndClear =>
      let '(s, h) := clearDataBuf maxBufferSize initialBufferSize (hdata l) (mem l) in
      mkHLog h s (hdone l) (handed l ++ [hdata l])
  | OMarkDone => mkHLog (mem l) (hdata l) true (handed l)
  end.

(** The same operations on the log of TraceLog, with the data handed out. *)
Definition a_step (o : op) (l : Log * list (list byte)) : Log * list (list byte) :=
  match o with
  | OAdd _ event => (mkLog (data l.1 ++ event) (done l.1), l.2)
  | OGetAndClear => let '((d, _), l') := l_GetAndClear l.1 in (l', l.2 ++ [d])
  | OMarkDone => (l_MarkDone l.1, l.2)
  end.

Definition h_init : hlog := mkHLog (mkHeap {[0%nat := []]} 1) (mkSlice 0 0 0 0) false [].

(** ** Invariant *)

Definition in_bounds (h : heap) (s : slice) : Prop :=
  (arr s < fresh_arr h)%nat /\ (len s <= cap s)%nat /\ (off s + cap s <= length (array h (arr s)))%nat.

(** A handed-out slice lies in another array, or before the part the log may still write. *)
Definition h_inv (l : hlog) : Prop :=
  in_bounds (mem l) (hdata l) /\
  Forall (fun r => in_bounds (mem l) r /\ (arr r <> arr (hdata l) \/ (off r + len r <= off (hdata l))%nat)) (handed l).

(** The abstraction function. *)
Definition abs (l : hlog) : Log * list (list byte) :=
  (mkLog (contents (mem l) (hdata l)) (hdone l), contents (mem l) <$> handed l).

Lemma array_insert_eq h n f a l : a = n -> array (mkHeap (<[a := l]> (arrays h)) f) n = l.
Proof. intros ->. unfold array. cbn. by rewrite lookup_insert_eq. Qed.

Lemma array_insert_ne h n f a l : a <> n -> array (mkHeap (<[a := l]> (arrays h)) f) n = array h n.
Proof. intros H. unfold array. cbn. by rewrite lookup_insert_ne. Qed.

Lemma length_blit i bs l : (i + length bs <= length l)%nat -> length (blit i bs l) = length l.
Proof. intros H. unfold blit. rewrite !length_app, length_take, length_drop. lia. Qed.

Lemma take_blit n i bs l : (n <= i)%nat -> (i <= length l)%nat -> take n (blit i bs l) = take n l.
Proof. intros H Hl. unfold blit. rewrite take_app_le by (rewrite length_take; lia). by rewrite take_take, Nat.min_l. Qed.

(** A part of the array before the written position is unchanged. *)
Lemma region_blit o n i bs l :
  (o + n <= i)%nat -> (i <= length l)%nat -> take n (drop o (blit i bs l)) = take n (drop o l).
Proof. intros H Hl. rewrite !take_drop_commute. by rewrite take_blit by lia. Qed.

Lemma region_blit_append o n bs l :
  (o + n + length bs <= length l)%nat ->
  take (n + length bs) (drop o (blit (o + n) bs l)) = take n (drop o l) ++ bs.
Proof.
  intros H. rewrite take_drop_commute. unfold blit.
  replace (o + (n + length bs))%nat with (length (take (o + n) l) + length bs)%nat
    by (rewrite length_take; lia).
  rewrite take_app_add, take_app_length. rewrite drop_app_le by (rewrite length_take; lia).
  by rewrite take_drop_commute.
Qed.

(** ** The log refines its abstract form *)

Lemma append_contents extra s bs h :
  in_bounds h s -> let r := append extra s bs h in
  contents r.2 r.1 = contents h s ++ bs /\ in_bounds r.2 r.1.
Proof.
  intros (Ha & Hc & Hl). unfold append. case_decide as Hd; cbn [fst snd].
  - unfold contents, in_bounds. cbn [arr off len cap mem arrays fresh_arr]. rewrite array_insert_eq by done.
    rewrite length_blit by lia. split; [by apply region_blit_append; lia | split_and!; lia].
  - unfold alloc. cbn [fst snd]. unfold contents at 1, in_bounds.
    cbn [arr off len cap fresh_arr]. rewrite array_insert_eq by done. rewrite drop_0, take_app_length.
    split; [done|]. rewrite !length_app, length_replicate. split_and!; lia.
Qed.

(** What [append] leaves alone: slices of other arrays, and slices before its end. *)
Lemma append_frame extra s bs h r :
  in_bounds h s -> in_bounds h r -> (arr r <> arr s \/ (off r + len r <= off s + len s)%nat) ->
  contents (append extra s bs h).2 r = contents h r /\ in_bounds (append extra s bs h).2 r.
Proof.
  intros (Ha & Hc & Hl) (Hra & Hrc & Hrl) Hsep. unfold append. case_decide as Hd; cbn [fst snd].
  - unfold contents, in_bounds. cbn [fresh_arr]. destruct (decide (arr r = arr s)) as [Heq|Hne].
    + rewrite (array_insert_eq h (arr r)) by done. rewrite <- Heq in *. rewrite length_blit by lia.
      destruct Hsep as [|Hsep]; [done|]. rewrite region_blit by lia. done.
    + by rewrite array_insert_ne.
  - unfold alloc. cbn [fst snd]. unfold contents, in_bounds. cbn [fresh_arr].
    rewrite array_insert_ne by lia. split; [done|]. split_and!; lia.
Qed.

Lemma clear_frame max init s h r :
  in_bounds h r -> contents (clearDataBuf max init s h).2 r = contents h r /\ in_bounds (clearDataBuf max init s h).2 r.
Proof.
  intros (Ha & Hc & Hl). unfold clearDataBuf. case_match; [|done]. unfold alloc. cbn [fst snd].
  unfold contents, in_bounds. cbn [fresh_arr]. rewrite array_insert_ne by lia. split; [done|]. split_and!; lia.
Qed.

Lemma clear_empty max init s h :
  in_bounds h s -> let r := clearDataBuf max init s h in
  contents r.2 r.1 = [] /\ in_bounds r.2 r.1 /\
  (forall r', in_bounds h r' -> (arr r' <> arr s \/ (off r' + len r' <= off s + len s)%nat) ->
    arr r' <> arr r.1 \/ (off r' + len r' <= off r.1)%nat).
Proof.
  intros (Ha & Hc & Hl). unfold clearDataBuf. case_match; unfold alloc; cbn [fst snd].
  - split; [done|]. split.
    + unfold in_bounds. cbn [arr off len cap fresh_arr]. rewrite array_insert_eq by done.
      rewrite length_replicate. lia.
    + intros r' (Hr & _) _. cbn [arr]. left. lia.
  - split; [done|]. split; [unfold in_bounds; cbn; lia|]. intros r' _ Hsep. cbn [arr off]. done.
Qed.

Lemma h_step_refines o l : h_inv l -> h_inv (h_step o l) /\ abs (h_step o l) = a_step o (abs l).
Proof.
  intros [Hd Hh]. rewrite list.Forall_forall in Hh.
  assert (forall m, (forall r, r ∈ handed l -> contents m r = contents (mem l) r) ->
    contents m <$> handed l = contents (mem l) <$> handed l) as Hmap.
  { intros m Hm. apply list_fmap_ext. intros i r Hr. apply Hm. by eapply list_elem_of_lookup_2. }
  destruct o as [extra event| |]; cbn [h_step a_step].
  - destruct (append_contents extra (hdata l) event (mem l) Hd) as [Hc Hb].
    assert (forall r, r ∈ handed l -> contents (append extra (hdata l) event (mem l)).2 r = contents (mem l) r /\
      in_bounds (append extra (hdata l) event (mem l)).2 r /\
      (arr r <> arr (append extra (hdata l) event (mem l)).1
       \/ (off r + len r <= off (append extra (hdata l) event (mem l)).1)%nat)) as Hfr.
    { intros r Hr. destruct (Hh r Hr) as [Hrb Hsep].
      destruct (append_frame extra (hdata l) event (mem l) r) as [Hrc Hrb']; [done..|lia|].
      split_and!; [done..|]. unfold append. case_decide; cbn; [done|]. left. destruct Hrb. lia. }
    destruct (append extra (hdata l) event (mem l)) as [s h]. cbn [fst snd] in *. split.
    + split; [done|]. apply list.Forall_forall. intros r Hr. by destruct (Hfr r Hr) as (_ & ? & ?).
    + unfold abs. cbn. rewrite Hc. f_equal. apply Hmap. intros r Hr. by destruct (Hfr r Hr).
  - destruct (clear_empty maxBufferSize initialBufferSize (hdata l) (mem l) Hd) as (Hc & Hb & Hsep).
    pose proof (clear_frame maxBufferSize initialBufferSize (hdata l) (mem l)) as Hfr.
    destruct (clearDataBuf _ _ (hdata l) (mem l)) as [s h]. cbn [fst snd] in *. split.
    + split; [done|]. cbn. apply list.Forall_forall. intros r [Hr|Hr%list_elem_of_singleton]%elem_of_app; [|subst r].
      * destruct (Hh r Hr) as [Hrb Hs]. split; [by apply Hfr|]. apply Hsep; [done|lia].
      * split; [by apply Hfr|]. apply Hsep; [done|lia].
    + unfold abs. cbn. rewrite Hc, fmap_app. cbn. f_equal. f_equal.
      * apply Hmap. intros r Hr. apply Hfr. by apply Hh.
      * by rewrite (proj1 (Hfr _ Hd)).
  - split; [|done]. split; [done|]. by apply list.Forall_forall.
Qed.

Lemma h_init_inv : h_inv h_init.
Proof. split; [cbv; lia | apply list.Forall_nil_2]. Qed.

(** Any sequence of operations. *)
Lemma h_run_refines os : forall l, h_inv l ->
  h_inv (foldl (fun l o => h_step o l) l os) /\
  abs (foldl (fun l o => h_step o l) l os) = foldl (fun l o => a_step o l) (abs l) os.
Proof.
  induction os as [|o os IH]; intros l Hl; [done|]. cbn [foldl].
  destruct (h_step_refines o l Hl) as [Hl' <-]. by apply IH.
Qed.
End Heap.

(** ** Concurrent [Add]s *)

Module Concurrent.
Section Concurrent.
Context `{E : GoEnv}.

(** Where an [Add] call is: before its first counter increment, before the second one (the
    first returned 0), or holding its id, about to append under the lock. *)
Inductive thread :=
| TWant (nano : Z) (c : LogCall)
| TRetry (nano : Z) (c : LogCall)
| THold (id nano : Z) (c : LogCall).

Record state := mkConc {
  counter : Z;                         (* nextEventID *)
  threads : list thread;
  log : Log;
  delivered : list byte;               (* what readers have taken, in order *)
  incs : nat;                          (* atomic increments so far *)
  appended : list (Z * Z * LogCall)    (* the events appended so far: id, time, call *)
}.

Definition event_bytes (id nano : Z) (c : LogCall) : list byte :=
  event_header (call_type c) id (signedToUnsigned nano) (call_trace c) (call_span c) (blen (call_body c))
  ++ call_body c.

Inductive step : state -> state -> Prop :=
| S_begin nano c ctr ts l d n hist :
    wf_run (nano, c) -> fits c = true ->
    step (mkConc ctr ts l d n hist) (mkConc ctr (TWant nano c :: ts) l d n hist)
| S_inc nano c ctr ts1 ts2 l d n hist :
    let id := u64 (ctr + 1) in
    step (mkConc ctr (ts1 ++ TWant nano c :: ts2) l d n hist)
      (mkConc id (ts1 ++ (if id =? 0 then TRetry nano c else THold id nano c) :: ts2) l d (S n) hist)
| S_retry nano c ctr ts1 ts2 l d n hist :
    let id := u64 (ctr + 1) in
    step (mkConc ctr (ts1 ++ TRetry nano c :: ts2) l d n hist)
      (mkConc id (ts1 ++ THold id nano c :: ts2) l d (S n) hist)
| S_append id nano c ctr ts1 ts2 l d n hist :
    step (mkConc ctr (ts1 ++ THold id nano c :: ts2) l d n hist)
      (mkConc ctr (ts1 ++ ts2) (mkLog (data l ++ event_bytes id nano c) (done l)) d n (hist ++ [(id, nano, c)]))
| S_deliver ctr ts l d n hist :
    let r := l_GetAndClear l in
    step (mkConc ctr ts l d n hist) (mkConc ctr ts r.2 (d ++ r.1.1) n hist).

Definition init (ctr : Z) : state := mkConc ctr [] NewLog [] 0 [].

(** The ids taken: by calls about to append, and by the appended events. *)
Definition hold_id (t : thread) : option Z := match t with THold id _ _ => Some id | _ => None end.
Definition taken (s : state) : list Z := omap hold_id (threads s) ++ ((fun e => e.1.1) <$> appended s).

Definition thread_wf (t : thread) : Prop :=
  match t with
  | TWant nano c | TRetry nano c => wf_run (nano, c) /\ fits c = true
  | THold id nano c => is_u64 id /\ wf_run (nano, c) /\ fits c = true
  end.

(** The stream holds the appended events, whole and in order. *)
Definition stream_inv (s : state) : Prop :=
  Forall thread_wf (threads s) /\
  Forall (fun e => thread_wf (THold e.1.1 e.1.2 e.2)) (appended s) /\
  delivered s ++ data (log s) = concat ((fun e => event_bytes e.1.1 e.1.2 e.2) <$> appended s).

(** Ids are what the counter passed through, none twice. *)
Definition ids_inv (ctr0 : Z) (s : state) : Prop :=
  counter s = u64 (ctr0 + Z.of_nat (incs s)) /\
  exists ks : list nat, Forall (fun k => 1 <= k <= incs s)%nat ks /\ NoDup ks /\
    taken s ≡ₚ (fun k => u64 (ctr0 + Z.of_nat k)) <$> ks.

Lemma step_stream s s' : step s s' -> stream_inv s -> stream_inv s'.
Proof.
  intros Hs (Ht & Ha & Hd).
  destruct Hs as [nano c ctr ts l d n hist Hwf Hfit | nano c ctr ts1 ts2 l d n hist id
    | nano c ctr ts1 ts2 l d n hist id | id nano c ctr ts1 ts2 l d n hist | ctr ts l d n hist r];
    unfold stream_inv; cbn [threads appended delivered log] in *.
  - split_and!; [by constructor | done..].
  - apply Forall_app in Ht as [H1 H2]. apply list.Forall_cons in H2 as [Hc H2].
    split_and!; [|done..]. apply Forall_app. split; [done|]. constructor; [|done].
    destruct Hc. destruct (id =? 0); cbn; split_and!; try done. apply u64_range.
  - apply Forall_app in Ht as [H1 H2]. apply list.Forall_cons in H2 as [Hc H2].
    split_and!; [|done..]. apply Forall_app. split; [done|]. constructor; [|done].
    destruct Hc. cbn; split_and!; try done. apply u64_range.
  - apply Forall_app in Ht as [H1 H2]. apply list.Forall_cons in H2 as [Hc H2].
    split_and!; [by apply Forall_app | by apply Forall_app; split; [|constructor] |].
    rewrite fmap_app, concat_app, <- Hd. cbn. by rewrite app_nil_r, app_assoc.
  - split_and!; [done..|]. subst r. cbn. by rewrite app_nil_r.
Qed.

(** An increment, after which the caller may hold the new value. *)
Lemma ids_inv_inc ctr0 ctr ts l d n hist ts' :
  let id := u64 (ctr + 1) in
  ids_inv ctr0 (mkConc ctr ts l d n hist) ->
  omap hold_id ts' = omap hold_id ts \/ omap hold_id ts' ≡ₚ id :: omap hold_id ts ->
  ids_inv ctr0 (mkConc id ts' l d (S n) hist).
Proof.
  intros id (Hctr & ks & Hk & Hnd & Htk) Hts. unfold ids_inv, taken in *.
  cbn [threads appended counter incs] in *.
  assert (id = u64 (ctr0 + Z.of_nat (S n))) as Hid.
  { subst id. rewrite Hctr. unfold u64. rewrite Zplus_mod_idemp_l. f_equal. lia. }
  split; [done|].
  assert (Forall (fun k => 1 <= k <= S n)%nat ks) as Hk'
    by (eapply list.Forall_impl; [exact Hk|]; intros; cbn in *; lia).
  destruct Hts as [Hts|Hts].
  - exists ks. split_and!; [done..|]. by rewrite Hts, Htk.
  - exists (S n :: ks). split_and!.
    + constructor; [lia|done].
    + constructor; [|done]. intros Hin. rewrite list.Forall_forall in Hk. apply Hk in Hin. lia.
    + rewrite Hts. cbn [app fmap list_fmap]. rewrite <- Hid. cbn. by f_equiv.
Qed.

Lemma step_ids ctr0 s s' : step s s' -> ids_inv ctr0 s -> ids_inv ctr0 s'.
Proof.
  intros Hs Hinv.
  destruct Hs as [nano c ctr ts l d n hist Hwf Hfit | nano c ctr ts1 ts2 l d n hist id
    | nano c ctr ts1 ts2 l d n hist id | id nano c ctr ts1 ts2 l d n hist | ctr ts l d n hist r].
  - exact Hinv.
  - eapply ids_inv_inc; [exact Hinv|]. fold id. rewrite !omap_app. cbn.
    destruct (id =? 0); cbn; [by left|]. right. by rewrite Permutation_middle.
  - eapply ids_inv_inc; [exact Hinv|]. fold id. rewrite !omap_app. cbn. right. by rewrite Permutation_middle.
  - destruct Hinv as (Hctr & ks & Hk & Hnd & Htk). split; [done|]. exists ks. split_and!; [done..|].
    rewrite <- Htk. unfold taken. cbn [threads appended]. rewrite !omap_app, fmap_app. cbn.
    rewrite <- !app_assoc. f_equiv. rewrite app_assoc, <- Permutation_cons_append. done.
  - exact Hinv.
Qed.

Lemma init_inv ctr0 : is_u64 ctr0 -> stream_inv (init ctr0) /\ ids_inv ctr0 (init ctr0).
Proof.
  intros H. split.
  - split_and!; [constructor | constructor | done].
  - split; [cbn; by rewrite Z.add_0_r, u64_id|]. exists []. split_and!; [constructor.. | done].
Qed.

Lemma steps_inv ctr0 s : is_u64 ctr0 -> rtc step (init ctr0) s -> stream_inv s /\ ids_inv ctr0 s.
Proof.
  intros Hc Hs. pose proof (init_inv ctr0 Hc) as Hinv.
  induction Hs as [|s1 s2 s3 Hstep _ IH]; [done|]. apply IH. destruct Hinv.
  split; [by eapply step_stream | by eapply step_ids].
Qed.

(** Parsing a concatenation of whole events. *)
Lemma parse_events ta v (evs : list (Z * Z * LogCall)) :
  15 <= v -> Forall (fun e => thread_wf (THold e.1.1 e.1.2 e.2)) evs ->
  parse_stream ta v (concat ((fun e => event_bytes e.1.1 e.1.2 e.2) <$> evs))
  = Some (omap (fun e => recorded ta e.1.1 e.1.2 (call_trace e.2) (call_span e.2) <$> pb_call e.2) evs, PE_io EOF).
Proof.
  intros Hv. induction evs as [|[[id nano] c] evs IH]; intros Hwf; [done|].
  apply list.Forall_cons in Hwf as [(Hid & (Hn & Hwf & [ev Hev]) & Hfit) Hevs]. cbn [fst snd] in *.
  destruct (call_ids c) as [Ht Hs]; [done|by eexists|].
  cbn [fmap list_fmap concat fst snd]. unfold event_bytes at 1.
  rewrite parse_stream_unfold, <- app_assoc.
  rewrite (ParseEvent_emitted ta v _ _ _ _ _ (call_writer c) ev); try done;
    [| apply call_type_u8 | by apply call_roundtrips | by eapply call_writes | by apply Z.leb_le].
  rewrite IH by done. cbn [omap list_omap fst snd]. rewrite Hev. done.
Qed.

(** Fewer than 2^64 increments never repeat a value. *)
Lemma u64_inj ctr0 k1 k2 :
  u64 (ctr0 + Z.of_nat k1) = u64 (ctr0 + Z.of_nat k2) ->
  (1 <= k1)%nat -> (1 <= k2)%nat -> Z.of_nat k1 < 2 ^ 64 -> Z.of_nat k2 < 2 ^ 64 -> k1 = k2.
Proof.
  unfold u64. intros Heq H1 H2 L1 L2.
  assert ((Z.of_nat k1 - Z.of_nat k2) mod 2 ^ 64 = 0) as Hmod.
  { replace (Z.of_nat k1 - Z.of_nat k2) with ((ctr0 + Z.of_nat k1) - (ctr0 + Z.of_nat k2)) by lia.
    rewrite Zminus_mod, Heq, Z.sub_diag. done. }
  apply Z.mod_divide in Hmod as [q Hq]; [|lia]. assert (q = 0) by nia. lia.
Qed.

Lemma ids_distinct ctr0 s : ids_inv ctr0 s -> Z.of_nat (incs s) < 2 ^ 64 -> NoDup (taken s).
Proof.
  intros (_ & ks & Hk & Hnd & ->) Hn. rewrite list.Forall_forall in Hk.
  apply NoDup_fmap_2_strong; [|done]. intros k1 k2 H1 H2 Heq. apply Hk in H1, H2.
  eapply u64_inj; [exact Heq | lia..].
Qed.

(** A call retries only after the counter passed through 0, so the second id is not 0. *)
Definition nonzero_inv (ctr0 : Z) (s : state) : Prop :=
  (0 ∉ taken s) /\
  (Exists (fun t => match t with TRetry _ _ => True | _ => False end) (threads s) ->
   exists k, (1 <= k <= incs s)%nat /\ u64 (ctr0 + Z.of_nat k) = 0).

Lemma step_incs s s' : step s s' -> (incs s <= incs s')%nat.
Proof. intros []; cbn; lia. Qed.

Lemma step_nonzero ctr0 s s' :
  step s s' -> ids_inv ctr0 s -> ids_inv ctr0 s' -> Z.of_nat (incs s') < 2 ^ 64 ->
  nonzero_inv ctr0 s -> nonzero_inv ctr0 s'.
Proof.
  intros Hs [Hctr _] [Hctr' _] Hn [H0 Hr].
  destruct Hs as [nano c ctr ts l d n hist Hwf Hfit | nano c ctr ts1 ts2 l d n hist id
    | nano c ctr ts1 ts2 l d n hist id | id nano c ctr ts1 ts2 l d n hist | ctr ts l d n hist r];
    unfold nonzero_inv, taken in *; cbn [threads appended incs counter] in *;
    rewrite ?Exists_app, ?Exists_cons, ?omap_app in *; cbn [omap list_omap hold_id] in *.
  - split; [done|]. intros [[]|H]; by apply Hr.
  - destruct (Z.eqb_spec id 0) as [Hid|Hid]; cbn [hold_id] in *.
    + split; [done|]. intros _. exists (S n). split; [lia|]. by rewrite <- Hctr'.
    + split; [set_solver|]. intros H. destruct Hr as (k & Hk & Hz); [naive_solver|]. exists k. split; [lia|done].
  - destruct Hr as (k & Hk & Hz); [by right; left|].
    assert (id <> 0) as Hid.
    { rewrite Hctr', <- Hz. intros Heq. apply (u64_inj ctr0 (S n) k) in Heq; lia. }
    split; [set_solver|]. intros _. exists k. split; [lia|done].
  - split; [|intros H; apply Hr; naive_solver]. rewrite fmap_app. cbn. set_solver.
  - done.
Qed.

Lemma steps_nonzero ctr0 s :
  is_u64 ctr0 -> rtc step (init ctr0) s -> Z.of_nat (incs s) < 2 ^ 64 -> 0 ∉ taken s.
Proof.
  intros Hc Hs Hn. assert (nonzero_inv ctr0 (init ctr0)) as Hnz by (split; [by apply not_elem_of_nil | by inversion 1]).
  destruct (init_inv ctr0 Hc) as [_ Hids].
  cut (nonzero_inv ctr0 s); [by intros []|]. revert Hn Hnz Hids.
  induction Hs as [|s1 s2 s3 Hstep Hs IH]; [done|]. intros Hn Hnz Hids.
  assert (incs s2 <= incs s3)%nat by (clear -Hs; induction Hs as [|??? Hst _ IH]; [lia|]; apply step_incs in Hst; lia).
  pose proof (step_ids _ _ _ Hstep Hids) as Hids'.
  apply IH; [done| |done]. eapply step_nonzero; [exact Hstep | done.. | lia | done].
Qed.
End Concurrent.
End Concurrent.
