(* ===== verification/TraceTheorems.v ===== *)
(** The main theorems about tracing, each with a concrete instance where it has hypotheses.

    - the trace of a run: everything logged is read back, in order, through the log's buffer, the
      recorder and any interleaving of concurrent loggers;
    - the parser on input it was not meant for: termination, truncation, valid UTF-8;
    - the encodings of integers, stacks and headers;
    - what is lost: the connection-close event, and frames past the 255th. *)

From S2P Require Import Prelude Utf8 Errs TraceBuffer TraceReader TraceCodec TraceModel TraceLog.
From S2P Require Import TraceEvents TraceHTTP TraceParser TraceRoundtrip TraceCalls TraceRecord TraceLogHeap.

(** ** Values for the instances *)

Definition demo_env : GoEnv := {|
  callers_frames := fun pcs => (fun pc => mkFrame (lit "main.go") pc (lit "main.run")) <$> pcs;
  json_Marshal := fun _ => inl (lit "null");
  range_order := map_to_list;
  range_order_perm := fun m => Permutation_refl (map_to_list m)
|}.

Definition demo_anchor : TimeAnchor := mkAnchor 1000 (mkTime 1700000000 5).
Definition demo_params : EventParams := mkParams (replicate 16 Byte.x07) (replicate 8 Byte.x09) 3 12.
Definition demo_stack : Stack := mkStack [4096; 5000; 4500] 4000.

(** A query with a string that is not valid UTF-8, then its end with an error. *)
Definition demo_calls : list (Z * LogCall) :=
  [ (1005, C_DBQueryStart (mkDBQueryStart demo_params 0 demo_stack (lit "select 1" ++ [Byte.xff])));
    (1010, C_DBQueryEnd demo_params 1 [OtherLink (lit "no rows")]) ].

Lemma demo_params_wf : wf_params demo_params.
Proof. unfold wf_params, is_TraceID, is_SpanID. cbn. split_and!; (done || width). Qed.

Lemma demo_calls_wf : Forall (@wf_run demo_env) demo_calls.
Proof.
  apply list.Forall_cons; split; [|apply list.Forall_singleton];
    (split; [cbn [fst]; width|]); (split; [|by eexists]); cbn [snd wf_call dq_P dq_TxStartID dq_Stack];
    (split; [apply demo_params_wf|]); (split; [width|]); unfold wf_error, wf_stack; cbn.
  - lia.
  - split; [by eexists | lia].
Qed.

(** ** The trace of a run *)

(** C1. Whatever sequence of logger calls runs against a fresh log, none of them fails, and
    parsing the log's data yields exactly the events of the calls: in order, each with its trace
    and span id, its time, the id the counter gave it and the message specified by [pb_call];
    the parse loop then ends with io.EOF, so no bytes are left over or misread. *)
Theorem trace_of_run `{GoEnv} (ta : TimeAnchor) (v ctr : Z) (cs : list (Z * LogCall)) :
  15 <= v -> Forall wf_run cs ->
  exists s' l', run_calls cs (mkState (Some NewLog) ctr) = Some ((), s') /\ l_log s' = Some l' /\
    parse_stream ta v (data l') = Some (expected ta ctr cs, PE_io EOF).
Proof.
  intros Hv Hcs. destruct (run_calls_stream ta v cs (mkState (Some NewLog) ctr) NewLog) as (s' & bs & Hr & Hl & Hp); [done..|].
  exists s', (mkLog bs false). split; [done|]. split; [done|]. specialize (Hp []).
  rewrite app_nil_r, parse_stream_nil in Hp. cbn [data]. rewrite Hp. cbn. by rewrite app_nil_r.
Qed.

Lemma trace_of_run_witness :
  exists s' l', run_calls (E := demo_env) demo_calls (mkState (Some NewLog) 41) = Some ((), s') /\ l_log s' = Some l' /\
    parse_stream demo_anchor 17 (data l') = Some (expected (E := demo_env) demo_anchor 41 demo_calls, PE_io EOF) /\
    tracepb2.te_EventId <$> expected (E := demo_env) demo_anchor 41 demo_calls = [42; 43].
Proof.
  destruct (@trace_of_run demo_env demo_anchor 17 41 demo_calls) as (s' & l' & H1 & H2 & H3);
    [lia | apply demo_calls_wf|].
  exists s', l'. split_and!; [done..|]. vm_compute. reflexivity.
Defined.

(** C34. A log can be cut short anywhere (the application died while streaming it): on every proper
    prefix of an event's bytes [ParseEvent] reports an error, whatever the event is. *)
Theorem truncated_event `{GoEnv} (ta : TimeAnchor) (v id nano : Z) (c : LogCall) (p q : list byte) :
  15 <= v -> is_u64 id -> wf_run (nano, c) -> fits c = true ->
  Concurrent.event_bytes id nano c = p ++ q -> q <> [] ->
  exists ev err rest, ParseEvent ta v p = (ev, Some err, rest).
Proof.
  intros Hv Hid (Hn & Hwf & [ev Hev]) Hfit Hpq Hq. cbn [fst snd] in *.
  destruct (call_ids c) as [Ht Hs]; [done|by eexists|].
  eapply (ParseEvent_truncated ta v _ _ _ _ _ (call_writer c) ev); [apply call_type_u8 | done.. | | | | exact Hpq | done].
  - by apply call_roundtrips.
  - by eapply call_writes.
  - by apply Z.leb_le.
Qed.

Lemma truncated_event_witness :
  let c := C_DBQueryEnd demo_params 1 [OtherLink (lit "no rows")] in
  exists ev err rest,
    ParseEvent demo_anchor 17 (take 50 (@Concurrent.event_bytes demo_env 43 1010 c)) = (ev, Some err, rest).
Proof.
  intros c. apply (@truncated_event demo_env demo_anchor 17 43 1010 c
    (take 50 (@Concurrent.event_bytes demo_env 43 1010 c)) (drop 50 (@Concurrent.event_bytes demo_env 43 1010 c))).
  - lia.
  - width.
  - apply (proj1 (list.Forall_forall _ _) demo_calls_wf). right. left.
  - reflexivity.
  - by rewrite take_drop.
  - vm_compute. discriminate.
Defined.

(** C33. The parse loop of the recorder ends on every finite stream, whatever its bytes: after at
    most one round per byte it has a list of events and the error that stopped it. *)
Theorem parse_loop_terminates (ta : TimeAnchor) (v : Z) (input : list byte) :
  exists evs err, parse_all (S (length input)) ta v input = Some (evs, err).
Proof.
  destruct (parse_all_total (S (length input)) ta v input) as [[evs err] H]; [lia|]. by exists evs, err.
Qed.

(** ** The recorder *)

Lemma recorder_init ta v input evs err :
  parse_stream ta v input = Some (evs, err) -> Recorder.all_events ta v (Recorder.init input) = evs.
Proof.
  intros Hp. unfold Recorder.all_events, Recorder.init, Recorder.remaining.
  cbn [Recorder.written Recorder.pendingWrites Recorder.eventCh Recorder.prod fmap list_fmap app]. by rewrite Hp.
Qed.

(** The recorder returns only after the stream has ended, the channel is drained and the last batch
    was handed over. *)
Lemma recorder_returned ta v s s' :
  rtc (Recorder.step ta v) s s' -> Recorder.returned s = false -> Recorder.returned s' = true ->
  Recorder.pendingWrites s' = [] /\ Recorder.eventCh s' = [] /\ Recorder.remaining ta v (Recorder.prod s') = [].
Proof.
  intros Hs Hf Ht. apply rtc_inv_r in Hs as [<-|(s2 & _ & Hlast)]; [congruence|]. revert Ht.
  destruct Hlast; try case_decide; rewrite ?Recorder.flushed_spec; by cbn.
Qed.

(** C2. At every moment of a recording, whatever the scheduling of the two goroutines, the ticks
    of the debounce timer and the failures of the database, what has been handed to the store, what is
    pending, what is in the channel and what is still to be parsed make up the trace, in order and
    without duplicates; and the store has exactly those of the events handed to it that it could
    insert, in order.  When [RecordTrace] returns, the whole trace has been handed to the store. *)
Theorem recorder_preserves_trace (ta : TimeAnchor) (v : Z) (input : list byte) evs err s :
  parse_stream ta v input = Some (evs, err) ->
  rtc (Recorder.step ta v) (Recorder.init input) s ->
  (Recorder.written s).*1 ++ Recorder.pendingWrites s ++ Recorder.eventCh s ++ Recorder.remaining ta v (Recorder.prod s) = evs /\
  Recorder.store s = SqliteStore.kept (Recorder.written s) /\
  (Recorder.returned s = true -> (Recorder.written s).*1 = evs).
Proof.
  intros Hp Hs. pose proof (Recorder.steps_all_events ta v _ _ Hs) as Hall.
  rewrite (recorder_init ta v input evs err Hp) in Hall. split; [exact Hall|].
  split; [by apply (Recorder.steps_rows ta v _ _ Hs)|]. intros Ht.
  destruct (recorder_returned ta v _ _ Hs eq_refl Ht) as (Hw & Hc & Hr).
  unfold Recorder.all_events in Hall. by rewrite Hw, Hc, Hr, !app_nil_r in Hall.
Qed.

(** The log of the two calls, and its recording in which the first event cannot be inserted. *)
Definition demo_log : list byte :=
  match run_calls (E := demo_env) demo_calls (mkState (Some NewLog) 41) with Some (_, s) => from_option data [] (l_log s) | None => [] end.
Definition demo_events : list tracepb2.TraceEvent := expected (E := demo_env) demo_anchor 41 demo_calls.
Definition demo_outcomes : list SqliteStore.insertion := [SqliteStore.InsertFailed].
Definition demo_recorded : Recorder.state :=
  Recorder.mkRec (Recorder.PClosed (PE_io EOF)) [] [] (SqliteStore.kept (SqliteStore.attempts demo_outcomes demo_events))
    (SqliteStore.attempts demo_outcomes demo_events) true.

Lemma demo_log_parsed : parse_stream demo_anchor 17 demo_log = Some (demo_events, PE_io EOF).
Proof. vm_compute. reflexivity. Qed.

Lemma demo_recording : rtc (Recorder.step demo_anchor 17) (Recorder.init demo_log) demo_recorded.
Proof. apply Recorder.one_batch; [apply demo_log_parsed|vm_compute; lia]. Qed.

Lemma recorder_preserves_trace_witness :
  (Recorder.written demo_recorded).*1 = demo_events /\ Recorder.store demo_recorded = SqliteStore.kept (Recorder.written demo_recorded) /\
  tracepb2.te_EventId <$> demo_events = [42; 43] /\ tracepb2.te_EventId <$> Recorder.store demo_recorded = [43].
Proof.
  destruct (recorder_preserves_trace demo_anchor 17 demo_log demo_events (PE_io EOF) demo_recorded demo_log_parsed demo_recording) as (_ & H1 & H2).
  split; [by apply H2|]. split; [exact H1|]. split; vm_compute; reflexivity.
Defined.

(** An event the store cannot insert is lost: the recorder returns without it and holds nothing back,
    although it keeps the batch when the store reports an error. *)
Theorem failed_insert_lost :
  exists s, rtc (Recorder.step demo_anchor 17) (Recorder.init demo_log) s /\ Recorder.returned s = true /\ Recorder.pendingWrites s = [] /\
    tracepb2.te_EventId <$> demo_events = [42; 43] /\ tracepb2.te_EventId <$> Recorder.store s = [43].
Proof. exists demo_recorded. split; [apply demo_recording|]. split_and!; vm_compute; reflexivity. Qed.

(** The recorder does not get stuck: from every state it can reach before returning it can go
    on to return with everything in the store that is not handed over yet. *)
Theorem recorder_can_finish (ta : TimeAnchor) (v : Z) (input : list byte) evs err s :
  parse_stream ta v input = Some (evs, err) ->
  rtc (Recorder.step ta v) (Recorder.init input) s -> Recorder.returned s = false ->
  exists s' rest, rtc (Recorder.step ta v) s s' /\ Recorder.returned s' = true /\ (Recorder.written s).*1 ++ rest = evs /\
    Recorder.store s' = Recorder.store s ++ rest.
Proof.
  intros Hp Hs Hf. pose proof (Recorder.steps_all_events ta v _ _ Hs) as Hall.
  rewrite (recorder_init ta v input evs err Hp) in Hall. destruct s as [p ch pend st w ret]. cbn in Hf. subst ret.
  destruct (Recorder.can_finish ta v p ch pend st w) as (s' & H1 & H2 & H3). by exists s', (pend ++ ch ++ Recorder.remaining ta v p).
Qed.

Lemma recorder_can_finish_witness :
  exists s' rest, rtc (Recorder.step demo_anchor 17) (Recorder.init demo_log) s' /\
    Recorder.returned s' = true /\ [] ++ rest = demo_events /\ Recorder.store s' = [] ++ rest.
Proof.
  apply (recorder_can_finish demo_anchor 17 demo_log demo_events (PE_io EOF) (Recorder.init demo_log)).
  - apply demo_log_parsed.
  - apply rtc_refl.
  - reflexivity.
Defined.

(** ** The log *)

(** C32. The log's buffer behaves as a plain byte sequence although it is a slice that shares its
    array with data already handed out: after any sequence of [Add], [GetAndClear] and [MarkDone],
    whatever capacities the runtime picks, the buffer holds the bytes added since the last clear,
    and every slice a reader was given still holds the bytes it had when it was given. *)
Theorem log_buffer_refines (os : list Heap.op) :
  let l := foldl (fun l o => Heap.h_step o l) Heap.h_init os in
  let a := foldl (fun a o => Heap.a_step o a) (NewLog, []) os in
  Heap.contents (Heap.mem l) (Heap.hdata l) = data a.1 /\ Heap.hdone l = done a.1 /\
  Heap.contents (Heap.mem l) <$> Heap.handed l = a.2.
Proof.
  intros l a. destruct (Heap.h_run_refines os Heap.h_init Heap.h_init_inv) as [_ Habs]. fold l in Habs.
  change (Heap.abs Heap.h_init) with (NewLog, [] : list (list byte)) in Habs. fold a in Habs.
  rewrite <- Habs. done.
Qed.

(** C3. Any number of goroutines logging at the same time, and a reader taking the data away as it
    comes: what the reader got, followed by what is in the log, is always a sequence of whole
    events, one per completed [Add] in the order of their appends; and as long as fewer than 2^64
    ids were drawn, no two events share an id and none has the reserved id 0. *)
Theorem concurrent_log `{GoEnv} (ta : TimeAnchor) (v ctr0 : Z) (s : Concurrent.state) :
  15 <= v -> is_u64 ctr0 -> rtc Concurrent.step (Concurrent.init ctr0) s ->
  parse_stream ta v (Concurrent.delivered s ++ data (Concurrent.log s))
  = Some (omap (fun e => recorded ta e.1.1 e.1.2 (call_trace e.2) (call_span e.2) <$> pb_call e.2)
            (Concurrent.appended s), PE_io EOF) /\
  (Z.of_nat (Concurrent.incs s) < 2 ^ 64 ->
   NoDup ((fun e => e.1.1) <$> Concurrent.appended s) /\ (0 ∉ (fun e => e.1.1) <$> Concurrent.appended s)).
Proof.
  intros Hv Hc Hs. destruct (Concurrent.steps_inv ctr0 s Hc Hs) as [(Ht & Ha & Hd) Hids]. split.
  - rewrite Hd. by apply Concurrent.parse_events.
  - intros Hn. pose proof (Concurrent.ids_distinct _ _ Hids Hn) as Hnd.
    pose proof (Concurrent.steps_nonzero _ _ Hc Hs Hn) as Hnz. unfold Concurrent.taken in *.
    split; [by apply list.NoDup_app in Hnd as (_ & _ & ?) | set_solver].
Qed.

(** Two calls, the second to take an id being the first to append, and the counter wrapping
    around past 0 in between. *)
Lemma concurrent_log_witness :
  let c1 := C_DBTransactionStart demo_params demo_stack in
  let c2 := C_DBTransactionStart demo_params (mkStack [] 0) in
  exists s, rtc (Concurrent.step (E := demo_env)) (Concurrent.init (2 ^ 64 - 2)) s /\
    (fun e => e.1.1) <$> Concurrent.appended s = [1; 2 ^ 64 - 1] /\
    NoDup ((fun e => e.1.1) <$> Concurrent.appended s).
Proof.
  intros c1 c2.
  assert (forall n c, (c = c1 \/ c = c2) -> is_i64 n -> wf_run (E := demo_env) (n, c) /\ fits (E := demo_env) c = true) as Hwf.
  { intros n c Hc Hn. destruct Hc as [-> | ->].
    - split; [|reflexivity]. split; [exact Hn|]. split; [|by eexists].
      split; [apply demo_params_wf | unfold wf_stack; cbn; lia].
    - split; [|reflexivity]. split; [exact Hn|]. split; [|by eexists].
      split; [apply demo_params_wf | unfold wf_stack; cbn; lia]. }
  destruct (Hwf 7 c1) as [W1 F1]; [by left | width|]. destruct (Hwf 9 c2) as [W2 F2]; [by right | width|].
  assert (exists s, rtc (Concurrent.step (E := demo_env)) (Concurrent.init (2 ^ 64 - 2)) s /\
    (fun e => e.1.1) <$> Concurrent.appended s = [1; 2 ^ 64 - 1] /\ Concurrent.incs s = 3%nat) as (s & Hs & Hid & Hinc).
  { eexists. split; [|split].
    { eapply rtc_l; [apply (Concurrent.S_begin 7 c1); done|].
    eapply rtc_l; [apply (Concurrent.S_begin 9 c2); done|].
    eapply rtc_l; [apply (Concurrent.S_inc 7 c1 _ [Concurrent.TWant 9 c2] [])|].
    eapply rtc_l; [apply (Concurrent.S_inc 9 c2 _ [] _)|].
    eapply rtc_l; [apply (Concurrent.S_retry 9 c2 _ [] _)|].
    eapply rtc_l; [apply (Concurrent.S_append 1 9 c2 _ [] _)|].
    eapply rtc_l; [apply (Concurrent.S_append (2 ^ 64 - 1) 7 c1 _ [] [])|].
    apply rtc_refl. }
    all: reflexivity. }
  exists s. split; [exact Hs|]. split; [exact Hid|].
  apply (proj2 (@concurrent_log demo_env demo_anchor 17 (2 ^ 64 - 2) s ltac:(lia) ltac:(width) Hs)). rewrite Hinc. lia.
Defined.

(** ** Encodings *)

Lemma length_uvarint_enc_le fuel u : (length (uvarint_enc fuel u) <= fuel)%nat.
Proof. revert u. induction fuel as [|fuel IH]; intros u; cbn; [done|]. case_match; cbn; [|lia]. specialize (IH (u ≫ 7)). lia. Qed.

(** Every 64-bit value is written as a varint without indexing past the ten bytes of the
    scratch array, in one to ten bytes, and read back exactly. *)
Theorem uvarint_roundtrip (v u : Z) :
  is_u64 u ->
  exists bs, (1 <= length bs <= 10)%nat /\ writes (tb_UVarint u) bs /\ reads v tr_UVarint bs u.
Proof.
  intros Hu. exists (uvarint_bytes u).
  split; [split; [apply length_uvarint_bytes | apply length_uvarint_enc_le]|].
  split; [by apply writes_UVarint | by apply reads_UVarint].
Qed.

Lemma uvarint_roundtrip_witness :
  exists bs, (1 <= length bs <= 10)%nat /\ writes (tb_UVarint (2 ^ 64 - 1)) bs /\ reads 17 tr_UVarint bs (2 ^ 64 - 1).
Proof. apply (uvarint_roundtrip 17 (2 ^ 64 - 1)). width. Defined.

(** Signed integers survive the zigzag encodings of the three widths, including the most
    negative ones. *)
Theorem zigzag_roundtrip (v i : Z) :
  is_i64 i ->
  roundtrips (tb_Varint i) v tr_Varint i /\ roundtrips (tb_Int64 i) v tr_Int64 i /\
  (is_i32 i -> roundtrips (tb_Int32 i) v tr_Int32 i).
Proof.
  intros Hi. split; [by apply roundtrips_Varint|]. split; [by apply roundtrips_Int64 | by apply roundtrips_Int32].
Qed.

Lemma zigzag_roundtrip_witness : roundtrips (tb_Int32 (- 2 ^ 31)) 17 tr_Int32 (- 2 ^ 31).
Proof. apply (zigzag_roundtrip 17 (- 2 ^ 31)); width. Defined.

(** The program counters, from the differences the parser returns. *)
Fixpoint undo_diffs (prev : Z) (ds : list Z) : list Z :=
  match ds with [] => [] | d :: ds => let p := i64 (prev + d) in p :: undo_diffs p ds end.

Lemma i64_add_sub p q : is_i64 p -> i64 (q + i64 (p - q)) = p.
Proof.
  intros Hp. unfold i64. set (m := 2 ^ 64). set (h := 2 ^ 63).
  replace (q + ((p - q + h) mod m - h) + h) with ((p - q + h) mod m + q) by lia.
  rewrite Zplus_mod_idemp_l. replace (p - q + h + q) with (p + h) by lia.
  rewrite Z.mod_small; subst m h; width.
Qed.

Lemma undo_stack_diffs off prev frames :
  undo_diffs prev (stack_diffs off prev frames) = (fun pc => i64 (u64 (pc - off))) <$> frames.
Proof.
  revert prev. induction frames as [|pc frames IH]; intros prev; [done|]. cbn [stack_diffs undo_diffs fmap list_fmap].
  rewrite i64_add_sub by apply i64_range. by rewrite IH.
Qed.

(** A stack of at most 255 frames is read back as the successive differences from which every
    program counter, relative to the offset of the text segment, is recovered. *)
Theorem stack_roundtrip (v : Z) (s : Stack) :
  wf_stack s ->
  exists st, roundtrips (tb_Stack s) v tp_stack st /\
    undo_diffs 0 (from_option tracepb2.Pcs [] st) = (fun pc => i64 (u64 (pc - Off s))) <$> Frames s.
Proof.
  intros Hs. exists (pb_stack s). split; [by apply roundtrips_Stack|].
  unfold pb_stack. destruct (Frames s) as [|pc frames]; [done|]. apply undo_stack_diffs.
Qed.

Lemma stack_roundtrip_witness :
  exists st, roundtrips (tb_Stack demo_stack) 17 tp_stack st /\ undo_diffs 0 (from_option tracepb2.Pcs [] st) = [96; 1000; 500].
Proof. apply (stack_roundtrip 17 demo_stack). unfold wf_stack. cbn. lia. Defined.

Lemma writes_forall_app {A} (f : A -> W) l1 l2 b1 b2 :
  writes (w_forall l1 f) b1 -> writes (w_forall l2 f) b2 -> writes (w_forall (l1 ++ l2) f) (b1 ++ b2).
Proof.
  intros H1 H2 tb Htb. destruct (writes_seq _ _ _ _ H1 H2 tb Htb) as (sc & Hsc & Heq).
  exists sc. split; [done|]. rewrite <- Heq. clear. revert tb.
  induction l1 as [|x l1 IH]; intros tb; [done|]. cbn [app w_forall]. unfold w_seq in *.
  destruct (f x tb); [apply IH | done].
Qed.

(** A deeper stack desynchronizes the reader: the count byte is capped at 255 but every frame is
    written, so the parser stops after the first 255 and leaves the others in front of the next
    field. *)
Theorem stack_overflow_desync (v : Z) (s : Stack) :
  (255 < length (Frames s))%nat ->
  exists read left_over, left_over <> [] /\ writes (tb_Stack s) (read ++ left_over) /\
    reads v tp_stack read (Some (tracepb2.mkStackTrace (take 255 (stack_diffs (Off s) 0 (Frames s))) [])).
Proof.
  intros Hlen. set (ds := stack_diffs (Off s) 0 (Frames s)).
  assert (length ds = length (Frames s)) as Hds by apply length_stack_diffs.
  assert (forall x, x ∈ ds -> roundtrips1 (tb_Varint x) v tr_Varint (id x)) as Hel.
  { intros x Hx. by apply roundtrips1_Varint, (stack_diffs_i64 (Off s) 0 (Frames s)). }
  rewrite <- (take_drop 255 ds) in Hel.
  destruct (roundtrips_repeat v tb_Varint tr_Varint id (take 255 ds)) as (b1 & _ & W1 & R1); [set_solver|].
  destruct (roundtrips_repeat v tb_Varint tr_Varint id (drop 255 ds)) as (b2 & L2 & W2 & _); [set_solver|].
  exists (byte_of_Z 255 :: b1), b2. split; [|split].
  - intros ->. unfold blen in L2. rewrite length_drop in L2. cbn in L2. lia.
  - unfold tb_Stack. destruct (Z.gtb_spec (blen (Frames s)) 0xFF) as [_|Hc]; [|unfold blen in Hc; lia].
    cbn [Z.eqb]. rewrite Stack_loop_forall. fold ds. rewrite <- (take_drop 255 ds).
    change (byte_of_Z 255 :: b1) with ([byte_of_Z 255] ++ b1). rewrite <- app_assoc.
    apply writes_seq; [apply writes_Byte|]. by apply writes_forall_app.
  - change (byte_of_Z 255 :: b1) with ([byte_of_Z 255] ++ b1). unfold tp_stack.
    eapply (reads_bind v tr_Byte _ _ _ (byte_of_Z 255)); [intros rest n _; done|].
    rewrite Z_of_byte_small by lia. cbn [Z.eqb]. eapply (reads_fmap v _ (fun ds => Some (tracepb2.mkStackTrace ds []))).
    rewrite list_fmap_id, length_take in R1. replace (255 `min` length ds)%nat with 255%nat in R1 by lia. exact R1.
Qed.

Lemma stack_overflow_desync_witness :
  exists read left_over, left_over <> [] /\
    writes (tb_Stack (mkStack (replicate 300 4096) 4000)) (read ++ left_over) /\
    reads 17 tp_stack read (Some (tracepb2.mkStackTrace (96 :: replicate 254 0) [])).
Proof. apply (stack_overflow_desync 17 (mkStack (replicate 300 4096) 4000)). cbn. lia. Defined.

(** Every string the trace reader returns is valid UTF-8, whatever the bytes of the stream. *)
Theorem parsed_strings_valid (st st' : traceReader) (s : gostring) :
  tr_String st = Ret s st' -> valid_utf8 s = true.
Proof.
  unfold tr_String, mbind, R_bind. destruct (tr_ByteString st) as [b st1|]; [|done].
  intros [= <- _]. apply to_valid_utf8_valid.
Qed.

Lemma parsed_strings_valid_witness :
  exists s st', tr_String (mkReader [Byte.x02; Byte.xff; Byte.x41] 17 0 None) = Ret s st' /\ valid_utf8 s = true.
Proof.
  eexists _, _. split; [reflexivity|].
  apply (parsed_strings_valid (mkReader [Byte.x02; Byte.xff; Byte.x41] 17 0 None) (mkReader [] 17 3 None)). reflexivity.
Defined.

Lemma foldl_insert_list {K V A : Type} `{Countable K} (f : A -> K * V) (l : list A) (m : gmap K V) :
  NoDup ((fun x => (f x).1) <$> l) -> (forall x, x ∈ l -> m !! (f x).1 = None) ->
  foldl (fun m x => <[(f x).1 := (f x).2]> m) m l = list_to_map (f <$> l) ∪ m.
Proof.
  revert m. induction l as [|x l IH]; intros m Hnd Hm; [cbn; by rewrite map_empty_union|].
  cbn [foldl fmap list_fmap] in *. apply list.NoDup_cons in Hnd as [Hx Hnd]. rewrite IH.
  - destruct (f x) as [k y] eqn:Hf. cbn [fst snd list_to_map foldr] in *.
    rewrite <- insert_union_r, insert_union_l; [done|].
    apply not_elem_of_list_to_map_1. by rewrite <- list_fmap_compose.
  - done.
  - intros y Hy. rewrite lookup_insert_ne; [apply Hm; by right|].
    intros Heq. apply Hx. rewrite Heq. by apply (list_elem_of_fmap_2 (fun x => (f x).1)).
Qed.

(** The headers of a request are read back as a map from each key to its first value,
    whatever the order in which the runtime iterates over the header map, as long as the keys are
    valid UTF-8 (canonical header keys are ASCII). *)
Theorem headers_roundtrip `{GoEnv} (v : Z) (hs : Header) :
  (forall k, is_Some (hs !! k) -> valid_utf8 k = true) ->
  roundtrips (logHeaders hs) v tp_headers ((fun vs => to_valid_utf8 (default [] (head vs))) <$> hs).
Proof.
  intros Hk. eapply roundtrips_eq; [apply roundtrips_headers|]. unfold pb_headers.
  pose proof (range_order_perm hs) as Hp. set (l := range_order hs) in *. clearbody l.
  assert (forall kv, kv ∈ l -> to_valid_utf8 kv.1 = kv.1) as Hid.
  { intros [k vs] Hin. apply to_valid_utf8_id, Hk. rewrite Hp in Hin. apply elem_of_map_to_list in Hin. by eexists. }
  set (f := fun kv : gostring * list gostring => (to_valid_utf8 kv.1, to_valid_utf8 (default [] (head kv.2)))).
  assert ((fun x => (f x).1) <$> l = l.*1) as Hkeys.
  { apply list_fmap_ext. intros i kv Hi. by apply Hid, list_elem_of_lookup_2 with i. }
  assert (NoDup l.*1) as Hnd by (rewrite Hp; apply NoDup_fst_map_to_list).
  rewrite (foldl_insert_list f l ∅); [|by rewrite Hkeys | done]. rewrite map_union_empty.
  replace (f <$> l) with (prod_map id (fun vs => to_valid_utf8 (default [] (head vs))) <$> l).
  - rewrite list_to_map_fmap. f_equal. rewrite (list_to_map_proper l (map_to_list hs)); [apply list_to_map_to_list | done..].
  - apply list_fmap_ext. intros i kv Hi. unfold f. rewrite Hid by (by eapply list_elem_of_lookup_2). by destruct kv.
Qed.

Lemma headers_roundtrip_witness :
  roundtrips (@logHeaders demo_env {[ lit "Accept" := [lit "a"; lit "b"] ]}) 17 tp_headers {[ lit "Accept" := lit "a" ]}.
Proof.
  eapply roundtrips_eq; [apply (@headers_roundtrip demo_env 17 {[ lit "Accept" := [lit "a"; lit "b"] ]})|].
  - intros k [vs Hk]. apply lookup_singleton_Some in Hk as [<- _]. reflexivity.
  - rewrite map_fmap_singleton. f_equal.
Defined.

(** ** Times *)

(** Nanoseconds since the Unix epoch. *)
Definition unix_nanos (t : Time) : Z := t_Unix t * 10 ^ 9 + t_Nanosecond t.

(** The anchor maps a monotonic clock reading to the instant that lies as many nanoseconds from
    the anchor's instant as the reading lies from the anchor's reading, in either direction, with
    the nanosecond part normalized. *)
Theorem anchor_to_real (ta : TimeAnchor) (nano : Z) :
  is_i64 (nano - ta_nano ta) -> 0 <= t_Nanosecond (ta_real ta) < 10 ^ 9 ->
  - 2 ^ 62 <= t_Unix (ta_real ta) < 2 ^ 62 ->
  unix_nanos (ta_ToReal ta nano) = unix_nanos (ta_real ta) + (nano - ta_nano ta) /\
  0 <= t_Nanosecond (ta_ToReal ta nano) < 10 ^ 9.
Proof.
  intros Hd Hns Hs. unfold ta_ToReal. rewrite i64_id by done.
  set (d := nano - ta_nano ta) in *. clearbody d. destruct (ta_real ta) as [sec ns]. cbn [t_Unix t_Nanosecond] in *.
  unfold time_Add, unix_nanos. cbn [t_Unix t_Nanosecond].
  pose proof (Z.quot_rem' d (10 ^ 9)) as Hqr.
  pose proof (Z.rem_bound_abs d (10 ^ 9) ltac:(lia)) as Hrem.
  set (q := Z.quot d (10 ^ 9)) in *. set (r := Z.rem d (10 ^ 9)) in *. clearbody q r.
  assert (- 2 ^ 34 <= q <= 2 ^ 34) as Hq by width.
  destruct (Z.geb_spec (ns + r) (10 ^ 9)); [|destruct (Z.ltb_spec (ns + r) 0)]; cbn [t_Unix t_Nanosecond];
    rewrite i64_id by width; lia.
Qed.

Lemma anchor_to_real_witness :
  unix_nanos (ta_ToReal demo_anchor 980) = unix_nanos (mkTime 1700000000 5) - 20 /\
  0 <= t_Nanosecond (ta_ToReal demo_anchor 980) < 10 ^ 9.
Proof. apply (anchor_to_real demo_anchor 980); cbn; width. Defined.

(** ** The life of an outgoing HTTP call *)

Definition is_closed_body (e : httpEvent) : Prop := he_code e = ClosedBody.

Definition life_inv (l : lifecycle) : Prop :=
  (life_completed l = None -> life_wrapped l = false /\ Forall (fun e => ~ is_closed_body e) (rt_events (life_rt l))) /\
  (forall evs, life_completed l = Some evs -> Forall (fun e => ~ is_closed_body e) evs).

Lemma run_callback_events ts cb rt :
  exists e, rt_events (run_callback ts cb rt) = rt_events rt ++ [e] /\ ~ is_closed_body e.
Proof. destruct cb; eexists; (split; [reflexivity | done]). Qed.

Lemma life_step_inv l l' : life_step l l' -> life_inv l -> life_inv l'.
Proof.
  intros Hs [Hn Hc]. destruct Hs as [ts cb rt s c w | nano method status goid err rt s s' w' _ | ts err rt s c];
    unfold life_inv in *; cbn [life_completed life_wrapped life_rt] in *.
  - split; [|done]. intros Hnone. destruct (Hn Hnone) as [Hw Hev]. split; [done|].
    destruct (run_callback_events ts cb rt) as (e & -> & He). apply Forall_app. split; [done|]. by apply list.Forall_singleton.
  - split; [done|]. intros evs [= <-]. by apply Hn.
  - split; [|done]. intros Hnone. by destruct (Hn Hnone).
Qed.

(** The connection-close event never reaches the trace: in every life of an outgoing call, the
    events written with the end event contain no [ClosedBody], since the body reports its close
    only after [HTTPCompleteRoundTrip] has encoded the events; the event codes and the parser's case
    for it are dead. *)
Theorem closed_body_never_traced (tid sid csid : list byte) (id : Z) (s : LogState) (l : lifecycle) evs :
  rtc life_step (mkLife (mkRoundTrip tid sid id csid []) s None false) l ->
  life_completed l = Some evs ->
  Forall (fun e => he_code e <> ClosedBody) evs.
Proof.
  intros Hs Hc. cut (life_inv l); [intros [_ Hi]; by apply Hi|].
  assert (life_inv (mkLife (mkRoundTrip tid sid id csid []) s None false)) as H0.
  { split; [|done]. intros _. split; [done|]. constructor. }
  clear Hc. induction Hs as [|l1 l2 l3 Hstep _ IH]; [done|]. apply IH. by eapply life_step_inv.
Qed.

Definition demo_rt : httpRoundTrip :=
  mkRoundTrip (replicate 16 Byte.x01) (replicate 8 Byte.x02) 7 (replicate 8 Byte.x03) [].

Lemma closed_body_never_traced_witness :
  exists l evs, rtc life_step (mkLife demo_rt (mkState (Some NewLog) 7) None false) l /\
    life_completed l = Some evs /\ length (rt_events (life_rt l)) = 2%nat /\ Forall (fun e => he_code e <> ClosedBody) evs.
Proof.
  set (rt1 := rt_getConn 5 (lit "a:80") demo_rt).
  assert (exists s', l_HTTPCompleteRoundTrip 9 (Some rt1) (lit "GET") (Some 200) 1 []
    (mkState (Some NewLog) 7) = Some (true, s')) as [s' Hs'] by (eexists; vm_compute; reflexivity).
  assert (rtc life_step (mkLife demo_rt (mkState (Some NewLog) 7) None false)
    (mkLife (closeTracker_Close 11 [] rt1).2 s' (Some (rt_events rt1)) true)) as Hs.
  { eapply rtc_l; [exact (LS_callback 5 (CB_getConn (lit "a:80")) demo_rt (mkState (Some NewLog) 7) None false)|].
    eapply rtc_l; [exact (LS_complete _ _ _ _ _ _ _ _ _ Hs')|].
    eapply rtc_l; [exact (LS_close 11 [] rt1 s' _)|]. apply rtc_refl. }
  exists (mkLife (closeTracker_Close 11 [] rt1).2 s' (Some (rt_events rt1)) true), (rt_events rt1).
  split; [exact Hs|]. split; [reflexivity|]. split; [reflexivity|].
  exact (@closed_body_never_traced _ _ _ _ _ _ _ Hs eq_refl).
Defined.
