(* ===== verification/Run.v ===== *)
(** Programs that may panic or run forever.

    A loop is a function of a bound on its rounds: [OutOfFuel] when the bound is reached, [Crash]
    for a Go panic.  A program returns when every large enough bound gives the same value, and
    diverges when no bound is enough. *)

From S2P Require Import Prelude.

Inductive run (A : Type) := Ok (a : A) | Crash | OutOfFuel.
Arguments Ok {A} a.
Arguments Crash {A}.
Arguments OutOfFuel {A}.

#[export] Instance run_ret : MRet run := @Ok.
#[export] Instance run_bind : MBind run := fun A B k m =>
  match m with Ok a => k a | Crash => Crash | OutOfFuel => OutOfFuel end.
#[export] Instance run_fmap : FMap run := fun A B f m => m ≫= (fun a => Ok (f a)).

Definition returns {A} (f : nat -> run A) (a : A) : Prop := exists n, forall m, (n <= m)%nat -> f m = Ok a.
Definition diverges {A} (f : nat -> run A) : Prop := forall n, f n = OutOfFuel.

Lemma bind_Ok {A B} (k : A -> run B) a : mbind k (Ok a) = k a.
Proof. done. Qed.

Lemma bind_Ok_inv {A B} (k : A -> run B) m b : mbind k m = Ok b -> exists a, m = Ok a /\ k a = Ok b.
Proof. destruct m; [|done|done]. intros H. by exists a. Qed.

Lemma fmap_run {A B} (f : A -> B) (m : run A) : f <$> m = m ≫= (fun a => Ok (f a)).
Proof. done. Qed.

Lemma returns_unique {A} (f : nat -> run A) a b : returns f a -> returns f b -> a = b.
Proof.
  intros [n Hn] [m Hm]. specialize (Hn (n `max` m)%nat ltac:(lia)). specialize (Hm (n `max` m)%nat ltac:(lia)).
  congruence.
Qed.

Lemma returns_bind {A B} (f : nat -> run A) (k : A -> run B) a b :
  returns f a -> k a = Ok b -> returns (fun n => f n ≫= k) b.
Proof. intros [n Hn] Hk. exists n. intros m Hm. by rewrite (Hn m Hm). Qed.

(** ** Programs that do not panic *)

(** [m] does not panic, and what it returns satisfies [P]. *)
Definition safe {A} (P : A -> Prop) (m : run A) : Prop :=
  match m with Ok a => P a | Crash => False | OutOfFuel => True end.

Lemma safe_bind {A B} (P : A -> Prop) (Q : B -> Prop) (m : run A) (k : A -> run B) :
  safe P m -> (forall a, P a -> safe Q (k a)) -> safe Q (m ≫= k).
Proof. destruct m; cbn; auto. Qed.

Lemma safe_mono {A} (P Q : A -> Prop) (m : run A) : (forall a, P a -> Q a) -> safe P m -> safe Q m.
Proof. destruct m; cbn; auto. Qed.

Lemma safe_no_crash {A} (P : A -> Prop) (m : run A) : safe P m -> m <> Crash.
Proof. by intros H ->. Qed.
