(* ===== verification/Scrub.v ===== *)
(** Scrubbing of JSON payloads: [pkg/scrub] (scanner.go, scrub.go).

    A best-effort scanner cuts the payload into tokens with their positions and decides which
    literals are keys; the stream walks the tokens with the tree of paths to scrub and collects
    the ranges to replace.  The input is a [bytes.Reader], whose only error is the end of input.
    The stack of the scanner has its top at the head of the list.

    [bytes.EqualFold] and [strings.EqualFold] fold letters by the Unicode tables; they are the
    parameter [EqualFold]. *)

From S2P Require Import Prelude Run.

Notation "'let!' x := m 'in' k" := (mbind (fun x => k) m) (at level 10, x pattern, m at level 100, k at level 200).

(** ** Tokens and items *)

Inductive token := unknown | objectBegin | objectEnd | arrayBegin | arrayEnd | literal.

#[export] Instance token_eq_dec : EqDecision token.
Proof. solve_decision. Defined.

Record scanItem := mkItem { it_from : Z; it_to : Z; it_tok : token; it_isMapKey : bool }.

Definition no_item : scanItem := mkItem 0 0 unknown false.

Record scanState := mkSt { st_tok : token; st_isKey : bool }.

Record scanner := mkScanner {
  sc_r : list byte;          (* what the reader has left *)
  sc_err : bool;             (* io.EOF was returned *)
  sc_pos : Z;
  sc_lastRead : byte;
  sc_unreadByte : byte;
  sc_stack : list scanState
}.

Definition newScanner (input : list byte) : scanner := mkScanner input false 0 Byte.x00 Byte.x00 [].

Definition c_quote : byte := Byte.x22.
Definition c_backslash : byte := Byte.x5c.
Definition c_colon : byte := Byte.x3a.
Definition c_comma : byte := Byte.x2c.
Definition c_lbrace : byte := Byte.x7b.
Definition c_rbrace : byte := Byte.x7d.
Definition c_lbracket : byte := Byte.x5b.
Definition c_rbracket : byte := Byte.x5d.

Definition is_newline (b : byte) : bool := match b with Byte.x0a | Byte.x0d => true | _ => false end.

Definition is_space (b : byte) : bool :=
  match b with Byte.x20 | Byte.x09 | Byte.x0a | Byte.x0d => true | _ => false end.

(** The bytes that end a literal. *)
Definition is_delim (b : byte) : bool :=
  match b with
  | Byte.x22 | Byte.x20 | Byte.x0d | Byte.x0a | Byte.x09 | Byte.x2c | Byte.x3a
  | Byte.x7b | Byte.x5b | Byte.x5d | Byte.x7d => true
  | _ => false
  end.

(** ** Reading bytes *)

Definition readByte (s : scanner) : byte * scanner :=
  if decide (sc_unreadByte s = Byte.x00) then
    if sc_err s then (Byte.x00, s)
    else match sc_r s with
         | [] => (Byte.x00, mkScanner [] true (sc_pos s) (sc_lastRead s) Byte.x00 (sc_stack s))
         | b :: r => (b, mkScanner r false (sc_pos s + 1) b Byte.x00 (sc_stack s))
         end
  else (sc_unreadByte s,
        mkScanner (sc_r s) (sc_err s) (sc_pos s + 1) (sc_unreadByte s) Byte.x00 (sc_stack s)).

(** [unread]; "cannot unread multiple bytes in a row" is a panic. *)
Definition sc_unread (s : scanner) : run scanner :=
  if decide (sc_unreadByte s = Byte.x00) then
    Ok (mkScanner (sc_r s) (sc_err s) (sc_pos s - 1) (sc_lastRead s) (sc_lastRead s) (sc_stack s))
  else Crash.

(** A bound for the loops of the scanner: each round but the last consumes a byte. *)
Definition sc_fuel (s : scanner) : nat := S (S (length (sc_r s))).

Fixpoint readToken_loop (fuel : nat) (s : scanner) : run (byte * scanner) :=
  match fuel with
  | O => OutOfFuel
  | S fuel => let '(b, s) := readByte s in if is_space b then readToken_loop fuel s else Ok (b, s)
  end.

Definition readToken (s : scanner) : run (byte * scanner) := readToken_loop (sc_fuel s) s.

Definition peekToken (s : scanner) : run (byte * scanner) :=
  let! (b, s) := readToken s in
  if decide (b = Byte.x00) then Ok (b, s) else let! s := sc_unread s in Ok (b, s).

(** ** Literals *)

Fixpoint scanString_loop (fuel : nat) (from : Z) (s : scanner) : run (scanItem * scanner) :=
  match fuel with
  | O => OutOfFuel
  | S fuel =>
      let '(b, s) := readByte s in
      if decide (b = c_backslash) then scanString_loop fuel from (readByte s).2
      else if decide (b = c_quote) then Ok (mkItem from (sc_pos s) literal false, s)
      else if is_newline b then let! s := sc_unread s in Ok (mkItem from (sc_pos s) literal false, s)
      else if decide (b = Byte.x00) then Ok (mkItem from (sc_pos s) literal false, s)
      else scanString_loop fuel from s
  end.

Definition scanString (s : scanner) : run (scanItem * scanner) := scanString_loop (sc_fuel s) (sc_pos s - 1) s.

Fixpoint scanLiteral_loop (fuel : nat) (from : Z) (s : scanner) : run (scanItem * scanner) :=
  match fuel with
  | O => OutOfFuel
  | S fuel =>
      let '(b, s) := readByte s in
      if is_delim b then let! s := sc_unread s in Ok (mkItem from (sc_pos s) literal false, s)
      else if decide (b = Byte.x00) then Ok (mkItem from (sc_pos s) literal false, s)
      else scanLiteral_loop fuel from s
  end.

Definition scanLiteral (s : scanner) : run (scanItem * scanner) := scanLiteral_loop (sc_fuel s) (sc_pos s - 1) s.

(** ** Items *)

(** The item, the separator before it and the byte that follows its first byte. *)
Fixpoint scanOne_loop (fuel : nat) (pre : byte) (s : scanner) : run (scanItem * byte * byte * scanner) :=
  match fuel with
  | O => OutOfFuel
  | S fuel =>
      let! (c, s) := readToken s in
      let! (post, s) := peekToken s in
      let bracket tok := Ok (mkItem (sc_pos s - 1) (sc_pos s) tok false, pre, post, s) in
      if decide (c = c_quote) then let! (it, s) := scanString s in Ok (it, pre, post, s)
      else if decide (c = c_lbrace) then bracket objectBegin
      else if decide (c = c_rbrace) then bracket objectEnd
      else if decide (c = c_lbracket) then bracket arrayBegin
      else if decide (c = c_rbracket) then bracket arrayEnd
      else if bool_decide (c = c_colon) || bool_decide (c = c_comma) then scanOne_loop fuel c s
      else if decide (c = Byte.x00) then Ok (no_item, pre, post, s)
      else let! (it, s) := scanLiteral s in Ok (it, pre, post, s)
  end.

Definition scanOne (s : scanner) : run (scanItem * byte * byte * scanner) :=
  scanOne_loop (sc_fuel s) Byte.x00 s.

(** The key detection on the innermost object. *)
Definition key_state (tok : token) (pre post : byte) (isKey : bool) : bool :=
  let isKey := match tok with objectBegin | arrayBegin | literal => negb isKey | _ => isKey end in
  if decide (post = c_colon) then true else if decide (pre = c_colon) then false else isKey.

Definition set_stack (s : scanner) (stk : list scanState) : scanner :=
  mkScanner (sc_r s) (sc_err s) (sc_pos s) (sc_lastRead s) (sc_unreadByte s) stk.

Definition scan (s : scanner) : run (scanItem * scanner) :=
  let! (it, pre, post, s) := scanOne s in
  let '(it, stk) :=
    match sc_stack s with
    | st :: stk =>
        if decide (st_tok st = objectBegin) then
          let k := key_state (it_tok it) pre post (st_isKey st) in
          (mkItem (it_from it) (it_to it) (it_tok it) k, mkSt (st_tok st) k :: stk)
        else (it, st :: stk)
    | [] => (it, [])
    end in
  let stk :=
    match it_tok it with
    | objectBegin | arrayBegin => mkSt (it_tok it) false :: stk
    | objectEnd | arrayEnd => tail stk
    | _ => stk
    end in
  Ok (it, set_stack s stk).

(** [Next]: the item, and whether there was one. *)
Definition sc_Next (s : scanner) : run (bool * scanItem * scanner) :=
  let! (it, s) := scan s in
  Ok (negb (sc_err s) || bool_decide (it_tok it <> unknown), it, s).

(** ** Paths and nodes *)

Inductive EntryKind := ObjectField | MapKey | MapValue.

#[export] Instance EntryKind_eq_dec : EqDecision EntryKind.
Proof. solve_decision. Defined.

Record PathEntry := mkEntry { e_Kind : EntryKind; e_FieldName : gostring; e_CaseSensitive : bool }.

Abbreviation Path := (list PathEntry).

(** A node of the tree: the synthetic [scrubNode], or an entry with its children. *)
Inductive node := ScrubNode | Node (e : PathEntry) (children : list node).

Record Bounds := mkBounds { From : Z; To : Z }.

(** ** The stream *)

Record stream := mkStream {
  s_s : scanner;
  s_input : list byte;
  s_tok : token;
  s_pos : Bounds;
  s_mapKey : bool;
  s_unreadItem : scanItem;
  s_toScrub : list Bounds
}.

Definition newStream (input : list byte) : stream :=
  mkStream (newScanner input) input unknown (mkBounds 0 0) false no_item [].

(** [input[from:to]]; out of range is a panic. *)
Definition subslice (input : list byte) (from to : Z) : run (list byte) :=
  if decide (0 <= from <= to /\ to <= blen input) then Ok (take (Z.to_nat (to - from)) (drop (Z.to_nat from) input))
  else Crash.

(** Moving to an item; [debugLit] is the text of the item, of which only the slicing matters. *)
Definition set_item (s : stream) (sc : scanner) (it : scanItem) : run stream :=
  let! _ := subslice (s_input s) (it_from it) (it_to it) in
  Ok (mkStream sc (s_input s) (it_tok it) (mkBounds (it_from it) (it_to it)) (it_isMapKey it) no_item (s_toScrub s)).

Definition next (s : stream) : run stream :=
  if decide (it_tok (s_unreadItem s) = unknown) then
    let! (more, it, sc) := sc_Next (s_s s) in
    if (more : bool) then set_item s sc it
    else Ok (mkStream sc (s_input s) unknown (s_pos s) (s_mapKey s) (s_unreadItem s) (s_toScrub s))
  else set_item s (s_s s) (s_unreadItem s).

(** [unread] of the stream, which the package has but does not call. *)
Definition stream_unread (s : stream) : run stream :=
  if decide (it_tok (s_unreadItem s) = unknown) then
    Ok (mkStream (s_s s) (s_input s) (s_tok s) (s_pos s) (s_mapKey s)
          (mkItem (From (s_pos s)) (To (s_pos s)) (s_tok s) (s_mapKey s)) (s_toScrub s))
  else Crash.

Definition add_scrub (s : stream) (b : Bounds) : stream :=
  mkStream (s_s s) (s_input s) (s_tok s) (s_pos s) (s_mapKey s) (s_unreadItem s) (s_toScrub s ++ [b]).

(** The loop of [skipValue]: the end of the value. *)
Fixpoint skip_loop (fuel : nat) (depth : Z) (s : stream) : run (Z * stream) :=
  match fuel with
  | O => OutOfFuel
  | S fuel =>
      let depth := match s_tok s with
                   | objectBegin | arrayBegin => depth + 1
                   | objectEnd | arrayEnd => depth - 1
                   | _ => depth
                   end in
      let end_ := To (s_pos s) in
      let! s := next s in
      if depth <=? 0 then Ok (end_, s) else skip_loop fuel depth s
  end.

Definition skipValue (fuel : nat) (s : stream) : run (Bounds * stream) :=
  let start := From (s_pos s) in
  let! (end_, s) := skip_loop fuel 0 s in Ok (mkBounds start end_, s).

Definition scrubNow (nodes : list node) : bool :=
  existsb (fun n => match n with ScrubNode => true | Node _ _ => false end) nodes.

Definition isMapValue (s : stream) : bool :=
  negb (s_mapKey s) && match s_tok s with objectBegin | arrayBegin | literal => true | _ => false end.

Section Scrub.
Context (EqualFold : gostring -> gostring -> bool).

Definition fieldMatch (e : PathEntry) (fieldName : gostring) : bool :=
  if e_CaseSensitive e then bool_decide (fieldName = e_FieldName e) else EqualFold fieldName (e_FieldName e).

(** [matchingMapNodes]: the nodes for the current token and for the value after it. *)
Fixpoint matchingMapNodes (mapKey : bool) (fieldName : gostring) (nodes : list node) : list node * list node :=
  match nodes with
  | [] => ([], [])
  | ScrubNode :: nodes => matchingMapNodes mapKey fieldName nodes
  | Node e children :: nodes =>
      let '(currNodes, valueNodes) := matchingMapNodes mapKey fieldName nodes in
      match e_Kind e with
      | MapKey => if mapKey then (children ++ currNodes, valueNodes) else (currNodes, valueNodes)
      | MapValue => if mapKey then (currNodes, valueNodes) else (children ++ currNodes, valueNodes)
      | ObjectField =>
          if mapKey && fieldMatch e fieldName then (currNodes, children ++ valueNodes) else (currNodes, valueNodes)
      end
  end.

(** [processValue], [processArray] and [processObject]; the latter two are entered with the
    stream moved past the opening bracket. *)
Fixpoint processValue (fuel : nat) (nodes : list node) (s : stream) : run stream :=
  match fuel with
  | O => OutOfFuel
  | S fuel =>
      if scrubNow nodes then let! (b, s) := skipValue fuel s in Ok (add_scrub s b)
      else match nodes with
           | [] => let! (_, s) := skipValue fuel s in Ok s
           | _ =>
               match s_tok s with
               | objectBegin => let! s := next s in processObject fuel nodes s
               | arrayBegin => let! s := next s in processArray fuel nodes s
               | _ => next s
               end
           end
  end
with processArray (fuel : nat) (nodes : list node) (s : stream) : run stream :=
  match fuel with
  | O => OutOfFuel
  | S fuel =>
      match s_tok s with
      | unknown => Ok s
      | arrayEnd => next s
      | _ => let! s := processValue fuel nodes s in processArray fuel nodes s
      end
  end
with processObject (fuel : nat) (nodes : list node) (s : stream) : run stream :=
  match fuel with
  | O => OutOfFuel
  | S fuel =>
      match s_tok s with
      | unknown => Ok s
      | objectEnd => next s
      | _ =>
          let! fieldName := subslice (s_input s) (From (s_pos s)) (To (s_pos s)) in
          let '(currNodes, valueNodes) := matchingMapNodes (s_mapKey s) fieldName nodes in
          let! s := processValue fuel currNodes s in
          let! s := if isMapValue s then processValue fuel valueNodes s else Ok s in
          processObject fuel nodes s
      end
  end.

Fixpoint Process_loop (fuel : nat) (rootNodes : list node) (s : stream) : run stream :=
  match fuel with
  | O => OutOfFuel
  | S fuel =>
      match s_tok s with
      | unknown => Ok s
      | _ => let! s := processValue fuel rootNodes s in Process_loop fuel rootNodes s
      end
  end.

Definition Process (fuel : nat) (rootNodes : list node) (s : stream) : run (list Bounds) :=
  let! s := next s in
  let! s := Process_loop fuel rootNodes s in
  Ok (s_toScrub s).

(** ** The tree of paths *)

Definition entry_matches (e c : PathEntry) : bool :=
  if decide (e_Kind c = e_Kind e) then
    if decide (e_Kind e = ObjectField) then
      if decide (e_CaseSensitive e = e_CaseSensitive c) then
        if e_CaseSensitive e then EqualFold (e_FieldName e) (e_FieldName c)
        else bool_decide (e_FieldName e = e_FieldName c)
      else false
    else true
  else false.

Definition node_matches (e : PathEntry) (n : node) : bool :=
  match n with ScrubNode => false | Node c _ => entry_matches e c end.

(** The index of the first child for an entry. *)
Fixpoint findMatch (children : list node) (e : PathEntry) : option nat :=
  match children with
  | [] => None
  | c :: children => if node_matches e c then Some O else S <$> findMatch children e
  end.

Definition hasScrub (children : list node) : bool :=
  match children with [ScrubNode] => true | _ => false end.

(** Adding a path below a node with the given children. *)
Fixpoint add_path (path : Path) (children : list node) : list node :=
  match path with
  | [] => [ScrubNode]
  | e :: path =>
      if hasScrub children then [ScrubNode]
      else match findMatch children e with
           | None => children ++ [Node e (add_path path [])]
           | Some idx =>
               match children !! idx with
               | Some (Node c ch) => <[idx := Node c (add_path path ch)]> children
               | _ => children
               end
           end
  end.

Definition groupNodes (paths : list Path) : list node := foldl (fun root path => add_path path root) [] paths.

(** ** Replacing *)

Definition JSONIndices (fuel : nat) (input : list byte) (paths : list Path) : run (list Bounds) :=
  Process fuel (groupNodes paths) (newStream input).

(** [scrub]: the copy loop over the ranges from [prevEnd] on. *)
Fixpoint scrub_loop (input replaceWith : list byte) (prevEnd : Z) (indices : list Bounds) : run (list byte) :=
  match indices with
  | [] => subslice input prevEnd (blen input)
  | idx :: indices =>
      let! seg := subslice input prevEnd (From idx) in
      let! rest := scrub_loop input replaceWith (To idx) indices in
      Ok (seg ++ replaceWith ++ rest)
  end.

(** [make] panics on a negative length; [copy] stops at the end of the destination. *)
Definition scrub (input : list byte) (indices : list Bounds) (replaceWith : list byte) : run (list byte) :=
  match indices with
  | [] => Ok input
  | _ =>
      let newLen := foldl (fun n idx => n - (To idx - From idx) + blen replaceWith) (blen input) indices in
      if newLen <? 0 then Crash
      else let! out := scrub_loop input replaceWith 0 indices in
           Ok (take (Z.to_nat newLen) (out ++ replicate (Z.to_nat newLen - length out) Byte.x00))
  end.

Definition JSON (fuel : nat) (input : list byte) (paths : list Path) (replaceWith : list byte) : run (list byte) :=
  let! indices := JSONIndices fuel input paths in scrub input indices replaceWith.

End Scrub.
