(* ===== verification/ScrubScan.v ===== *)
(** The scanner on arbitrary input: it always ends, never panics, and its items lie in the input
    one after the other. *)

From S2P Require Import Prelude Run Scrub.

(** What the scanner will deliver: the byte it was given back and the rest of the input. *)
Definition avail (s : scanner) : list byte :=
  (if decide (sc_unreadByte s = Byte.x00) then [] else [sc_unreadByte s]) ++ sc_r s.

(** The scanner is at position [p] before the bytes [l], with the given stack. *)
Record at_ (s : scanner) (p : Z) (l : list byte) (stk : list scanState) : Prop := {
  at_pos : sc_pos s = p;
  at_avail : avail s = l;
  at_stack : sc_stack s = stk;
  at_err : sc_err s = true -> sc_r s = []
}.

(** ... and has just read [b]. *)
Definition just_read (s : scanner) (b : byte) : Prop := sc_unreadByte s = Byte.x00 /\ sc_lastRead s = b.

Lemma at_new input : at_ (newScanner input) 0 input [].
Proof. by split. Qed.

Lemma at_fuel s p l stk : at_ s p l stk -> (length l < sc_fuel s)%nat.
Proof.
  intros [_ <- _ _]. unfold avail, sc_fuel. rewrite length_app. case_decide; cbn [length]; lia.
Qed.

(** ** Bytes *)

Lemma readByte_cons s p b l stk :
  at_ s p (b :: l) stk -> exists s', readByte s = (b, s') /\ at_ s' (p + 1) l stk /\ just_read s' b.
Proof.
  intros [Hp Ha Hs He]. unfold avail in Ha. unfold readByte. case_decide as Hu.
  - cbn in Ha. destruct (sc_err s); [by rewrite He in Ha|]. rewrite Ha.
    eexists; split; [done|]. split; [split; cbn; [lia|done|done|done]|done].
  - injection Ha as Hb Hr. eexists; split; [by rewrite Hb|].
    split; [split; cbn; [lia|by unfold avail; cbn; rewrite Hr|done|done]|by split].
Qed.

Lemma readByte_nil s p stk :
  at_ s p [] stk -> exists s', readByte s = (Byte.x00, s') /\ at_ s' p [] stk.
Proof.
  intros [Hp Ha Hs He]. unfold avail in Ha. unfold readByte. case_decide as Hu; [|done]. cbn in Ha.
  destruct (sc_err s) eqn:Herr; [eexists; split; [done|]; by split; unfold avail; rewrite ?decide_True|].
  rewrite Ha. eexists; split; [done|]. by split; unfold avail.
Qed.

Lemma unread_read s p b l stk :
  at_ s (p + 1) l stk -> just_read s b -> b <> Byte.x00 ->
  exists s', sc_unread s = Ok s' /\ at_ s' p (b :: l) stk.
Proof.
  intros [Hp Ha Hs He] [Hu Hl] Hb. unfold sc_unread. rewrite decide_True by done. eexists; split; [done|].
  split; cbn; [lia| |done|done]. unfold avail in *. cbn. rewrite Hl, decide_False by done.
  rewrite decide_True in Ha by done. cbn in Ha. by rewrite Ha.
Qed.

(** ** The loops

    [moves s s' p l stk] : the scanner got from [p] before [l] to a later position. *)

Definition moves (s' : scanner) (p : Z) (l : list byte) (stk : list scanState) : Prop :=
  exists p' l', at_ s' p' l' stk /\ p <= p' /\ p' + blen l' = p + blen l.

Lemma moves_refl s p l stk : at_ s p l stk -> moves s p l stk.
Proof. intros H. exists p, l. split; [done|lia]. Qed.

Lemma moves_cons s' p b l stk : moves s' (p + 1) l stk -> moves s' p (b :: l) stk.
Proof. intros (p' & l' & H & Hp & Hl). exists p', l'. rewrite blen_cons. split; [done|lia]. Qed.

Lemma is_space_nonzero b : is_space b = true -> b <> Byte.x00.
Proof. by intros H ->. Qed.

Lemma is_delim_nonzero b : is_delim b = true -> b <> Byte.x00.
Proof. by intros H ->. Qed.

Lemma is_newline_nonzero b : is_newline b = true -> b <> Byte.x00.
Proof. by intros H ->. Qed.

(** [readToken] skips white space; at the end of input it reports 0. *)
Lemma readToken_loop_spec fuel s p l stk :
  at_ s p l stk -> (length l < fuel)%nat ->
  exists b s', readToken_loop fuel s = Ok (b, s') /\
    ((b = Byte.x00 /\ exists p', at_ s' p' [] stk /\ p <= p' /\ p' = p + blen l) \/
     (exists p' l', at_ s' (p' + 1) l' stk /\ just_read s' b /\ p <= p' /\ p' + 1 + blen l' = p + blen l)).
Proof.
  revert s p l. induction fuel as [|fuel IH]; intros s p l H Hf; [lia|]. cbn [readToken_loop].
  destruct l as [|b l].
  - destruct (readByte_nil _ _ _ H) as (s' & -> & H'). eexists _, _. split; [done|]. left. split; [done|].
    exists p. rewrite blen_nil. split; [done|lia].
  - destruct (readByte_cons _ _ _ _ _ H) as (s' & -> & H' & Hj). destruct (is_space b) eqn:Hb.
    + destruct (IH _ _ _ H' ltac:(cbn in Hf; lia)) as (b' & s'' & -> & Hc). eexists _, _. split; [done|].
      rewrite blen_cons. destruct Hc as [(-> & p' & ? & ? & ?)|(p' & l' & ? & ? & ? & ?)].
      * left. split; [done|]. exists p'. split; [done|lia].
      * right. exists p', l'. split; [done|]. split; [done|lia].
    + eexists _, _. split; [done|]. right. exists p, l. rewrite blen_cons. split; [done|]. split; [done|lia].
Qed.

Lemma peekToken_spec s p l stk : at_ s p l stk -> exists b s', peekToken s = Ok (b, s') /\ moves s' p l stk.
Proof.
  intros H. unfold peekToken, readToken.
  destruct (readToken_loop_spec _ _ _ _ _ H (at_fuel _ _ _ _ H)) as (b & s' & -> & Hc). rewrite bind_Ok.
  case_decide as Hb.
  - eexists _, _. split; [done|]. destruct Hc as [(_ & p' & ? & ? & ?)|(p' & l' & ? & ? & ? & ?)].
    + exists p', []. rewrite blen_nil. split; [done|lia].
    + exists (p' + 1), l'. split; [done|lia].
  - destruct Hc as [(-> & _)|(p' & l' & Ha & Hj & ? & ?)]; [done|].
    destruct (unread_read _ _ _ _ _ Ha Hj Hb) as (s'' & -> & Ha'). eexists _, _. split; [done|].
    exists p', (b :: l'). rewrite blen_cons. split; [done|lia].
Qed.

(** A literal item from [from] to where the scanner has moved. *)
Definition lit_item (it : scanItem) (s' : scanner) (from : Z) : Prop :=
  it = mkItem from (sc_pos s') literal false.

Lemma scanString_loop_spec fuel s p l stk from :
  at_ s p l stk -> (length l < fuel)%nat ->
  exists it s', scanString_loop fuel from s = Ok (it, s') /\ lit_item it s' from /\ moves s' p l stk.
Proof.
  revert s p l. induction fuel as [|fuel IH]; intros s p l H Hf; [lia|]. cbn [scanString_loop].
  destruct l as [|b l].
  - destruct (readByte_nil _ _ _ H) as (s' & -> & H'). cbn. eexists _, _. split; [done|]. split; [done|].
    by apply moves_refl.
  - destruct (readByte_cons _ _ _ _ _ H) as (s' & -> & H' & Hj). cbn in Hf. case_decide as Hbs.
    { destruct l as [|b2 l].
      - destruct (readByte_nil _ _ _ H') as (s'' & E & H''). rewrite E. cbn [snd].
        destruct (IH _ _ _ H'' ltac:(cbn; lia)) as (it & s3 & -> & ? & ?). eexists _, _. split; [done|].
        split; [done|]. by apply moves_cons.
      - destruct (readByte_cons _ _ _ _ _ H') as (s'' & E & H'' & _). rewrite E. cbn [snd].
        destruct (IH _ _ _ H'' ltac:(cbn in Hf; lia)) as (it & s3 & -> & ? & ?). eexists _, _. split; [done|].
        split; [done|]. by apply moves_cons, moves_cons. }
    case_decide; [eexists _, _; split; [done|]; split; [done|]; by apply moves_cons, moves_refl|].
    destruct (is_newline b) eqn:Hn.
    { destruct (unread_read _ _ _ _ _ H' Hj (is_newline_nonzero _ Hn)) as (s'' & -> & H''). rewrite bind_Ok.
      eexists _, _. split; [done|]. split; [done|]. by apply moves_refl. }
    case_decide; [eexists _, _; split; [done|]; split; [done|]; by apply moves_cons, moves_refl|].
    destruct (IH _ _ _ H' ltac:(lia)) as (it & s3 & -> & ? & ?). eexists _, _. split; [done|].
    split; [done|]. by apply moves_cons.
Qed.

Lemma scanLiteral_loop_spec fuel s p l stk from :
  at_ s p l stk -> (length l < fuel)%nat ->
  exists it s', scanLiteral_loop fuel from s = Ok (it, s') /\ lit_item it s' from /\ moves s' p l stk.
Proof.
  revert s p l. induction fuel as [|fuel IH]; intros s p l H Hf; [lia|]. cbn [scanLiteral_loop].
  destruct l as [|b l].
  - destruct (readByte_nil _ _ _ H) as (s' & -> & H'). cbn. eexists _, _. split; [done|]. split; [done|].
    by apply moves_refl.
  - destruct (readByte_cons _ _ _ _ _ H) as (s' & -> & H' & Hj). cbn in Hf.
    destruct (is_delim b) eqn:Hn.
    { destruct (unread_read _ _ _ _ _ H' Hj (is_delim_nonzero _ Hn)) as (s'' & -> & H''). rewrite bind_Ok.
      eexists _, _. split; [done|]. split; [done|]. by apply moves_refl. }
    case_decide; [eexists _, _; split; [done|]; split; [done|]; by apply moves_cons, moves_refl|].
    destruct (IH _ _ _ H' ltac:(lia)) as (it & s3 & -> & ? & ?). eexists _, _. split; [done|].
    split; [done|]. by apply moves_cons.
Qed.

(** ** Items *)

(** Either there is no item, or it lies between [p] and where the scanner now is. *)
Definition item_ok (it : scanItem) (s' : scanner) (p : Z) : Prop :=
  it = no_item \/ (it_tok it <> unknown /\ p <= it_from it < it_to it /\ it_to it = sc_pos s').

Lemma moves_trans s p1 l1 p2 l2 stk :
  p1 <= p2 -> p2 + blen l2 = p1 + blen l1 -> moves s p2 l2 stk -> moves s p1 l1 stk.
Proof. intros Hp Hl (p' & l' & H & ? & ?). exists p', l'. split; [done|lia]. Qed.

Lemma scanOne_loop_spec fuel s p l stk pre :
  at_ s p l stk -> (length l < fuel)%nat ->
  exists it pre' post s', scanOne_loop fuel pre s = Ok (it, pre', post, s') /\ item_ok it s' p /\ moves s' p l stk.
Proof.
  revert s p l pre. induction fuel as [|fuel IH]; intros s p l pre H Hf; [lia|]. cbn [scanOne_loop].
  unfold readToken. destruct (readToken_loop_spec _ _ _ _ _ H (at_fuel _ _ _ _ H)) as (c & s1 & -> & Hc).
  rewrite bind_Ok. destruct Hc as [(-> & p1 & Ha1 & ? & ?)|(p1 & l1 & Ha1 & Hj & ? & ?)].
  - destruct (peekToken_spec _ _ _ _ Ha1) as (post & s2 & -> & Hm). rewrite bind_Ok. cbn.
    eexists _, _, _, _. split; [done|]. split; [by left|]. eapply moves_trans; [| |done]; rewrite ?blen_nil; lia.
  - destruct (peekToken_spec _ _ _ _ Ha1) as (post & s2 & -> & p2 & l2 & Ha2 & ? & ?). rewrite bind_Ok.
    assert (Hpos : sc_pos s2 = p2) by apply Ha2.
    assert (Hm : moves s2 p l stk) by (exists p2, l2; split; [done|lia]).
    assert (Hb : forall tok, tok <> unknown -> item_ok (mkItem (sc_pos s2 - 1) (sc_pos s2) tok false) s2 p)
      by (intros tok Ht; right; cbn; split; [done|lia]).
    assert (Hlit : forall it s3, lit_item it s3 (sc_pos s2 - 1) -> moves s3 p2 l2 stk -> item_ok it s3 p)
      by (intros it s3 -> (p3 & l3 & [Hp3 _ _ _] & ? & ?); right; cbn; split; [done|lia]).
    case_decide.
    { destruct (scanString_loop_spec _ _ _ _ _ (sc_pos s2 - 1) Ha2 (at_fuel _ _ _ _ Ha2)) as (it & s3 & E & Hi & Hm').
      unfold scanString. rewrite E, bind_Ok. eexists _, _, _, _. split; [done|]. split; [by eapply Hlit|].
      eapply moves_trans; [| |done]; lia. }
    case_decide; [eexists _, _, _, _; split; [done|]; split; [by apply Hb|done]|].
    case_decide; [eexists _, _, _, _; split; [done|]; split; [by apply Hb|done]|].
    case_decide; [eexists _, _, _, _; split; [done|]; split; [by apply Hb|done]|].
    case_decide; [eexists _, _, _, _; split; [done|]; split; [by apply Hb|done]|].
    destruct (bool_decide (c = c_colon) || bool_decide (c = c_comma)).
    { assert (length l2 < fuel)%nat as Hl2 by (unfold blen in *; lia).
      destruct (IH _ _ _ c Ha2 Hl2) as (it & pre' & post' & s3 & -> & Hi & Hm'). eexists _, _, _, _. split; [done|].
      split; [|eapply moves_trans; [| |done]; lia].
      destruct Hi as [->|(? & ? & ?)]; [by left|right; split; [done|lia]]. }
    case_decide; [eexists _, _, _, _; split; [done|]; split; [by left|done]|].
    destruct (scanLiteral_loop_spec _ _ _ _ _ (sc_pos s2 - 1) Ha2 (at_fuel _ _ _ _ Ha2)) as (it & s3 & E & Hi & Hm').
    unfold scanLiteral. rewrite E, bind_Ok. eexists _, _, _, _. split; [done|]. split; [by eapply Hlit|].
    eapply moves_trans; [| |done]; lia.
Qed.

Lemma at_set_stack s p l stk stk' : at_ s p l stk -> at_ (set_stack s stk') p l stk'.
Proof. intros [? ? ? ?]. by split. Qed.

(** One step of the scanner, on any input. *)
Lemma sc_Next_spec s p l stk :
  at_ s p l stk ->
  exists more it s' stk', sc_Next s = Ok (more, it, s') /\ moves s' p l stk' /\
    (more = false -> it_tok it = unknown) /\
    ((it_tok it = unknown /\ it_from it = 0 /\ it_to it = 0) \/
     (it_tok it <> unknown /\ p <= it_from it < it_to it /\ it_to it = sc_pos s')).
Proof.
  intros H. unfold sc_Next, scan, scanOne.
  destruct (scanOne_loop_spec _ _ _ _ _ Byte.x00 H (at_fuel _ _ _ _ H)) as (it & pre & post & s1 & -> & Hi & p1 & l1 & Ha1 & ? & ?).
  rewrite !bind_Ok. set (x := match sc_stack s1 with [] => _ | _ :: _ => _ end).
  assert (it_tok x.1 = it_tok it /\ it_from x.1 = it_from it /\ it_to x.1 = it_to it) as (Ht & Hf & Hto).
  { unfold x. destruct (sc_stack s1); [done|]. by case_decide. }
  destruct x as [it' stk']. cbn in Ht, Hf, Hto. rewrite bind_Ok. eexists _, _, _, _. split; [done|]. split; [|split].
  - exists p1, l1. split; [by eapply at_set_stack|lia].
  - rewrite Ht. intros [_ E]%orb_false_iff. apply bool_decide_eq_false in E.
    destruct (decide (it_tok it = unknown)); [done|]. by destruct E.
  - rewrite Ht, Hf, Hto. destruct Hi as [->|(? & ? & ?)]; [by left|by right].
Qed.
