(* ===== verification/ScrubSafe.v ===== *)
(** Scrubbing never panics, whatever the payload and the paths: every range to replace lies in the
    input, and the ranges follow each other. *)

From S2P Require Import Prelude Run Scrub ScrubScan.

(** Ranges one after the other, between [lo] and [hi]. *)
Fixpoint ordered (lo : Z) (l : list Bounds) (hi : Z) : Prop :=
  match l with
  | [] => lo <= hi
  | b :: l => lo <= From b <= To b /\ ordered (To b) l hi
  end.

Lemma ordered_snoc lo l hi b hi' :
  ordered lo l hi -> hi <= From b <= To b -> To b <= hi' -> ordered lo (l ++ [b]) hi'.
Proof.
  revert lo. induction l as [|x l IH]; intros lo; cbn; [lia|]. intros [? ?] ? ?. split; [done|]. by apply IH.
Qed.

Lemma ordered_le lo l hi hi' : ordered lo l hi -> hi <= hi' -> ordered lo l hi'.
Proof. revert lo. induction l as [|x l IH]; intros lo; cbn; [lia|]. intros [? ?] ?. split; [done|]. by apply IH. Qed.

(** The stream's scanner is inside the input. *)
Definition placed (input : list byte) (s : stream) : Prop :=
  s_input s = input /\ s_unreadItem s = no_item /\
  exists l stk, at_ (s_s s) (sc_pos (s_s s)) l stk /\ 0 <= sc_pos (s_s s) /\ sc_pos (s_s s) + blen l = blen input.

(** The current token, if there is one, lies between [lo] and the scanner. *)
Definition item_after (lo : Z) (s : stream) : Prop :=
  lo <= sc_pos (s_s s) /\ (s_tok s <> unknown -> lo <= From (s_pos s) <= To (s_pos s) /\ To (s_pos s) <= sc_pos (s_s s)).

Definition good (input : list byte) (s : stream) : Prop :=
  placed input s /\ exists hi, ordered 0 (s_toScrub s) hi /\ item_after hi s.

Lemma subslice_ok input from to :
  0 <= from <= to -> to <= blen input ->
  subslice input from to = Ok (take (Z.to_nat (to - from)) (drop (Z.to_nat from) input)).
Proof. intros ? ?. unfold subslice. by rewrite decide_True by lia. Qed.

Lemma placed_bound input s : placed input s -> sc_pos (s_s s) <= blen input.
Proof. intros (_ & _ & l & stk & _ & _ & H). pose proof (blen_nonneg l). lia. Qed.

Lemma next_safe input s :
  placed input s ->
  safe (fun s' => placed input s' /\ s_toScrub s' = s_toScrub s /\ item_after (sc_pos (s_s s)) s') (next s).
Proof.
  intros (Hin & Hun & l & stk & Hat & Hp & Hl). unfold next. rewrite Hun. cbn [it_tok no_item]. rewrite decide_True by done.
  destruct (sc_Next_spec _ _ _ _ Hat) as (more & it & sc & stk' & -> & (p' & l' & Hat' & Hp' & Hl') & Hm & Hi).
  rewrite bind_Ok. pose proof (at_pos _ _ _ _ Hat') as Hpos. destruct more.
  - unfold set_item. rewrite Hin, subslice_ok.
    + cbn. split; [|split; [done|]].
      * split; [done|]. split; [done|]. exists l', stk'. cbn. rewrite Hpos. split; [done|lia].
      * split; cbn; [lia|]. intros Ht. destruct Hi as [(? & _)|(_ & ? & ?)]; [done|lia].
    + pose proof (blen_nonneg l'). destruct Hi as [(_ & Ef & Et)|(_ & ? & ?)]; lia.
    + pose proof (blen_nonneg l'). pose proof (blen_nonneg input). destruct Hi as [(_ & Ef & Et)|(_ & ? & ?)]; lia.
  - cbn. split; [|split; [done|]].
    + split; [done|]. split; [done|]. exists l', stk'. cbn. rewrite Hpos. split; [done|lia].
    + split; cbn; [lia|done].
Qed.

Lemma skip_loop_safe input fuel start depth s :
  placed input s -> item_after start s -> (1 <= depth \/ depth = 0 /\ s_tok s <> unknown) ->
  safe (fun r => placed input r.2 /\ s_toScrub r.2 = s_toScrub s /\ start <= r.1 /\ item_after r.1 r.2)
    (skip_loop fuel depth s).
Proof.
  revert depth s. induction fuel as [|fuel IH]; intros depth s Hpl [Hsp Hit] Hd; [done|]. cbn [skip_loop].
  set (depth' := match s_tok s with objectBegin => _ | _ => _ end).
  assert (Hd' : depth' <= 0 -> s_tok s <> unknown) by (unfold depth'; destruct (s_tok s); try done; intros ?; destruct Hd as [|[_ []]]; [lia|done]).
  eapply safe_bind; [by apply next_safe|]. intros s' (Hpl' & Hts & Hia). destruct (depth' <=? 0) eqn:E.
  - specialize (Hit (Hd' ltac:(lia))). cbn. split; [done|]. split; [done|]. split; [lia|].
    destruct Hia as [? Hia]. split; [lia|]. intros Ht. specialize (Hia Ht). lia.
  - eapply safe_mono; [|apply (IH depth' s'); [done| |left; lia]].
    + intros r (? & Hr & ?). rewrite <- Hts. done.
    + destruct Hia as [? Hia]. split; [lia|]. intros Ht. specialize (Hia Ht). lia.
Qed.

Lemma skipValue_safe input fuel s :
  good input s -> s_tok s <> unknown ->
  safe (fun r => placed input r.2 /\ (exists hi, ordered 0 (s_toScrub s) hi /\ hi <= From r.1 <= To r.1) /\
                 s_toScrub r.2 = s_toScrub s /\ item_after (To r.1) r.2) (skipValue fuel s).
Proof.
  intros (Hpl & hi & Ho & Hit) Ht. unfold skipValue. pose proof (proj2 Hit Ht) as Hb.
  eapply safe_bind; [apply (skip_loop_safe input fuel (From (s_pos s)) 0 s); [done| |by right]|].
  - split; [lia|]. intros _. lia.
  - intros [e s'] (? & ? & ? & ?). cbn in *. split; [done|]. split; [|done]. exists hi. split; [done|]. lia.
Qed.

Lemma good_next input s s' :
  placed input s -> (exists hi, ordered 0 (s_toScrub s) hi /\ hi <= sc_pos (s_s s)) ->
  placed input s' /\ s_toScrub s' = s_toScrub s /\ item_after (sc_pos (s_s s)) s' -> good input s'.
Proof.
  intros _ (hi & Ho & Hh) (Hpl & Hts & Hia). split; [done|]. exists (sc_pos (s_s s)). rewrite Hts.
  split; [by eapply ordered_le|done].
Qed.

Lemma good_next_safe input s : good input s -> safe (good input) (next s).
Proof.
  intros (Hpl & hi & Ho & [? Hit]). eapply safe_mono; [|by apply next_safe]. intros s'. eapply good_next; [done|].
  by exists hi.
Qed.

Lemma good_skipped input s b s' :
  placed input s' -> (exists hi, ordered 0 (s_toScrub s) hi /\ hi <= From b <= To b) ->
  s_toScrub s' = s_toScrub s -> item_after (To b) s' -> good input s' /\ good input (add_scrub s' b).
Proof.
  intros Hpl (hi & Ho & Hb) Hts Hia. split.
  - split; [done|]. exists (To b). rewrite Hts. split; [eapply ordered_le; [done|lia]|done].
  - split; [done|]. exists (To b). cbn. rewrite Hts. split; [eapply ordered_snoc; [done|lia|lia]|done].
Qed.

Section Safe.
Context (EqualFold : gostring -> gostring -> bool).

Lemma process_safe input fuel :
  (forall nodes s, good input s -> s_tok s <> unknown -> safe (good input) (processValue EqualFold fuel nodes s)) /\
  (forall nodes s, good input s -> safe (good input) (processArray EqualFold fuel nodes s)) /\
  (forall nodes s, good input s -> safe (good input) (processObject EqualFold fuel nodes s)).
Proof.
  induction fuel as [|fuel (IHv & IHa & IHo)]; [done|]. split; [|split]; intros nodes s Hg.
  - intros Ht. cbn [processValue]. destruct (scrubNow nodes).
    { eapply safe_bind; [by apply skipValue_safe|]. intros [b s'] (? & ? & ? & ?). by eapply good_skipped. }
    destruct nodes as [|n nodes].
    { eapply safe_bind; [by apply skipValue_safe|]. intros [b s'] (? & ? & ? & ?). by eapply good_skipped. }
    destruct (s_tok s); try (by apply good_next_safe);
      (eapply safe_bind; [by apply good_next_safe|]; auto).
  - cbn [processArray]. destruct (s_tok s) eqn:Et; try done; try (by apply good_next_safe);
      (eapply safe_bind; [apply IHv; [done|by rewrite Et]|]; auto).
  - cbn [processObject]. destruct (decide (s_tok s = unknown)) as [Eu|Hu]; [by rewrite Eu|].
    assert (Hstep : safe (good input)
      (mbind (fun fieldName => let '(currNodes, valueNodes) := matchingMapNodes EqualFold (s_mapKey s) fieldName nodes in
          mbind (fun s => mbind (fun s => processObject EqualFold fuel nodes s)
            (if isMapValue s then processValue EqualFold fuel valueNodes s else Ok s))
            (processValue EqualFold fuel currNodes s))
        (subslice (s_input s) (From (s_pos s)) (To (s_pos s))))).
    { destruct Hg as (Hpl & hi & Ho & Hit). pose proof (proj2 Hit Hu) as Hb. pose proof (placed_bound _ _ Hpl).
      assert (0 <= hi) by (clear -Ho; revert Ho; generalize 0, (s_toScrub s); intros lo l;
        revert lo; induction l as [|b l IH]; intros lo; cbn; [lia|]; intros [? ?%IH]; lia).
      destruct Hpl as (Hin & Hpl). rewrite Hin, subslice_ok by lia. rewrite bind_Ok.
      destruct (matchingMapNodes _ _ _ _) as [cn vn].
      eapply safe_bind; [apply IHv; [|done]; split; [done|by exists hi]|]. intros s1 Hs1.
      eapply safe_bind; [|intros s2; apply IHo]. destruct (isMapValue s1) eqn:Em; [|done]. apply IHv; [done|].
      unfold isMapValue in Em. by destruct (s_tok s1); rewrite ?andb_false_r in Em. }
    destruct (s_tok s); try done. by apply good_next_safe.
Qed.

Lemma Process_loop_safe input fuel nodes s :
  good input s -> safe (good input) (Process_loop EqualFold fuel nodes s).
Proof.
  revert s. induction fuel as [|fuel IH]; intros s Hg; [done|]. cbn [Process_loop].
  destruct (decide (s_tok s = unknown)) as [Eu|Hu]; [by rewrite Eu|].
  pose proof (proj1 (process_safe input fuel) nodes s Hg Hu) as Hv.
  destruct (s_tok s); try done; (eapply safe_bind; [apply Hv|]; auto).
Qed.

Lemma new_good input : good input (newStream input).
Proof.
  pose proof (at_new input) as H. split.
  - split; [done|]. split; [done|]. exists input, []. cbn. split; [done|lia].
  - exists 0. cbn. split; [lia|]. by split.
Qed.

(** The ranges to replace, whatever the input. *)
Lemma JSONIndices_safe fuel input paths :
  safe (fun idx => ordered 0 idx (blen input)) (JSONIndices EqualFold fuel input paths).
Proof.
  unfold JSONIndices, Process. eapply safe_bind; [apply good_next_safe, new_good|]. intros s Hs.
  eapply safe_bind; [by apply Process_loop_safe|]. intros s' (Hpl & hi & Ho & [? _]). cbn.
  eapply ordered_le; [done|]. pose proof (placed_bound _ _ Hpl). lia.
Qed.

End Safe.

(** ** Replacing the ranges *)

(** The input with the ranges replaced. *)
Fixpoint splice (input repl : list byte) (pos : Z) (idx : list Bounds) : list byte :=
  match idx with
  | [] => drop (Z.to_nat pos) input
  | b :: idx => take (Z.to_nat (From b - pos)) (drop (Z.to_nat pos) input) ++ repl ++ splice input repl (To b) idx
  end.

Lemma scrub_loop_splice input repl pos idx :
  0 <= pos -> ordered pos idx (blen input) -> scrub_loop input repl pos idx = Ok (splice input repl pos idx).
Proof.
  revert pos. induction idx as [|b idx IH]; intros pos Hp Ho; cbn [scrub_loop splice].
  - cbn in Ho. rewrite subslice_ok by lia. f_equal. apply take_ge. rewrite length_drop. unfold blen. lia.
  - cbn in Ho. destruct Ho as [? Ho]. assert (To b <= blen input) as Hb.
    { clear -Ho. revert Ho. generalize (To b). induction idx as [|x idx IH]; intros z; cbn; [done|].
      intros [? ?%IH]. lia. }
    rewrite subslice_ok by lia. rewrite bind_Ok, (IH (To b)) by (try done; lia). done.
Qed.

Lemma splice_length input repl pos idx :
  0 <= pos -> ordered pos idx (blen input) ->
  blen (splice input repl pos idx) =
    foldl (fun n b => n - (To b - From b) + blen repl) (blen input - pos) idx.
Proof.
  revert pos. induction idx as [|b idx IH]; intros pos Hp Ho; cbn [splice foldl].
  - cbn in Ho. unfold blen in *. rewrite length_drop. lia.
  - cbn in Ho. destruct Ho as [Hb Ho]. rewrite !blen_app, (IH (To b)) by (try done; lia).
    assert (To b <= blen input) as Hb'.
    { clear -Ho. revert Ho. generalize (To b). induction idx as [|x idx IH]; intros z; cbn; [done|].
      intros [? ?%IH]. lia. }
    assert (Hshift : forall d l z, foldl (fun n b => n - (To b - From b) + blen repl) (z + d) l
              = foldl (fun n b => n - (To b - From b) + blen repl) z l + d).
    { intros d l. induction l as [|x l IHl]; intros z; cbn [foldl]; [done|]. rewrite <- IHl. f_equal. lia. }
    replace (blen (take _ _)) with (From b - pos)
      by (unfold blen in *; rewrite length_take, length_drop; lia).
    replace (blen input - pos - (To b - From b) + blen repl) with (blen input - To b + (From b - pos + blen repl)) by lia.
    rewrite Hshift. lia.
Qed.

(** The length computed beforehand is the one needed: nothing is cut off or padded. *)
Lemma scrub_splice input repl idx :
  ordered 0 idx (blen input) -> scrub input idx repl = Ok (splice input repl 0 idx).
Proof.
  intros Ho. unfold scrub. destruct idx as [|b idx]; [done|].
  pose proof (splice_length input repl 0 _ ltac:(lia) Ho) as Hl. rewrite Z.sub_0_r in Hl. rewrite <- Hl.
  pose proof (blen_nonneg (splice input repl 0 (b :: idx))).
  destruct (_ <? 0) eqn:E; [lia|]. rewrite scrub_loop_splice by (try done; lia). rewrite bind_Ok. f_equal.
  unfold blen. rewrite Nat2Z.id, Nat.sub_diag. cbn [replicate]. by rewrite app_nil_r, firstn_all.
Qed.
