(* ===== verification/ScrubDoc.v ===== *)
(** Scrubbing of JSON documents.

    [json] is the syntax of documents, with literals and keys as their text; [print] lays a
    document out with given white space after commas and colons (none for compact documents).
    The scanner's items on such a text are the tokens of the document, and the keys it detects are
    the keys of the objects. *)

From S2P Require Import Prelude Run Scrub ScrubScan ScrubSafe.

(** ** Documents *)

Inductive json :=
| JLit (text : gostring)
| JArr (elems : list json)
| JObj (fields : list (gostring * json)).

(** Induction through the lists. *)
Lemma json_induction (P : json -> Prop) :
  (forall t, P (JLit t)) ->
  (forall l, Forall P l -> P (JArr l)) ->
  (forall fs, Forall (fun f => P f.2) fs -> P (JObj fs)) ->
  forall v, P v.
Proof.
  intros Hl Ha Ho. fix IH 1. intros [t|l|fs].
  - apply Hl.
  - apply Ha. induction l as [|v l IHl]; constructor; [apply IH|exact IHl].
  - apply Ho. induction fs as [|[k v] fs IHl]; constructor; [apply IH|exact IHl].
Qed.

(** What follows the opening quote of a string: escapes, other bytes, the closing quote. *)
Fixpoint body_ok (l : list byte) : bool :=
  match l with
  | [] => false
  | c :: l =>
      if decide (c = c_quote) then bool_decide (l = [])
      else if decide (c = c_backslash) then
        match l with [] => false | c2 :: l => negb (bool_decide (c2 = Byte.x00)) && body_ok l end
      else negb (is_newline c) && negb (bool_decide (c = Byte.x00)) && body_ok l
  end.

(** A string literal whose first byte is not white space ... *)
Definition string_text (t : gostring) : bool :=
  match t with
  | q :: c :: r => bool_decide (q = c_quote) && body_ok (c :: r) && negb (is_space c)
  | _ => false
  end.

(** ... and not a colon. *)
Definition string_ok (t : gostring) : bool :=
  string_text t && negb (bool_decide (hd Byte.x00 (tail t) = c_colon)).

Definition plain_byte (c : byte) : bool := negb (is_delim c) && negb (bool_decide (c = Byte.x00)).

(** A number, true, false or null. *)
Definition bare_ok (t : gostring) : bool := negb (bool_decide (t = [])) && forallb plain_byte t.

Fixpoint wf_json (v : json) : bool :=
  match v with
  | JLit t => string_ok t || bare_ok t
  | JArr l => forallb wf_json l
  | JObj fs => forallb (fun f => string_ok f.1 && wf_json f.2) fs
  end.

Section Print.
Context (cm cl : list byte).

Definition tail_elems (l : list gostring) : gostring := concat ((fun t => c_comma :: cm ++ t) <$> l).

Definition join (l : list gostring) : gostring :=
  match l with [] => [] | t :: l => t ++ tail_elems l end.

Fixpoint print (v : json) : gostring :=
  match v with
  | JLit t => t
  | JArr l => [c_lbracket] ++ join (map print l) ++ [c_rbracket]
  | JObj fs => [c_lbrace] ++ join (map (fun f => f.1 ++ c_colon :: cl ++ print f.2) fs) ++ [c_rbrace]
  end.

(** ** Items

    The contents of an array or object as a sequence of values with the separators before them;
    the key of a field is a value of its own. *)

Definition first_tok (v : json) : token :=
  match v with JLit _ => literal | JArr _ => arrayBegin | JObj _ => objectBegin end.

Definition first_text (v : json) : gostring :=
  match v with JLit t => t | JArr _ => [c_lbracket] | JObj _ => [c_lbrace] end.

Definition print_field (f : gostring * json) : gostring := f.1 ++ c_colon :: cl ++ print f.2.

Definition rest_text (v : json) : gostring :=
  match v with
  | JLit _ => []
  | JArr l => join (map print l) ++ [c_rbracket]
  | JObj fs => join (map print_field fs) ++ [c_rbrace]
  end.

Lemma print_split v : print v = first_text v ++ rest_text v.
Proof. destruct v; cbn; [by rewrite app_nil_r|done|done]. Qed.

End Print.

(** ** Tokens of the text *)

Lemma readToken_char s p ws c l stk :
  at_ s p (ws ++ c :: l) stk -> forallb is_space ws = true -> is_space c = false ->
  exists s', readToken s = Ok (c, s') /\ at_ s' (p + blen ws + 1) l stk /\ just_read s' c.
Proof.
  intros H Hws Hc. unfold readToken. generalize (at_fuel _ _ _ _ H).
  generalize (sc_fuel s) as fuel. revert s p H. induction ws as [|w ws IH]; intros s p H fuel Hf; (destruct fuel as [|fuel]; [lia|]);
    cbn [readToken_loop].
  - destruct (readByte_cons _ _ _ _ _ H) as (s' & -> & H' & Hj). rewrite Hc. eexists; split; [done|].
    split; [|done]. by rewrite blen_nil, Z.add_0_r.
  - cbn in Hws. apply andb_prop in Hws as [Hw Hws].
    destruct (readByte_cons _ _ _ _ _ H) as (s' & -> & H' & Hj). rewrite Hw.
    destruct (IH Hws s' (p + 1) H' fuel ltac:(cbn in Hf; lia)) as (s'' & -> & H'' & Hj''). eexists; split; [done|].
    split; [|done]. rewrite blen_cons. by replace (p + (1 + blen ws) + 1) with (p + 1 + blen ws + 1) by lia.
Qed.

Lemma peekToken_char s p ws c l stk :
  at_ s p (ws ++ c :: l) stk -> forallb is_space ws = true -> is_space c = false -> c <> Byte.x00 ->
  exists s', peekToken s = Ok (c, s') /\ at_ s' (p + blen ws) (c :: l) stk.
Proof.
  intros H Hws Hc Hz. unfold peekToken. destruct (readToken_char _ _ _ _ _ _ H Hws Hc) as (s' & -> & H' & Hj).
  rewrite bind_Ok, decide_False by done. destruct (unread_read _ _ _ _ _ H' Hj Hz) as (s'' & -> & H'').
  by exists s''.
Qed.

Lemma readByte_eof s p stk :
  at_ s p [] stk -> exists s', readByte s = (Byte.x00, s') /\ at_ s' p [] stk /\ sc_err s' = true.
Proof.
  intros H. destruct (readByte_nil _ _ _ H) as (s' & E & H'). exists s'. split; [done|]. split; [done|].
  destruct H as [_ Ha _ He]. unfold avail in Ha. unfold readByte in E. case_decide; [|done].
  destruct (sc_err s) eqn:Es; [by injection E as <-|]. cbn in Ha. rewrite Ha in E. by injection E as <-.
Qed.

Lemma readToken_eof s p stk :
  at_ s p [] stk -> exists s', readToken s = Ok (Byte.x00, s') /\ at_ s' p [] stk /\ sc_err s' = true.
Proof.
  intros H. unfold readToken, sc_fuel. cbn [readToken_loop].
  destruct (readByte_eof _ _ _ H) as (s' & -> & H' & He). by exists s'.
Qed.

Lemma peekToken_eof s p stk :
  at_ s p [] stk -> exists s', peekToken s = Ok (Byte.x00, s') /\ at_ s' p [] stk /\ sc_err s' = true.
Proof.
  intros H. unfold peekToken. destruct (readToken_eof _ _ _ H) as (s' & -> & H'). by exists s'.
Qed.

(** The text after a token begins with something visible, or is empty. *)
Definition visible (l : list byte) : bool :=
  match l with [] => true | c :: _ => negb (is_space c) && negb (bool_decide (c = Byte.x00)) end.

Lemma peekToken_visible s p l stk :
  at_ s p l stk -> visible l = true -> exists s', peekToken s = Ok (hd Byte.x00 l, s') /\ at_ s' p l stk.
Proof.
  intros H Hv. destruct l as [|c l].
  - destruct (peekToken_eof _ _ _ H) as (s' & -> & H' & _). by exists s'.
  - cbn in Hv. apply andb_prop in Hv as [Hc Hz]. apply negb_true_iff in Hc, Hz. apply bool_decide_eq_false in Hz.
    destruct (peekToken_char s p [] c l stk H eq_refl Hc Hz) as (s' & -> & H'). exists s'. split; [done|].
    by rewrite blen_nil, Z.add_0_r in H'.
Qed.

Lemma scanString_text fuel from s p r l stk :
  at_ s p (r ++ l) stk -> body_ok r = true -> (length r < fuel)%nat ->
  exists s', scanString_loop fuel from s = Ok (mkItem from (p + blen r) literal false, s') /\ at_ s' (p + blen r) l stk.
Proof.
  revert s p r. induction fuel as [|fuel IH]; intros s p r H Hr Hf; [lia|]. cbn [scanString_loop].
  destruct r as [|c r]; [done|]. cbn [body_ok] in Hr.
  destruct (readByte_cons _ _ _ _ _ H) as (s1 & -> & H1 & _). cbn in Hf.
  destruct (decide (c = c_quote)) as [->|Hq].
  - apply bool_decide_eq_true in Hr as ->. rewrite decide_False by done.
    rewrite blen_cons, blen_nil. eexists; split; [by rewrite (at_pos _ _ _ _ H1)|done].
  - destruct (decide (c = c_backslash)) as [Hb|Hb].
    + destruct r as [|c2 r]; [done|]. apply andb_prop in Hr as [_ Hr].
      destruct (readByte_cons _ _ _ _ _ H1) as (s2 & E & H2 & _). rewrite E. cbn [snd]. cbn in Hf.
      destruct (IH s2 (p + 1 + 1) r H2 Hr ltac:(lia)) as (s3 & -> & H3). rewrite !blen_cons.
      replace (p + (1 + (1 + blen r))) with (p + 1 + 1 + blen r) by lia. by exists s3.
    + apply andb_prop in Hr as [[Hn Hz]%andb_prop Hr]. apply negb_true_iff in Hn, Hz.
      apply bool_decide_eq_false in Hz. rewrite Hn. rewrite decide_False by done.
      destruct (IH s1 (p + 1) r H1 Hr ltac:(lia)) as (s3 & -> & H3). rewrite blen_cons.
      replace (p + (1 + blen r)) with (p + 1 + blen r) by lia. by exists s3.
Qed.

(** A literal ends at a delimiter or at the end of input. *)
Definition delimited (l : list byte) : bool :=
  match l with [] => true | c :: _ => is_delim c end.

Lemma scanLiteral_text fuel from s p t l stk :
  at_ s p (t ++ l) stk -> forallb plain_byte t = true -> delimited l = true -> (length t < fuel)%nat ->
  exists s', scanLiteral_loop fuel from s = Ok (mkItem from (p + blen t) literal false, s') /\ at_ s' (p + blen t) l stk.
Proof.
  revert s p t. induction fuel as [|fuel IH]; intros s p t H Ht Hl Hf; [lia|]. cbn [scanLiteral_loop].
  destruct t as [|c t].
  - cbn in H. rewrite blen_nil, Z.add_0_r. destruct l as [|c l].
    + destruct (readByte_nil _ _ _ H) as (s1 & -> & H1). cbn. rewrite (at_pos _ _ _ _ H1). by exists s1.
    + destruct (readByte_cons _ _ _ _ _ H) as (s1 & -> & H1 & Hj). cbn in Hl. rewrite Hl.
      destruct (unread_read _ _ _ _ _ H1 Hj (is_delim_nonzero _ Hl)) as (s2 & -> & H2). rewrite bind_Ok.
      rewrite (at_pos _ _ _ _ H2). by exists s2.
  - cbn [forallb] in Ht. apply andb_prop in Ht as [[Hd Hz]%andb_prop Ht]. apply negb_true_iff in Hd, Hz.
    apply bool_decide_eq_false in Hz. cbn in Hf.
    destruct (readByte_cons _ _ _ _ _ H) as (s1 & -> & H1 & _). rewrite Hd, decide_False by done.
    destruct (IH s1 (p + 1) t H1 Ht Hl ltac:(lia)) as (s3 & -> & H3). rewrite blen_cons.
    replace (p + (1 + blen t)) with (p + 1 + blen t) by lia. by exists s3.
Qed.

(** [t] is the text of a token of kind [k] when [l] follows it. *)
Inductive token_text (l : list byte) : token -> gostring -> Prop :=
| TT_objectBegin : visible l = true -> token_text l objectBegin [c_lbrace]
| TT_objectEnd : visible l = true -> token_text l objectEnd [c_rbrace]
| TT_arrayBegin : visible l = true -> token_text l arrayBegin [c_lbracket]
| TT_arrayEnd : visible l = true -> token_text l arrayEnd [c_rbracket]
| TT_string t : string_text t = true -> token_text l literal t
| TT_bare t : bare_ok t = true -> delimited l = true -> visible l = true -> token_text l literal t.

(** The byte after the first byte of a token. *)
Definition second (t l : list byte) : byte := hd Byte.x00 (tail (t ++ l)).

Lemma plain_byte_spec c : plain_byte c = true -> is_delim c = false /\ is_space c = false /\ c <> Byte.x00.
Proof.
  unfold plain_byte. intros [Hd Hz]%andb_prop. apply negb_true_iff in Hd, Hz. apply bool_decide_eq_false in Hz.
  split; [done|]. split; [|done]. destruct c; try done.
Qed.

Lemma plain_first c : is_delim c = false -> c <> Byte.x00 ->
  c <> c_quote /\ c <> c_lbrace /\ c <> c_rbrace /\ c <> c_lbracket /\ c <> c_rbracket /\
  (bool_decide (c = c_colon) || bool_decide (c = c_comma)) = false.
Proof. destruct c; intros Hd Hz; try done; repeat split; done. Qed.

Lemma bare_visible t l : forallb plain_byte t = true -> visible l = true -> visible (t ++ l) = true.
Proof.
  destruct t as [|c t]; [done|]. cbn. intros [(_ & Hs & Hz)%plain_byte_spec _]%andb_prop _.
  by rewrite Hs, bool_decide_eq_false_2.
Qed.

Lemma scanOne_token fuel pre s p k t l stk :
  at_ s p (t ++ l) stk -> token_text l k t ->
  exists s', scanOne_loop (S fuel) pre s = Ok (mkItem p (p + blen t) k false, pre, second t l, s') /\
    at_ s' (p + blen t) l stk.
Proof.
  intros H Ht. cbn [scanOne_loop].
  assert (Hbr : forall c, is_space c = false -> t = [c] -> visible l = true ->
    exists s2 s1, readToken s = Ok (c, s1) /\ peekToken s1 = Ok (second t l, s2) /\ at_ s2 (p + 1) l stk).
  { intros c Hc -> Hv. destruct (readToken_char s p [] c l stk H eq_refl Hc) as (s1 & E1 & H1 & _).
    rewrite blen_nil, Z.add_0_r in H1. destruct (peekToken_visible _ _ _ _ H1 Hv) as (s2 & E2 & H2).
    by exists s2, s1. }
  inversion Ht as [Hv E1 E2|Hv E1 E2|Hv E1 E2|Hv E1 E2|t' Hs E1 E2|t' Hb Hd Hv E1 E2]; subst.
  1-4: edestruct Hbr as (s2 & s1 & -> & HP & H2); [|done|done|]; [done|];
       rewrite bind_Ok, HP, bind_Ok; cbn [decide]; rewrite (at_pos _ _ _ _ H2);
       exists s2; split; [|done]; rewrite !blen_cons, blen_nil;
       by replace (p + 1 - 1) with p by lia.
  - (* a string *)
    destruct t as [|q [|c r]]; [done|done|]. cbn [string_text] in Hs.
    apply andb_prop in Hs as [[Hq Hr]%andb_prop Hsp]. apply bool_decide_eq_true in Hq as ->.
    apply negb_true_iff in Hsp.
    assert (Hz : c <> Byte.x00) by (intros ->; cbn in Hr; by rewrite ?andb_false_r in Hr).
    destruct (readToken_char s p [] c_quote ((c :: r) ++ l) stk H eq_refl eq_refl) as (s1 & -> & H1 & _).
    rewrite bind_Ok. rewrite blen_nil, Z.add_0_r in H1.
    destruct (peekToken_char s1 (p + 1) [] c (r ++ l) stk H1 eq_refl Hsp Hz) as (s2 & -> & H2).
    rewrite blen_nil, Z.add_0_r in H2. rewrite bind_Ok, decide_True by done. unfold scanString.
    pose proof (at_fuel _ _ _ _ H2) as Hf. cbn [length] in Hf. rewrite length_app in Hf.
    destruct (scanString_text (sc_fuel s2) (sc_pos s2 - 1) s2 (p + 1) (c :: r) l stk H2 Hr ltac:(cbn [length]; lia))
      as (s3 & -> & H3).
    rewrite bind_Ok, (at_pos _ _ _ _ H2). exists s3. rewrite (blen_cons c_quote).
    replace (p + (1 + blen (c :: r))) with (p + 1 + blen (c :: r)) by lia. split; [|done].
    by replace (p + 1 - 1) with p by lia.
  - (* a bare literal *)
    unfold bare_ok in Hb. apply andb_prop in Hb as [Hne Hb]. destruct t as [|c r]; [done|]. cbn [forallb] in Hb.
    apply andb_prop in Hb as [(Hcd & Hcs & Hcz)%plain_byte_spec Hr].
    destruct (readToken_char s p [] c (r ++ l) stk H eq_refl Hcs) as (s1 & -> & H1 & _).
    rewrite bind_Ok. rewrite blen_nil, Z.add_0_r in H1.
    destruct (peekToken_visible _ _ _ _ H1 (bare_visible _ _ Hr Hv)) as (s2 & -> & H2).
    rewrite bind_Ok. destruct (plain_first c Hcd Hcz) as (? & ? & ? & ? & ? & Hcc).
    rewrite !decide_False, Hcc by done. unfold scanLiteral. pose proof (at_fuel _ _ _ _ H2) as Hf.
    rewrite length_app in Hf.
    destruct (scanLiteral_text (sc_fuel s2) (sc_pos s2 - 1) s2 (p + 1) r l stk H2 Hr Hd ltac:(lia)) as (s3 & -> & Hs3).
    rewrite bind_Ok, (at_pos _ _ _ _ H2). exists s3. rewrite blen_cons.
    replace (p + (1 + blen r)) with (p + 1 + blen r) by lia. split; [|done]. by replace (p + 1 - 1) with p by lia.
Qed.

(** A separator: nothing, or a comma or colon and white space. *)
Definition sep_ok (sep : list byte) : bool :=
  match sep with
  | [] => true
  | c :: ws => (bool_decide (c = c_colon) || bool_decide (c = c_comma)) && forallb is_space ws
  end.

Lemma token_text_first l k t :
  token_text l k t -> exists c r, t = c :: r /\ is_space c = false /\ c <> Byte.x00.
Proof.
  destruct 1 as [| | | |t Hs|t Hb]; try (by eexists _, _).
  - destruct t as [|q [|c r]]; [done|done|]. cbn [string_text] in Hs. apply andb_prop in Hs as [[Hq _]%andb_prop _].
    apply bool_decide_eq_true in Hq as ->. by eexists _, _.
  - unfold bare_ok in Hb. destruct t as [|c r]; [done|]. cbn in Hb.
    apply andb_prop in Hb as [(? & ? & ?)%plain_byte_spec _]. by eexists _, _.
Qed.

Lemma scanOne_sep s p sep k t l stk :
  at_ s p (sep ++ t ++ l) stk -> sep_ok sep = true -> token_text l k t ->
  exists s', scanOne s = Ok (mkItem (p + blen sep) (p + blen sep + blen t) k false, hd Byte.x00 sep, second t l, s') /\
    at_ s' (p + blen sep + blen t) l stk.
Proof.
  intros H Hsep Ht. unfold scanOne, sc_fuel. destruct sep as [|c ws].
  - rewrite blen_nil, Z.add_0_r. by apply scanOne_token.
  - cbn in Hsep. apply andb_prop in Hsep as [Hc Hws].
    destruct (token_text_first _ _ _ Ht) as (c2 & r & Et & Hc2 & Hz2).
    remember (S (length (sc_r s))) as fuel eqn:Efuel. cbn [scanOne_loop].
    assert (is_space c = false) as Hcs by (apply orb_prop in Hc as [E|E]; apply bool_decide_eq_true in E as ->; done).
    destruct (readToken_char s p [] c (ws ++ t ++ l) stk H eq_refl Hcs) as (s1 & -> & H1 & _).
    rewrite bind_Ok. rewrite blen_nil, Z.add_0_r in H1. rewrite Et in H1. cbn [app] in H1.
    destruct (peekToken_char s1 (p + 1) ws c2 (r ++ l) stk H1 Hws Hc2 Hz2) as (s2 & -> & H2).
    rewrite bind_Ok. rewrite Hc.
    rewrite !decide_False by (intros ->; by apply orb_prop in Hc as [E|E]).
    change (c2 :: r ++ l) with ((c2 :: r) ++ l) in H2. rewrite <- Et in H2. subst fuel.
    destruct (scanOne_token (length (sc_r s)) c s2 _ _ _ _ _ H2 Ht) as (s3 & -> & H3).
    exists s3. rewrite blen_cons. by replace (p + (1 + blen ws)) with (p + 1 + blen ws) by lia.
Qed.

(** ** The stack *)

(** The effect of a token on the stack, and whether it counts as a key. *)
Definition enter_post (k : token) (pre post : byte) (stk : list scanState) : bool * list scanState :=
  let '(mk, stk) :=
    match stk with
    | st :: r =>
        if decide (st_tok st = objectBegin) then
          let f := key_state k pre post (st_isKey st) in (f, mkSt (st_tok st) f :: r)
        else (false, st :: r)
    | [] => (false, [])
    end in
  (mk, match k with
       | objectBegin | arrayBegin => mkSt k false :: stk
       | objectEnd | arrayEnd => tail stk
       | _ => stk
       end).

(** ... when no colon follows its first byte. *)
Definition enter (k : token) (pre : byte) (stk : list scanState) : bool * list scanState := enter_post k pre Byte.x00 stk.

Lemma enter_post_eq k pre post stk : post <> c_colon -> enter_post k pre post stk = enter k pre stk.
Proof.
  intros Hp. unfold enter, enter_post, key_state. destruct stk as [|[t f] stk]; [done|]. cbn [st_tok st_isKey].
  by rewrite (decide_False (P := post = c_colon)), (decide_False (P := Byte.x00 = c_colon)) by done.
Qed.

Lemma sc_Next_token s p sep k t l stk :
  at_ s p (sep ++ t ++ l) stk -> sep_ok sep = true -> token_text l k t -> k <> unknown ->
  let e := enter_post k (hd Byte.x00 sep) (second t l) stk in
  exists s', sc_Next s = Ok (true, mkItem (p + blen sep) (p + blen sep + blen t) k e.1, s') /\
    at_ s' (p + blen sep + blen t) l e.2.
Proof.
  intros H Hsep Ht Hk. unfold sc_Next, scan.
  destruct (scanOne_sep _ _ _ _ _ _ _ H Hsep Ht) as (s1 & -> & H1). rewrite !bind_Ok.
  rewrite (at_stack _ _ _ _ H1). unfold enter_post.
  destruct stk as [|[st_t st_k] stk]; cbn [it_tok it_from it_to st_tok st_isKey].
  - rewrite bind_Ok. cbn [it_tok]. rewrite bool_decide_eq_true_2, orb_true_r by done. eexists; split; [done|].
    by eapply at_set_stack.
  - case_decide; cbn [it_tok]; rewrite bind_Ok; cbn [it_tok];
      (rewrite bool_decide_eq_true_2, orb_true_r by done); (eexists; split; [done|]; by eapply at_set_stack).
Qed.

Lemma sc_Next_eof s p stk :
  at_ s p [] stk -> exists it s' stk', sc_Next s = Ok (false, it, s') /\ at_ s' p [] stk'.
Proof.
  intros H. unfold sc_Next, scan, scanOne, sc_fuel. cbn [scanOne_loop].
  destruct (readToken_eof _ _ _ H) as (s1 & -> & H1 & _). rewrite bind_Ok.
  destruct (peekToken_eof _ _ _ H1) as (s2 & -> & H2 & He). rewrite bind_Ok.
  do 5 (rewrite decide_False by done). change (bool_decide (Byte.x00 = c_colon) || bool_decide (Byte.x00 = c_comma)) with false.
  rewrite decide_True, !bind_Ok by done. rewrite (at_stack _ _ _ _ H2).
  destruct stk as [|st stk]; [|case_decide]; cbn; rewrite He; (eexists _, _, _; split; [done|]; by eapply at_set_stack).
Qed.
