(* ===== verification/ScrubWalk.v ===== *)
(** The stream on the text of a document: skipping and processing values token by token. *)

From S2P Require Import Prelude Run Scrub ScrubScan ScrubSafe ScrubDoc.

(** ** Where the stream is *)

(** The scanner is behind [pre] and before [l]. *)
Record pend (input : list byte) (s : stream) (pre l : list byte) (stk : list scanState) (acc : list Bounds) : Prop := {
  p_input : s_input s = input;
  p_split : input = pre ++ l;
  p_unread : s_unreadItem s = no_item;
  p_scrub : s_toScrub s = acc;
  p_at : at_ (s_s s) (blen pre) l stk
}.

(** The current token is [t], behind [pre] and before [l]. *)
Record cur (input : list byte) (s : stream) (k : token) (mk : bool) (pre t l : list byte)
    (stk : list scanState) (acc : list Bounds) : Prop := {
  c_tok : s_tok s = k;
  c_mapKey : s_mapKey s = mk;
  c_pos : s_pos s = mkBounds (blen pre) (blen (pre ++ t));
  c_pend : pend input s (pre ++ t) l stk acc
}.

Lemma next_token_post input s pre sep k t l stk acc :
  pend input s pre (sep ++ t ++ l) stk acc -> sep_ok sep = true -> token_text l k t -> k <> unknown ->
  let e := enter_post k (hd Byte.x00 sep) (second t l) stk in
  exists s', next s = Ok s' /\ cur input s' k e.1 (pre ++ sep) t l e.2 acc.
Proof.
  intros [Hin Hsp Hun Hac Hat] Hsep Ht Hk e. unfold next. rewrite Hun. cbn [it_tok no_item].
  rewrite decide_True by done.
  destruct (sc_Next_token _ _ _ _ _ _ _ Hat Hsep Ht Hk) as (s1 & -> & H1). rewrite bind_Ok.
  unfold set_item. cbn [it_from it_to]. rewrite Hin, subslice_ok, bind_Ok.
  - eexists; split; [done|]. cbn -[e]. rewrite <- !blen_app in *. split; cbn -[e]; [done|done|done|].
    split; cbn -[e]; [done|by rewrite Hsp, !app_assoc|done|done|done].
  - pose proof (blen_nonneg pre). pose proof (blen_nonneg sep). pose proof (blen_nonneg t). lia.
  - rewrite Hsp, !blen_app. pose proof (blen_nonneg l). lia.
Qed.

Lemma next_token input s pre sep k t l stk acc :
  pend input s pre (sep ++ t ++ l) stk acc -> sep_ok sep = true -> token_text l k t ->
  second t l <> c_colon -> k <> unknown ->
  exists s', next s = Ok s' /\
    cur input s' k (enter k (hd Byte.x00 sep) stk).1 (pre ++ sep) t l (enter k (hd Byte.x00 sep) stk).2 acc.
Proof.
  intros Hp Hsep Ht Hpost Hk. rewrite <- (enter_post_eq _ _ _ _ Hpost). by apply next_token_post.
Qed.

Lemma next_end input s pre stk acc :
  pend input s pre [] stk acc ->
  exists s' stk', next s = Ok s' /\ s_tok s' = unknown /\ pend input s' pre [] stk' acc.
Proof.
  intros [Hin Hsp Hun Hac Hat]. unfold next. rewrite Hun. cbn [it_tok no_item]. rewrite decide_True by done.
  destruct (sc_Next_eof _ _ _ Hat) as (it & s1 & stk' & -> & H1). rewrite bind_Ok. eexists _, stk'. split; [done|].
  split; [done|]. by split.
Qed.

Lemma next_add_scrub s b : next (add_scrub s b) = (fun s' => add_scrub s' b) <$> next s.
Proof.
  unfold next. cbn [add_scrub s_unreadItem s_s s_input]. case_decide.
  - destruct (sc_Next (s_s s)) as [[[more it] sc]| |]; [|done|done]. rewrite !bind_Ok. destruct more; [|done].
    unfold set_item. cbn [add_scrub s_input]. by destruct (subslice _ _ _).
  - unfold set_item. cbn [add_scrub s_input]. by destruct (subslice _ _ _).
Qed.

Lemma pend_add_scrub input s pre l stk acc b :
  pend input s pre l stk acc -> pend input (add_scrub s b) pre l stk (acc ++ [b]).
Proof. intros [Hin Hsp Hun Hac Hat]. split; cbn; [done|done|done|by rewrite Hac|done]. Qed.

(** ** Values and what follows them *)

(** The text after a value in a document. *)
Definition follows (l : list byte) : bool :=
  match l with
  | [] => true
  | c :: _ => bool_decide (c = c_comma) || bool_decide (c = c_rbrace) || bool_decide (c = c_rbracket)
  end.

Definition string_lit (v : json) : bool := match v with JLit t => string_ok t | _ => false end.

(** [v] may be followed by [l]: strings end by themselves. *)
Definition fits (v : json) (l : list byte) : bool := string_lit v || follows l.

Lemma follows_spec l : follows l = true -> visible l = true /\ delimited l = true /\ hd Byte.x00 l <> c_colon.
Proof.
  destruct l as [|c l]; [done|]. cbn. intros [[E|E]%orb_prop|E]%orb_prop; apply bool_decide_eq_true in E as ->; done.
Qed.

Definition push (v : json) (stk : list scanState) : list scanState :=
  match first_tok v with literal => stk | k => mkSt k false :: stk end.

Lemma enter_push v pre k f stk :
  exists f', (enter (first_tok v) pre (mkSt k f :: stk)).2 = push v (mkSt k f' :: stk).
Proof.
  unfold enter, enter_post, push. cbn. case_decide as Hk; destruct v; cbn; eexists; done.
Qed.

Section Print.
Context (cm cl : list byte).
Context (Hcm : forallb is_space cm = true) (Hcl : forallb is_space cl = true).

(** ** The contents of a value *)

Definition item := (list byte * json)%type.

Definition field_items (sep : list byte) (f : gostring * json) : list item := [(sep, JLit f.1); (c_colon :: cl, f.2)].

Definition items (v : json) : list item :=
  match v with
  | JLit _ => []
  | JArr [] => []
  | JArr (v :: l) => ([], v) :: ((fun v => (c_comma :: cm, v)) <$> l)
  | JObj [] => []
  | JObj (f :: fs) => field_items [] f ++ mjoin (field_items (c_comma :: cm) <$> fs)
  end.

Definition print_items (its : list item) : list byte := mjoin ((fun it => it.1 ++ print cm cl it.2) <$> its).

Definition closing (v : json) : byte := match v with JObj _ => c_rbrace | _ => c_rbracket end.
Definition closing_tok (v : json) : token := match v with JObj _ => objectEnd | _ => arrayEnd end.

Lemma print_items_app a b : print_items (a ++ b) = print_items a ++ print_items b.
Proof. unfold print_items. by rewrite fmap_app, join_app. Qed.

Lemma rest_text_items v : first_tok v <> literal -> rest_text cm cl v = print_items (items v) ++ [closing v].
Proof.
  destruct v as [t|l|fs]; intros Hl; [done| |]; cbn [rest_text closing]; f_equal.
  - destruct l as [|v l]; [done|]. cbn. f_equal. unfold tail_elems, print_items.
    clear Hl. induction l as [|w l IH]; [done|]. cbn. by rewrite IH.
  - destruct fs as [|f fs]; [done|].
    change (print_field cm cl f ++ tail_elems cm (map (print_field cm cl) fs)
      = print_items (field_items [] f ++ mjoin (field_items (c_comma :: cm) <$> fs))).
    rewrite print_items_app. f_equal; [by cbn; rewrite app_nil_r|].
    unfold tail_elems. clear Hl. induction fs as [|g fs IH]; [done|].
    change (concat (?F <$> map ?P (g :: fs))) with (F (P g) ++ concat (F <$> map P fs)).
    rewrite IH, fmap_cons. cbn [mjoin list_join]. rewrite print_items_app. f_equal. cbn. unfold print_field.
    by rewrite app_nil_r, <- app_assoc.
Qed.

(** Items one after the other, before [rest]. *)
Fixpoint chain (its : list item) (rest : list byte) : Prop :=
  match its with
  | [] => True
  | (sep, v) :: its =>
      sep_ok sep = true /\ wf_json v = true /\ fits v (print_items its ++ rest) = true /\ chain its rest
  end.

Lemma chain_elems l rest :
  forallb wf_json l = true -> follows rest = true -> chain ((fun v => (c_comma :: cm, v)) <$> l) rest.
Proof.
  induction l as [|v l IH]; [done|]. cbn. intros [Hv Hl]%andb_prop Hr. split; [done|]. split; [done|].
  split; [|by apply IH]. unfold fits. destruct l as [|w l]; [cbn; by rewrite Hr, orb_true_r|by rewrite orb_true_r].
Qed.

Lemma chain_fields fs rest :
  forallb (fun f => string_ok f.1 && wf_json f.2) fs = true -> follows rest = true ->
  chain (mjoin (field_items (c_comma :: cm) <$> fs)) rest.
Proof.
  induction fs as [|f fs IH]; [done|]. cbn. intros [[Hk Hv]%andb_prop Hl]%andb_prop Hr.
  unfold fits. cbn. rewrite Hk. cbn. split; [done|]. split; [done|]. split; [done|].
  split; [done|]. split; [done|]. split; [|by apply IH].
  destruct fs as [|g fs]; [cbn; by rewrite Hr, orb_true_r|by rewrite orb_true_r].
Qed.

Lemma chain_items v rest :
  wf_json v = true -> follows rest = true -> chain (items v) rest.
Proof.
  destruct v as [t|[|v l]|[|f fs]]; [done|done| |done|]; intros Hv Hr.
  - cbn [wf_json forallb] in Hv. apply andb_prop in Hv as [Hv Hl].
    pose proof (chain_elems (v :: l) rest ltac:(by cbn; rewrite Hv, Hl) Hr) as H. cbn in H |- *. by destruct H as (_ & H).
  - pose proof (chain_fields (f :: fs) rest Hv Hr) as H. cbn in H |- *. by destruct H as (_ & H).
Qed.

(** The first byte of a value's text. *)
Lemma print_first v : wf_json v = true -> exists c r, first_text v = c :: r /\ is_space c = false /\ c <> Byte.x00 /\ c <> c_colon.
Proof.
  destruct v as [t|l|fs]; cbn; intros Hv; [|by eexists _, _|by eexists _, _].
  apply orb_prop in Hv as [Hs|Hb].
  - destruct t as [|q [|c r]]; [done|done|]. unfold string_ok in Hs. cbn [string_text] in Hs.
    apply andb_prop in Hs as [[[Hq _]%andb_prop _]%andb_prop _]. apply bool_decide_eq_true in Hq as ->. by eexists _, _.
  - unfold bare_ok in Hb. destruct t as [|c r]; [done|]. cbn in Hb.
    apply andb_prop in Hb as [(Hd & ? & ?)%plain_byte_spec _]. eexists _, _. split; [done|]. split; [done|].
    split; [done|]. by intros ->.
Qed.

Lemma items_first v rest :
  first_tok v <> literal -> wf_json v = true -> exists c r, print_items (items v) ++ closing v :: rest = c :: r /\
    is_space c = false /\ c <> Byte.x00 /\ c <> c_colon.
Proof.
  assert (H : forall w l, wf_json w = true -> exists c r, (print cm cl w ++ l) ++ closing v :: rest = c :: r /\
    is_space c = false /\ c <> Byte.x00 /\ c <> c_colon).
  { intros w l Hw. destruct (print_first w Hw) as (c & r & E & ?). rewrite print_split, E. by eexists _, _. }
  destruct v as [t|[|v l]|[|f fs]]; [done|by eexists _, _| |by eexists _, _|]; intros _ Hv; cbn in Hv;
    apply andb_prop in Hv as [Hv _]; cbn.
  - by apply H.
  - apply andb_prop in Hv as [Hk _]. apply (H (JLit f.1)). cbn. by rewrite Hk.
Qed.

(** The first token of a value. *)
Lemma value_token v rest :
  wf_json v = true -> fits v rest = true ->
  token_text (rest_text cm cl v ++ rest) (first_tok v) (first_text v) /\
  second (first_text v) (rest_text cm cl v ++ rest) <> c_colon /\ first_tok v <> unknown.
Proof.
  intros Hv Hf. destruct (decide (first_tok v = literal)) as [El|Hl].
  - destruct v as [t| |]; [|done|done]. cbn [first_tok first_text rest_text app] in *. cbn [wf_json] in Hv.
    unfold fits in Hf. cbn [string_lit] in Hf. destruct (string_ok t) eqn:Hs.
    + unfold string_ok in Hs. apply andb_prop in Hs as [Hs Hc]. split; [by constructor|]. split; [|done].
      destruct t as [|q [|c r]]; [done|done|]. by apply negb_true_iff, bool_decide_eq_false in Hc.
    + cbn in Hv, Hf. destruct (follows_spec _ Hf) as (Hvis & Hdel & Hcol). split; [by apply TT_bare|]. split; [|done].
      unfold bare_ok in Hv. destruct t as [|c [|c2 r]]; [done|done|]. cbn in Hv |- *.
      apply andb_prop in Hv as [_ [(Hd & _)%plain_byte_spec _]%andb_prop]. by intros ->.
  - rewrite rest_text_items, <- app_assoc by done. destruct (items_first v rest Hl Hv) as (c & r & E & Hs & Hz & Hc).
    cbn [app]. rewrite E.
    assert (visible (c :: r) = true) by (cbn; by rewrite Hs, bool_decide_eq_false_2).
    destruct v; [done| |]; cbn; (split; [by constructor|]); by split.
Qed.

Lemma close_token v rest :
  follows rest = true -> token_text rest (closing_tok v) [closing v] /\ second [closing v] rest <> c_colon.
Proof.
  intros (Hvis & _ & Hcol)%follows_spec. destruct v; cbn; (split; [by constructor|done]).
Qed.

(** ** Skipping a value *)

(** What [skip_loop] does after a token: move on, then stop or go on. *)
Definition skip_next (m : nat) (d e : Z) (s : stream) : run (Z * stream) :=
  let! s := next s in if d <=? 0 then Ok (e, s) else skip_loop m d s.

Definition skips (v : json) : Prop :=
  forall input s mk pre rest stk acc d,
    fits v rest = true -> 0 <= d ->
    cur input s (first_tok v) mk pre (first_text v) (rest_text cm cl v ++ rest) (push v stk) acc ->
    exists n s0, pend input s0 (pre ++ print cm cl v) rest stk acc /\
      forall m, skip_loop (n + S m) d s = skip_next m d (blen (pre ++ print cm cl v)) s0.

Lemma items_skip v its input s pre k f stk acc rest D :
  Forall skips (snd <$> its) -> 1 <= D -> follows rest = true -> chain its (closing v :: rest) ->
  pend input s pre (print_items its ++ closing v :: rest) (mkSt k f :: stk) acc ->
  exists n s1, pend input s1 (pre ++ print_items its ++ [closing v]) rest stk acc /\
    forall m, next s ≫= skip_loop (n + S m) D = skip_next m (D - 1) (blen (pre ++ print_items its ++ [closing v])) s1.
Proof.
  intros Hsk HD Hr. revert s pre f Hsk. induction its as [|[sep w] its IH]; intros s pre f Hsk Hch Hp.
  - destruct (close_token v rest Hr) as [Ht Hc].
    assert (Hk : closing_tok v <> unknown) by (by destruct v).
    destruct (next_token input s pre [] _ [closing v] rest _ _ Hp eq_refl Ht Hc Hk) as (s' & En & [Etok _ Epos Ep]).
    exists O, s'. cbn [print_items fmap list_fmap mjoin list_join app]. split.
    + rewrite app_nil_r in Ep. destruct v; cbn in Ep; unfold enter, enter_post in Ep; cbn in Ep; case_decide; done.
    + intros m. rewrite En, bind_Ok. cbn [Nat.add skip_loop]. rewrite Etok, Epos, app_nil_r. unfold skip_next.
      by destruct v.
  - cbn [chain] in Hch. destruct Hch as (Hsep & Hw & Hfit & Hch). apply list.Forall_cons in Hsk as [Hskw Hsk].
    cbn [snd] in Hskw. set (after := print_items its ++ closing v :: rest) in *.
    destruct (value_token w after Hw Hfit) as (Ht & Hc & Hk).
    assert (E : print_items ((sep, w) :: its) ++ closing v :: rest
              = sep ++ first_text w ++ (rest_text cm cl w ++ after)).
    { unfold after. cbn. rewrite print_split, <- !app_assoc. done. }
    rewrite E in Hp. destruct (next_token _ _ _ _ _ _ _ _ _ Hp Hsep Ht Hc Hk) as (s' & En & Hcur).
    destruct (enter_push w (hd Byte.x00 sep) k f stk) as [f' Ef]. rewrite Ef in Hcur.
    destruct (Hskw _ _ _ _ _ _ _ D Hfit ltac:(lia) Hcur) as (n1 & s0 & Hp0 & Hs0).
    destruct (IH s0 _ f' Hsk Hch Hp0) as (n2 & s1 & Hp1 & Hs1).
    exists (n1 + S n2)%nat, s1.
    replace (pre ++ print_items ((sep, w) :: its) ++ [closing v])
      with (((pre ++ sep) ++ print cm cl w) ++ print_items its ++ [closing v]) by (cbn; by rewrite <- !app_assoc).
    split; [done|]. intros m. rewrite En, bind_Ok.
    replace (n1 + S n2 + S m)%nat with (n1 + S (n2 + S m))%nat by lia. rewrite Hs0. unfold skip_next at 1.
    destruct (D <=? 0) eqn:ED; [lia|]. rewrite <- Hs1. by destruct (next s0).
Qed.

Lemma items_Forall (P : json -> Prop) v :
  (forall t, P (JLit t)) -> match v with JLit _ => True | JArr l => Forall P l | JObj fs => Forall (fun f => P f.2) fs end ->
  Forall P (snd <$> items v).
Proof.
  intros Hl. destruct v as [t|[|v l]|[|f fs]]; [done|done| |done|].
  - intros [Hv H]%list.Forall_cons. cbn. constructor; [done|]. rewrite <- list_fmap_compose.
    by rewrite (list_fmap_ext _ id), list_fmap_id by done.
  - intros [Hv H]%list.Forall_cons. cbn. constructor; [apply Hl|]. constructor; [done|].
    induction H as [|g fs Hg H IH]; [done|]. cbn. constructor; [apply Hl|]. by constructor.
Qed.

Lemma skips_container v :
  first_tok v <> literal -> wf_json v = true -> Forall skips (snd <$> items v) -> skips v.
Proof.
  intros Hl Hv Hits input s mk pre rest stk acc d Hf Hd [Et _ Ep Hp].
  assert (Hr : follows rest = true) by (by destruct v).
  rewrite rest_text_items, <- app_assoc in Hp by done. cbn [app] in Hp.
  assert (Hpush : push v stk = mkSt (first_tok v) false :: stk) by (by destruct v).
  rewrite Hpush in Hp.
  assert (Hch : chain (items v) (closing v :: rest)) by (apply chain_items; [done|by destruct v]).
  destruct (items_skip v (items v) _ _ _ _ _ _ _ _ (d + 1) Hits ltac:(lia) Hr Hch Hp)
    as (n & s1 & Hp1 & Hs1).
  rewrite <- app_assoc, <- rest_text_items, <- print_split in Hp1, Hs1 by done.
  exists (S n), s1. split; [done|]. intros m. specialize (Hs1 m). replace (d + 1 - 1) with d in Hs1 by lia.
  rewrite <- Hs1. change (S n + S m)%nat with (S (n + S m)). cbn [skip_loop].
  assert (Hd1 : (d + 1 <=? 0) = false) by lia.
  destruct v; [done| |]; rewrite Et; cbn [first_tok]; rewrite Hd1; by destruct (next s).
Qed.

Lemma skips_all v : wf_json v = true -> skips v.
Proof.
  assert (Hlit : forall t, skips (JLit t)).
  { intros t input s mk pre rest stk acc d Hf Hd [Et _ Ep Hp]. exists O, s. cbn in *. split; [done|].
    intros m. cbn [skip_loop]. by rewrite Et, Ep. }
  induction v as [t|l IH|fs IH] using json_induction; intros Hv; [apply Hlit| |].
  - apply skips_container; [done|done|]. apply items_Forall; [done|]. cbn in Hv. clear -IH Hv.
    induction IH as [|v l Hw IH IHl]; [done|]. cbn in Hv. apply andb_prop in Hv as [Hv Hl]. constructor; auto.
  - apply skips_container; [done|done|]. apply items_Forall; [done|]. cbn in Hv. clear -IH Hv.
    induction IH as [|f fs Hw IH IHl]; [done|]. cbn in Hv. apply andb_prop in Hv as [[_ Hv]%andb_prop Hl].
    constructor; auto.
Qed.

End Print.
