(* ===== verification/ScrubCorrect.v ===== *)
(** What scrubbing does to a document: the values at the nodes are replaced, everything else keeps
    its text. *)

From S2P Require Import Prelude Run Scrub ScrubScan ScrubSafe ScrubDoc ScrubWalk.

(** ** Edited texts *)

Section Renders.
Context (repl : list byte).

(** Replacing the ranges [idx] in [text], which begins at position [p], gives [text']. *)
Definition renders (text : list byte) (p : Z) (idx : list Bounds) (text' : list byte) : Prop :=
  ordered p idx (p + blen text) /\
  forall A B tl, blen A = p -> ordered (p + blen text) tl (blen (A ++ text ++ B)) ->
    splice (A ++ text ++ B) repl p (idx ++ tl) = text' ++ splice (A ++ text ++ B) repl (p + blen text) tl.

Lemma splice_skip input pos q tl :
  0 <= pos <= q -> ordered q tl (blen input) ->
  splice input repl pos tl = take (Z.to_nat (q - pos)) (drop (Z.to_nat pos) input) ++ splice input repl q tl.
Proof.
  intros Hq Ho. destruct tl as [|b tl]; cbn [splice].
  - rewrite <- (take_drop (Z.to_nat (q - pos)) (drop (Z.to_nat pos) input)) at 1. f_equal.
    rewrite drop_drop. f_equal. lia.
  - cbn in Ho. destruct Ho as [Hb _].
    symmetry. rewrite app_assoc. f_equal. symmetry.
    rewrite <- (take_drop (Z.to_nat (q - pos)) (take (Z.to_nat (From b - pos)) _)).
    rewrite take_take, skipn_firstn_comm, drop_drop.
    replace (Z.to_nat (q - pos) `min` Z.to_nat (From b - pos))%nat with (Z.to_nat (q - pos)) by lia.
    replace (Z.to_nat (From b - pos) - Z.to_nat (q - pos))%nat with (Z.to_nat (From b - q)) by lia.
    by replace (Z.to_nat pos + Z.to_nat (q - pos))%nat with (Z.to_nat q) by lia.
Qed.

Lemma subtext {A} (pre t post : list A) p n :
  blen pre = p -> n = blen t -> take (Z.to_nat n) (drop (Z.to_nat p) (pre ++ t ++ post)) = t.
Proof.
  intros <- ->. unfold blen. rewrite !Nat2Z.id, drop_app_length', take_app_length' by done. done.
Qed.

Lemma subslice_text pre t l : subslice ((pre ++ t) ++ l) (blen pre) (blen (pre ++ t)) = Ok t.
Proof.
  rewrite subslice_ok, <- app_assoc.
  - by rewrite (subtext pre t l (blen pre)) by (try done; rewrite blen_app; lia).
  - rewrite blen_app. pose proof (blen_nonneg pre). pose proof (blen_nonneg t). lia.
  - rewrite (blen_app _ l). pose proof (blen_nonneg l). lia.
Qed.

Lemma renders_id text p : 0 <= p -> renders text p [] text.
Proof.
  intros Hp. split; [cbn; pose proof (blen_nonneg text); lia|]. intros A B tl HA Ho. cbn [app].
  pose proof (blen_nonneg text). rewrite (splice_skip _ p (p + blen text)) by (try done; lia). f_equal.
  apply subtext; [done|lia].
Qed.

Lemma renders_all text p : 0 <= p -> renders text p [mkBounds p (p + blen text)] repl.
Proof.
  intros Hp. pose proof (blen_nonneg text). split; [cbn; lia|]. intros A B tl HA Ho. cbn [app splice From To].
  rewrite Z.sub_diag. done.
Qed.

Lemma ordered_app lo a mid b hi : ordered lo a mid -> ordered mid b hi -> ordered lo (a ++ b) hi.
Proof.
  revert lo. induction a as [|x a IH]; intros lo; cbn; [|by intros [? ?] ?; split; [|apply IH]].
  intros Hlo Hb. destruct b; cbn in *; [lia|]. destruct Hb. split; [lia|done].
Qed.

Lemma renders_app t1 t2 p i1 i2 t1' t2' :
  renders t1 p i1 t1' -> renders t2 (p + blen t1) i2 t2' -> renders (t1 ++ t2) p (i1 ++ i2) (t1' ++ t2').
Proof.
  intros [O1 R1] [O2 R2]. rewrite <- Z.add_assoc, <- blen_app in O2. split; [by eapply ordered_app|].
  intros A B tl HA Ho. rewrite <- (app_assoc i1), <- (app_assoc t1).
  rewrite R1; [|done|].
  - specialize (R2 (A ++ t1) B tl ltac:(rewrite blen_app; lia)). rewrite <- !app_assoc, <- Z.add_assoc, <- blen_app in R2.
    rewrite R2, <- app_assoc; [done|]. by rewrite <- app_assoc in Ho.
  - eapply ordered_app; [exact O2|]. rewrite <- !app_assoc in Ho. exact Ho.
Qed.

End Renders.

(** ** Scrubbing by nodes *)

Section Scrubbed.
Context (EqualFold : gostring -> gostring -> bool) (repl : list byte).

Definition scrub_key (nodes : list node) (k : gostring) : gostring := if scrubNow nodes then repl else k.

Definition key_nodes (nodes : list node) (k : gostring) := (matchingMapNodes EqualFold true k nodes).1.
Definition value_nodes (nodes : list node) (k : gostring) := (matchingMapNodes EqualFold true k nodes).2.

Fixpoint scrub_value (nodes : list node) (v : json) : json :=
  if scrubNow nodes then JLit repl
  else match nodes with
       | [] => v
       | _ =>
           match v with
           | JLit t => JLit t
           | JArr l => JArr (map (scrub_value nodes) l)
           | JObj fs => JObj (map (fun f => (scrub_key (key_nodes nodes f.1) f.1,
                                            scrub_value (value_nodes nodes f.1) f.2)) fs)
           end
       end.

Context (cm cl : list byte).
Context (Hcm : forallb is_space cm = true) (Hcl : forallb is_space cl = true).

Definition processes (v : json) : Prop :=
  forall nodes input s mk pre rest stk acc,
    fits v rest = true ->
    cur input s (first_tok v) mk pre (first_text v) (rest_text cm cl v ++ rest) (push v stk) acc ->
    exists n s0 idx,
      renders repl (print cm cl v) (blen pre) idx (print cm cl (scrub_value nodes v)) /\
      pend input s0 (pre ++ print cm cl v) rest stk (acc ++ idx) /\
      forall m, (n <= m)%nat -> processValue EqualFold m nodes s = next s0.

(** Skipping, with or without scrubbing. *)
Lemma skipValue_skips v input s mk pre rest stk acc :
  skips cm cl v -> fits v rest = true ->
  cur input s (first_tok v) mk pre (first_text v) (rest_text cm cl v ++ rest) (push v stk) acc ->
  exists n s0, pend input s0 (pre ++ print cm cl v) rest stk acc /\
    forall m, (n <= m)%nat ->
      skipValue m s = (fun s => (mkBounds (blen pre) (blen pre + blen (print cm cl v)), s)) <$> next s0.
Proof.
  intros Hsk Hf Hc. destruct (Hsk _ _ _ _ _ _ _ 0 Hf ltac:(lia) Hc) as (n & s0 & Hp & Hs). exists (S n), s0.
  split; [done|]. intros m Hm. unfold skipValue. rewrite (c_pos _ _ _ _ _ _ _ _ _ Hc).
  replace m with (n + S (m - n - 1))%nat by lia. rewrite Hs. unfold skip_next. cbn [From]. rewrite <- blen_app.
  by destruct (next s0).
Qed.

Lemma processes_stop v nodes input s mk pre rest stk acc :
  skips cm cl v -> fits v rest = true ->
  cur input s (first_tok v) mk pre (first_text v) (rest_text cm cl v ++ rest) (push v stk) acc ->
  scrubNow nodes = true \/ nodes = [] ->
  exists n s0 idx,
    renders repl (print cm cl v) (blen pre) idx (print cm cl (scrub_value nodes v)) /\
    pend input s0 (pre ++ print cm cl v) rest stk (acc ++ idx) /\
    forall m, (n <= m)%nat -> processValue EqualFold m nodes s = next s0.
Proof.
  intros Hsk Hf Hc Hn. destruct (skipValue_skips _ _ _ _ _ _ _ _ Hsk Hf Hc) as (n & s0 & Hp & Hs).
  assert (Hpre : 0 <= blen pre) by apply blen_nonneg. destruct Hn as [Hn| ->].
  - set (b := mkBounds (blen pre) (blen pre + blen (print cm cl v))) in *. exists (S n), (add_scrub s0 b), [b].
    split; [|split; [by apply pend_add_scrub|]].
    + replace (scrub_value nodes v) with (JLit repl) by (destruct v; cbn; by rewrite Hn). by apply renders_all.
    + intros [|m] Hm; [lia|]. cbn [processValue]. rewrite Hn, Hs by lia. rewrite next_add_scrub. by destruct (next s0).
  - exists (S n), s0, []. rewrite app_nil_r. split; [|split; [done|]].
    + replace (scrub_value [] v) with v by (by destruct v). by apply renders_id.
    + intros [|m] Hm; [lia|]. cbn [processValue scrubNow existsb]. rewrite Hs by lia. by destruct (next s0).
Qed.

Definition scrub_items (nodes : list node) (its : list item) : list item :=
  (fun it => (it.1, scrub_value nodes it.2)) <$> its.

(** The elements of an array. *)
Lemma elems_process nodes its input s pre f stk acc rest :
  Forall processes (snd <$> its) -> follows rest = true -> chain cm cl its (c_rbracket :: rest) ->
  pend input s pre (print_items cm cl its ++ c_rbracket :: rest) (mkSt arrayBegin f :: stk) acc ->
  exists n s1 idx,
    renders repl (print_items cm cl its ++ [c_rbracket]) (blen pre) idx
      (print_items cm cl (scrub_items nodes its) ++ [c_rbracket]) /\
    pend input s1 (pre ++ print_items cm cl its ++ [c_rbracket]) rest stk (acc ++ idx) /\
    forall m, (n <= m)%nat -> next s ≫= processArray EqualFold m nodes = next s1.
Proof.
  intros Hpr Hr. revert s pre acc Hpr. induction its as [|[sep w] its IH]; intros s pre acc Hpr Hch Hp.
  - destruct (close_token (JArr []) rest Hr) as [Ht Hc].
    destruct (next_token input s pre [] _ [c_rbracket] rest _ _ Hp eq_refl Ht Hc ltac:(done)) as (s' & En & [Etok _ _ Ep]).
    exists 1%nat, s', []. rewrite app_nil_r. split; [apply renders_id, blen_nonneg|]. split.
    + rewrite app_nil_r in Ep. exact Ep.
    + intros [|m] Hm; [lia|]. rewrite En, bind_Ok. cbn [processArray]. by rewrite Etok.
  - cbn [chain] in Hch. destruct Hch as (Hsep & Hw & Hfit & Hch). apply list.Forall_cons in Hpr as [Hpw Hpr].
    cbn [snd] in Hpw. set (after := print_items cm cl its ++ c_rbracket :: rest) in *.
    destruct (value_token cm cl w after Hw Hfit) as (Ht & Hc & Hk).
    assert (E : print_items cm cl ((sep, w) :: its) ++ c_rbracket :: rest
              = sep ++ first_text w ++ (rest_text cm cl w ++ after)).
    { unfold after. cbn. rewrite print_split, <- !app_assoc. done. }
    rewrite E in Hp. destruct (next_token _ _ _ _ _ _ _ _ _ Hp Hsep Ht Hc Hk) as (s' & En & Hcur).
    assert (Ef : (enter (first_tok w) (hd Byte.x00 sep) (mkSt arrayBegin f :: stk)).2 = push w (mkSt arrayBegin f :: stk))
      by (by destruct w).
    rewrite Ef in Hcur.
    destruct (Hpw nodes _ _ _ _ _ _ _ Hfit Hcur) as (n1 & s0 & i1 & R1 & Hp0 & Hs0).
    destruct (IH s0 _ _ Hpr Hch Hp0) as (n2 & s1 & i2 & R2 & Hp1 & Hs1).
    exists (S (n1 `max` n2)), s1, (i1 ++ i2).
    replace (print_items cm cl ((sep, w) :: its)) with (sep ++ print cm cl w ++ print_items cm cl its)
      by (cbn; by rewrite <- app_assoc).
    replace (print_items cm cl (scrub_items nodes ((sep, w) :: its)))
      with (sep ++ print cm cl (scrub_value nodes w) ++ print_items cm cl (scrub_items nodes its))
      by (cbn; by rewrite <- app_assoc).
    split; [|split].
    + rewrite <- !(app_assoc sep). change (i1 ++ i2) with ([] ++ (i1 ++ i2)).
      apply renders_app; [apply renders_id, blen_nonneg|]. rewrite <- !app_assoc.
      rewrite blen_app in R1. apply renders_app; [done|]. by rewrite !blen_app in R2.
    + rewrite <- !app_assoc in Hp1. by rewrite <- !app_assoc.
    + intros m Hm. destruct m as [|m]; [lia|]. rewrite En, bind_Ok. cbn [processArray].
      rewrite (c_tok _ _ _ _ _ _ _ _ _ Hcur), <- (Hs1 m), Hs0 by lia. by destruct w.
Qed.

Lemma processes_lit t : string_ok t || bare_ok t = true -> processes (JLit t).
Proof.
  intros Hw nodes input s mk pre rest stk acc Hf Hc.
  destruct (scrubNow nodes) eqn:Hn; [by eapply processes_stop; [apply skips_all| | |left]|].
  destruct nodes as [|nd nds] eqn:En; [by eapply processes_stop; [apply skips_all| | |right]|]. rewrite <- En in *.
  destruct Hc as [Et _ _ Hp]. exists 1%nat, s, []. rewrite app_nil_r. split; [|split; [done|]].
  - replace (scrub_value nodes (JLit t)) with (JLit t) by (cbn; rewrite Hn; by rewrite En). apply renders_id, blen_nonneg.
  - intros [|m] Hm; [lia|]. cbn [processValue]. rewrite Hn, Et, En. done.
Qed.

Definition field_text (f : gostring * json) : list byte := f.1 ++ c_colon :: cl ++ print cm cl f.2.

Definition scrub_field (nodes : list node) (f : gostring * json) : gostring * json :=
  (scrub_key (key_nodes nodes f.1) f.1, scrub_value (value_nodes nodes f.1) f.2).

(** One field: the key, then the value. *)
Lemma field_process nodes sep fld input s pre stk acc after :
  processes fld.2 -> sep_ok sep = true -> hd Byte.x00 sep <> c_colon ->
  string_ok fld.1 = true -> wf_json fld.2 = true -> follows after = true ->
  pend input s pre (sep ++ field_text fld ++ after) (mkSt objectBegin false :: stk) acc ->
  exists n s4 idx,
    renders repl (sep ++ field_text fld) (blen pre) idx (sep ++ field_text (scrub_field nodes fld)) /\
    pend input s4 (pre ++ sep ++ field_text fld) after (mkSt objectBegin false :: stk) (acc ++ idx) /\
    forall m, (n <= m)%nat ->
      next s ≫= processObject EqualFold (S m) nodes = next s4 ≫= processObject EqualFold m nodes.
Proof.
  destruct fld as [k v]. cbn [fst snd]. unfold field_text. cbn [fst snd]. intros Hpv Hsep Hcol Hk Hv Hf Hp.
  (* the key *)
  set (after_k := c_colon :: cl ++ print cm cl v ++ after).
  rewrite <- app_assoc in Hp. cbn [app] in Hp. rewrite <- app_assoc in Hp. fold after_k in Hp.
  assert (Hfk : fits (JLit k) after_k = true) by (unfold fits; cbn; by rewrite Hk).
  destruct (value_token cm cl (JLit k) after_k ltac:(cbn; by rewrite Hk) Hfk) as (Ht & Hc & Hku).
  destruct (next_token _ _ _ _ _ _ _ _ _ Hp Hsep Ht Hc Hku) as (s1 & En & Hcur).
  assert (Eent : enter literal (hd Byte.x00 sep) (mkSt objectBegin false :: stk) = (true, mkSt objectBegin true :: stk)).
  { unfold enter, enter_post, key_state. cbn [st_tok st_isKey]. rewrite decide_True by done.
    by rewrite (decide_False (P := Byte.x00 = c_colon)), (decide_False (P := hd Byte.x00 sep = c_colon)) by done. }
  cbn [first_tok] in Hcur. rewrite Eent in Hcur. cbn [fst snd] in Hcur.
  destruct (processes_lit k ltac:(by rewrite Hk) (key_nodes nodes k) _ _ _ _ after_k _ _ Hfk Hcur)
    as (n1 & s2 & i1 & R1 & Hp2 & Hs2). cbn [print] in R1, Hp2.
  (* the value *)
  assert (Hfv : fits v after = true) by (unfold fits; by rewrite Hf, orb_true_r).
  destruct (value_token cm cl v after Hv Hfv) as (Htv & Hcv & Hvu).
  assert (E2 : after_k = (c_colon :: cl) ++ first_text v ++ (rest_text cm cl v ++ after)).
  { unfold after_k. rewrite print_split, <- !app_assoc. done. }
  rewrite E2 in Hp2.
  destruct (next_token _ _ _ (c_colon :: cl) _ _ _ _ _ Hp2 ltac:(cbn; by rewrite Hcl) Htv Hcv Hvu) as (s3 & En3 & Hcur3).
  assert (Eent3 : enter (first_tok v) c_colon (mkSt objectBegin true :: stk)
                = (false, push v (mkSt objectBegin false :: stk))) by (by destruct v).
  cbn [hd] in Hcur3. rewrite Eent3 in Hcur3. cbn [fst snd] in Hcur3.
  destruct (Hpv (value_nodes nodes k) _ _ _ _ _ _ _ Hfv Hcur3) as (n3 & s4 & i2 & R2 & Hp4 & Hs4).
  exists (n1 `max` n3)%nat, s4, (i1 ++ i2). split; [|split].
  - change (i1 ++ i2) with ([] ++ (i1 ++ i2)). apply renders_app; [apply renders_id, blen_nonneg|].
    unfold scrub_field. cbn [fst snd]. rewrite blen_app in R1. apply renders_app.
    + replace (scrub_key (key_nodes nodes k) k) with (print cm cl (scrub_value (key_nodes nodes k) (JLit k))); [exact R1|].
      unfold scrub_key. cbn. destruct (scrubNow _); [done|]. by destruct (key_nodes nodes k).
    + change (c_colon :: cl ++ print cm cl v) with ((c_colon :: cl) ++ print cm cl v).
      change (c_colon :: cl ++ print cm cl ?x) with ((c_colon :: cl) ++ print cm cl x).
      change i2 with ([] ++ i2). apply renders_app; [apply renders_id; pose proof (blen_nonneg pre);
        pose proof (blen_nonneg sep); pose proof (blen_nonneg k); lia|]. by rewrite !blen_app in R2.
  - rewrite <- !app_assoc in Hp4. rewrite <- ?app_assoc. exact Hp4.
  - intros m Hm. rewrite En, bind_Ok. cbn [processObject].
    rewrite (c_tok _ _ _ _ _ _ _ _ _ Hcur), (c_mapKey _ _ _ _ _ _ _ _ _ Hcur), (c_pos _ _ _ _ _ _ _ _ _ Hcur).
    cbn [From To first_tok]. pose proof (c_pend _ _ _ _ _ _ _ _ _ Hcur) as Hpc.
    rewrite (p_input _ _ _ _ _ _ Hpc), (p_split _ _ _ _ _ _ Hpc). cbn [first_text]. rewrite subslice_text, bind_Ok.
    unfold key_nodes, value_nodes in Hs2, Hs4. destruct (matchingMapNodes EqualFold true k nodes) as [cn vn].
    cbn [fst snd] in Hs2, Hs4. rewrite Hs2, En3, bind_Ok by lia.
    assert (Em : isMapValue s3 = true).
    { unfold isMapValue. rewrite (c_mapKey _ _ _ _ _ _ _ _ _ Hcur3), (c_tok _ _ _ _ _ _ _ _ _ Hcur3). by destruct v. }
    rewrite Em, Hs4 by lia. done.
Qed.

Definition field_ok (f : gostring * json) : Prop := string_ok f.1 = true /\ wf_json f.2 = true /\ processes f.2.

Definition fields_text (fs : list (gostring * json)) : list byte := tail_elems cm (field_text <$> fs).

Lemma fields_follow fs rest : follows (fields_text fs ++ c_rbrace :: rest) = true.
Proof. by destruct fs. Qed.

(** The fields of an object after the first, and its end. *)
Lemma fields_process nodes fs input s pre stk acc rest :
  Forall field_ok fs -> follows rest = true ->
  pend input s pre (fields_text fs ++ c_rbrace :: rest) (mkSt objectBegin false :: stk) acc ->
  exists n s1 idx,
    renders repl (fields_text fs ++ [c_rbrace]) (blen pre) idx (fields_text (scrub_field nodes <$> fs) ++ [c_rbrace]) /\
    pend input s1 (pre ++ fields_text fs ++ [c_rbrace]) rest stk (acc ++ idx) /\
    forall m, (n <= m)%nat -> next s ≫= processObject EqualFold m nodes = next s1.
Proof.
  intros Hok Hr. revert s pre acc. induction Hok as [|fld fs (Hk & Hv & Hpv) Hok IH]; intros s pre acc Hp.
  - destruct (close_token (JObj []) rest Hr) as [Ht Hc].
    destruct (next_token input s pre [] _ [c_rbrace] rest _ _ Hp eq_refl Ht Hc ltac:(done)) as (s' & En & [Etok _ _ Ep]).
    exists 1%nat, s', []. rewrite app_nil_r. split; [apply renders_id, blen_nonneg|]. split.
    + rewrite app_nil_r in Ep. exact Ep.
    + intros [|m] Hm; [lia|]. rewrite En, bind_Ok. cbn [processObject]. by rewrite Etok.
  - change (fields_text (fld :: fs)) with (((c_comma :: cm) ++ field_text fld) ++ fields_text fs) in *.
    rewrite <- !app_assoc in Hp.
    destruct (field_process nodes (c_comma :: cm) fld _ _ _ _ _ (fields_text fs ++ c_rbrace :: rest) Hpv
      ltac:(cbn; by rewrite Hcm) ltac:(done) Hk Hv (fields_follow _ _) Hp) as (n1 & s4 & i1 & R1 & Hp4 & Hs4).
    destruct (IH s4 _ _ Hp4) as (n2 & s1 & i2 & R2 & Hp1 & Hs1).
    exists (S (n1 `max` n2)), s1, (i1 ++ i2). split; [|split].
    + rewrite <- (app_assoc _ (fields_text fs)).
      change (fields_text (scrub_field nodes <$> fld :: fs))
        with (((c_comma :: cm) ++ field_text (scrub_field nodes fld)) ++ fields_text (scrub_field nodes <$> fs)).
      rewrite <- (app_assoc _ (fields_text (scrub_field nodes <$> fs))). apply renders_app; [exact R1|].
      by rewrite blen_app in R2.
    + rewrite <- !app_assoc in Hp1. rewrite <- !app_assoc. exact Hp1.
    + intros [|m] Hm; [lia|]. rewrite Hs4, Hs1 by lia. done.
Qed.

Lemma scrub_items_of nodes v l : items cm cl (JArr (map (scrub_value nodes) (v :: l))) = scrub_items nodes (items cm cl (JArr (v :: l))).
Proof.
  cbn [map items]. unfold scrub_items. rewrite fmap_cons. f_equal.
  induction l as [|w l IH]; [done|]. cbn [map]. rewrite !fmap_cons, IH. done.
Qed.

(** Going into an array or an object. *)
Lemma processes_all v : wf_json v = true -> processes v.
Proof.
  induction v as [t|l IH|fs IH] using json_induction; intros Hv; [by apply processes_lit| |].
  - intros nodes input s mk pre rest stk acc Hf Hc.
    destruct (scrubNow nodes) eqn:Hn; [by eapply processes_stop; [apply skips_all| | |left]|].
    destruct nodes as [|nd nds] eqn:En; [by eapply processes_stop; [apply skips_all| | |right]|]. rewrite <- En in *.
    assert (Hpr : Forall processes (snd <$> items cm cl (JArr l))).
    { replace (snd <$> items cm cl (JArr l)) with l
        by (destruct l as [|w l']; [done|]; cbn; f_equal; clear; induction l' as [|x l' IH]; [done|]; cbn; by rewrite <- IH).
      cbn in Hv. clear -IH Hv.
      induction IH as [|w l Hw IH IHl]; [done|]. cbn in Hv. apply andb_prop in Hv as [? ?]. constructor; auto. }
    assert (Hch : chain cm cl (items cm cl (JArr l)) (c_rbracket :: rest)) by (by apply chain_items).
    destruct Hc as [Et _ _ Hp]. rewrite rest_text_items, <- app_assoc in Hp by done.
    destruct (elems_process nodes _ _ _ _ _ _ _ _ Hpr Hf Hch Hp) as (n & s1 & idx & R & Hp1 & Hs1).
    exists (S n), s1, idx. split; [|split].
    + replace (scrub_value nodes (JArr l)) with (JArr (map (scrub_value nodes) l)) by (cbn; rewrite Hn; by rewrite En).
      rewrite !print_split, !rest_text_items by done. change idx with ([] ++ idx).
      apply renders_app; [apply renders_id, blen_nonneg|]. rewrite blen_app in R.
      destruct l as [|w l']; [exact R|]. rewrite scrub_items_of. exact R.
    + rewrite print_split, rest_text_items by done. rewrite <- app_assoc in Hp1. exact Hp1.
    + intros [|m] Hm; [lia|]. cbn [processValue]. rewrite Hn, Et, En. rewrite <- (Hs1 m) by lia. by rewrite En.
  - intros nodes input s mk pre rest stk acc Hf Hc.
    destruct (scrubNow nodes) eqn:Hn; [by eapply processes_stop; [apply skips_all| | |left]|].
    destruct nodes as [|nd nds] eqn:En; [by eapply processes_stop; [apply skips_all| | |right]|]. rewrite <- En in *.
    assert (Hok : Forall field_ok fs).
    { cbn in Hv. clear -IH Hv. induction IH as [|w l Hw IH IHl]; [done|]. cbn in Hv.
      apply andb_prop in Hv as [[? ?]%andb_prop ?]. constructor; [|by apply IHl]. split; [done|]. split; [done|]. by apply Hw. }
    destruct Hc as [Et _ _ Hp]. cbn [rest_text first_text] in Hp. cbn [push first_tok] in Hp.
    change (map (print_field cm cl) fs) with (field_text <$> fs) in Hp.
    assert (exists n s1 idx,
      renders repl (join cm (field_text <$> fs) ++ [c_rbrace]) (blen (pre ++ [c_lbrace])) idx
        (join cm (field_text <$> (scrub_field nodes <$> fs)) ++ [c_rbrace]) /\
      pend input s1 ((pre ++ [c_lbrace]) ++ join cm (field_text <$> fs) ++ [c_rbrace]) rest stk (acc ++ idx) /\
      forall m, (n <= m)%nat -> next s ≫= processObject EqualFold m nodes = next s1) as (n & s1 & idx & R & Hp1 & Hs1).
    { rewrite <- app_assoc in Hp. cbn [app] in Hp. destruct fs as [|fld fs].
      - exact (fields_process nodes [] _ _ _ _ _ _ Hok Hf Hp).
      - apply list.Forall_cons in Hok as [(Hk & Hvf & Hpv) Hok]. cbn [join fmap list_fmap] in Hp |- *.
        change (tail_elems cm (list_fmap _ _ field_text fs)) with (fields_text fs) in *. rewrite <- app_assoc in Hp.
        destruct (field_process nodes [] fld _ _ _ _ _ (fields_text fs ++ c_rbrace :: rest) Hpv eq_refl
          ltac:(done) Hk Hvf (fields_follow _ _) Hp) as (n1 & s4 & i1 & R1 & Hp4 & Hs4).
        destruct (fields_process nodes fs _ _ _ _ _ _ Hok Hf Hp4) as (n2 & s1 & i2 & R2 & Hp1 & Hs1).
        exists (S (n1 `max` n2)), s1, (i1 ++ i2). split; [|split].
        + rewrite <- !app_assoc. apply renders_app; [exact R1|]. rewrite blen_app in R2. exact R2.
        + rewrite <- !app_assoc in Hp1. rewrite <- !app_assoc. exact Hp1.
        + intros [|m] Hm; [lia|]. rewrite Hs4, Hs1 by lia. done. }
    exists (S n), s1, idx. split; [|split].
    + replace (scrub_value nodes (JObj fs)) with (JObj (scrub_field nodes <$> fs)) by (cbn; rewrite Hn; by rewrite En).
      rewrite !print_split. cbn [rest_text first_text]. change idx with ([] ++ idx).
      apply renders_app; [apply renders_id, blen_nonneg|]. rewrite blen_app in R. exact R.
    + rewrite print_split. rewrite <- app_assoc in Hp1. exact Hp1.
    + intros [|m] Hm; [lia|]. cbn [processValue]. rewrite Hn, Et, En. rewrite <- (Hs1 m) by lia. by rewrite En.
Qed.

(** The whole document. *)
Lemma Process_document v nodes :
  wf_json v = true ->
  exists idx, returns (fun n => Process EqualFold n nodes (newStream (print cm cl v))) idx /\
    ordered 0 idx (blen (print cm cl v)) /\
    splice (print cm cl v) repl 0 idx = print cm cl (scrub_value nodes v).
Proof.
  intros Hv. set (input := print cm cl v).
  assert (Hp : pend input (newStream input) [] ([] ++ first_text v ++ (rest_text cm cl v ++ [])) [] []).
  { split; try done; [cbn; by rewrite app_nil_r, <- print_split|]. cbn. rewrite app_nil_r, <- print_split. apply at_new. }
  assert (Hf : fits v [] = true) by (unfold fits; by rewrite orb_true_r).
  destruct (value_token cm cl v [] Hv Hf) as (Ht & Hc & Hk).
  destruct (next_token _ _ _ [] _ _ _ _ _ Hp eq_refl Ht Hc Hk) as (s1 & En & Hcur).
  assert (Ee : (enter (first_tok v) (hd Byte.x00 []) []).2 = push v []) by (by destruct v). rewrite Ee in Hcur.
  destruct (processes_all v Hv nodes _ _ _ _ _ _ _ Hf Hcur) as (n & s0 & idx & [O R] & Hp0 & Hs0).
  destruct (next_end _ _ _ _ _ Hp0) as (s2 & stk2 & En2 & Et2 & [_ _ _ Ea2 _]). cbn [app] in Ea2.
  exists idx. split; [|split].
  - exists (S (S n)). intros m Hm. destruct m as [|[|m]]; [lia|lia|]. unfold Process. rewrite En, bind_Ok.
    remember (S m) as m' eqn:Em. cbn [Process_loop]. rewrite (c_tok _ _ _ _ _ _ _ _ _ Hcur).
    rewrite Hs0, En2 by lia. subst m'.
    destruct v; cbn [first_tok]; rewrite bind_Ok; cbn [Process_loop]; rewrite Et2, bind_Ok; by rewrite Ea2.
  - exact O.
  - specialize (R [] [] [] eq_refl). cbn [app] in R. rewrite !app_nil_r in R. change (blen []) with 0 in R.
    fold input in R. rewrite R by (cbn; lia). cbn [splice]. rewrite drop_ge by (unfold blen; lia).
    by rewrite app_nil_r.
Qed.

End Scrubbed.
