(* ===== verification/ScrubPaths.v ===== *)
(** The tree of paths: what [groupNodes] builds covers exactly what the paths cover. *)

From S2P Require Import Prelude Run Scrub ScrubDoc ScrubCorrect.

Section Paths.
Context (EqualFold : gostring -> gostring -> bool) (repl : list byte).

(** ** Scrubbing by paths

    Arrays are transparent; a field goes on with the paths whose first entry names it, and its key
    with those that begin with a map key. *)

Definition is_scrub (paths : list Path) : bool := existsb (fun p => match p with [] => true | _ => false end) paths.

Definition key_entry (e : PathEntry) : bool := bool_decide (e_Kind e = MapKey).

Definition value_entry (k : gostring) (e : PathEntry) : bool :=
  match e_Kind e with ObjectField => fieldMatch EqualFold e k | MapValue => true | MapKey => false end.

Definition below (hit : PathEntry -> bool) (paths : list Path) : list Path :=
  omap (fun p => match p with e :: p => if hit e then Some p else None | [] => None end) paths.

Fixpoint scrub_paths (paths : list Path) (v : json) : json :=
  if is_scrub paths then JLit repl
  else match v with
       | JLit t => JLit t
       | JArr l => JArr (map (scrub_paths paths) l)
       | JObj fs => JObj (map (fun f => (if is_scrub (below key_entry paths) then repl else f.1,
                                        scrub_paths (below (value_entry f.1) paths) f.2)) fs)
       end.

(** The paths of a tree. *)
Fixpoint node_paths (n : node) : list Path :=
  match n with
  | ScrubNode => [[]]
  | Node e children => cons e <$> mjoin (map node_paths children)
  end.

Definition tree_paths (nodes : list node) : list Path := mjoin (node_paths <$> nodes).

(** ** Scrubbing by nodes is scrubbing by their paths *)

(** No entry of the tree is a map value. *)
Definition plain_paths (paths : list Path) : Prop := Forall (Forall (fun e => e_Kind e <> MapValue)) paths.

Lemma is_scrub_app a b : is_scrub (a ++ b) = is_scrub a || is_scrub b.
Proof. apply existsb_app. Qed.

Lemma is_scrub_cons e P : is_scrub (cons e <$> P) = false.
Proof. induction P as [|p P IH]; [done|]. exact IH. Qed.

Lemma scrubNow_paths nodes : scrubNow nodes = is_scrub (tree_paths nodes).
Proof.
  induction nodes as [|n nodes IH]; [done|].
  change (tree_paths (n :: nodes)) with (node_paths n ++ tree_paths nodes). rewrite is_scrub_app, <- IH.
  destruct n as [|e ch]; [done|]. cbn [node_paths]. by rewrite is_scrub_cons.
Qed.

Lemma below_app hit a b : below hit (a ++ b) = below hit a ++ below hit b.
Proof. apply omap_app. Qed.

Lemma below_cons hit e P : below hit (cons e <$> P) = if hit e then P else [].
Proof.
  induction P as [|p P IH]; [by destruct (hit e)|]. cbn. unfold below in IH. rewrite IH. by destruct (hit e).
Qed.

Lemma tree_paths_app a b : tree_paths (a ++ b) = tree_paths a ++ tree_paths b.
Proof. unfold tree_paths. by rewrite fmap_app, join_app. Qed.

Lemma matching_paths nodes k :
  plain_paths (tree_paths nodes) ->
  tree_paths (key_nodes EqualFold nodes k) = below key_entry (tree_paths nodes) /\
  tree_paths (value_nodes EqualFold nodes k) = below (value_entry k) (tree_paths nodes).
Proof.
  unfold key_nodes, value_nodes. induction nodes as [|n nodes IH]; [done|].
  change (tree_paths (n :: nodes)) with (node_paths n ++ tree_paths nodes). rewrite !below_app.
  intros [Hn Hns]%Forall_app. destruct (IH Hns) as [IHk IHv]. destruct n as [|e ch]; [done|].
  cbn [matchingMapNodes node_paths]. rewrite !below_cons. fold (tree_paths ch).
  destruct (matchingMapNodes EqualFold true k nodes) as [cn vn]. cbn [fst snd] in *.
  change (mjoin (map node_paths ch)) with (tree_paths ch).
  change (node_paths (Node e ch)) with (cons e <$> tree_paths ch) in Hn. unfold key_entry, value_entry.
  destruct (e_Kind e) eqn:Ek; cbn [andb].
  - rewrite bool_decide_eq_false_2 by done. destruct (fieldMatch EqualFold e k); cbn [fst snd];
      rewrite ?tree_paths_app, IHk, IHv; done.
  - rewrite bool_decide_eq_true_2 by done. cbn [fst snd]. rewrite tree_paths_app, IHk, IHv. done.
  - cbn [fst snd]. rewrite bool_decide_eq_false_2, IHk, IHv by done. split; [done|].
    assert (tree_paths ch = []) as ->; [|done]. destruct (tree_paths ch) as [|p P]; [done|].
    rewrite fmap_cons in Hn. apply list.Forall_cons in Hn as [Hp _]. apply list.Forall_cons in Hp as [Hp _]. done.
Qed.

Lemma plain_below hit P : plain_paths P -> plain_paths (below hit P).
Proof.
  unfold plain_paths. induction 1 as [|p P Hp HP IH]; [constructor|]. cbn. destruct p as [|e p]; [done|].
  apply list.Forall_cons in Hp as [_ Hp]. destruct (hit e); [by constructor|done].
Qed.

Lemma scrub_paths_nil v : scrub_paths [] v = v.
Proof.
  induction v as [t|l IH|fs IH] using json_induction; cbn; [done| |]; f_equal.
  - induction IH as [|w l Hw _ IHl]; cbn; [done|]. by rewrite Hw, IHl.
  - induction IH as [|[k w] l Hw _ IHl]; cbn; [done|]. cbn in Hw. by rewrite Hw, IHl.
Qed.

Lemma scrub_value_paths v : forall nodes,
  plain_paths (tree_paths nodes) -> scrub_value EqualFold repl nodes v = scrub_paths (tree_paths nodes) v.
Proof.
  induction v as [t|l IH|fs IH] using json_induction; intros nodes Hp; cbn [scrub_value scrub_paths];
    rewrite <- scrubNow_paths; (destruct (scrubNow nodes); [done|]).
  - by destruct nodes.
  - destruct nodes as [|n nodes].
    { exact (eq_sym (scrub_paths_nil (JArr l))). }
    f_equal. induction IH as [|w l Hw _ IHl]; cbn [map]; [done|]. by rewrite Hw, IHl.
  - destruct nodes as [|n nodes].
    { exact (eq_sym (scrub_paths_nil (JObj fs))). }
    f_equal. induction IH as [|[k w] fs Hw _ IHl]; [done|]. cbn [map fst snd]. rewrite IHl. f_equal. f_equal.
    + unfold scrub_key. rewrite scrubNow_paths. by rewrite (proj1 (matching_paths _ k Hp)).
    + cbn [snd] in Hw. rewrite Hw; rewrite (proj2 (matching_paths _ k Hp)); [done|]. by apply plain_below.
Qed.

(** ** Covered places

    A place in a document is the way down to it; a path covers the places below those it leads to. *)

Inductive step := SKey | SValue (k : gostring).

Definition hits (e : PathEntry) (st : step) : bool :=
  match st with SKey => key_entry e | SValue k => value_entry k e end.

Fixpoint leads (p : Path) (place : list step) : bool :=
  match p, place with
  | [], _ => true
  | e :: p, st :: place => hits e st && leads p place
  | _ :: _, [] => false
  end.

Definition covers (paths : list Path) (place : list step) : bool := existsb (fun p => leads p place) paths.

Lemma covers_app a b place : covers (a ++ b) place = covers a place || covers b place.
Proof. apply existsb_app. Qed.

Lemma covers_cons e P place :
  covers (cons e <$> P) place = match place with st :: place => hits e st && covers P place | [] => false end.
Proof.
  induction P as [|p P IH]; [destruct place; cbn; by rewrite ?andb_false_r|]. cbn. unfold covers in IH. rewrite IH.
  destruct place; [done|]. by rewrite andb_orb_distrib_r.
Qed.

Lemma is_scrub_covers P : is_scrub P = covers P [].
Proof. induction P as [|p P IH]; [done|]. cbn. unfold is_scrub, covers in IH. rewrite IH. by destruct p. Qed.

Lemma below_covers P st place :
  is_scrub P = false -> covers (below (fun e => hits e st) P) place = covers P (st :: place).
Proof.
  induction P as [|p P IH]; [done|]. destruct p as [|e p]; [done|]. intros Hs.
  change (covers ((e :: p) :: P) (st :: place)) with (hits e st && leads p place || covers P (st :: place)).
  rewrite <- (IH Hs). unfold below. cbn [omap list_omap]. by destruct (hits e st).
Qed.

(** Scrubbing depends on the covered places only. *)
Lemma scrub_paths_covers v : forall P Q,
  (forall place, covers P place = covers Q place) -> scrub_paths P v = scrub_paths Q v.
Proof.
  induction v as [t|l IH|fs IH] using json_induction; intros P Q H; cbn [scrub_paths];
    (assert (is_scrub P = is_scrub Q) as Hs by (rewrite !is_scrub_covers; apply H)); rewrite <- Hs;
    (destruct (is_scrub P) eqn:HP; [done|]); [done| |]; f_equal.
  - induction IH as [|w l Hw _ IHl]; cbn; [done|]. by rewrite (Hw P Q), IHl.
  - induction IH as [|[k w] l Hw _ IHl]; cbn; [done|]. cbn in Hw. rewrite IHl. f_equal. f_equal.
    + rewrite !is_scrub_covers, (below_covers P SKey), (below_covers Q SKey) by done. by rewrite H.
    + apply Hw. intros place. rewrite (below_covers P (SValue k)), (below_covers Q (SValue k)) by done. apply H.
Qed.

(** ** The tree built from paths *)

(** Entries that [findMatch] takes for the same really mean the same: names that differ only in case
    are not both case-sensitive. *)
Definition fold_safe (entries : list PathEntry) : Prop :=
  forall e c, e ∈ entries -> c ∈ entries -> e_Kind e = ObjectField -> e_Kind c = ObjectField ->
    e_CaseSensitive e = true -> e_CaseSensitive c = true ->
    EqualFold (e_FieldName e) (e_FieldName c) = true -> e_FieldName e = e_FieldName c.

Lemma matches_hits entries e c st :
  fold_safe entries -> e ∈ entries -> c ∈ entries -> entry_matches EqualFold e c = true -> hits e st = hits c st.
Proof.
  intros Hf He Hc. unfold entry_matches. case_decide as Hk; [|done]. case_decide as Ho.
  - case_decide as Hcs; [|done]. intros Hm. assert (e_FieldName e = e_FieldName c) as En.
    { destruct (e_CaseSensitive e) eqn:Ecs; [|by apply bool_decide_eq_true in Hm].
      apply Hf; try done; congruence. }
    destruct st; cbn; unfold key_entry, value_entry, fieldMatch; by rewrite Hk, ?En, ?Hcs.
  - intros _. destruct st; cbn; unfold key_entry, value_entry; rewrite Hk; [done|]. by destruct (e_Kind e).
Qed.

Fixpoint node_entries (n : node) : list PathEntry :=
  match n with ScrubNode => [] | Node e ch => e :: mjoin (map node_entries ch) end.

Definition tree_entries (nodes : list node) : list PathEntry := mjoin (node_entries <$> nodes).

Lemma findMatch_Some children e i :
  findMatch EqualFold children e = Some i ->
  exists l1 c ch l2, children = l1 ++ Node c ch :: l2 /\ i = length l1 /\ entry_matches EqualFold e c = true.
Proof.
  revert i. induction children as [|n children IH]; intros i; [done|]. cbn. destruct (node_matches EqualFold e n) eqn:Hn.
  - intros [= <-]. destruct n as [|c ch]; [done|]. by exists [], c, ch, children.
  - destruct (findMatch EqualFold children e) as [j|]; [|done]. intros [= <-].
    destruct (IH j eq_refl) as (l1 & c & ch & l2 & -> & -> & ?). by exists (n :: l1), c, ch, l2.
Qed.

Lemma tree_paths_mid l1 n l2 place :
  covers (tree_paths (l1 ++ n :: l2)) place =
  covers (tree_paths l1) place || (covers (node_paths n) place || covers (tree_paths l2) place).
Proof.
  rewrite tree_paths_app, covers_app. change (tree_paths (n :: l2)) with (node_paths n ++ tree_paths l2).
  by rewrite covers_app.
Qed.

Lemma tree_entries_mid l1 n l2 : tree_entries (l1 ++ n :: l2) = tree_entries l1 ++ node_entries n ++ tree_entries l2.
Proof. unfold tree_entries. by rewrite fmap_app, join_app. Qed.

(** Adding a path covers what was covered and what the path covers, and adds only its entries. *)
Lemma add_path_spec entries path : forall children,
  fold_safe entries -> path ⊆ entries -> tree_entries children ⊆ entries ->
  (forall place, covers (tree_paths (add_path EqualFold path children)) place
                 = covers (tree_paths children) place || leads path place) /\
  tree_entries (add_path EqualFold path children) ⊆ entries.
Proof.
  intros children Hf. revert children. induction path as [|e path IH]; intros children Hp Ht.
  { split; [intros place; by rewrite orb_true_r|]. apply list_subseteq_nil. }
  assert (He : e ∈ entries) by (apply Hp; constructor).
  assert (Hp' : path ⊆ entries) by (intros x Hx; apply Hp; by constructor).
  cbn [add_path]. destruct (hasScrub children) eqn:Hh.
  { by destruct children as [|[|] [|]]. }
  destruct (findMatch EqualFold children e) as [i|] eqn:Hm.
  - destruct (findMatch_Some _ _ _ Hm) as (l1 & c & ch & l2 & -> & -> & Hec).
    rewrite (list_lookup_middle l1 l2 _ _ eq_refl), insert_app_r_alt, Nat.sub_diag by lia. cbn [list_insert insert].
    rewrite tree_entries_mid in Ht. cbn [node_entries] in Ht.
    assert (Hc : c ∈ entries) by (apply Ht, elem_of_app; right; constructor).
    assert (Hch : tree_entries ch ⊆ entries).
    { intros x Hx. apply Ht, elem_of_app. right. apply elem_of_app. left. by constructor. }
    destruct (IH ch Hp' Hch) as [IHc IHe]. split.
    + intros place. rewrite !tree_paths_mid. cbn [node_paths]. rewrite !covers_cons.
      change (mjoin (map node_paths ?x)) with (tree_paths x).
      destruct place as [|st place]; cbn [leads]; [by rewrite orb_false_r|].
      rewrite IHc, (matches_hits entries e c st Hf He Hc Hec). destruct (covers (tree_paths l1) _), (hits c st),
        (covers (tree_paths ch) place), (covers (tree_paths l2) (st :: place)), (leads path place); done.
    + rewrite tree_entries_mid. cbn [node_entries]. intros x Hx. apply elem_of_app in Hx as [Hx|Hx].
      { apply Ht, elem_of_app. by left. }
      apply elem_of_app in Hx as [Hx|Hx]; [|apply Ht, elem_of_app; right; apply elem_of_app; by right].
      apply elem_of_cons in Hx as [->|Hx]; [done|]. by apply IHe.
  - destruct (IH [] Hp' (list_subseteq_nil _)) as [IHc IHe]. split.
    + intros place. rewrite tree_paths_app, covers_app. unfold tree_paths at 2. cbn [fmap list_fmap mjoin list_join node_paths].
      rewrite app_nil_r, covers_cons. change (mjoin (map node_paths ?x)) with (tree_paths x).
      destruct place as [|st place]; cbn [leads]; [done|]. by rewrite IHc.
    + unfold tree_entries. rewrite fmap_app, join_app. cbn. rewrite app_nil_r. intros x Hx.
      apply elem_of_app in Hx as [Hx|Hx]; [by apply Ht|]. apply elem_of_cons in Hx as [->|Hx]; [done|]. by apply IHe.
Qed.

(** The tree of a list of paths. *)
Lemma groupNodes_covers paths :
  fold_safe (mjoin paths) ->
  (forall place, covers (tree_paths (groupNodes EqualFold paths)) place = covers paths place) /\
  tree_entries (groupNodes EqualFold paths) ⊆ mjoin paths.
Proof.
  intros Hf. unfold groupNodes.
  assert (H : forall done todo, done ++ todo = paths -> forall root,
    (forall place, covers (tree_paths root) place = covers done place) -> tree_entries root ⊆ mjoin paths ->
    (forall place, covers (tree_paths (foldl (fun r p => add_path EqualFold p r) root todo)) place = covers paths place) /\
    tree_entries (foldl (fun r p => add_path EqualFold p r) root todo) ⊆ mjoin paths).
  { intros done todo. revert done. induction todo as [|p todo IH]; intros done' E root Hc He; cbn [foldl].
    - rewrite app_nil_r in E. by subst.
    - assert (Hp : p ⊆ mjoin paths).
      { intros x Hx. rewrite <- E, join_app. apply elem_of_app. right. cbn. apply elem_of_app. by left. }
      destruct (add_path_spec (mjoin paths) p root Hf Hp He) as [H1 H2].
      apply (IH (done' ++ [p])); [by rewrite <- app_assoc| |done]. intros place. rewrite H1, Hc, covers_app. cbn.
      by rewrite orb_false_r. }
  apply (H [] paths); [done|done|]. apply list_subseteq_nil.
Qed.

(** The entries of the paths of a tree are entries of the tree. *)
Lemma tree_paths_entries nodes : Forall (fun p => p ⊆ tree_entries nodes) (tree_paths nodes).
Proof.
  assert (H : forall n, Forall (fun p => p ⊆ node_entries n) (node_paths n)).
  { fix IH 1. intros [|e ch]; cbn [node_paths node_entries].
    - constructor; [apply list_subseteq_nil|constructor].
    - assert (Hch : Forall (fun p => p ⊆ mjoin (map node_entries ch)) (mjoin (map node_paths ch))).
      { induction ch as [|n ch IHc]; [constructor|]. cbn. apply Forall_app. split.
        - eapply list.Forall_impl; [apply IH|]. cbn. intros p Hp x Hx. apply elem_of_app. left. by apply Hp.
        - eapply list.Forall_impl; [exact IHc|]. cbn. intros p Hp x Hx. apply elem_of_app. right. by apply Hp. }
      clear IH. induction Hch as [|p P Hp HP IHP]; [constructor|]. cbn. constructor; [|exact IHP].
      intros x [->|Hx]%elem_of_cons; [constructor|]. constructor. by apply Hp. }
  induction nodes as [|n nodes IH]; [constructor|].
  change (tree_paths (n :: nodes)) with (node_paths n ++ tree_paths nodes).
  change (tree_entries (n :: nodes)) with (node_entries n ++ tree_entries nodes). apply Forall_app. split.
  - eapply list.Forall_impl; [apply H|]. cbn. intros p Hp x Hx. apply elem_of_app. left. by apply Hp.
  - eapply list.Forall_impl; [exact IH|]. cbn. intros p Hp x Hx. apply elem_of_app. right. by apply Hp.
Qed.

End Paths.
