(* ===== verification/ScrubTheorems.v ===== *)
(** Theorems about scrubbing of payloads ([pkg/scrub]).

    On documents laid out without stray white space, whose strings do not begin with a colon, the
    values at the paths are replaced and nothing else changes; on arbitrary input scrubbing never
    panics.  The other results describe where it falls short: it does not end on truncated input,
    map values are never scrubbed, and a string that begins with a colon is taken for a key. *)

From S2P Require Import Prelude Run Scrub ScrubScan ScrubSafe ScrubDoc ScrubWalk ScrubCorrect.
From S2P Require Import ScrubPaths.

(** ** Documents *)

Section Documents.
Context (EqualFold : gostring -> gostring -> bool) (repl : list byte).

Lemma JSON_nodes cm cl paths v :
  forallb is_space cm = true -> forallb is_space cl = true -> wf_json v = true ->
  returns (fun n => JSON EqualFold n (print cm cl v) paths repl)
    (print cm cl (scrub_value EqualFold repl (groupNodes EqualFold paths) v)).
Proof.
  intros Hcm Hcl Hv.
  destruct (Process_document EqualFold repl cm cl Hcm Hcl v (groupNodes EqualFold paths) Hv) as (idx & Hr & Ho & Hs).
  unfold JSON, JSONIndices. eapply returns_bind; [exact Hr|]. rewrite scrub_splice by done. by rewrite Hs.
Qed.

Lemma groupNodes_plain paths :
  fold_safe EqualFold (mjoin paths) -> Forall (fun e => e_Kind e <> MapValue) (mjoin paths) ->
  plain_paths (tree_paths (groupNodes EqualFold paths)).
Proof.
  intros Hf Hk. destruct (groupNodes_covers EqualFold paths Hf) as [_ He].
  eapply list.Forall_impl; [apply tree_paths_entries|]. cbn. intros p Hp. apply list.Forall_forall. intros e Hin.
  rewrite list.Forall_forall in Hk. apply Hk. by apply He, Hp.
Qed.

Lemma JSON_paths cm cl paths v :
  forallb is_space cm = true -> forallb is_space cl = true -> wf_json v = true ->
  Forall (fun e => e_Kind e <> MapValue) (mjoin paths) -> fold_safe EqualFold (mjoin paths) ->
  returns (fun n => JSON EqualFold n (print cm cl v) paths repl) (print cm cl (scrub_paths EqualFold repl paths v)).
Proof.
  intros Hcm Hcl Hv Hk Hf. replace (scrub_paths EqualFold repl paths v)
    with (scrub_value EqualFold repl (groupNodes EqualFold paths) v); [by apply JSON_nodes|].
  rewrite scrub_value_paths by (by apply groupNodes_plain). apply scrub_paths_covers.
  by destruct (groupNodes_covers EqualFold paths Hf).
Qed.

End Documents.

(** C15. Scrubbing a document replaces exactly the values at the given paths: the result is the text of
    the document in which every value a path leads to (through fields, map keys and arrays) is
    replaced, laid out as before; whatever follows a scrubbed value is unaffected.  Scrubbing
    ends.  The document may have any white space after commas and colons; its strings do not begin
    with white space or a colon (and hold no raw NUL or newline), no path goes through a map value, and case-sensitive names in the
    paths do not differ in case only. *)
Theorem scrub_document (EqualFold : gostring -> gostring -> bool) (repl cm cl : list byte)
    (paths : list Path) (v : json) :
  forallb is_space cm = true -> forallb is_space cl = true -> wf_json v = true ->
  Forall (fun e => e_Kind e <> MapValue) (mjoin paths) -> fold_safe EqualFold (mjoin paths) ->
  returns (fun n => JSON EqualFold n (print cm cl v) paths repl)
    (print cm cl (scrub_paths EqualFold repl paths v)).
Proof. apply JSON_paths. Qed.

(** ASCII letters folded, for the instances. *)
Definition fold_byte (b : byte) : byte :=
  if decide (65 <= Z_of_byte b <= 90) then byte_of_Z (Z_of_byte b + 32) else b.
Definition ascii_EqualFold (s t : gostring) : bool := bool_decide (fold_byte <$> s = fold_byte <$> t).

Definition quoted (s : string) : gostring := [c_quote] ++ lit s ++ [c_quote].
Definition demo_field (s : string) : PathEntry := mkEntry ObjectField (quoted s) true.

(** A document with two users; the paths name the password of each and the whole token. *)
Definition demo_doc : json :=
  JObj [(quoted "users", JArr [JObj [(quoted "name", JLit (quoted "ann")); (quoted "password", JLit (quoted "x1"))];
                               JObj [(quoted "password", JArr [JLit (lit "7"); JLit (lit "null")])]]);
        (quoted "token", JObj [(quoted "id", JLit (lit "12"))]); (quoted "n", JLit (lit "3"))].
Definition demo_scrub_paths : list Path := [[demo_field "users"; demo_field "password"]; [demo_field "token"]].
Definition demo_scrubbed : json :=
  JObj [(quoted "users", JArr [JObj [(quoted "name", JLit (quoted "ann")); (quoted "password", JLit (lit "###"))];
                               JObj [(quoted "password", JLit (lit "###"))]]);
        (quoted "token", JLit (lit "###")); (quoted "n", JLit (lit "3"))].

Lemma demo_fold_safe : fold_safe ascii_EqualFold (mjoin demo_scrub_paths).
Proof.
  intros e c He Hc _ _ _ _. cbn in He, Hc. unfold demo_scrub_paths in *.
  repeat (apply elem_of_cons in He as [->|He]; [repeat (apply elem_of_cons in Hc as [->|Hc]; [vm_compute; done|])|]);
    try (by apply elem_of_nil in He); try (by apply elem_of_nil in Hc).
Qed.

Lemma scrub_document_witness :
  returns (fun n => JSON ascii_EqualFold n (print [] (lit " ") demo_doc) demo_scrub_paths (lit "###"))
    (print [] (lit " ") demo_scrubbed).
Proof.
  apply (scrub_document ascii_EqualFold (lit "###") [] (lit " ") demo_scrub_paths demo_doc); [done|done|done| |].
  - repeat constructor; done.
  - exact demo_fold_safe.
Defined.

(** C16. Scrubbing never panics, whatever the payload and the paths: neither when it gives a byte back
    nor when it slices the input; and what it returns is the input with some ranges, which lie in
    it in order and without overlap, replaced. *)
Theorem scrub_never_panics (EqualFold : gostring -> gostring -> bool) (fuel : nat) (input : list byte)
    (paths : list Path) (repl : list byte) :
  JSON EqualFold fuel input paths repl <> Crash /\
  (forall out, JSON EqualFold fuel input paths repl = Ok out ->
     exists idx, ordered 0 idx (blen input) /\ out = splice input repl 0 idx).
Proof.
  pose proof (JSONIndices_safe EqualFold fuel input paths) as H. unfold JSON.
  destruct (JSONIndices EqualFold fuel input paths) as [idx| |]; cbn in H; [|done|done].
  rewrite bind_Ok, scrub_splice by done. split; [done|]. intros out [= <-]. by exists idx.
Qed.

(** ** The tree of paths *)

(** C17. The tree [groupNodes] builds covers exactly the places of a document that the paths cover: a
    place is at or below one a path leads to if and only if it is at or below one a branch of the
    tree leads to. *)
Theorem groupNodes_equiv (EqualFold : gostring -> gostring -> bool) (paths : list Path) (place : list step) :
  fold_safe EqualFold (mjoin paths) ->
  covers EqualFold (tree_paths (groupNodes EqualFold paths)) place = covers EqualFold paths place.
Proof. intros Hf. by apply groupNodes_covers. Qed.

Lemma groupNodes_equiv_witness :
  covers ascii_EqualFold (tree_paths (groupNodes ascii_EqualFold demo_scrub_paths))
    [SValue (quoted "users"); SValue (quoted "password")] = true.
Proof.
  rewrite (groupNodes_equiv ascii_EqualFold demo_scrub_paths); [vm_compute; reflexivity|]. exact demo_fold_safe.
Defined.

(** ** Map values *)

Definition map_value_node (n : node) : Prop := exists e ch, n = Node e ch /\ e_Kind e = MapValue.

Definition through_map_value (p : Path) : Prop := exists e q, p = e :: q /\ e_Kind e = MapValue.

Section MapValues.
Context (EqualFold : gostring -> gostring -> bool) (repl : list byte).

Lemma add_path_map_values p nodes :
  through_map_value p -> Forall map_value_node nodes -> Forall map_value_node (add_path EqualFold p nodes).
Proof.
  intros (e & q & -> & Ek) Hn. cbn [add_path].
  assert (hasScrub nodes = false) as ->.
  { destruct Hn as [|n nodes (e' & ch & -> & _) _]; done. }
  destruct (findMatch EqualFold nodes e) as [i|] eqn:Hm.
  - destruct (findMatch_Some _ _ _ _ Hm) as (l1 & c & ch & l2 & -> & -> & Hec).
    rewrite (list_lookup_middle l1 l2 _ _ eq_refl), insert_app_r_alt, Nat.sub_diag by lia. cbn [list_insert insert].
    apply Forall_app in Hn as [H1 H2]. apply list.Forall_cons in H2 as [(e' & ch' & [= -> ->] & Ek') H2].
    apply Forall_app. split; [done|]. constructor; [|done]. by eexists _, _.
  - apply Forall_app. split; [done|]. constructor; [|done]. by eexists _, _.
Qed.

Lemma groupNodes_map_values paths :
  Forall through_map_value paths -> Forall map_value_node (groupNodes EqualFold paths).
Proof.
  intros H. unfold groupNodes. assert (Forall map_value_node []) as Hr by done. revert Hr.
  generalize (@nil node). induction H as [|p paths Hp _ IH]; intros root Hr; cbn [foldl]; [done|].
  apply IH. by apply add_path_map_values.
Qed.

Lemma map_values_no_nodes nodes k :
  Forall map_value_node nodes -> matchingMapNodes EqualFold true k nodes = ([], []) /\ scrubNow nodes = false.
Proof.
  induction 1 as [|n nodes (e & ch & -> & Ek) _ [IH1 IH2]]; [done|]. cbn [matchingMapNodes]. rewrite IH1, Ek. by split.
Qed.

Lemma scrub_value_nil v : scrub_value EqualFold repl [] v = v.
Proof. by destruct v. Qed.

Lemma scrub_map_values nodes v : Forall map_value_node nodes -> scrub_value EqualFold repl nodes v = v.
Proof.
  intros Hn. induction v as [t|l IH|fs IH] using json_induction; cbn [scrub_value];
    rewrite (proj2 (map_values_no_nodes nodes [] Hn)); (destruct nodes as [|n nds] eqn:En; [done|]); rewrite <- En in *.
  - done.
  - f_equal. induction IH as [|w l Hw _ IHl]; cbn [map]; [done|]. by rewrite Hw, IHl.
  - f_equal. clear IH. induction fs as [|[k w] fs IHl]; cbn [map fst snd]; [done|]. rewrite IHl. f_equal. unfold key_nodes, value_nodes.
    rewrite (proj1 (map_values_no_nodes nodes k Hn)). cbn [fst snd]. by rewrite scrub_value_nil.
Qed.

End MapValues.

(** Paths through map values scrub nothing: whatever the document, if every path begins with a map
    value, the document is returned as it is.  The values of an object are reached through its
    keys, with the nodes of the matching fields only. *)
Theorem map_values_not_scrubbed (EqualFold : gostring -> gostring -> bool) (repl cm cl : list byte)
    (paths : list Path) (v : json) :
  forallb is_space cm = true -> forallb is_space cl = true -> wf_json v = true ->
  Forall through_map_value paths ->
  returns (fun n => JSON EqualFold n (print cm cl v) paths repl) (print cm cl v).
Proof.
  intros Hcm Hcl Hv Hp. pose proof (JSON_nodes EqualFold repl cm cl paths v Hcm Hcl Hv) as H.
  by rewrite scrub_map_values in H by (by apply groupNodes_map_values).
Qed.

Lemma map_values_not_scrubbed_witness :
  returns (fun n => JSON ascii_EqualFold n (print [] [] (JObj [(quoted "k", JLit (quoted "secret"))]))
             [[mkEntry MapValue [] false]] (lit "###"))
    (print [] [] (JObj [(quoted "k", JLit (quoted "secret"))])).
Proof.
  apply (map_values_not_scrubbed ascii_EqualFold (lit "###") [] []); [done|done|done|].
  constructor; [|constructor]. by eexists _, _.
Defined.

(** ** Strings that begin with a colon *)

(** The single path [e] as a tree. *)
Lemma groupNodes_single EqualFold e : groupNodes EqualFold [[e]] = [Node e [ScrubNode]].
Proof. done. Qed.

(** The start of an object whose first key is [k]. *)
Lemma object_start k l :
  string_ok k = true ->
  exists s1 s2, next (newStream ([c_lbrace] ++ k ++ l)) = Ok s1 /\ s_tok s1 = objectBegin /\ next s1 = Ok s2 /\
    cur ([c_lbrace] ++ k ++ l) s2 literal true [c_lbrace] k l [mkSt objectBegin true] [].
Proof.
  intros Hk. set (input := [c_lbrace] ++ k ++ l).
  assert (Hp : pend input (newStream input) [] ([] ++ [c_lbrace] ++ (k ++ l)) [] []) by (split; done || apply at_new).
  assert (Hvis : visible (k ++ l) = true /\ hd Byte.x00 (k ++ l) <> c_colon).
  { unfold string_ok in Hk. apply andb_prop in Hk as [Hk _]. destruct k as [|q [|c r]]; [done|done|].
    cbn [string_text] in Hk. apply andb_prop in Hk as [[Hq _]%andb_prop _]. by apply bool_decide_eq_true in Hq as ->. }
  destruct (next_token _ _ _ [] objectBegin [c_lbrace] _ _ _ Hp eq_refl (TT_objectBegin _ (proj1 Hvis)) (proj2 Hvis) ltac:(done))
    as (s1 & En1 & [Et1 _ _ Hp1]). cbn in Hp1.
  assert (Hst : string_text k = true /\ second k l <> c_colon).
  { unfold string_ok in Hk. apply andb_prop in Hk as [Hk Hc]. split; [done|].
    destruct k as [|q [|c r]]; [done|done|]. by apply negb_true_iff, bool_decide_eq_false in Hc. }
  destruct (next_token input s1 [c_lbrace] [] literal k l _ _ Hp1 eq_refl (TT_string _ _ (proj1 Hst)) (proj2 Hst) ltac:(done))
    as (s2 & En2 & Hc2). exists s1, s2. split; [done|]. split; [done|]. by split.
Qed.

(** The field name [processObject] compares. *)
Lemma cur_field input s k mk pre t l stk acc :
  cur input s k mk pre t l stk acc -> subslice (s_input s) (From (s_pos s)) (To (s_pos s)) = Ok t.
Proof.
  intros [_ _ Hpos [Hin Hsp _ _ _]]. rewrite Hpos, Hin, Hsp. cbn [From To]. apply subslice_text.
Qed.

(** Skipping a literal moves to the next token. *)
Lemma skip_literal fuel s s' : s_tok s = literal -> next s = Ok s' -> skipValue (S fuel) s = Ok (s_pos s, s').
Proof. intros Ht Hn. unfold skipValue. cbn [skip_loop]. rewrite Ht, Hn. cbn. by destruct (s_pos s). Qed.

(** The loop over the documents of the input stops where the tokens end. *)
Lemma Process_loop_end EqualFold fuel nds s : s_tok s = unknown -> Process_loop EqualFold (S fuel) nds s = Ok s.
Proof. intros Ht. cbn [Process_loop]. by rewrite Ht. Qed.

(** A secret that begins with a colon is not scrubbed: the scanner looks at the byte after the
    opening quote, takes the string for a key, and the object is returned as it is although the
    path names its only field. *)
Theorem colon_value_leaks (EqualFold : gostring -> gostring -> bool) (k secret repl : list byte) :
  string_ok k = true -> string_text secret = true -> hd Byte.x00 (tail secret) = c_colon ->
  let input := [c_lbrace] ++ k ++ [c_colon] ++ secret ++ [c_rbrace] in
  returns (fun n => JSON EqualFold n input [[mkEntry ObjectField k true]] repl) input.
Proof.
  intros Hk Hs Hcol input. destruct (object_start k ([c_colon] ++ secret ++ [c_rbrace]) Hk) as (s1 & s2 & En1 & Et1 & En2 & Hc2).
  fold input in En1, Hc2.
  assert (Hsec : second secret [c_rbrace] = c_colon) by (destruct secret as [|q [|c r]]; done).
  destruct (next_token_post _ _ _ [c_colon] literal secret [c_rbrace] _ _ (c_pend _ _ _ _ _ _ _ _ _ Hc2) eq_refl
    (TT_string _ _ Hs) ltac:(done)) as (s3 & En3 & Hc3). rewrite Hsec in Hc3. cbn [hd] in Hc3.
  assert (Ee : enter_post literal c_colon c_colon [mkSt objectBegin true] = (true, [mkSt objectBegin true])) by done.
  rewrite Ee in Hc3. cbn [fst snd] in Hc3.
  destruct (close_token (JObj []) [] eq_refl) as [Htc Hcc].
  destruct (next_token _ _ _ [] objectEnd [c_rbrace] [] _ _ (c_pend _ _ _ _ _ _ _ _ _ Hc3) eq_refl Htc Hcc ltac:(done))
    as (s4 & En4 & Hc4).
  destruct (next_end _ _ _ _ _ (c_pend _ _ _ _ _ _ _ _ _ Hc4)) as (s5 & stk5 & En5 & Et5 & [_ _ _ Ea5 _]).
  exists 10%nat. intros m Hm.
  unfold JSON, JSONIndices, Process. rewrite En1, bind_Ok, groupNodes_single.
  destruct m as [|m]; [lia|]. cbn [Process_loop]. rewrite Et1.
  destruct m as [|m]; [lia|]. cbn [processValue scrubNow existsb orb]. rewrite Et1, En2, bind_Ok.
  destruct m as [|m]; [lia|]. cbn [processObject].
  rewrite (c_tok _ _ _ _ _ _ _ _ _ Hc2), (cur_field _ _ _ _ _ _ _ _ _ Hc2), bind_Ok, (c_mapKey _ _ _ _ _ _ _ _ _ Hc2).
  destruct (matchingMapNodes EqualFold true k _) as [cn vn] eqn:Em.
  cbn in Em. rewrite bool_decide_eq_true_2 in Em by done. injection Em as <- <-.
  assert (Hskip : forall s s', s_tok s = literal -> next s = Ok s' -> forall n, processValue EqualFold (S (S n)) [] s = Ok s').
  { intros s s' Ht Hn n. remember (S n) as n' eqn:En'. cbn [processValue scrubNow existsb orb]. subst n'.
    by rewrite (skip_literal _ _ _ Ht Hn). }
  destruct m as [|m]; [lia|]. destruct m as [|m]; [lia|].
  rewrite (Hskip _ _ (c_tok _ _ _ _ _ _ _ _ _ Hc2) En3), bind_Ok.
  unfold isMapValue at 1. rewrite (c_mapKey _ _ _ _ _ _ _ _ _ Hc3). cbn [negb andb]. rewrite bind_Ok.
  remember (S m) as m' eqn:Em'. cbn [processObject]. subst m'.
  rewrite (c_tok _ _ _ _ _ _ _ _ _ Hc3), (cur_field _ _ _ _ _ _ _ _ _ Hc3), bind_Ok, (c_mapKey _ _ _ _ _ _ _ _ _ Hc3).
  destruct (matchingMapNodes EqualFold true secret _) as [cn vn] eqn:Em.
  assert (cn = []) as -> by (cbn in Em; destruct (bool_decide _); by injection Em).
  destruct m as [|m]; [lia|].
  rewrite (Hskip _ _ (c_tok _ _ _ _ _ _ _ _ _ Hc3) En4), bind_Ok.
  unfold isMapValue at 1. rewrite (c_tok _ _ _ _ _ _ _ _ _ Hc4), andb_false_r, bind_Ok.
  remember (S m) as m' eqn:Em'. cbn [processObject]. subst m'.
  rewrite (c_tok _ _ _ _ _ _ _ _ _ Hc4), En5, bind_Ok.
  rewrite (Process_loop_end _ _ _ _ Et5), !bind_Ok, Ea5. done.
Qed.

Lemma colon_value_leaks_witness :
  returns (fun n => JSON ascii_EqualFold n ([c_lbrace] ++ quoted "password" ++ [c_colon] ++ quoted ":hunter2" ++ [c_rbrace])
             [[mkEntry ObjectField (quoted "password") true]] (lit "###"))
    ([c_lbrace] ++ quoted "password" ++ [c_colon] ++ quoted ":hunter2" ++ [c_rbrace]).
Proof. apply (colon_value_leaks ascii_EqualFold (quoted "password") (quoted ":hunter2") (lit "###")); reflexivity. Defined.

(** ** Truncated input *)

Lemma skip_stuck input fuel d s pre stk acc :
  1 <= d -> s_tok s = unknown -> pend input s pre [] stk acc -> skip_loop fuel d s = OutOfFuel.
Proof.
  intros Hd. revert s stk. induction fuel as [|fuel IH]; intros s stk Ht Hp; [done|]. cbn [skip_loop]. rewrite Ht.
  destruct (next_end _ _ _ _ _ Hp) as (s' & stk' & -> & Ht' & Hp'). rewrite bind_Ok.
  destruct (d <=? 0) eqn:E; [lia|]. by eapply IH.
Qed.

(** Scrubbing runs forever on a truncated payload: on an object cut off after the opening brace of
    its first field's value, with any single-entry path, whether it names the field or not, no
    number of rounds is enough. *)
Theorem scrub_hangs_on_truncated (EqualFold : gostring -> gostring -> bool) (k repl : list byte) (e : PathEntry) :
  string_ok k = true ->
  diverges (fun n => JSON EqualFold n ([c_lbrace] ++ k ++ [c_colon; c_lbrace]) [[e]] repl).
Proof.
  intros Hk n. destruct (object_start k [c_colon; c_lbrace] Hk) as (s1 & s2 & En1 & Et1 & En2 & Hc2).
  set (input := [c_lbrace] ++ k ++ [c_colon; c_lbrace]) in *.
  destruct (next_token _ _ _ [c_colon] objectBegin [c_lbrace] [] _ _ (c_pend _ _ _ _ _ _ _ _ _ Hc2) eq_refl
    (TT_objectBegin [] eq_refl) ltac:(done) ltac:(done)) as (s3 & En3 & Hc3). cbn in Hc3.
  assert (Hstuck : forall m nodes b, nodes = [] \/ nodes = [ScrubNode] ->
    processValue EqualFold m nodes s3 = OutOfFuel /\ processValue EqualFold m nodes (add_scrub s3 b) = OutOfFuel).
  { intros [|m] nodes b Hn; [done|]. destruct (next_end _ _ _ _ _ (c_pend _ _ _ _ _ _ _ _ _ Hc3)) as (s4 & stk4 & En4 & Et4 & Hp4).
    assert (Hsk : skipValue m s3 = OutOfFuel /\ skipValue m (add_scrub s3 b) = OutOfFuel).
    { unfold skipValue. destruct m as [|m]; [done|]. cbn [skip_loop]. rewrite next_add_scrub. cbn [add_scrub s_tok s_pos].
      rewrite (c_tok _ _ _ _ _ _ _ _ _ Hc3), En4. cbn. change (0 + 1) with 1. change (1 <=? 0) with false. cbv iota.
      rewrite (skip_stuck _ m 1 s4 _ _ _ ltac:(lia) Et4 Hp4).
      by rewrite (skip_stuck _ m 1 (add_scrub s4 b) _ _ _ ltac:(lia) Et4 (pend_add_scrub _ _ _ _ _ _ b Hp4)). }
    destruct Hsk as [H1 H2]. destruct Hn as [-> | ->]; cbn [processValue scrubNow existsb orb]; rewrite H1, H2; done. }
  unfold JSON, JSONIndices, Process. rewrite En1, bind_Ok, groupNodes_single.
  destruct n as [|n]; [done|]. cbn [Process_loop]. rewrite Et1. destruct n as [|n]; [done|].
  cbn [processValue scrubNow existsb orb]. rewrite Et1, En2, bind_Ok. destruct n as [|n]; [done|]. cbn [processObject].
  rewrite (c_tok _ _ _ _ _ _ _ _ _ Hc2), (cur_field _ _ _ _ _ _ _ _ _ Hc2), bind_Ok, (c_mapKey _ _ _ _ _ _ _ _ _ Hc2).
  destruct (matchingMapNodes EqualFold true k _) as [cn vn] eqn:Em.
  assert ((cn = [] \/ cn = [ScrubNode]) /\ (vn = [] \/ vn = [ScrubNode])) as [Hcn Hvn].
  { cbn in Em. destruct (e_Kind e); [destruct (fieldMatch EqualFold e k)| |]; injection Em as <- <-; auto. }
  destruct n as [|n]; [done|].
  assert (Hkey : processValue EqualFold (S n) cn s2 = OutOfFuel \/ processValue EqualFold (S n) cn s2 = Ok s3 \/
                 exists b, processValue EqualFold (S n) cn s2 = Ok (add_scrub s3 b)).
  { destruct n as [|n]; [left; by destruct Hcn as [-> | ->]|]. right.
    destruct Hcn as [-> | ->]; cbn [processValue scrubNow existsb orb];
      rewrite (skip_literal _ _ _ (c_tok _ _ _ _ _ _ _ _ _ Hc2) En3), bind_Ok; [by left|]. right. by eexists. }
  assert (Hmv : isMapValue s3 = true).
  { unfold isMapValue. by rewrite (c_mapKey _ _ _ _ _ _ _ _ _ Hc3), (c_tok _ _ _ _ _ _ _ _ _ Hc3). }
  destruct Hkey as [-> |[-> |[b ->]]]; [done| |]; rewrite bind_Ok.
  - rewrite Hmv, (proj1 (Hstuck (S n) vn (s_pos s3) Hvn)). done.
  - change (isMapValue (add_scrub s3 b)) with (isMapValue s3). rewrite Hmv, (proj2 (Hstuck (S n) vn b Hvn)). done.
Qed.

Lemma scrub_hangs_on_truncated_witness :
  diverges (fun n => JSON ascii_EqualFold n ([c_lbrace] ++ quoted "user" ++ [c_colon; c_lbrace])
              [[demo_field "password"]] (lit "###")).
Proof. apply (scrub_hangs_on_truncated ascii_EqualFold (quoted "user") (lit "###") (demo_field "password")); reflexivity. Defined.
