(* ===== verification/Workers.v ===== *)
(** The work loops of publish/subscribe: [runtimes/go/pubsub/internal/utils] (workers.go).

    [WorkConcurrently] fetches work items and hands them to a worker function, in one of three
    ways: in the calling goroutine, in a goroutine per item, or in a pool of workers fed through
    an unbuffered channel.  Each way is a step relation whose steps are the atomic actions of the
    goroutines: channel operations, loads and additions on the shared counter, cancellations, and
    the return of a call of the fetch or worker function.

    The fetch function is the relation [may_fetch n ws]: asked for [n] items it can return [ws].
    It may also fail, and so may the worker, with any error; a panic of either is turned into an
    error by the two wrappers.  [wraps_canceled] is [errors.Is(_, context.Canceled)] on errors.
    The components [fetched], [done] and [dropped] record history: what the fetch function has
    returned, what the worker function has been through, and what was fetched and given up. *)

From S2P Require Import Prelude.

(** ** Cancellation *)

Section Causes.
Context {E : Type} (wraps_canceled : E -> bool).

Inductive cause := Canceled | Failed (e : E).

(** The state of a context is its cause; the first cancellation wins. *)
Definition cancel (ctx : option cause) (c : cause) : option cause :=
  match ctx with None => Some c | Some _ => ctx end.

(** What the loops return: the cause, unless it is [context.Canceled]. *)
Definition result_of (ctx : option cause) : option E :=
  match ctx with
  | Some (Failed e) => if wraps_canceled e then None else Some e
  | Some Canceled | None => None
  end.

End Causes.
Arguments cause : clear implicits.

Section Workers.
Context {Work E : Type} (wraps_canceled : E -> bool) (may_fetch : Z -> list Work -> Prop).

(** ** One goroutine *)

Inductive single_pc :=
| SHead
| SFetch
| SItems (ws : list Work)
| SWorking (w : Work) (ws : list Work)
| SReturned (r : option E).

Record single := mkSingle {
  g_pc : single_pc;
  g_fetch_done : bool;      (* ctxs.Fetch is cancelled *)
  g_handler_done : bool;    (* ctxs.Handler is cancelled *)
  g_fetched : list Work;
  g_done : list Work;
  g_dropped : list Work
}.

Inductive single_step : single -> single -> Prop :=
| G_cancel_fetch pc b h f d x : single_step (mkSingle pc b h f d x) (mkSingle pc true h f d x)
| G_cancel_handler pc b h f d x : single_step (mkSingle pc b h f d x) (mkSingle pc true true f d x)
| G_head (b h : bool) f d x :
    single_step (mkSingle SHead b h f d x) (mkSingle (if b then SReturned None else SFetch) b h f d x)
| G_fetch ws b h f d x :
    may_fetch 1 ws -> single_step (mkSingle SFetch b h f d x) (mkSingle (SItems ws) b h (f ++ ws) d x)
| G_fetch_err e b h f d x :
    single_step (mkSingle SFetch b h f d x) (mkSingle (SReturned (Some e)) b h f d x)
| G_items_end b h f d x : single_step (mkSingle (SItems []) b h f d x) (mkSingle SHead b h f d x)
| G_item w ws b f d x :
    single_step (mkSingle (SItems (w :: ws)) b false f d x) (mkSingle (SWorking w ws) b false f d x)
| G_item_cancelled w ws b f d x :
    single_step (mkSingle (SItems (w :: ws)) b true f d x) (mkSingle (SReturned None) b true f d (x ++ w :: ws))
| G_done w ws b h f d x :
    single_step (mkSingle (SWorking w ws) b h f d x) (mkSingle (SItems ws) b h f (d ++ [w]) x)
| G_failed e w ws b h f d x :
    single_step (mkSingle (SWorking w ws) b h f d x) (mkSingle (SReturned (Some e)) b h f (d ++ [w]) (x ++ ws)).

(** ** A goroutine per item *)

Inductive inf_pc := IHead | IFetch | ISpawn (ws : list Work) | IReturned (r : option E).

Record infinite := mkInf {
  i_pc : inf_pc;
  i_ctx : option (cause E);
  i_running : list Work;    (* the items of the goroutines *)
  i_fetched : list Work;
  i_done : list Work
}.

Definition inf_batch (maxBatchSize : Z) : Z := if maxBatchSize <=? 0 then 100 else maxBatchSize.

Inductive infinite_step (maxBatchSize : Z) : infinite -> infinite -> Prop :=
| I_cancel pc c r f d : infinite_step maxBatchSize (mkInf pc c r f d) (mkInf pc (cancel c Canceled) r f d)
| I_head r f d : infinite_step maxBatchSize (mkInf IHead None r f d) (mkInf IFetch None r f d)
| I_return c r f d :
    infinite_step maxBatchSize (mkInf IHead (Some c) r f d)
      (mkInf (IReturned (result_of wraps_canceled (Some c))) (Some c) r f d)
| I_fetch ws c r f d :
    may_fetch (inf_batch maxBatchSize) ws ->
    infinite_step maxBatchSize (mkInf IFetch c r f d) (mkInf (ISpawn ws) c r (f ++ ws) d)
| I_fetch_err e c r f d :
    infinite_step maxBatchSize (mkInf IFetch c r f d)
      (mkInf (IReturned (result_of wraps_canceled (cancel c (Failed e)))) (cancel c (Failed e)) r f d)
| I_spawn w ws c r f d :
    infinite_step maxBatchSize (mkInf (ISpawn (w :: ws)) c r f d) (mkInf (ISpawn ws) c (w :: r) f d)
| I_spawned c r f d : infinite_step maxBatchSize (mkInf (ISpawn []) c r f d) (mkInf IHead c r f d)
| I_done pc c r1 w r2 f d :
    infinite_step maxBatchSize (mkInf pc c (r1 ++ w :: r2) f d) (mkInf pc c (r1 ++ r2) f (d ++ [w]))
| I_failed e pc c r1 w r2 f d :
    infinite_step maxBatchSize (mkInf pc c (r1 ++ w :: r2) f d)
      (mkInf pc (cancel c (Failed e)) (r1 ++ r2) f (d ++ [w])).

(** ** A pool of workers *)

(** A worker waits on the channel; has received an item and not yet counted it; is in the worker
    function; has returned from it and is still counted; is about to unblock the fetcher; has
    left the loop over the closed channel. *)
Inductive wstate := Idle | Received (w : Work) | Busy (w : Work) | Finishing | Notifying | Exited.

(** The fetcher is at the head of its loop; loads the counter; has found all workers busy; waits
    in the [select]; is in the fetch function; passes work on; leaves the loop; has returned. *)
Inductive fetcher :=
| FHead
| FLoad
| FBusy
| FSelect
| FFetch (toFetch : Z)
| FSend (ws : list Work)
| FLeave
| FReturned (r : option E).

Record pool := mkPool {
  p_fetcher : fetcher;
  p_workers : list wstate;
  p_count : Z;               (* workItemsBeingProcessed *)
  p_ctx : option (cause E);  (* fetchCtx *)
  p_fetched : list Work;
  p_done : list Work;
  p_dropped : list Work
}.

Definition pool_toFetch (maxConcurrency maxBatchSize count : Z) : Z :=
  let toFetch := maxConcurrency - count in
  if (0 <? maxBatchSize) && (maxBatchSize <? toFetch) then maxBatchSize else toFetch.

Definition selecting (fe : fetcher) : bool := match fe with FSelect => true | _ => false end.
Definition has_returned (fe : fetcher) : bool := match fe with FReturned _ => true | _ => false end.

Inductive pool_step (maxConcurrency maxBatchSize : Z) : pool -> pool -> Prop :=
(* the parent context is cancelled *)
| P_cancel fe ws n c f d x :
    pool_step maxConcurrency maxBatchSize (mkPool fe ws n c f d x) (mkPool fe ws n (cancel c Canceled) f d x)
(* the fetcher *)
| P_head ws n (c : option (cause E)) f d x :
    pool_step maxConcurrency maxBatchSize (mkPool FHead ws n c f d x)
      (mkPool (match c with None => FLoad | Some _ => FLeave end) ws n c f d x)
| P_load ws n c f d x :
    let toFetch := pool_toFetch maxConcurrency maxBatchSize n in
    pool_step maxConcurrency maxBatchSize (mkPool FLoad ws n c f d x)
      (mkPool (if toFetch =? 0 then FBusy else FFetch toFetch) ws n c f d x)
| P_select ws n c f d x :
    pool_step maxConcurrency maxBatchSize (mkPool FBusy ws n c f d x) (mkPool FSelect ws n c f d x)
| P_select_done ws n c f d x :
    pool_step maxConcurrency maxBatchSize (mkPool FSelect ws n (Some c) f d x) (mkPool FLeave ws n (Some c) f d x)
| P_select_tick ws n c f d x :
    pool_step maxConcurrency maxBatchSize (mkPool FSelect ws n c f d x) (mkPool FHead ws n c f d x)
| P_fetch work toFetch ws n c f d x :
    may_fetch toFetch work ->
    pool_step maxConcurrency maxBatchSize (mkPool (FFetch toFetch) ws n c f d x)
      (mkPool (match work with [] => FHead | _ => FSend work end) ws n c (f ++ work) d x)
| P_fetch_err e toFetch ws n c f d x :
    pool_step maxConcurrency maxBatchSize (mkPool (FFetch toFetch) ws n c f d x)
      (mkPool FLeave ws n (cancel c (Failed e)) f d x)
| P_sent ws n c f d x :
    pool_step maxConcurrency maxBatchSize (mkPool (FSend []) ws n c f d x) (mkPool FHead ws n c f d x)
| P_send_done w work ws n c f d x :
    pool_step maxConcurrency maxBatchSize (mkPool (FSend (w :: work)) ws n (Some c) f d x)
      (mkPool FLeave ws n (Some c) f d (x ++ w :: work))
| P_leave ws n c f d x :
    pool_step maxConcurrency maxBatchSize (mkPool FLeave ws n c f d x)
      (mkPool (FReturned (result_of wraps_canceled c)) ws n (cancel c Canceled) f d x)
(* a worker with the fetcher *)
| P_send w work ws1 ws2 n c f d x :
    pool_step maxConcurrency maxBatchSize (mkPool (FSend (w :: work)) (ws1 ++ Idle :: ws2) n c f d x)
      (mkPool (FSend work) (ws1 ++ Received w :: ws2) n c f d x)
| P_notify ws1 ws2 n c f d x :
    pool_step maxConcurrency maxBatchSize (mkPool FSelect (ws1 ++ Notifying :: ws2) n c f d x)
      (mkPool FHead (ws1 ++ Idle :: ws2) n c f d x)
(* a worker alone *)
| P_count fe w ws1 ws2 n c f d x :
    pool_step maxConcurrency maxBatchSize (mkPool fe (ws1 ++ Received w :: ws2) n c f d x)
      (mkPool fe (ws1 ++ Busy w :: ws2) (n + 1) c f d x)
| P_done fe w ws1 ws2 n c f d x :
    pool_step maxConcurrency maxBatchSize (mkPool fe (ws1 ++ Busy w :: ws2) n c f d x)
      (mkPool fe (ws1 ++ Finishing :: ws2) n c f (d ++ [w]) x)
| P_failed e fe w ws1 ws2 n c f d x :
    pool_step maxConcurrency maxBatchSize (mkPool fe (ws1 ++ Busy w :: ws2) n c f d x)
      (mkPool fe (ws1 ++ Finishing :: ws2) n (cancel c (Failed e)) f (d ++ [w]) x)
| P_uncount fe ws1 ws2 n c f d x :
    pool_step maxConcurrency maxBatchSize (mkPool fe (ws1 ++ Finishing :: ws2) n c f d x)
      (mkPool fe (ws1 ++ Notifying :: ws2) (n - 1) c f d x)
| P_default fe ws1 ws2 n c f d x :
    selecting fe = false ->
    pool_step maxConcurrency maxBatchSize (mkPool fe (ws1 ++ Notifying :: ws2) n c f d x)
      (mkPool fe (ws1 ++ Idle :: ws2) n c f d x)
| P_exit fe ws1 ws2 n c f d x :
    has_returned fe = true ->
    pool_step maxConcurrency maxBatchSize (mkPool fe (ws1 ++ Idle :: ws2) n c f d x)
      (mkPool fe (ws1 ++ Exited :: ws2) n c f d x).

(** ** Dispatch *)

Inductive machine := MSingle (s : single) | MInfinite (s : infinite) | MPool (s : pool).

(** The state [WorkConcurrently] starts from, with the contexts not cancelled. *)
Definition WorkConcurrently (maxConcurrency : Z) : machine :=
  if maxConcurrency =? 1 then MSingle (mkSingle SHead false false [] [] [])
  else if maxConcurrency <=? 0 then MInfinite (mkInf IHead None [] [] [])
  else MPool (mkPool FHead (replicate (Z.to_nat maxConcurrency) Idle) 0 None [] [] []).

Inductive work_step (maxConcurrency maxBatchSize : Z) : machine -> machine -> Prop :=
| W_single s s' : single_step s s' -> work_step maxConcurrency maxBatchSize (MSingle s) (MSingle s')
| W_infinite s s' : infinite_step maxBatchSize s s' -> work_step maxConcurrency maxBatchSize (MInfinite s) (MInfinite s')
| W_pool s s' : pool_step maxConcurrency maxBatchSize s s' -> work_step maxConcurrency maxBatchSize (MPool s) (MPool s').

End Workers.
