(* ===== verification/WorkersTheorems.v ===== *)
(** Properties of the work loops: every fetched item is worked on exactly once unless the loop is
    returning, the bounds on concurrency and on the requests, progress, and the items the pool
    fetches beyond its limit. *)

From S2P Require Import Prelude Workers.

(** ** Views of a state *)

Section Views.
Context {Work E : Type}.

Definition received_item (s : wstate (Work:=Work)) : option Work := match s with Received w => Some w | _ => None end.
Definition busy_item (s : wstate (Work:=Work)) : option Work := match s with Busy w => Some w | _ => None end.
Definition counted (s : wstate (Work:=Work)) : nat := match s with Busy _ | Finishing => 1 | _ => 0 end.

Definition to_send (fe : fetcher (Work:=Work) (E:=E)) : list Work := match fe with FSend ws => ws | _ => [] end.

Definition fetched (m : machine (Work:=Work) (E:=E)) : list Work :=
  match m with MSingle s => g_fetched s | MInfinite s => i_fetched s | MPool s => p_fetched s end.
Definition done (m : machine (Work:=Work) (E:=E)) : list Work :=
  match m with MSingle s => g_done s | MInfinite s => i_done s | MPool s => p_done s end.

(** The items the worker function is working on. *)
Definition running (m : machine (Work:=Work) (E:=E)) : list Work :=
  match m with
  | MSingle s => match g_pc s with SWorking w _ => [w] | _ => [] end
  | MInfinite s => i_running s
  | MPool s => omap busy_item (p_workers s)
  end.

(** The items fetched and not yet started. *)
Definition queued (m : machine (Work:=Work) (E:=E)) : list Work :=
  match m with
  | MSingle s => match g_pc s with SItems ws | SWorking _ ws => ws | _ => [] end
  | MInfinite s => match i_pc s with ISpawn ws => ws | _ => [] end
  | MPool s => omap received_item (p_workers s) ++ to_send (p_fetcher s)
  end.

Definition dropped (m : machine (Work:=Work) (E:=E)) : list Work :=
  match m with MSingle s => g_dropped s | MInfinite s => [] | MPool s => p_dropped s end.

Definition leaving (m : machine (Work:=Work) (E:=E)) : bool :=
  match m with
  | MSingle s => match g_pc s with SReturned _ => true | _ => false end
  | MInfinite s => match i_pc s with IReturned _ => true | _ => false end
  | MPool s => match p_fetcher s with FLeave | FReturned _ => true | _ => false end
  end.

(** The number of items a pending call of the fetch function asks for. *)
Definition request (maxBatchSize : Z) (m : machine (Work:=Work) (E:=E)) : option Z :=
  match m with
  | MSingle s => match g_pc s with SFetch => Some 1 | _ => None end
  | MInfinite s => match i_pc s with IFetch => Some (inf_batch maxBatchSize) | _ => None end
  | MPool s => match p_fetcher s with FFetch n => Some n | _ => None end
  end.

Definition in_flight (m : machine (Work:=Work) (E:=E)) : list Work := running m ++ queued m.

End Views.

Ltac views := cbn [fetched done running queued dropped leaving request in_flight p_fetcher p_workers p_count p_ctx p_fetched p_done
  p_dropped g_pc g_fetched g_done g_dropped i_pc i_running i_fetched i_done to_send received_item busy_item counted omap list_omap] in *.

Section Accounting.
Context {Work E : Type} (wraps_canceled : E -> bool) (may_fetch : Z -> list Work -> Prop).
Abbreviation step := (work_step wraps_canceled may_fetch).

Definition accounted (m : machine (Work:=Work) (E:=E)) : Prop :=
  fetched m ≡ₚ done m ++ running m ++ queued m ++ dropped m /\ (leaving m = false -> dropped m = []).

Lemma accounted_step maxC maxB m m' : step maxC maxB m m' -> accounted m -> accounted m'.
Proof.
  intros [s s' H|s s' H|s s' H] [Hp Hx]; (split; [|destruct H; views; try done; naive_solver]).
  - destruct H; views; rewrite ?app_nil_r in *; try (rewrite Hp, ?Hx by done); solve_Permutation || (destruct b; solve_Permutation).
  - destruct H; views; rewrite Hp; solve_Permutation.
  - destruct H; views; rewrite ?omap_app in *; views; rewrite Hp; try solve_Permutation.
    + destruct c; solve_Permutation.
    + destruct (toFetch =? 0); solve_Permutation.
    + destruct work; views; solve_Permutation.
Qed.

End Accounting.

(** ** The pool *)

Section Pool.
Context {Work E : Type} (wraps_canceled : E -> bool) (may_fetch : Z -> list Work -> Prop).
Context (maxC maxB : Z).
Abbreviation pstep := (pool_step wraps_canceled may_fetch maxC maxB).

Definition counted_workers (ws : list (wstate (Work:=Work))) : nat := sum_list_with counted ws.

(** What the fetcher may ask for. *)
Definition request_ok (n : Z) : Prop := 1 <= n <= maxC /\ (0 < maxB -> n <= maxB).

Record pool_inv (s : pool (Work:=Work) (E:=E)) : Prop := {
  pi_workers : length (p_workers s) = Z.to_nat maxC;
  pi_count : p_count s = Z.of_nat (counted_workers (p_workers s));
  pi_request : forall n, p_fetcher s = FFetch n -> request_ok n;
  pi_exit : has_returned (p_fetcher s) = false -> Forall (fun w => w <> Exited) (p_workers s)
}.

Lemma counted_le ws : (counted_workers ws <= length ws)%nat.
Proof. unfold counted_workers. induction ws as [|[] ws IH]; cbn in *; lia. Qed.

Lemma idle_items n : omap (busy_item (Work:=Work)) (replicate n Idle) = [] /\ omap (received_item (Work:=Work)) (replicate n Idle) = [].
Proof. by induction n. Qed.

Lemma counted_idle n : counted_workers (replicate n Idle) = 0%nat.
Proof. unfold counted_workers. by induction n. Qed.

Lemma counted_items (ws : list (wstate (Work:=Work))) :
  (length (omap busy_item ws) + length (omap received_item ws) <= length ws)%nat /\
  (length (omap busy_item ws) <= counted_workers ws)%nat.
Proof. unfold counted_workers. induction ws as [|[] ws IH]; cbn in *; lia. Qed.

Lemma pool_toFetch_ok n : 0 <= n <= maxC -> pool_toFetch maxC maxB n <> 0 -> request_ok (pool_toFetch maxC maxB n).
Proof.
  unfold pool_toFetch, request_ok. intros Hn. destruct (0 <? maxB) eqn:E1, (maxB <? maxC - n) eqn:E2; cbn; lia.
Qed.

Lemma pool_inv_step s s' : 0 <= maxC -> pstep s s' -> pool_inv s -> pool_inv s'.
Proof.
  intros HC H [Hw Hc Hr Hx]. unfold counted_workers in *.
  destruct H; views; rewrite ?length_app, ?sum_list_with_app, ?Forall_app, ?list.Forall_cons in *; cbn [length sum_list_with counted] in *;
    constructor; views; unfold counted_workers;
    rewrite ?length_app, ?sum_list_with_app, ?Forall_app, ?list.Forall_cons; cbn [length sum_list_with counted]; try done; try lia;
    try (intros ? ?; discriminate); try (intros Hf; specialize (Hx Hf); tauto || naive_solver); try naive_solver.
  - destruct c; done.
  - pose proof (counted_le ws). unfold counted_workers in *. intros n' Hn'.
    destruct (toFetch =? 0) eqn:E0; [done|]. injection Hn' as <-. apply pool_toFetch_ok; lia.
  - destruct work; done.
  - congruence.
Qed.

Lemma pool_inv_init : pool_inv (mkPool FHead (replicate (Z.to_nat maxC) Idle) 0 None [] [] []).
Proof.
  constructor; views; try done.
  - by rewrite length_replicate.
  - by rewrite counted_idle.
  - intros _. by apply Forall_replicate.
Qed.

Section Bounded.
Hypothesis fetch_bound : forall n ws, may_fetch n ws -> Z.of_nat (length ws) <= n.

Definition send_bound (s : pool (Work:=Work) (E:=E)) : Prop := Z.of_nat (length (to_send (p_fetcher s))) <= maxC.

Lemma send_bound_step s s' : 0 <= maxC -> pstep s s' -> pool_inv s -> send_bound s -> send_bound s'.
Proof.
  intros HC H [_ _ Hr _] Hs. unfold send_bound in *. destruct H; views; cbn [length] in *; try done; try lia.
  - destruct c; done.
  - subst toFetch. by destruct (_ =? 0).
  - match goal with Hf : may_fetch _ _ |- _ => apply fetch_bound in Hf end.
    destruct (Hr _ eq_refl). destruct work; views; lia.
Qed.

End Bounded.
End Pool.

(** ** Exactly once, and the bounds *)

Section Reachable.
Context {Work E : Type} (wraps_canceled : E -> bool) (may_fetch : Z -> list Work -> Prop).
Context (maxC maxB : Z).
Abbreviation reachable := (rtc (work_step wraps_canceled may_fetch maxC maxB) (WorkConcurrently maxC)).

Lemma reachable_inv (P : machine (Work:=Work) (E:=E) -> Prop) :
  P (WorkConcurrently maxC) -> (forall m m', work_step wraps_canceled may_fetch maxC maxB m m' -> P m -> P m') ->
  forall m, reachable m -> P m.
Proof. intros H0 Hs m Hm. revert H0. induction Hm; eauto. Qed.

Lemma reachable_accounted m : reachable m -> accounted m.
Proof.
  apply reachable_inv; [|intros; by eapply accounted_step].
  unfold WorkConcurrently. destruct (maxC =? 1), (maxC <=? 0); split; views; try done.
  all: by induction (Z.to_nat maxC).
Qed.

(** The machine of a state is the one [WorkConcurrently] chooses. *)
Definition mode_inv (m : machine (Work:=Work) (E:=E)) : Prop :=
  match m with
  | MSingle _ => maxC = 1
  | MInfinite _ => maxC <= 0
  | MPool s => 2 <= maxC /\ pool_inv maxC maxB s
  end.

Lemma reachable_mode m : reachable m -> mode_inv m.
Proof.
  apply reachable_inv.
  - unfold WorkConcurrently. destruct (maxC =? 1) eqn:E1, (maxC <=? 0) eqn:E2; cbn; try lia.
    split; [lia|]. apply pool_inv_init.
  - intros ? ? [s s' H|s s' H|s s' H]; cbn; try done. intros [HC Hi]. split; [done|].
    eapply pool_inv_step; [|exact H|done]. lia.
Qed.

Lemma reachable_send m :
  (forall n ws, may_fetch n ws -> Z.of_nat (length ws) <= n) -> reachable m ->
  match m with MPool s => send_bound maxC s | _ => True end.
Proof.
  intros Hf Hm. enough (H : mode_inv m /\ match m with MPool s => send_bound maxC s | _ => True end) by apply H.
  revert m Hm. apply reachable_inv.
  - split; [by apply reachable_mode|]. unfold WorkConcurrently, send_bound.
    destruct (maxC =? 1) eqn:E1, (maxC <=? 0) eqn:E2; views; try done. cbn. lia.
  - intros m m' H [Hi Hs]. destruct H as [s s' H|s s' H|s s' H]; try done.
    destruct Hi as [HC Hi]. split; [split; [done|]; eapply pool_inv_step; [|exact H|done]; lia|].
    eapply send_bound_step; [exact Hf| |exact H|exact Hi|exact Hs]. lia.
Qed.

End Reachable.

(** C20. Exactly once: whatever the interleaving of fetcher, workers and cancellations, every item the
    fetch function has returned is worked on by now, being worked on, waiting, or given up, and each
    of them once; an item is given up only when the loop is on its way to return. *)
Theorem work_exactly_once {Work E} (wraps_canceled : E -> bool) (may_fetch : Z -> list Work -> Prop) (maxC maxB : Z) m :
  rtc (work_step wraps_canceled may_fetch maxC maxB) (WorkConcurrently maxC) m ->
  fetched m ≡ₚ done m ++ running m ++ queued m ++ dropped m /\ (leaving m = false -> dropped m = []).
Proof. apply reachable_accounted. Qed.

(** The limits: with a fetch function that returns at most as many items as it is asked for, at
    most [maxConcurrency] items are worked on at a time, each request is positive and within both
    limits, and at most twice [maxConcurrency] items have been fetched and not finished. *)
Theorem work_bounds {Work E} (wraps_canceled : E -> bool) (may_fetch : Z -> list Work -> Prop) (maxC maxB : Z) m :
  1 <= maxC -> (forall n ws, may_fetch n ws -> Z.of_nat (length ws) <= n) ->
  rtc (work_step wraps_canceled may_fetch maxC maxB) (WorkConcurrently maxC) m ->
  Z.of_nat (length (running m)) <= maxC /\
  (forall n, request maxB m = Some n -> 1 <= n <= maxC /\ (0 < maxB -> n <= maxB)) /\
  (2 <= maxC -> Z.of_nat (length (in_flight m)) <= 2 * maxC).
Proof.
  intros HC Hf Hm. pose proof (reachable_mode _ _ _ _ _ Hm) as Hi. pose proof (reachable_send _ _ _ _ _ Hf Hm) as Hs.
  destruct m as [s|s|s]; cbn [mode_inv] in Hi.
  - subst. split; [views; destruct (g_pc s); cbn; lia|]. split; [|lia]. intros n. views. destruct (g_pc s); naive_solver lia.
  - lia.
  - destruct Hi as [H2 [Hw Hc Hr _]]. destruct (counted_items (p_workers s)) as [H3 H4].
    pose proof (counted_le (p_workers s)). unfold in_flight, send_bound in *. views. rewrite !length_app.
    split; [lia|]. split; [|lia]. intros n. destruct (p_fetcher s) eqn:Ef; try done. intros [= <-]. by apply Hr.
Qed.

(** ** Progress *)

Section Progress.
Context {Work E : Type} (wraps_canceled : E -> bool) (may_fetch : Z -> list Work -> Prop).
Context (maxC maxB : Z).
Abbreviation pstep := (pool_step (Work:=Work) (E:=E) wraps_canceled may_fetch maxC maxB).
Abbreviation state fe ws := (mkPool (Work:=Work) (E:=E) fe ws).

(** The fetcher is in its loop and not in the [select]. *)
Definition steady (fe : fetcher (Work:=Work) (E:=E)) : Prop := selecting fe = false /\ has_returned fe = false.

Lemma worker_to_idle fe ws1 w ws2 n c f d x :
  steady fe -> w <> Exited ->
  exists n' d', rtc pstep (state fe (ws1 ++ w :: ws2) n c f d x) (state fe (ws1 ++ Idle :: ws2) n' c f d' x).
Proof.
  intros [Hs Hr] Hw.
  assert (H1 : forall n d, exists n' d', rtc pstep (state fe (ws1 ++ Notifying :: ws2) n c f d x) (state fe (ws1 ++ Idle :: ws2) n' c f d' x)).
  { intros. eexists _, _. by eapply rtc_once, P_default. }
  assert (H2 : forall n d, exists n' d', rtc pstep (state fe (ws1 ++ Finishing :: ws2) n c f d x) (state fe (ws1 ++ Idle :: ws2) n' c f d' x)).
  { intros n0 d0. destruct (H1 (n0 - 1) d0) as (n' & d' & H). exists n', d'. eapply rtc_l; [apply P_uncount | exact H]. }
  assert (H3 : forall u n d, exists n' d', rtc pstep (state fe (ws1 ++ Busy u :: ws2) n c f d x) (state fe (ws1 ++ Idle :: ws2) n' c f d' x)).
  { intros u n0 d0. destruct (H2 n0 (d0 ++ [u])) as (n' & d' & H). exists n', d'. eapply rtc_l; [apply P_done | exact H]. }
  destruct w as [|u|u| | |]; try done; [by eexists _, _|].
  destruct (H3 u (n + 1) d) as (n' & d' & H). exists n', d'. eapply rtc_l; [apply P_count | exact H].
Qed.

Lemma workers_to_idle fe ws n c f d x :
  steady fe -> Forall (fun w => w <> Exited) ws ->
  exists n' d', rtc pstep (state fe ws n c f d x) (state fe (replicate (length ws) Idle) n' c f d' x).
Proof.
  intros Hfe Hws.
  enough (H : forall k n d, exists n' d', rtc pstep (state fe (replicate k Idle ++ ws) n c f d x)
                                            (state fe (replicate k Idle ++ replicate (length ws) Idle) n' c f d' x)) by apply (H O).
  induction Hws as [|w ws Hw _ IH]; intros k n0 d0; [by eexists _, _|].
  destruct (worker_to_idle fe (replicate k Idle) w ws n0 c f d0 x Hfe Hw) as (n1 & d1 & H1).
  destruct (IH (S k) n1 d1) as (n2 & d2 & H2). exists n2, d2. etrans; [exact H1|].
  cbn [length]. rewrite replicate_S_end, <- !app_assoc in H2. cbn [app] in H2. exact H2.
Qed.

Lemma send_all work k n f d x :
  exists n' d', rtc pstep (state (FSend work) (replicate (S k) Idle) n None f d x)
                  (state (FSend []) (replicate (S k) Idle) n' None f d' x).
Proof.
  revert n d. induction work as [|w work IH]; intros n d; [by eexists _, _|].
  destruct (worker_to_idle (FSend work) [] (Received w) (replicate k Idle) n None f d x (conj eq_refl eq_refl) ltac:(done)) as (n1 & d1 & H1).
  destruct (IH n1 d1) as (n2 & d2 & H2). exists n2, d2.
  eapply rtc_l; [apply (P_send _ _ _ _ w work [] (replicate k Idle))|]. etrans; [exact H1 | exact H2].
Qed.

Abbreviation idle := (replicate (Z.to_nat maxC) (Idle (Work:=Work))).

Lemma pool_inv_steps s s' : 0 <= maxC -> rtc pstep s s' -> pool_inv maxC maxB s -> pool_inv maxC maxB s'.
Proof. intros HC Hr. induction Hr; [done|]. intros Hp. apply IHHr. by eapply pool_inv_step. Qed.

Lemma settle fe ws n f d x :
  steady fe -> pool_inv maxC maxB (state fe ws n None f d x) ->
  exists n' d', rtc pstep (state fe ws n None f d x) (state fe idle n' None f d' x).
Proof.
  intros Hfe [Hw _ _ Hx]. views.
  destruct (workers_to_idle fe ws n None f d x Hfe (Hx (proj2 Hfe))) as (n' & d' & H). rewrite Hw in H. by eexists _, _.
Qed.

(** From here the pool finishes what it has and asks for more. *)
Definition can_fetch (s : pool (Work:=Work) (E:=E)) : Prop :=
  exists q n d, rtc pstep s (state (FFetch q) idle n None (p_fetched s) d (p_dropped s)).

Lemma can_fetch_steps s s' :
  rtc pstep s s' -> p_fetched s' = p_fetched s -> p_dropped s' = p_dropped s -> can_fetch s' -> can_fetch s.
Proof. intros H Hf Hd (q & n & d & H'). exists q, n, d. rewrite Hf, Hd in H'. by etrans. Qed.

Lemma load_can_fetch ws n f d x :
  2 <= maxC -> pool_inv maxC maxB (state FLoad ws n None f d x) -> can_fetch (state FLoad ws n None f d x).
Proof.
  intros HC Hi. destruct (settle FLoad ws n f d x (conj eq_refl eq_refl) Hi) as (n' & d' & H).
  eapply can_fetch_steps; [exact H|done|done|]. apply pool_inv_steps in H; [|lia|done]. destruct H as [_ Hc _ _]. views.
  assert (n' = 0) as -> by by rewrite Hc, counted_idle.
  exists (pool_toFetch maxC maxB 0), 0, d'. apply rtc_once.
  pose proof (P_load wraps_canceled may_fetch maxC maxB idle 0 None f d' x) as H. cbv zeta in H.
  destruct (_ =? 0) eqn:E0; [|exact H]. unfold pool_toFetch in E0. destruct (_ && _) eqn:E1; lia.
Qed.

(** A step to a state from which the pool can fetch. *)
Lemma can_fetch_step s s' :
  2 <= maxC -> pool_inv maxC maxB s -> pstep s s' -> p_fetched s' = p_fetched s -> p_dropped s' = p_dropped s ->
  (pool_inv maxC maxB s' -> can_fetch s') -> can_fetch s.
Proof.
  intros HC Hi H Hf Hd Hc. eapply can_fetch_steps; [by apply rtc_once|done|done|].
  apply Hc. eapply pool_inv_step; [|exact H|done]. lia.
Qed.

Lemma head_can_fetch ws n f d x :
  2 <= maxC -> pool_inv maxC maxB (state FHead ws n None f d x) -> can_fetch (state FHead ws n None f d x).
Proof.
  intros HC Hi. eapply can_fetch_step; [done|done|apply P_head|done|done|]. by apply load_can_fetch.
Qed.

Lemma select_can_fetch ws n f d x :
  2 <= maxC -> pool_inv maxC maxB (state FSelect ws n None f d x) -> can_fetch (state FSelect ws n None f d x).
Proof. intros HC Hi. eapply can_fetch_step; [done|done|apply P_select_tick|done|done|]. by apply head_can_fetch. Qed.

Lemma pool_can_fetch s :
  2 <= maxC -> pool_inv maxC maxB s -> p_ctx s = None -> leaving (MPool s) = false -> can_fetch s.
Proof.
  intros HC Hi Hctx Hl. destruct s as [fe ws n c f d x]. views. subst c.
  destruct fe as [| | | |q|work| |]; try done;
    [by apply head_can_fetch|by apply load_can_fetch| |by apply select_can_fetch| | ].
  - eapply can_fetch_step; [done|done|apply P_select|done|done|]. by apply select_can_fetch.
  - exists q. by apply settle.
  - destruct (settle (FSend work) ws n f d x (conj eq_refl eq_refl) Hi) as (n1 & d1 & H1).
    destruct (send_all work (pred (Z.to_nat maxC)) n1 f d1 x) as (n2 & d2 & H2).
    replace (S (pred (Z.to_nat maxC))) with (Z.to_nat maxC) in H2 by lia.
    assert (H12 : rtc pstep (state (FSend work) ws n None f d x) (state (FSend []) idle n2 None f d2 x)) by by etrans.
    eapply can_fetch_steps; [exact H12|done|done|]. apply pool_inv_steps in H12; [|lia|done].
    eapply can_fetch_step; [done|done|apply P_sent|done|done|]. by apply head_can_fetch.
Qed.

End Progress.

(** ** Progress of the three loops *)

Section Loops.
Context {Work E : Type} (wraps_canceled : E -> bool) (may_fetch : Z -> list Work -> Prop).
Context (maxC maxB : Z).
Abbreviation step := (work_step (Work:=Work) (E:=E) wraps_canceled may_fetch maxC maxB).
Abbreviation reachable := (rtc step (WorkConcurrently maxC)).

(** The cause of the context of the fetch loop. *)
Definition cause_of (m : machine (Work:=Work) (E:=E)) : option (cause E) :=
  match m with
  | MSingle s => if g_fetch_done s || g_handler_done s then Some Canceled else None
  | MInfinite s => i_ctx s
  | MPool s => p_ctx s
  end.

Definition returned (m : machine (Work:=Work) (E:=E)) : option (option E) :=
  match m with
  | MSingle s => match g_pc s with SReturned r => Some r | _ => None end
  | MInfinite s => match i_pc s with IReturned r => Some r | _ => None end
  | MPool s => match p_fetcher s with FReturned r => Some r | _ => None end
  end.

Lemma rtc_single s s' : rtc (single_step may_fetch) s s' -> rtc step (MSingle s) (MSingle s').
Proof. apply (rtc_congruence MSingle). intros. by constructor. Qed.
Lemma rtc_infinite s s' : rtc (infinite_step wraps_canceled may_fetch maxB) s s' -> rtc step (MInfinite s) (MInfinite s').
Proof. apply (rtc_congruence MInfinite). intros. by constructor. Qed.
Lemma rtc_pool s s' : rtc (pool_step wraps_canceled may_fetch maxC maxB) s s' -> rtc step (MPool s) (MPool s').
Proof. apply (rtc_congruence MPool). intros. by constructor. Qed.

Lemma single_items ws f d x :
  rtc (single_step (E:=E) may_fetch) (mkSingle (SItems ws) false false f d x) (mkSingle SFetch false false f (d ++ ws) x).
Proof.
  revert d. induction ws as [|w ws IH]; intros d.
  - rewrite app_nil_r. eapply rtc_l; [apply G_items_end|]. eapply rtc_once, (G_head _ false).
  - eapply rtc_l; [apply G_item|]. eapply rtc_l; [apply G_done|]. by replace (d ++ w :: ws) with ((d ++ [w]) ++ ws) by by rewrite <- app_assoc.
Qed.

Lemma single_can_fetch s :
  cause_of (MSingle s) = None -> leaving (MSingle (E:=E) s) = false ->
  exists d, rtc (single_step may_fetch) s (mkSingle SFetch false false (g_fetched s) d (g_dropped s)).
Proof.
  destruct s as [pc b h f d x]. cbn [cause_of g_fetch_done g_handler_done]. destruct b, h; try done. intros _ Hl. views.
  destruct pc as [| |ws|w ws|]; try done; try (eexists; exact (rtc_refl _ _)).
  - eexists. eapply rtc_once, (G_head _ false).
  - eexists. apply single_items.
  - eexists. eapply rtc_l; [apply G_done|]. apply single_items.
Qed.

Lemma infinite_spawn ws c r f d :
  exists r', rtc (infinite_step wraps_canceled may_fetch maxB) (mkInf (ISpawn ws) c r f d) (mkInf IHead c r' f d).
Proof.
  revert r. induction ws as [|w ws IH]; intros r; [eexists; apply rtc_once, I_spawned|].
  destruct (IH (w :: r)) as [r' H]. exists r'. eapply rtc_l; [apply I_spawn | exact H].
Qed.

Lemma infinite_finish pc c r f d :
  exists d', rtc (infinite_step wraps_canceled may_fetch maxB) (mkInf pc c r f d) (mkInf pc c [] f d').
Proof.
  revert d. induction r as [|w r IH]; intros d; [by eexists|]. destruct (IH (d ++ [w])) as [d' H].
  exists d'. eapply rtc_l; [apply (I_done _ _ _ pc c [] w r) | exact H].
Qed.

Lemma infinite_can_fetch s :
  i_ctx s = None -> leaving (MInfinite s) = false ->
  exists d, rtc (infinite_step wraps_canceled may_fetch maxB) s (mkInf IFetch None [] (i_fetched s) d).
Proof.
  destruct s as [pc c r f d]. cbn. intros -> Hl.
  assert (HF : forall r, exists d', rtc (infinite_step wraps_canceled may_fetch maxB) (mkInf IHead None r f d) (mkInf IFetch None [] f d')).
  { intros r0. destruct (infinite_finish IFetch None r0 f d) as [d' H]. exists d'. eapply rtc_l; [apply I_head | exact H]. }
  destruct pc as [| |ws|]; [apply HF|apply infinite_finish| |done].
  destruct (infinite_spawn ws None r f d) as [r' H]. destruct (HF r') as [d' H']. exists d'. by etrans.
Qed.

(** The loop can get to its next request with nothing in flight. *)
Lemma loop_can_fetch m :
  mode_inv maxC maxB m -> cause_of m = None -> leaving m = false ->
  exists m' q, rtc step m m' /\ request maxB m' = Some q /\ in_flight m' = [] /\ fetched m' = fetched m /\ cause_of m' = None.
Proof.
  intros Hi Hc Hl. destruct m as [s|s|s].
  - destruct (single_can_fetch s Hc Hl) as [d H]. eexists _, _. by split; [by apply rtc_single|].
  - destruct (infinite_can_fetch s Hc Hl) as [d H]. eexists _, _. by split; [by apply rtc_infinite|].
  - destruct Hi as [HC Hi]. destruct (pool_can_fetch wraps_canceled may_fetch maxC maxB s HC Hi Hc Hl) as (q & n & d & H).
    eexists _, q. split; [by apply rtc_pool|]. split; [done|]. split; [|done]. unfold in_flight. views.
    destruct (idle_items (Work:=Work) (Z.to_nat maxC)) as [-> ->]. done.
Qed.

(** What has been decided when a loop leaves. *)
Definition ret_inv (m : machine (Work:=Work) (E:=E)) : Prop :=
  match m with
  | MSingle _ => True
  | MInfinite s => forall r, i_pc s = IReturned r -> is_Some (i_ctx s) /\ r = result_of wraps_canceled (i_ctx s)
  | MPool s =>
      (p_fetcher s = FLeave -> is_Some (p_ctx s)) /\
      (forall r, p_fetcher s = FReturned r -> is_Some (p_ctx s) /\ r = result_of wraps_canceled (p_ctx s))
  end.

Lemma cancel_Some (c : option (cause E)) x : is_Some c -> cancel c x = c.
Proof. by intros [? ->]. Qed.

Lemma ret_inv_step m m' : step m m' -> ret_inv m -> ret_inv m'.
Proof.
  intros [s s' H|s s' H|s s' H]; [done| |]; destruct H; cbn; views; cbn [i_ctx] in *; try naive_solver.
  - intros Hr r' Hpc. destruct (Hr r' Hpc) as [Hs ->]. by rewrite cancel_Some.
  - intros _ r' [= <-]. by destruct c.
  - intros Hr r' Hpc. destruct (Hr r' Hpc) as [Hs ->]. by rewrite cancel_Some.
  - intros [H1 H2]. split; [intros ->; rewrite cancel_Some; auto|]. intros r ->.
    destruct (H2 r eq_refl) as [Hs ->]. by rewrite cancel_Some.
  - intros _. destruct c; split; naive_solver.
  - intros _. subst toFetch. destruct (_ =? 0); split; naive_solver.
  - intros _. destruct work; split; naive_solver.
  - intros _. split; [by destruct c|done].
  - intros [H1 _]. split; [done|]. intros r [= <-]. specialize (H1 eq_refl). by rewrite cancel_Some.
  - intros [H1 H2]. split; [intros ->; rewrite cancel_Some; auto|]. intros r ->.
    destruct (H2 r eq_refl) as [Hs ->]. by rewrite cancel_Some.
Qed.

Lemma reachable_ret m : reachable m -> ret_inv m.
Proof.
  apply reachable_inv; [|apply ret_inv_step]. unfold WorkConcurrently. by destruct (maxC =? 1), (maxC <=? 0).
Qed.

(** With its context cancelled a loop returns without any step of a worker. *)
Lemma infinite_returns (ctx_err : E) pc c r f d :
  (forall o, pc <> IReturned o) ->
  exists r', rtc (infinite_step wraps_canceled may_fetch maxB) (mkInf pc (Some c) r f d)
               (mkInf (IReturned (result_of wraps_canceled (Some c))) (Some c) r' f d).
Proof.
  intros Hpc. destruct pc as [| |ws|o]; [| | |by destruct (Hpc o)].
  - eexists. eapply rtc_once, I_return.
  - eexists. eapply rtc_once, (I_fetch_err _ _ _ ctx_err).
  - destruct (infinite_spawn ws (Some c) r f d) as [r' H]. exists r'. eapply rtc_r; [exact H | apply I_return].
Qed.

Lemma pool_leaves (ctx_err : E) fe ws n c f d x :
  (forall o, fe <> FReturned o) ->
  exists x', rtc (pool_step wraps_canceled may_fetch maxC maxB) (mkPool fe ws n (Some c) f d x) (mkPool FLeave ws n (Some c) f d x').
Proof.
  intros Hfe.
  assert (HS : rtc (pool_step wraps_canceled may_fetch maxC maxB) (mkPool FSelect ws n (Some c) f d x) (mkPool FLeave ws n (Some c) f d x))
    by (eapply rtc_once, P_select_done).
  assert (HF : forall q, rtc (pool_step wraps_canceled may_fetch maxC maxB) (mkPool (FFetch q) ws n (Some c) f d x) (mkPool FLeave ws n (Some c) f d x))
    by (intros q; eapply rtc_once, (P_fetch_err _ _ _ _ ctx_err)).
  assert (HH : rtc (pool_step wraps_canceled may_fetch maxC maxB) (mkPool FHead ws n (Some c) f d x) (mkPool FLeave ws n (Some c) f d x))
    by (eapply rtc_once, (P_head _ _ _ _ ws n (Some c))).
  destruct fe as [| | | |q|[|w work]| |o]; [eexists; exact HH| | |eexists; exact HS|eexists; apply HF| | |eexists; apply rtc_refl|by destruct (Hfe o)];
    eexists.
  - eapply rtc_l; [apply P_load|]. destruct (_ =? 0); [|apply HF]. eapply rtc_l; [apply P_select | exact HS].
  - eapply rtc_l; [apply P_select | exact HS].
  - eapply rtc_l; [apply P_sent | exact HH].
  - eapply rtc_once, P_send_done.
Qed.

Lemma loop_returns (ctx_err : E) m c :
  maxC <> 1 -> mode_inv maxC maxB m -> ret_inv m -> cause_of m = Some c ->
  exists m', rtc step m m' /\ returned m' = Some (result_of wraps_canceled (Some c)) /\ done m' = done m.
Proof.
  intros H1 Hi Hr Hc. destruct (returned m) as [r|] eqn:Hret.
  - exists m. split; [done|]. split; [|done]. rewrite Hret. f_equal. destruct m as [s|s|s]; cbn in *; [lia| |].
    + destruct (i_pc s) eqn:Hpc; try done. injection Hret as ->. destruct (Hr r eq_refl) as [_ ->]. by rewrite Hc.
    + destruct (p_fetcher s) eqn:Hpc; try done. injection Hret as ->. destruct (proj2 Hr r eq_refl) as [_ ->]. by rewrite Hc.
  - destruct m as [s|[pc ctx r f d]|[fe ws n ctx f d x]]; cbn in Hi, Hc, Hret; [lia| |]; subst ctx.
    + destruct (infinite_returns ctx_err pc c r f d) as [r' H]; [by intros o ->|].
      eexists. split; [by apply rtc_infinite|done].
    + destruct (pool_leaves ctx_err fe ws n c f d x) as [x' H]; [by intros o ->|].
      eexists. split; [apply rtc_pool; eapply rtc_r; [exact H | apply P_leave]|done].
Qed.

Lemma request_staying (m : machine (Work:=Work) (E:=E)) q : request maxB m = Some q -> leaving m = false.
Proof. destruct m as [s|s|s]; views; [destruct (g_pc s)|destruct (i_pc s)|destruct (p_fetcher s)]; done. Qed.

End Loops.

(** C21. Progress: as long as nothing has been cancelled, the loop can finish everything it has
    fetched and come to ask for more, from whatever state the interleaving has led to; and once
    its context is cancelled it can return the cause at once, [nil] for [context.Canceled],
    without waiting for a worker to finish, unless the maximum concurrency is one and the loop does
    the work itself. *)
Theorem work_progress {Work E} (wraps_canceled : E -> bool) (may_fetch : Z -> list Work -> Prop) (maxC maxB : Z) (ctx_err : E) m :
  rtc (work_step wraps_canceled may_fetch maxC maxB) (WorkConcurrently maxC) m ->
  match cause_of m with
  | None =>
      leaving m = false ->
      exists m' q, rtc (work_step wraps_canceled may_fetch maxC maxB) m m' /\
        request maxB m' = Some q /\ in_flight m' = [] /\ fetched m' = fetched m /\ done m' ≡ₚ fetched m
  | Some c =>
      maxC <> 1 ->
      exists m', rtc (work_step wraps_canceled may_fetch maxC maxB) m m' /\
        returned m' = Some (result_of wraps_canceled (Some c)) /\ done m' = done m
  end.
Proof.
  intros Hm. pose proof (reachable_mode _ _ _ _ _ Hm) as Hi. destruct (cause_of m) as [c|] eqn:Hc.
  - intros H1. by eapply loop_returns; [done|done|done|eapply reachable_ret|].
  - intros Hl. destruct (loop_can_fetch wraps_canceled may_fetch maxC maxB m Hi Hc Hl) as (m' & q & H & Hq & Hn & Hf & _).
    exists m', q. split; [done|]. split; [done|]. split; [done|]. split; [done|]. rewrite <- Hf.
    destruct (reachable_accounted wraps_canceled may_fetch maxC maxB m') as [Hp Hd]; [by etrans|].
    apply app_eq_nil in Hn as [Hn1 Hn2]. by rewrite Hp, Hn1, Hn2, Hd, app_nil_r by (by eapply request_staying).
Qed.

(** ** Fetching beyond the limit *)

Lemma hand_out {Work E} (wraps_canceled : E -> bool) may_fetch maxC maxB (work : list Work) pre n f d x :
  rtc (pool_step wraps_canceled may_fetch maxC maxB)
    (mkPool (FSend work) (pre ++ replicate (length work) Idle) n None f d x)
    (mkPool (FSend []) (pre ++ map Received work) n None f d x).
Proof.
  revert pre. induction work as [|w work IH]; intros pre; [done|].
  eapply rtc_l; [apply P_send|]. specialize (IH (pre ++ [Received w])). by rewrite <- !app_assoc in IH.
Qed.

Lemma received_items {Work} (work : list Work) : omap received_item (map Received work) = work /\ omap busy_item (map Received work) = [].
Proof. induction work as [|w work [IH1 IH2]]; [done|]. split; cbn; [by rewrite IH1|done]. Qed.

(** The pool fetches more than its limit: a worker counts an item only after it has received
    it, so when the items of a full first batch have been handed out and none is counted yet, the
    fetcher asks for a full batch again.  With a fetch function that can fill a batch, a state
    with twice [maxConcurrency] items fetched and none finished is reachable. *)
Theorem pool_fetches_double {Work E} (wraps_canceled : E -> bool) (may_fetch : Z -> list Work -> Prop) (maxC maxB : Z) (batch : list Work) :
  2 <= maxC -> maxB <= 0 \/ maxC <= maxB -> may_fetch maxC batch -> Z.of_nat (length batch) = maxC ->
  exists m, rtc (work_step wraps_canceled may_fetch maxC maxB) (WorkConcurrently maxC) m /\
    cause_of m = None /\ done m = [] /\ Z.of_nat (length (in_flight m)) = 2 * maxC.
Proof.
  intros HC HB Hb Hl.
  assert (Hq : pool_toFetch maxC maxB 0 = maxC) by (unfold pool_toFetch; destruct (_ && _) eqn:E0; lia).
  assert (Hround : forall ws f,
    rtc (pool_step wraps_canceled may_fetch maxC maxB) (mkPool FHead ws 0 None f [] []) (mkPool (FSend batch) ws 0 None (f ++ batch) [] [])).
  { intros ws f. eapply rtc_l; [apply (P_head _ _ _ _ ws 0 None)|]. eapply rtc_l; [apply P_load|]. rewrite Hq.
    replace (maxC =? 0) with false by lia. pose proof (P_fetch wraps_canceled may_fetch maxC maxB batch maxC ws 0 None f [] [] Hb) as H.
    destruct batch; [cbn in Hl; lia|]. by apply rtc_once. }
  exists (MPool (mkPool (FSend batch) (map Received batch) 0 None (batch ++ batch) [] [])). split.
  - unfold WorkConcurrently. replace (maxC =? 1) with false by lia. replace (maxC <=? 0) with false by lia.
    apply rtc_pool. etrans; [apply Hround|]. replace (Z.to_nat maxC) with (length batch) by lia.
    etrans; [apply (hand_out _ _ _ _ batch [])|]. eapply rtc_l; [apply P_sent|]. apply Hround.
  - split; [done|]. split; [done|]. unfold in_flight. views. destruct (received_items batch) as [-> ->].
    rewrite !length_app. cbn [length]. lia.
Qed.

(** A pool of three workers over numbered items: any list of at most as many items as asked for. *)
Definition demo_fetch (n : Z) (ws : list nat) : Prop := Z.of_nat (length ws) <= n.

Lemma demo_run : rtc (work_step (fun _ : nat => false) demo_fetch 3 0) (WorkConcurrently 3)
  (MPool (mkPool (FSend [8]) [Received 7; Idle; Idle]%nat 0 None [7; 8] [] []))%nat.
Proof.
  eapply rtc_l; [apply W_pool, (P_head _ _ _ _ _ _ None)|]. eapply rtc_l; [apply W_pool, P_load|].
  eapply rtc_l; [apply W_pool, (P_fetch _ _ _ _ [7; 8]%nat); unfold demo_fetch; cbn; lia|].
  eapply rtc_once, W_pool, (P_send _ _ _ _ 7%nat [8]%nat [] [Idle; Idle]).
Qed.

Lemma work_exactly_once_witness :
  [7; 8]%nat ≡ₚ [] ++ [] ++ ([7; 8] ++ [])%nat /\ (false = false -> @nil nat = []).
Proof. exact (work_exactly_once (fun _ : nat => false) demo_fetch 3 0 _ demo_run). Defined.

Lemma work_bounds_witness :
  Z.of_nat (length (in_flight (MPool (E:=nat) (mkPool (FSend [8]) [Received 7; Idle; Idle]%nat 0 None [7; 8] [] []))%nat)) <= 2 * 3.
Proof. apply (work_bounds (fun _ : nat => false) demo_fetch 3 0 _ ltac:(lia) (fun _ _ H => H) demo_run). lia. Defined.

Lemma work_progress_witness :
  exists m' q, rtc (work_step (fun _ : nat => false) demo_fetch 3 0)
      (MPool (mkPool (FSend [8]) [Received 7; Idle; Idle]%nat 0 None [7; 8] [] []))%nat m' /\
    request 0 m' = Some q /\ in_flight m' = [] /\ fetched m' = [7; 8]%nat /\ done m' ≡ₚ [7; 8]%nat.
Proof. exact (work_progress (fun _ : nat => false) demo_fetch 3 0 0%nat _ demo_run eq_refl). Defined.

Lemma pool_fetches_double_witness :
  exists m, rtc (work_step (fun _ : nat => false) demo_fetch 3 0) (WorkConcurrently 3) m /\
    cause_of m = None /\ done m = [] /\ Z.of_nat (length (in_flight m)) = 2 * 3.
Proof.
  apply (pool_fetches_double (fun _ : nat => false) demo_fetch 3 0 [1; 2; 3]%nat); [lia|lia|unfold demo_fetch; cbn; lia|reflexivity].
Defined.
