(* ===== verification/Base32.v ===== *)
(** [encoding/base32] of the standard library as [appruntime/exported/model] uses it: the
    alphabet [0-9a-v], no padding; and the text form of trace and span ids (trace.go). *)

From S2P Require Import Prelude Run TraceModel.

(** ** Encoding *)

Definition encodeHex : gostring := lit "0123456789abcdefghijklmnopqrstuv".

(** The letter of the low five bits. *)
Definition b32_letter (v : Z) : byte := nth (Z.to_nat (Z.land v 31)) encodeHex Byte.x00.

(** The letters of the [k] highest five-bit groups of a 40-bit block. *)
Definition b32_letters (k : nat) (block : Z) : gostring :=
  map (fun i => b32_letter (Z.shiftr block (35 - 5 * Z.of_nat i))) (seq 0 k).

Definition b32_block (bs : list byte) : Z :=
  foldl (fun acc b => Z.lor (Z.shiftl acc 8) (Z_of_byte b)) 0 (bs ++ replicate (5 - length bs) Byte.x00).

(** The number of letters that hold [n] bytes. *)
Definition b32_quantum (n : nat) : nat :=
  match n with 0 => 0 | 1 => 2 | 2 => 4 | 3 => 5 | 4 => 7 | _ => 8 end%nat.

Fixpoint b32_encode (fuel : nat) (src : list byte) : gostring :=
  match fuel, src with
  | S fuel, _ :: _ => b32_letters (b32_quantum (length src)) (b32_block (take 5 src)) ++ b32_encode fuel (drop 5 src)
  | _, _ => []
  end.

Definition EncodeToString (src : list byte) : gostring := b32_encode (length src) src.

(** ** Decoding *)

(** [decodeMap]: the value of a letter. *)
Definition decodeMap (c : byte) : option Z :=
  Z.of_nat ∘ fst <$> list_find (fun a => a = c) encodeHex.

(** A quantum of up to eight letters; the rest of the input; whether the input has ended. *)
Fixpoint read_quantum (j : nat) (room : nat) (src : list byte) : option (list Z * list byte * bool) :=
  match room, src with
  | O, _ => Some ([], src, false)
  | S _, [] => Some ([], [], true)
  | S room, c :: src =>
      if decide (c = Byte.xff /\ (2 <= j)%nat /\ (length src < 8)%nat) then
        (* the padding rune is -1, whose byte is 0xff *)
        if decide (length src + j < 7)%nat then None
        else if decide (Exists (fun d => d <> Byte.xff) (take (7 - j) src)) then None
        else if decide (j = 3 \/ j = 6)%nat then None
        else Some ([], src, true)
      else match decodeMap c with
           | None => None
           | Some v => '(vs, rest, ended) ← read_quantum (S j) room src; Some (v :: vs, rest, ended)
           end
  end.

(** The bytes a quantum holds, in the order of the destination. *)
Definition quantum_bytes (vs : list Z) : list byte :=
  let d k := nth k vs 0 in
  let b0 := byte_of_Z (Z.lor (Z.shiftl (d 0%nat) 3) (Z.shiftr (d 1%nat) 2)) in
  let b1 := byte_of_Z (Z.lor (Z.lor (Z.shiftl (d 1%nat) 6) (Z.shiftl (d 2%nat) 1)) (Z.shiftr (d 3%nat) 4)) in
  let b2 := byte_of_Z (Z.lor (Z.shiftl (d 3%nat) 4) (Z.shiftr (d 4%nat) 1)) in
  let b3 := byte_of_Z (Z.lor (Z.lor (Z.shiftl (d 4%nat) 7) (Z.shiftl (d 5%nat) 2)) (Z.shiftr (d 6%nat) 3)) in
  let b4 := byte_of_Z (Z.lor (Z.shiftl (d 6%nat) 5) (d 7%nat)) in
  match length vs with
  | 8 => [b0; b1; b2; b3; b4]
  | 7 => [b0; b1; b2; b3]
  | 5 => [b0; b1; b2]
  | 4 => [b0; b1]
  | 2 => [b0]
  | _ => []
  end%nat.

(** Writing [bs] at an index of a fixed array; out of range is a panic. *)
Definition write_at (dst : list byte) (i : nat) (bs : list byte) : run (list byte) :=
  if decide (bs = [] \/ (i + length bs <= length dst)%nat) then Ok (take i dst ++ bs ++ drop (i + length bs) dst)
  else Crash.

(** The destination, and whether the input was corrupt. *)
Fixpoint b32_decode (fuel : nat) (dst : list byte) (dsti : nat) (src : list byte) : run (list byte * bool) :=
  match fuel, src with
  | S fuel, _ :: _ =>
      match read_quantum 0 8 src with
      | None => Ok (dst, true)
      | Some (vs, rest, ended) =>
          dst ← write_at dst dsti (quantum_bytes vs);
          if ended : bool then Ok (dst, false) else b32_decode fuel dst (dsti + 5) rest
      end
  | _, [] => Ok (dst, false)
  | O, _ => OutOfFuel
  end.

(** [Decode] drops line ends first. *)
Definition b32_Decode (dst src : list byte) : run (list byte * bool) :=
  let src := filter (fun c => c <> Byte.x0a /\ c <> Byte.x0d) src in b32_decode (length src) dst 0 src.

(** ** Ids *)

Definition zero_TraceID : list byte := replicate 16 Byte.x00.
Definition zero_SpanID : list byte := replicate 8 Byte.x00.

Definition TraceID_String (id : list byte) : gostring := if decide (id = zero_TraceID) then [] else EncodeToString id.
Definition SpanID_String (id : list byte) : gostring := if decide (id = zero_SpanID) then [] else EncodeToString id.

Definition ParseTraceID (str : gostring) : run (list byte * bool) := b32_Decode zero_TraceID str.

(** ** The round trip *)

Lemma decodeMap_letter v : decodeMap (b32_letter v) = Some (Z.land v 31).
Proof.
  unfold b32_letter. assert (H : 0 <= Z.land v 31 < 32).
  { change 31 with (Z.ones 5). rewrite Z.land_ones by lia. apply Z.mod_pos_bound. lia. }
  set (d := Z.land v 31) in *. clearbody d.
  assert (Hall : forallb (fun k => bool_decide (decodeMap (nth k encodeHex Byte.x00) = Some (Z.of_nat k))) (seq 0 32) = true)
    by (vm_compute; reflexivity).
  rewrite forallb_forall in Hall. specialize (Hall (Z.to_nat d)). rewrite bool_decide_eq_true, Z2Nat.id in Hall by lia.
  apply Hall, in_seq. lia.
Qed.

Lemma letter_plain v : b32_letter v <> Byte.xff /\ b32_letter v <> Byte.x0a /\ b32_letter v <> Byte.x0d.
Proof. pose proof (decodeMap_letter v) as H. repeat split; intros Hv; rewrite Hv in H; done. Qed.

Lemma read_letters (vs : list Z) j room rest :
  (length vs = room \/ (length vs < room)%nat /\ rest = []) ->
  read_quantum j room ((b32_letter <$> vs) ++ rest) = Some ((fun v => Z.land v 31) <$> vs, rest, bool_decide (length vs < room)%nat).
Proof.
  revert j room. induction vs as [|v vs IH]; intros j room H.
  - cbn in *. destruct room; [by rewrite bool_decide_eq_false_2 by lia|].
    destruct H as [H|[_ ->]]; [lia|]. by rewrite bool_decide_eq_true_2 by lia.
  - destruct room as [|room]; [cbn in H; lia|]. cbn [length fmap list_fmap app read_quantum] in *.
    destruct (decide (_ /\ _)) as [[Hff _]|_]; [by destruct (letter_plain v)|].
    rewrite decodeMap_letter, IH by (destruct H as [H|[H ->]]; [left|right; split; [|done]]; lia). cbn. do 3 f_equal. apply bool_decide_ext. lia.
Qed.

Lemma group_value block k : 0 <= k -> Z.land (Z.shiftr block k) 31 = block / 2 ^ k mod 32.
Proof. intros Hk. change 31 with (Z.ones 5). by rewrite Z.land_ones, Z.shiftr_div_pow2 by lia. Qed.

(** The letters of a block, packed again: [k] bytes from the letters that hold them. *)
Definition block_byte (block : Z) (i : nat) : byte := byte_of_Z (Z.shiftr block (32 - 8 * Z.of_nat i)).

Lemma byte_of_Z_mod a b : a mod 256 = b mod 256 -> byte_of_Z a = byte_of_Z b.
Proof. unfold byte_of_Z. by intros ->. Qed.

Lemma lor_add a b n : 0 <= n -> 0 <= b < 2 ^ n -> Z.lor (Z.shiftl a n) b = a * 2 ^ n + b.
Proof. intros Hn Hb. rewrite Z.lor_comm, lor_shiftl_add by lia. lia. Qed.

(** A byte from two neighbouring groups of [w], and from three. *)
Lemma pack2 w n : n = 3 \/ n = 4 \/ n = 5 ->
  byte_of_Z (Z.lor (Z.shiftl (w / 32 mod 32) n) (Z.shiftr (w mod 32) (5 - n))) = byte_of_Z (w / 2 ^ (5 - n)).
Proof.
  intros H. apply byte_of_Z_mod. rewrite Z.shiftr_div_pow2 by lia.
  repeat destruct H as [H|H]; subst n; (rewrite lor_add; [|lia|]); cbn; Z.to_euclidean_division_equations; lia.
Qed.

Lemma pack3 w n : n = 1 \/ n = 2 ->
  byte_of_Z (Z.lor (Z.lor (Z.shiftl (w / 1024 mod 32) (n + 5)) (Z.shiftl (w / 32 mod 32) n)) (Z.shiftr (w mod 32) (5 - n)))
    = byte_of_Z (w / 2 ^ (5 - n)).
Proof.
  intros H. apply byte_of_Z_mod. rewrite Z.shiftr_div_pow2, <- Z.lor_assoc by lia.
  repeat destruct H as [H|H]; subst n; (rewrite (lor_add (w / 32 mod 32)); [|lia|cbn; Z.to_euclidean_division_equations; lia]);
    (rewrite lor_add; [|lia|cbn; Z.to_euclidean_division_equations; lia]); cbn; Z.to_euclidean_division_equations; lia.
Qed.

Lemma group_shift V a k m : a = k + m -> 0 <= k -> 0 <= m -> V / 2 ^ a = V / 2 ^ k / 2 ^ m.
Proof. intros ->. intros. by rewrite Z.pow_add_r, Z.div_div by lia. Qed.

Lemma pack_groups block :
  let d k := Z.land (Z.shiftr block k) 31 in
  byte_of_Z (Z.lor (Z.shiftl (d 35) 3) (Z.shiftr (d 30) 2)) = block_byte block 0 /\
  byte_of_Z (Z.lor (Z.lor (Z.shiftl (d 30) 6) (Z.shiftl (d 25) 1)) (Z.shiftr (d 20) 4)) = block_byte block 1 /\
  byte_of_Z (Z.lor (Z.shiftl (d 20) 4) (Z.shiftr (d 15) 1)) = block_byte block 2 /\
  byte_of_Z (Z.lor (Z.lor (Z.shiftl (d 15) 7) (Z.shiftl (d 10) 2)) (Z.shiftr (d 5) 3)) = block_byte block 3 /\
  byte_of_Z (Z.lor (Z.shiftl (d 5) 5) (d 0)) = block_byte block 4.
Proof.
  cbv beta zeta. rewrite !group_value by lia. unfold block_byte. rewrite !(Z.shiftr_div_pow2 block) by lia.
  repeat split.
  - rewrite (group_shift block 35 30 5), (group_shift block (32 - _) 30 2) by lia. apply (pack2 _ 3). lia.
  - rewrite (group_shift block 30 20 10), (group_shift block 25 20 5), (group_shift block (32 - _) 20 4) by lia. apply (pack3 _ 1). lia.
  - rewrite (group_shift block 20 15 5), (group_shift block (32 - _) 15 1) by lia. apply (pack2 _ 4). lia.
  - rewrite (group_shift block 15 5 10), (group_shift block 10 5 5), (group_shift block (32 - _) 5 3) by lia. apply (pack3 _ 2). lia.
  - pose proof (pack2 block 5) as H. rewrite Z.shiftr_0_r in H. rewrite !Z.div_1_r in *. apply H. lia.
Qed.

(** The letters of a block give its bytes back. *)
Lemma quantum_roundtrip (n : nat) block :
  (1 <= n <= 5)%nat ->
  quantum_bytes ((fun v => Z.land v 31) <$> map (fun i => Z.shiftr block (35 - 5 * Z.of_nat i)) (seq 0 (b32_quantum n)))
    = map (block_byte block) (seq 0 n).
Proof.
  intros Hn. destruct (pack_groups block) as (H0 & H1 & H2 & H3 & H4).
  assert (n = 1 \/ n = 2 \/ n = 3 \/ n = 4 \/ n = 5)%nat as H by lia.
  repeat destruct H as [H|H]; subst n; unfold quantum_bytes; cbn -[Z.lor Z.shiftl Z.shiftr Z.land byte_of_Z block_byte];
    change (35 - 5 * Z.of_nat 0) with 35; change (35 - 5 * Z.of_nat 1) with 30; change (35 - 5 * Z.of_nat 2) with 25;
    change (35 - 5 * Z.of_nat 3) with 20; change (35 - 5 * Z.of_nat 4) with 15; change (35 - 5 * Z.of_nat 5) with 10;
    change (35 - 5 * Z.of_nat 6) with 5; change (35 - 5 * Z.of_nat 7) with 0; by rewrite ?H0, ?H1, ?H2, ?H3, ?H4.
Qed.

(** The bytes of the block of at most five bytes. *)
Lemma block_bytes bs : (length bs <= 5)%nat -> map (block_byte (b32_block bs)) (seq 0 (length bs)) = bs.
Proof.
  intros Hl.
  assert (H5 : forall b0 b1 b2 b3 b4, map (block_byte (foldl (fun acc b => Z.lor (Z.shiftl acc 8) (Z_of_byte b)) 0 [b0; b1; b2; b3; b4])) (seq 0 5)
                 = [b0; b1; b2; b3; b4]).
  { intros b0 b1 b2 b3 b4. cbn [foldl].
    pose proof (Z_of_byte_range b0). pose proof (Z_of_byte_range b1). pose proof (Z_of_byte_range b2).
    pose proof (Z_of_byte_range b3). pose proof (Z_of_byte_range b4).
    rewrite !(lor_add _ _ 8) by (cbn; lia). unfold block_byte. cbn [map seq].
    rewrite !Z.shiftr_div_pow2 by lia. change (2 ^ 8) with 256.
    change (2 ^ (32 - 8 * Z.of_nat 0)) with 4294967296. change (2 ^ (32 - 8 * Z.of_nat 1)) with 16777216.
    change (2 ^ (32 - 8 * Z.of_nat 2)) with 65536. change (2 ^ (32 - 8 * Z.of_nat 3)) with 256.
    change (2 ^ (32 - 8 * Z.of_nat 4)) with 1.
    do 4 (f_equal; [etrans; [apply byte_of_Z_mod | apply byte_of_Z_of_byte]; Z.to_euclidean_division_equations; lia|]).
    f_equal. etrans; [apply byte_of_Z_mod | apply byte_of_Z_of_byte]. Z.to_euclidean_division_equations; lia. }
  unfold b32_block. set (full := bs ++ replicate (5 - length bs) Byte.x00).
  assert (Hfull : length full = 5%nat) by (unfold full; rewrite length_app, length_replicate; lia).
  transitivity (take (length bs) full); [|unfold full; apply take_app_length].
  destruct full as [|b0 [|b1 [|b2 [|b3 [|b4 [|]]]]]]; try done. rewrite <- H5 at 2. rewrite firstn_map. f_equal.
  by rewrite take_seq, Nat.min_l by lia.
Qed.

Lemma b32_letters_map k block :
  b32_letters k block = b32_letter <$> map (fun i => Z.shiftr block (35 - 5 * Z.of_nat i)) (seq 0 k).
Proof. unfold b32_letters. symmetry. apply map_map. Qed.

Lemma quantum_short n : (1 <= n <= 5)%nat -> ((b32_quantum n < 8)%nat <-> (n < 5)%nat) /\ (1 <= b32_quantum n)%nat.
Proof. intros H. assert (n = 1 \/ n = 2 \/ n = 3 \/ n = 4 \/ n = 5)%nat as [->|[->|[->|[->| ->]]]] by lia; cbn; lia. Qed.

Lemma write_at_app pre old new post :
  length old = length new -> write_at (pre ++ old ++ post) (length pre) new = Ok (pre ++ new ++ post).
Proof.
  intros Hl. unfold write_at. rewrite decide_True by (right; rewrite !length_app; lia).
  by rewrite take_app_length, <- Hl, drop_app_add, drop_app_length.
Qed.

(** One quantum: the letters of one to five bytes, which are the last unless they are five. *)
Lemma decode_chunk fuel chunk rest pre old post :
  (1 <= length chunk <= 5)%nat -> length chunk = 5%nat \/ rest = [] -> length old = length chunk ->
  b32_decode (S fuel) (pre ++ old ++ post) (length pre) (b32_letters (b32_quantum (length chunk)) (b32_block chunk) ++ rest) =
  if decide (length chunk < 5)%nat then Ok (pre ++ chunk ++ post, false)
  else b32_decode fuel (pre ++ chunk ++ post) (length pre + 5) rest.
Proof.
  intros Hc Hrest Hold. destruct (quantum_short _ Hc) as [Hq Hq1]. rewrite b32_letters_map.
  set (ds := map _ _). assert (Hds : length ds = b32_quantum (length chunk)) by (unfold ds; by rewrite length_map, length_seq).
  assert (Hbytes : quantum_bytes ((fun v => Z.land v 31) <$> ds) = chunk).
  { unfold ds. rewrite quantum_roundtrip by lia. apply block_bytes. lia. }
  assert (Hr : read_quantum 0 8 ((b32_letter <$> ds) ++ rest) = Some ((fun v => Z.land v 31) <$> ds, rest, bool_decide (length ds < 8)%nat)).
  { apply read_letters. rewrite Hds. destruct (decide (length chunk < 5)%nat) as [Hlt|Hge].
    - right. split; [by apply Hq|]. destruct Hrest; [lia|done].
    - left. destruct (decide (b32_quantum (length chunk) < 8)%nat) as [H8|H8]; [apply Hq in H8; lia|].
      assert (length chunk = 5)%nat as -> by lia. done. }
  destruct ((b32_letter <$> ds) ++ rest) as [|x t] eqn:Ex.
  { destruct ds; [cbn in Hds; lia|done]. }
  cbn [b32_decode]. rewrite Hr, Hbytes, write_at_app, bind_Ok by done. rewrite Hds.
  destruct (decide (length chunk < 5)%nat) as [Hlt|Hge]; [by rewrite bool_decide_eq_true_2 by by apply Hq|].
  rewrite bool_decide_eq_false_2; [done|]. by intros H8%Hq.
Qed.

(** Decoding what encoding wrote, into any place with room for it. *)
Lemma decode_encode fuel fuel' src pre old post :
  (length src <= fuel)%nat -> (length (b32_encode fuel src) <= fuel')%nat -> length old = length src ->
  b32_decode fuel' (pre ++ old ++ post) (length pre) (b32_encode fuel src) = Ok (pre ++ src ++ post, false).
Proof.
  revert fuel' src pre old. induction fuel as [|fuel IH]; intros fuel' src pre old Hf Hf' Hold.
  { destruct src; [|cbn in Hf; lia]. destruct old; [|done]. by destruct fuel'. }
  destruct src as [|b src']; [destruct old; [by destruct fuel'|done]|]. remember (b :: src') as src eqn:Esrc.
  assert (Hpos : (1 <= length src)%nat) by (subst; cbn; lia).
  assert (Eenc : b32_encode (S fuel) src = b32_letters (b32_quantum (length src)) (b32_block (take 5 src)) ++ b32_encode fuel (drop 5 src))
    by (subst; done).
  rewrite Eenc in *. clear Eenc Esrc.
  assert (Hn : (length (take 5 src) = length src `min` 5)%nat) by (rewrite length_take; lia).
  assert (Hq : b32_quantum (length src) = b32_quantum (length (take 5 src))).
  { rewrite Hn. destruct (length src) as [|[|[|[|[|m]]]]]; done. }
  rewrite Hq in *. rewrite length_app in Hf'. destruct (quantum_short (length (take 5 src))) as [_ Hq1]; [lia|].
  unfold b32_letters in Hf' at 1. rewrite length_map, length_seq in Hf'. destruct fuel' as [|fuel']; [lia|].
  assert (Hold' : old = take (length (take 5 src)) old ++ drop (length (take 5 src)) old) by by rewrite take_drop.
  rewrite Hold' at 1. rewrite <- app_assoc, decode_chunk; cycle 1.
  { lia. } { destruct (decide (length (take 5 src) = 5)%nat); [by left|right]. rewrite drop_ge by lia. by destruct fuel. }
  { rewrite length_take. lia. }
  destruct (decide _) as [Hlt|Hge].
  - rewrite drop_ge, take_ge by lia. done.
  - rewrite app_assoc. replace (length pre + 5)%nat with (length (pre ++ take 5 src)) by (rewrite length_app; lia).
    rewrite IH by (rewrite ?length_drop; lia).
    by rewrite <- app_assoc, (app_assoc (take 5 src)), take_drop.
Qed.

Lemma letters_no_newline k block : Forall (fun c => c <> Byte.x0a /\ c <> Byte.x0d) (b32_letters k block).
Proof. rewrite b32_letters_map. apply Forall_fmap, list.Forall_true. intros v. by destruct (letter_plain v). Qed.

Lemma encode_no_newline fuel src : Forall (fun c => c <> Byte.x0a /\ c <> Byte.x0d) (b32_encode fuel src).
Proof.
  revert src. induction fuel as [|fuel IH]; intros [|b src]; try constructor. cbn [b32_encode].
  apply Forall_app. split; [apply letters_no_newline | apply IH].
Qed.

Lemma filter_all {A} (P : A -> Prop) `{!forall x, Decision (P x)} (l : list A) : Forall P l -> filter P l = l.
Proof. induction 1 as [|x l Hx _ IH]; [done|]. by rewrite filter_cons_True, IH. Qed.

Lemma Decode_Encode dst src : length dst = length src -> b32_Decode dst (EncodeToString src) = Ok (src, false).
Proof.
  intros Hl. unfold b32_Decode, EncodeToString. rewrite filter_all by apply encode_no_newline.
  pose proof (decode_encode (length src) (length (b32_encode (length src) src)) src [] dst []) as H.
  cbn [app length] in H. rewrite !app_nil_r in H. apply H; lia.
Qed.

(** Reading the text of a trace id gives the id back; the zero id is the empty text. *)
Lemma ParseTraceID_String id : is_TraceID id -> ParseTraceID (TraceID_String id) = Ok (id, false).
Proof.
  intros Hid. unfold ParseTraceID, TraceID_String. destruct (decide _) as [->|_]; [done|]. by apply Decode_Encode.
Qed.

Lemma TraceID_String_empty id : is_TraceID id -> TraceID_String id = [] -> id = zero_TraceID.
Proof. intros Hid He. pose proof (ParseTraceID_String id Hid) as H. rewrite He in H. by injection H. Qed.

(** The array of an id has room for 26 letters; two letters more are a panic. *)
Lemma long_trace_id_panics : ParseTraceID (replicate 28 (b32_letter 1)) = Crash.
Proof. vm_compute. reflexivity. Qed.
