(* ===== verification/Strconv.v ===== *)
(** The parts of [strconv] the sources use: decimal integers and booleans, printed and parsed. *)

From S2P Require Import Prelude.

Inductive NumErr := ErrSyntax | ErrRange.

Definition digit (d : Z) : byte := byte_of_Z (48 + d).

(** The digits of [n] before [acc]; each round drops a digit. *)
Fixpoint digits_loop (fuel : nat) (n : Z) (acc : gostring) : gostring :=
  match fuel with
  | O => acc
  | S fuel => if n <? 10 then digit n :: acc else digits_loop fuel (n / 10) (digit (n mod 10) :: acc)
  end.

Definition FormatUint (n : Z) : gostring := digits_loop (S (Z.to_nat (Z.log2 n))) n [].

Definition FormatInt (n : Z) : gostring := if n <? 0 then lit "-" ++ FormatUint (- n) else FormatUint n.

Definition is_digit (c : byte) : bool := (48 <=? Z_of_byte c) && (Z_of_byte c <=? 57).

Fixpoint parse_digits (n : Z) (s : gostring) : NumErr + Z :=
  match s with
  | [] => inr n
  | c :: s =>
      if negb (is_digit c) then inl ErrSyntax
      else if (2^64 - 1) / 10 + 1 <=? n then inl ErrRange
      else let n1 := n * 10 + (Z_of_byte c - 48) in
           if 2^64 <=? n1 then inl ErrRange else parse_digits n1 s
  end.

(** [ParseUint(s, 10, 64)] and [ParseInt(s, 10, 64)]. *)
Definition ParseUint (s : gostring) : NumErr + Z := match s with [] => inl ErrSyntax | _ => parse_digits 0 s end.

Definition ParseInt (s : gostring) : NumErr + Z :=
  match s with
  | [] => inl ErrSyntax
  | c :: r =>
      let neg := bool_decide (c = Byte.x2d) in
      let u := if neg || bool_decide (c = Byte.x2b) then ParseUint r else ParseUint s in
      match u with
      | inl e => inl e
      | inr un =>
          if negb neg && (2^63 <=? un) then inl ErrRange
          else if neg && (2^63 <? un) then inl ErrRange
          else inr (if neg then - un else un)
      end
  end.

Definition FormatBool (b : bool) : gostring := if b then lit "true" else lit "false".

Definition ParseBool (s : gostring) : NumErr + bool :=
  if decide (s ∈ [lit "1"; lit "t"; lit "T"; lit "true"; lit "TRUE"; lit "True"]) then inr true
  else if decide (s ∈ [lit "0"; lit "f"; lit "F"; lit "false"; lit "FALSE"; lit "False"]) then inr false
  else inl ErrSyntax.

(** ** Round trips *)

Lemma ParseBool_Format b : ParseBool (FormatBool b) = inr b.
Proof. by destruct b. Qed.

Lemma digit_value d : 0 <= d < 10 -> Z_of_byte (digit d) = 48 + d.
Proof. intros Hd. unfold digit. rewrite Z_of_byte_of_Z. apply Z.mod_small. lia. Qed.

Lemma digit_is_digit d : 0 <= d < 10 -> is_digit (digit d) = true.
Proof. intros Hd. unfold is_digit. rewrite digit_value by done. lia. Qed.

(** Reading the digits of [n] continues with [n]. *)
Lemma parse_digits_loop fuel n acc :
  0 <= n < 2 ^ 64 -> n < 2 ^ Z.of_nat fuel -> parse_digits 0 (digits_loop fuel n acc) = parse_digits n acc.
Proof.
  revert n acc. induction fuel as [|fuel IH]; intros n acc Hn Hf; [cbn in Hf; by replace n with 0 by lia|].
  cbn [digits_loop]. destruct (n <? 10) eqn:E10.
  - cbn [parse_digits]. rewrite digit_is_digit, digit_value by lia. cbn [negb].
    replace ((2 ^ 64 - 1) / 10 + 1 <=? 0) with false by done.
    replace (0 * 10 + (48 + n - 48)) with n by lia. by replace (2 ^ 64 <=? n) with false by lia.
  - rewrite Nat2Z.inj_succ, Z.pow_succ_r in Hf by lia.
    rewrite IH by (Z.to_euclidean_division_equations; lia).
    pose proof (Z.mod_pos_bound n 10). cbn [parse_digits]. rewrite digit_is_digit, digit_value by lia. cbn [negb].
    change ((2 ^ 64 - 1) / 10 + 1) with 1844674407370955162.
    replace (1844674407370955162 <=? n / 10) with false by (Z.to_euclidean_division_equations; lia).
    replace (n / 10 * 10 + (48 + n mod 10 - 48)) with n by (Z.to_euclidean_division_equations; lia).
    by replace (2 ^ 64 <=? n) with false by lia.
Qed.

Lemma digits_loop_cons fuel n acc : exists c s, 0 <= n -> digits_loop (S fuel) n acc = c :: s /\ is_digit c = true.
Proof.
  revert n acc. induction fuel as [|fuel IH]; intros n acc.
  - cbn. destruct (n <? 10) eqn:E; eexists _, _; (split; [done|]); apply digit_is_digit; [lia|apply Z.mod_pos_bound; lia].
  - remember (S fuel) as f. cbn [digits_loop]. subst f. destruct (n <? 10) eqn:E.
    + eexists _, _. split; [done|]. apply digit_is_digit. lia.
    + destruct (IH (n / 10) (digit (n mod 10) :: acc)) as (c & s & H). exists c, s. intros Hn. apply H.
      Z.to_euclidean_division_equations; lia.
Qed.

Lemma FormatUint_cons n : 0 <= n -> exists c s, FormatUint n = c :: s /\ is_digit c = true.
Proof. intros Hn. destruct (digits_loop_cons (Z.to_nat (Z.log2 n)) n []) as (c & s & H). exists c, s. by apply H. Qed.

Lemma ParseUint_Format n : is_u64 n -> ParseUint (FormatUint n) = inr n.
Proof.
  intros Hn. unfold is_u64 in Hn. unfold ParseUint. destruct (FormatUint_cons n) as (c & s & E & _); [lia|]. rewrite E, <- E.
  unfold FormatUint. rewrite parse_digits_loop; [done|done|]. rewrite Nat2Z.inj_succ, Z2Nat.id by apply Z.log2_nonneg.
  destruct (decide (n = 0)) as [->|H0]; [done|]. apply Z.log2_spec. lia.
Qed.

Lemma ParseInt_Format n : is_i64 n -> ParseInt (FormatInt n) = inr n.
Proof.
  intros Hn. unfold is_i64 in Hn. unfold FormatInt. destruct (n <? 0) eqn:Eneg.
  - change (lit "-" ++ FormatUint (- n)) with (Byte.x2d :: FormatUint (- n)). unfold ParseInt.
    change (bool_decide (Byte.x2d = Byte.x2d)) with true. cbn [orb negb andb]. rewrite ParseUint_Format by (unfold is_u64; lia).
    replace (2 ^ 63 <? - n) with false by lia. f_equal. lia.
  - destruct (FormatUint_cons n) as (c & s & E & Hc); [lia|]. unfold ParseInt. rewrite E, <- E.
    rewrite !bool_decide_eq_false_2 by (intros ->; done). cbn [orb negb andb].
    rewrite ParseUint_Format by (unfold is_u64; lia). by replace (2 ^ 63 <=? n) with false by lia.
Qed.

(** A negative number is printed with a sign [ParseUint] rejects, so a text has one reading. *)
Lemma FormatInt_inj n m : is_i64 n -> is_i64 m -> FormatInt n = FormatInt m -> n = m.
Proof. intros Hn Hm H. apply ParseInt_Format in Hn, Hm. rewrite H in Hn. congruence. Qed.
