(* ===== verification/PubsubAttrs.v ===== *)
(** Message attributes: [runtimes/go/pubsub/internal/utils/utils.go] ([MarshalFields],
    [UnmarshalFields], [UnmarshalMessage]).

    The functions work by reflection on a struct, so a message is a list of fields with their
    declared types, the result of the lookup of the struct tag, and their values.  A type other
    than a pointer has its kind and, when it is a named type with a [String] method, that method,
    which [fmt] prefers over the default text.  Floating point numbers and their text are the
    class [FloatText].  The cache of assigners is keyed by the kind, on which alone they depend. *)

From S2P Require Import Prelude Run Strconv.

Class FloatText := {
  float : Type;
  complex : Type;
  Sprint_float : Z -> float -> gostring;      (* the default text of a float of so many bits *)
  ParseFloat : gostring -> option float;      (* strconv.ParseFloat(_, 64) *)
  narrow_float : Z -> float -> float;         (* what SetFloat keeps *)
  Sprint_complex : Z -> complex -> gostring;
  ParseComplex : gostring -> option complex;  (* strconv.ParseComplex(_, 128) *)
  narrow_complex : Z -> complex -> complex
}.

(** [reflect.Kind], in its order. *)
Inductive Kind :=
| KInvalid | KBool | KInt | KInt8 | KInt16 | KInt32 | KInt64 | KUint | KUint8 | KUint16 | KUint32 | KUint64 | KUintptr
| KFloat32 | KFloat64 | KComplex64 | KComplex128 | KArray | KChan | KFunc | KInterface | KMap | KPointer | KSlice
| KString | KStruct | KUnsafePointer.

#[export] Instance Kind_eq_dec : EqDecision Kind.
Proof. solve_decision. Defined.

(** [kind >= reflect.Array]. *)
Definition at_least_array (k : Kind) : bool :=
  match k with
  | KArray | KChan | KFunc | KInterface | KMap | KPointer | KSlice | KString | KStruct | KUnsafePointer => true
  | _ => false
  end.

Section Attrs.
Context `{FloatText}.

Inductive scalar := VBool (b : bool) | VInt (z : Z) | VUint (z : Z) | VFloat (f : float) | VComplex (c : complex) | VString (s : gostring).

Inductive ftype := TBase (k : Kind) (String_ : option (scalar -> gostring)) | TPointer (t : ftype).

(** [FOther]: a value of a kind that is not basic. *)
Inductive fval := FScalar (v : scalar) | FOther | FNil | FPtr (v : fval).

Record field := mkField { f_tag : option gostring; f_exported : bool; f_type : ftype; f_val : fval }.

Inductive msg := MStruct (fs : list field) | MPointer (m : option msg) | MOther.

Inductive attr_err := NotStruct | NotPointer | UnsupportedKind (k : Kind) | BadValue.

Abbreviation attrs := (gmap (list Init.Byte.byte) (list Init.Byte.byte)).

(** ** Writing *)

Definition width (k : Kind) : Z :=
  match k with
  | KInt8 | KUint8 => 8 | KInt16 | KUint16 => 16 | KInt32 | KUint32 | KFloat32 => 32 | KComplex128 => 128 | _ => 64
  end.

(** [fmt.Sprintf("%v", v)]. *)
Definition Sprint (k : Kind) (String_ : option (scalar -> gostring)) (v : scalar) : gostring :=
  match String_ with
  | Some f => f v
  | None =>
      match v with
      | VBool b => FormatBool b
      | VInt z => FormatInt z
      | VUint z => FormatUint z
      | VFloat f => Sprint_float (width k) f
      | VComplex c => Sprint_complex (width k) c
      | VString s => s
      end
  end.

Fixpoint base_type (t : ftype) : Kind * option (scalar -> gostring) :=
  match t with TBase k s => (k, s) | TPointer t => base_type t end.

(** Following the pointers of a value; [None] when one of them is nil. *)
Fixpoint deref (v : fval) : option fval :=
  match v with FNil => None | FPtr v => deref v | _ => Some v end.

Definition marshal_field (f : field) (rtn : attrs) : run (attr_err + attrs) :=
  match f_tag f, deref (f_val f) with
  | Some name, Some v =>
      let '(k, str) := base_type (f_type f) in
      if at_least_array k && negb (bool_decide (k = KString)) then Ok (inl (UnsupportedKind k))
      else if negb (f_exported f) then Crash   (* Interface on an unexported field *)
      else match v with
           | FScalar s => Ok (inr (<[name := Sprint k str s]> rtn))
           | _ => Crash   (* no value of a basic kind *)
           end
  | _, _ => Ok (inr rtn)
  end.

Fixpoint marshal_fields (fs : list field) (rtn : attrs) : run (attr_err + attrs) :=
  match fs with
  | [] => Ok (inr rtn)
  | f :: fs =>
      r ← marshal_field f rtn;
      match r with inl e => Ok (inl e) | inr rtn => marshal_fields fs rtn end
  end.

Fixpoint MarshalFields (m : msg) : run (attr_err + attrs) :=
  match m with
  | MStruct fs => marshal_fields fs ∅
  | MPointer (Some m) => MarshalFields m
  | MPointer None | MOther => Ok (inl NotStruct)
  end.

(** ** Reading *)

Definition sext (bits z : Z) : Z := (z + 2 ^ (bits - 1)) mod 2 ^ bits - 2 ^ (bits - 1).

(** The assigner of a kind: parsing, and what the setter of that kind stores. *)
Definition parse_value (k : Kind) (s : gostring) : option (attr_err + scalar) :=
  match k with
  | KString => Some (inr (VString s))
  | KInt | KInt8 | KInt16 | KInt32 | KInt64 =>
      Some (match ParseInt s with inr z => inr (VInt (sext (width k) z)) | inl _ => inl BadValue end)
  | KFloat32 | KFloat64 =>
      Some (match ParseFloat s with Some f => inr (VFloat (narrow_float (width k) f)) | None => inl BadValue end)
  | KBool => Some (match ParseBool s with inr b => inr (VBool b) | inl _ => inl BadValue end)
  | KUint | KUint8 | KUint16 | KUint32 | KUint64 =>
      Some (match ParseUint s with inr z => inr (VUint (z mod 2 ^ width k)) | inl _ => inl BadValue end)
  | KComplex64 | KComplex128 =>
      Some (match ParseComplex s with Some c => inr (VComplex (narrow_complex (width k) c)) | None => inl BadValue end)
  | _ => None
  end.

Fixpoint ptrDepth (t : ftype) : nat := match t with TBase _ _ => 0 | TPointer t => S (ptrDepth t) end.

(** [pointify]: wrapping a value in fresh pointers. *)
Fixpoint pointify (v : fval) (depth : nat) : fval := match depth with O => v | S depth => pointify (FPtr v) depth end.

(** [setValue]: with or without pointers; setting an unexported field is a panic. *)
Definition setValue (s : scalar) (f : field) : run field :=
  if f_exported f then Ok (mkField (f_tag f) (f_exported f) (f_type f) (pointify (FScalar s) (ptrDepth (f_type f)))) else Crash.

Definition field_kind (f : field) : Kind := match f_type f with TBase k _ => k | TPointer _ => KPointer end.

Definition unmarshal_field (m : attrs) (f : field) : run (attr_err + field) :=
  match f_tag f with
  | None => Ok (inr f)
  | Some name =>
      match m !! name with
      | None => Ok (inr f)
      | Some attrVal =>
          match parse_value (base_type (f_type f)).1 attrVal with
          | None => Ok (inl (UnsupportedKind (field_kind f)))
          | Some (inl e) => Ok (inl e)
          | Some (inr s) => f' ← setValue s f; Ok (inr f')
          end
      end
  end.

Fixpoint unmarshal_fields (m : attrs) (fs : list field) : run (attr_err + list field) :=
  match fs with
  | [] => Ok (inr [])
  | f :: fs =>
      r ← unmarshal_field m f;
      match r with
      | inl e => Ok (inl e)
      | inr f' => rs ← unmarshal_fields m fs; Ok (match rs with inl e => inl e | inr fs' => inr (f' :: fs') end)
      end
  end.

(** The message after the assignment, for a target behind pointers. *)
Fixpoint unmarshal_struct (m : attrs) (v : msg) : run (attr_err + msg) :=
  match v with
  | MStruct fs => r ← unmarshal_fields m fs; Ok (match r with inl e => inl e | inr fs => inr (MStruct fs) end)
  | MPointer (Some v) => r ← unmarshal_struct m v; Ok (match r with inl e => inl e | inr v => inr (MPointer (Some v)) end)
  | MPointer None | MOther => Ok (inl NotStruct)
  end.

Definition UnmarshalFields (m : attrs) (v : msg) : run (attr_err + msg) :=
  match v with MPointer _ => unmarshal_struct m v | _ => Ok (inl NotPointer) end.

(** [UnmarshalMessage], with [json.Unmarshal] of the message type as an argument; both errors
    become [InvalidArgument]. *)
Definition UnmarshalMessage (json_Unmarshal : gostring -> option msg) (m : attrs) (data : gostring) : run (option msg) :=
  match json_Unmarshal data with
  | None => Ok None
  | Some v =>
      r ← UnmarshalFields m (MPointer (Some v));
      Ok (match r with inr (MPointer (Some v)) => Some v | _ => None end)
  end.

(** ** Well-formed messages *)

(** A value of a kind whose text, as [fmt] writes it, the reader turns back into the value. *)
Definition exact (k : Kind) (v : scalar) : Prop :=
  match k, v with
  | KBool, VBool _ | KString, VString _ => True
  | (KInt | KInt8 | KInt16 | KInt32 | KInt64), VInt z => - 2 ^ (width k - 1) <= z < 2 ^ (width k - 1)
  | (KUint | KUint8 | KUint16 | KUint32 | KUint64), VUint z => 0 <= z < 2 ^ width k
  | (KFloat32 | KFloat64), VFloat f => exists g, ParseFloat (Sprint_float (width k) f) = Some g /\ narrow_float (width k) g = f
  | (KComplex64 | KComplex128), VComplex c => exists d, ParseComplex (Sprint_complex (width k) c) = Some d /\ narrow_complex (width k) d = c
  | _, _ => False
  end.

(** A value of a type: all pointers set, or the outermost nil. *)
Fixpoint whole (t : ftype) (v : fval) : Prop :=
  match t, v with
  | TBase k None, FScalar s => exact k s
  | TPointer t, FPtr v => whole t v
  | _, _ => False
  end.

(** A field without a tag is free; a field with a tag is exported and set, or a nil pointer. *)
Definition field_ok (f : field) : Prop :=
  match f_tag f with
  | None => True
  | Some _ => f_exported f = true /\ (f_val f = FNil \/ whole (f_type f) (f_val f))
  end.

Definition same_decl (f f' : field) : Prop :=
  f_tag f = f_tag f' /\ f_exported f = f_exported f' /\ f_type f = f_type f'.

Definition tags (fs : list field) : list gostring := omap f_tag fs.

(** The target with the tagged, non-nil fields of the message. *)
Definition restore (f f' : field) : field :=
  match f_tag f, f_val f with
  | None, _ | _, FNil => f'
  | Some _, v => mkField (f_tag f') (f_exported f') (f_type f') v
  end.

(** The attribute of a field. *)
Definition field_attr (f : field) : option (gostring * gostring) :=
  match f_tag f, deref (f_val f) with
  | Some name, Some (FScalar s) => Some (name, Sprint (base_type (f_type f)).1 (base_type (f_type f)).2 s)
  | _, _ => None
  end.

Definition add_attr (rtn : attrs) (f : field) : attrs :=
  match field_attr f with Some (k, v) => <[k := v]> rtn | None => rtn end.

(** ** The round trip *)

Lemma exact_kind k v : exact k v -> at_least_array k && negb (bool_decide (k = KString)) = false.
Proof. by destruct k. Qed.

Lemma sext_id bits z : 1 <= bits -> - 2 ^ (bits - 1) <= z < 2 ^ (bits - 1) -> sext bits z = z.
Proof.
  intros Hb Hz. unfold sext. replace (2 ^ bits) with (2 * 2 ^ (bits - 1)); [rewrite Z.mod_small; lia|].
  rewrite <- Z.pow_succ_r by lia. f_equal. lia.
Qed.

Lemma width_range k z : - 2 ^ (width k - 1) <= z < 2 ^ (width k - 1) -> width k <= 64 -> is_i64 z.
Proof.
  intros Hz Hw. unfold is_i64. assert (2 ^ (width k - 1) <= 2 ^ 63) by (apply Z.pow_le_mono_r; lia). lia.
Qed.

(** Parsing the text of a value gives the value. *)
Lemma parse_Sprint k v : exact k v -> parse_value k (Sprint k None v) = Some (inr v).
Proof.
  intros He. destruct k, v; try done; cbn [exact] in He; cbn [parse_value Sprint];
    try (rewrite ParseInt_Format by (eapply width_range; [exact He | cbn; lia]); rewrite sext_id; [done|cbn; lia|done]);
    try (rewrite ParseUint_Format by (cbn [width] in He; unfold is_u64; cbn in *; lia); rewrite Z.mod_small; done);
    try (by rewrite ParseBool_Format);
    destruct He as (g & H1 & H2); by rewrite H1, H2.
Qed.

Lemma whole_deref t v : whole t v ->
  exists k s, base_type t = (k, None) /\ exact k s /\ deref v = Some (FScalar s) /\ v = pointify (FScalar s) (ptrDepth t).
Proof.
  assert (Hp : forall d u, pointify (FPtr u) d = FPtr (pointify u d)) by (induction d as [|d IH]; intros u; [done|apply IH]).
  revert v. induction t as [k [str|]|t IH]; intros [s| | |v] Hw; try done.
  - by exists k, s.
  - destruct (IH v Hw) as (k & s & H1 & H2 & H3 & H4). exists k, s. split; [done|]. split; [done|]. split; [done|].
    cbn [ptrDepth pointify]. by rewrite Hp, <- H4.
Qed.

Lemma marshal_field_ok f rtn : field_ok f -> marshal_field f rtn = Ok (inr (add_attr rtn f)).
Proof.
  unfold field_ok, marshal_field, add_attr, field_attr. destruct (f_tag f) as [name|]; [|done].
  intros [Hexp [-> |Hw]]; [done|]. destruct (whole_deref _ _ Hw) as (k & s & Hb & He & Hd & _).
  by rewrite Hd, Hb, (exact_kind _ _ He), Hexp.
Qed.

Lemma marshal_fields_ok fs rtn : Forall field_ok fs -> marshal_fields fs rtn = Ok (inr (foldl add_attr rtn fs)).
Proof.
  intros Hf. revert rtn. induction Hf as [|f fs Hf _ IH]; intros rtn; [done|]. cbn [marshal_fields foldl].
  by rewrite marshal_field_ok, bind_Ok.
Qed.

Lemma field_attr_tag f k v : field_attr f = Some (k, v) -> f_tag f = Some k.
Proof. unfold field_attr. destruct (f_tag f); [|done]. destruct (deref _) as [[]|]; try done. by intros [= -> _]. Qed.

Lemma add_attr_ne rtn f name : f_tag f <> Some name -> add_attr rtn f !! name = rtn !! name.
Proof.
  intros Hne. unfold add_attr. destruct (field_attr f) as [[k v]|] eqn:E; [|done]. apply field_attr_tag in E.
  rewrite lookup_insert_ne; [done|]. congruence.
Qed.

Lemma add_attrs_other fs rtn name : name ∉ tags fs -> foldl add_attr rtn fs !! name = rtn !! name.
Proof.
  revert rtn. induction fs as [|f fs IH]; intros rtn Hn; [done|]. cbn [foldl]. unfold tags in Hn. cbn [omap list_omap] in Hn.
  destruct (f_tag f) as [k|] eqn:E.
  - apply not_elem_of_cons in Hn as [Hk Hn]. rewrite IH by done. apply add_attr_ne. congruence.
  - rewrite IH by done. apply add_attr_ne. by rewrite E.
Qed.

Lemma add_attrs_lookup fs rtn f name :
  NoDup (tags fs) -> f ∈ fs -> f_tag f = Some name -> rtn !! name = None ->
  foldl add_attr rtn fs !! name = snd <$> field_attr f.
Proof.
  revert rtn. induction fs as [|g fs IH]; intros rtn Hnd Hf Ht Hr; [by apply elem_of_nil in Hf|].
  unfold tags in Hnd. cbn [omap list_omap foldl] in *. apply elem_of_cons in Hf as [<-|Hf].
  - rewrite Ht in Hnd. apply list.NoDup_cons in Hnd as [Hn _]. rewrite add_attrs_other by done.
    unfold add_attr. destruct (field_attr f) as [[k v]|] eqn:E; [|done]. pose proof (field_attr_tag _ _ _ E) as Hk.
    rewrite Hk in Ht. injection Ht as ->. by rewrite lookup_insert_eq.
  - assert (Hin : name ∈ tags fs) by (apply list_elem_of_omap; by exists f).
    destruct (f_tag g) as [k|] eqn:Eg.
    + apply list.NoDup_cons in Hnd as [Hn Hnd]. apply IH; [done|done|done|]. rewrite add_attr_ne; [done|]. rewrite Eg. by intros [= ->].
    + apply IH; [done|done|done|]. rewrite add_attr_ne; [done|]. by rewrite Eg.
Qed.

Lemma unmarshal_field_ok (m : attrs) f f' :
  field_ok f -> same_decl f f' -> (forall name, f_tag f = Some name -> m !! name = snd <$> field_attr f) ->
  unmarshal_field m f' = Ok (inr (restore f f')).
Proof.
  intros Hok (Htag & Hexp & Hty) Hm. unfold unmarshal_field, restore. rewrite <- Htag. unfold field_ok in Hok.
  destruct (f_tag f) as [name|] eqn:Et; [|done]. rewrite (Hm name eq_refl). destruct Hok as [He [Hnil|Hw]].
  - unfold field_attr. by rewrite Et, Hnil.
  - destruct (whole_deref _ _ Hw) as (k & s & Hb & Hx & Hd & Hv). unfold field_attr. rewrite Et, Hd, Hb. cbn [fmap option_fmap option_map snd fst].
    rewrite <- Hty, Hb. cbn [fst]. rewrite (parse_Sprint _ _ Hx). unfold setValue. rewrite <- Hexp, He, bind_Ok, <- Htag, <- Hty, <- Hv.
    destruct (f_val f); [done|done|done|done].
Qed.

Lemma unmarshal_fields_ok (m : attrs) fs fs' :
  Forall field_ok fs -> Forall2 same_decl fs fs' ->
  (forall f name, f ∈ fs -> f_tag f = Some name -> m !! name = snd <$> field_attr f) ->
  unmarshal_fields m fs' = Ok (inr (zip_with restore fs fs')).
Proof.
  intros Hok Hd. induction Hd as [|f f' fs fs' H1 _ IH]; intros Hm; [done|]. apply list.Forall_cons in Hok as [Hf Hok].
  cbn [unmarshal_fields zip_with]. rewrite (unmarshal_field_ok m f f' Hf H1), bind_Ok.
  - rewrite IH; [done|done|]. intros g name Hg. apply Hm. by right.
  - intros name. apply Hm. by left.
Qed.

End Attrs.
Arguments attr_err : clear implicits.
