(* ===== verification/Pubsub.v ===== *)
(** Publish/subscribe: [runtimes/go/pubsub].

    - the retry policy: [NewSubscription]'s defaults (subscription.go), [GetDelay], [Clamp]
      (internal/utils/utils.go), and what the Azure, NSQ and AWS topics do with a message whose
      handler has failed (internal/azure, internal/nsq, internal/aws: topic.go);
    - [Publish] (topic.go) with the attributes that carry the trace context, and how the
      subscription callback reads them (subscription.go).

    Durations are 64-bit nanoseconds.  The cloud clients are arguments: [PublishMessage] is the
    topic implementation, and the settlement of a message is the value the topic decides on. *)

From S2P Require Import Prelude Run Strconv Errs TraceBuffer TraceModel TraceLog TraceEvents.
From S2P Require Import Base32 PubsubAttrs.

(** ** The retry policy *)

Definition Second : Z := 1000000000.
Definition Minute : Z := 60 * Second.
Definition Hour : Z := 60 * Minute.

Definition NoRetries : Z := -2.
Definition InfiniteRetries : Z := -1.

Record RetryPolicy := mkPolicy { MinBackoff : Z; MaxBackoff : Z; MaxRetries : Z }.

Definition WithDefaultValue (setValue defaultValue : Z) : Z := if setValue =? 0 then defaultValue else setValue.

Definition Clamp (d min max : Z) : Z := if d <? min then min else if max <? d then max else d.

(** The defaults [NewSubscription] fills in; negative durations are panics. *)
Definition policy_defaults (rp : option RetryPolicy) : run RetryPolicy :=
  let rp := default (mkPolicy 0 0 100) rp in
  if MinBackoff rp <? 0 then Crash
  else if MaxBackoff rp <? 0 then Crash
  else Ok (mkPolicy (WithDefaultValue (MinBackoff rp) (10 * Second)) (WithDefaultValue (MaxBackoff rp) (10 * Minute)) (MaxRetries rp)).

Definition ack_default (ackDeadline : Z) : run Z :=
  if ackDeadline =? 0 then Ok (30 * Second) else if ackDeadline <? 0 then Crash else Ok ackDeadline.

(** [float64(z)]: the nearest number with 53 significant bits, ties to even. *)
Definition float64_of_int (z : Z) : Z :=
  let e := Z.log2 (Z.abs z) - 52 in
  if e <=? 0 then z
  else let q := Z.abs z / 2 ^ e in
       let r := Z.abs z mod 2 ^ e in
       let half := 2 ^ (e - 1) in
       let q := if (half <? r) || ((half =? r) && Z.odd q) then q + 1 else q in
       Z.sgn z * (q * 2 ^ e).

Fixpoint delay_loop (attempt : nat) (backoff maxDelay : Z) : Z :=
  match attempt with
  | O => backoff
  | S attempt => let backoff := i64 (backoff * 2) in if maxDelay <? backoff then maxDelay else delay_loop attempt backoff maxDelay
  end.

Definition GetDelay (maxRetries minDelay maxDelay attempt : Z) : bool * Z :=
  if (maxRetries =? NoRetries) || ((maxRetries <? attempt) && negb (maxRetries =? InfiniteRetries)) then (false, maxDelay)
  else if maxDelay <? minDelay then (true, maxDelay)
  else (true, delay_loop (Z.to_nat attempt) (i64 (Z.max (float64_of_int Second) (float64_of_int minDelay))) maxDelay).

(** ** Settlement of messages *)

Definition u16 (z : Z) : Z := z mod 2 ^ 16.

(** The message is completed; given up (dead-lettered by Azure, dropped by NSQ); or delivered
    again after a delay. *)
Inductive settlement :=
| Complete
| GiveUp
| Retry (delay : Z).

(** [ParseInt] with its error ignored: zero for bad syntax, the nearest bound out of range. *)
Definition ParseInt_value (s : gostring) : Z :=
  match ParseInt s with
  | inr z => z
  | inl ErrSyntax => 0
  | inl ErrRange => if decide (head s = Some Byte.x2d) then - 2 ^ 63 else 2 ^ 63 - 1
  end.

(** Azure: the retry count is a property of the message, absent at first, printed as [<nil>]. *)
Definition azure_retryCount (prop : option gostring) : Z := ParseInt_value (default (lit "<nil>") prop).

Definition azure_settle (rp : RetryPolicy) (retryCount : Z) (handled : bool) : settlement :=
  let deliveryAttempt := i64 (retryCount + 1) in
  if handled then Complete
  else let '(shouldRetry, backoff) := GetDelay (MaxRetries rp) (MinBackoff rp) (MaxBackoff rp) (u16 deliveryAttempt) in
       if shouldRetry then Retry backoff else GiveUp.

(** [scheduleRetry]: the property of the rescheduled message, as it is printed when read. *)
Definition azure_retry_prop (prop : option gostring) : gostring := FormatInt (i64 (azure_retryCount prop + 1)).

(** NSQ: the attempts are counted by the server, in 16 bits. *)
Definition nsq_settle (rp : RetryPolicy) (attempts : Z) (handled : bool) : settlement :=
  if handled then Complete
  else let '(retry, delay) := GetDelay (MaxRetries rp) (MinBackoff rp) (MaxBackoff rp) attempts in
       if retry then Retry delay else GiveUp.

(** AWS: the queue counts the attempts and moves the message away; the code only sets the delay. *)
Definition aws_settle (rp : RetryPolicy) (deliveryAttempt : Z) (handled : bool) : settlement :=
  if handled then Complete
  else let '(_, delay) := GetDelay (MaxRetries rp) (MinBackoff rp) (MaxBackoff rp) (u16 deliveryAttempt) in
       Retry (Clamp delay Second (12 * Hour) / Second * Second).

Record nsq_config := mkNsq {
  MsgTimeout : Z; MaxInFlight : Z; DefaultRequeueDelay : Z; MaxRequeueDelay : Z; MaxAttempts : Z }.

Definition getConsumerConfig (maxConcurrency ackDeadline : Z) (rp : RetryPolicy) : nsq_config :=
  mkNsq (Clamp ackDeadline 0 (15 * Minute)) maxConcurrency
    (Clamp (MinBackoff rp) 0 (60 * Minute)) (Clamp (MaxBackoff rp) 0 (60 * Minute))
    (if MaxRetries rp =? 0 then 100
     else if MaxRetries rp =? InfiniteRetries then 65535
     else if 65535 <? MaxRetries rp then 65535 else u16 (MaxRetries rp)).

(** ** Publishing *)

Definition parentTraceIDAttribute : gostring := lit "encore_parent_trace_id".
Definition extCorrelationIDAttribute : gostring := lit "encore_ext_correlation_id".
Definition parentSampledAttribute : gostring := lit "encore_parent_sampled".

Section Publish.
Context `{E : GoEnv} `{F : FloatText}.

Abbreviation attrs := (gmap (list Init.Byte.byte) (list Init.Byte.byte)).

(** The correlation attributes of the current request. *)
Definition context_attrs (req : option Request) (a : attrs) : attrs :=
  match req with
  | None => a
  | Some r =>
      let traced_id := negb (bool_decide (req_TraceID r = zero_TraceID)) in
      let a := if traced_id then <[parentTraceIDAttribute := TraceID_String (req_TraceID r)]> a else a in
      let a := if negb (bool_decide (req_ExtCorrelationID r = [])) then <[extCorrelationIDAttribute := req_ExtCorrelationID r]> a
               else if traced_id then <[extCorrelationIDAttribute := TraceID_String (req_TraceID r)]> a else a in
      <[parentSampledAttribute := FormatBool (req_Traced r)]> a
  end.

(** What is handed to the topic implementation: the ordering key, the attributes and the data. *)
Definition publish_input (orderingAttribute : gostring) (json : msg -> option gostring) (req : option Request) (m : msg)
  : run (Z + gostring * attrs * gostring) :=
  r ← MarshalFields m;
  Ok (match r with
      | inl _ => inl InvalidArgument
      | inr a =>
          match json m with
          | None => inl InvalidArgument
          | Some data =>
              if decide (orderingAttribute = []) then inr ([], context_attrs req a, data)
              else match a !! orderingAttribute with
                   | None | Some [] => inl InvalidArgument
                   | Some value => inr (value, context_attrs req a, data)
                   end
          end
      end).

(** [Publish]: the trace events around the call of the topic implementation, which is entered
    when the limiter lets it.  [runtimeCfg], with the name of the topic, and the implementation are nil
    in a topic that was not made by [NewTopic].  [traced]: the request has a trace log.  The error is an error code,
    or [None] for the error of a cancelled context. *)
Definition Publish (ctx_done : bool) (runtimeCfg : option gostring) (orderingAttribute : gostring) (json : msg -> option gostring)
    (limited : error) (topic : option (gostring -> attrs -> gostring -> gostring * error))
    (req : option Request) (traced : bool) (goctr : Z) (st : Stack) (nano1 nano2 : Z) (m : msg) : LogM (option Z + gostring) := fun s =>
  if ctx_done then Some (inl None, s)
  else match runtimeCfg, topic with
  | Some EncoreName, Some PublishMessage =>
  match publish_input orderingAttribute json req m with
  | Ok (inl c) => Some (inl (Some c), s)
  | Ok (inr (orderingKey, a, data)) =>
      let ep r := mkParams (req_TraceID r) (req_SpanID r) goctr 0 in
      let start := match req with
                   | Some r => if traced then l_PubsubPublishStart nano1 (mkPubsubPublishStart (ep r) EncoreName data st) s else Some (0, s)
                   | None => Some (0, s)
                   end in
      '(startEventID, s) ← start;
      let '(id, err) := match limited with [] => PublishMessage orderingKey a data | _ => ([], limited) end in
      let end_ := match req with
                  | Some r => if traced then l_PubsubPublishEnd nano2 (mkPubsubPublishEnd (ep r) startEventID id err) s else Some (0, s)
                  | None => Some (0, s)
                  end in
      '(_, s) ← end_;
      Some (match err with [] => inr id | _ => inl (Some Unavailable) end, s)
  | _ => None
  end
  | _, _ => Some (inl (Some Unimplemented), s)
  end.

End Publish.

(** ** Receiving *)

Record message_context := mkCtx { mc_ParentTraceID : list byte; mc_ExtCorrelationID : gostring; mc_Traced : bool }.

(** The part of the subscription callback that reads the attributes; an id that does not parse is
    logged and used as far as it was decoded.  [sample] is [SampleTrace]. *)
Definition read_context (sample : bool) (a : gmap (list Init.Byte.byte) (list Init.Byte.byte)) : run message_context :=
  let s := default [] (a !! parentTraceIDAttribute) in
  parent ← (if decide (s = []) then Ok zero_TraceID else fst <$> ParseTraceID s);
  Ok (mkCtx parent (default [] (a !! extCorrelationIDAttribute))
        (match a !! parentSampledAttribute with
         | Some v => match ParseBool v with inr b => b | inl _ => false end
         | None => sample
         end)).
