(* ===== verification/PubsubTheorems.v ===== *)
(** Properties of publish/subscribe: attributes and trace context survive the way from publisher
    to subscriber, and retries follow the policy. *)

From S2P Require Import Prelude Run Strconv Errs TraceBuffer TraceModel TraceLog TraceEvents.
From S2P Require Import Base32 PubsubAttrs Pubsub.

(** ** Retry delays *)

Lemma float64_small z : Z.abs z < 2 ^ 53 -> float64_of_int z = z.
Proof.
  intros Hz. unfold float64_of_int. destruct (_ <=? 0) eqn:E0; [done|].
  destruct (decide (z = 0)) as [->|H0]; [done|]. assert (Z.log2 (Z.abs z) < 53) by (apply Z.log2_lt_pow2; lia). lia.
Qed.

(** Without wrap-around the loop doubles up to the maximum. *)
Lemma delay_loop_spec n backoff maxDelay :
  0 <= backoff <= maxDelay -> maxDelay < 2 ^ 62 -> delay_loop n backoff maxDelay = Z.min maxDelay (backoff * 2 ^ Z.of_nat n).
Proof.
  revert backoff. induction n as [|n IH]; intros b Hb HM; [cbn; lia|]. cbn [delay_loop].
  rewrite i64_id by (unfold is_i64; lia). rewrite Nat2Z.inj_succ, Z.pow_succ_r by lia.
  pose proof (Z.pow_pos_nonneg 2 (Z.of_nat n)). destruct (maxDelay <? b * 2) eqn:E.
  - nia.
  - rewrite IH by lia. f_equal. lia.
Qed.

Lemma delay_loop_first n backoff maxDelay :
  0 <= backoff < 2 ^ 62 -> maxDelay < 2 ^ 62 -> (1 <= n)%nat ->
  delay_loop n backoff maxDelay = Z.min maxDelay (backoff * 2 ^ Z.of_nat n).
Proof.
  intros Hb HM Hn. destruct n as [|n]; [lia|]. cbn [delay_loop]. rewrite i64_id by (unfold is_i64; lia).
  rewrite Nat2Z.inj_succ, Z.pow_succ_r by lia. pose proof (Z.pow_pos_nonneg 2 (Z.of_nat n)).
  destruct (maxDelay <? backoff * 2) eqn:E; [nia|].
  rewrite delay_loop_spec by lia. f_equal. lia.
Qed.

(** Whether the policy allows one more delivery after [attempt] deliveries. *)
Definition may_retry (maxRetries attempt : Z) : Prop :=
  maxRetries = InfiniteRetries \/ (maxRetries <> NoRetries /\ attempt <= maxRetries).

(** The retry schedule: with the defaults of [NewSubscription], a failed delivery is retried
    exactly while the policy allows it, after the minimal backoff, at least a second, doubled once
    per attempt and capped at the maximal backoff; nothing overflows for backoffs below 146 years
    and a minimal backoff that a float64 holds exactly. *)
Theorem retry_schedule (rp : option RetryPolicy) (p : RetryPolicy) (attempt : Z) :
  policy_defaults rp = Ok p -> MinBackoff p < 2 ^ 53 -> MaxBackoff p < 2 ^ 62 -> 1 <= attempt < 2 ^ 16 ->
  (may_retry (MaxRetries p) attempt ->
   GetDelay (MaxRetries p) (MinBackoff p) (MaxBackoff p) attempt =
     (true, if MaxBackoff p <? MinBackoff p then MaxBackoff p
            else Z.min (MaxBackoff p) (Z.max Second (MinBackoff p) * 2 ^ attempt))) /\
  (~ may_retry (MaxRetries p) attempt ->
   GetDelay (MaxRetries p) (MinBackoff p) (MaxBackoff p) attempt = (false, MaxBackoff p)).
Proof.
  intros Hd Hmin Hmax Ha.
  assert (H0 : 0 <= MinBackoff p /\ 0 <= MaxBackoff p).
  { unfold policy_defaults in Hd. set (q := default _ rp) in Hd. clearbody q. destruct (MinBackoff q <? 0) eqn:E1; [done|].
    destruct (MaxBackoff q <? 0) eqn:E2; [done|]. injection Hd as <-. cbn [MinBackoff MaxBackoff].
    unfold WithDefaultValue, Minute, Second. split; destruct (_ =? 0); lia. }
  unfold may_retry, GetDelay, NoRetries, InfiniteRetries. split; intros Hr.
  - replace ((MaxRetries p =? -2) || _) with false by lia. destruct (MaxBackoff p <? MinBackoff p) eqn:E; [done|].
    rewrite !float64_small by (unfold Second; lia). rewrite i64_id by (unfold is_i64, Second; lia).
    rewrite delay_loop_first by (unfold Second; lia). by rewrite Z2Nat.id by lia.
  - by replace ((MaxRetries p =? -2) || _) with true by lia.
Qed.

Lemma retry_schedule_witness :
  GetDelay 5 (10 * Second) (10 * Minute) 3 = (true, Z.min (10 * Minute) (Z.max Second (10 * Second) * 2 ^ 3)).
Proof.
  refine (proj1 (retry_schedule (Some (mkPolicy 0 0 5)) (mkPolicy (10 * Second) (10 * Minute) 5) 3 eq_refl _ _ _) _);
    [reflexivity|reflexivity|lia|]. right. unfold NoRetries. cbn. lia.
Defined.

(** ** Deliveries of a message that always fails *)

(** Azure reschedules a message with its retry count; the number of deliveries. *)
Fixpoint azure_deliveries (fuel : nat) (rp : RetryPolicy) (prop : option gostring) : run Z :=
  match fuel with
  | O => OutOfFuel
  | S fuel =>
      match azure_settle rp (azure_retryCount prop) false with
      | Retry _ => n ← azure_deliveries fuel rp (Some (azure_retry_prop prop)); Ok (1 + n)
      | _ => Ok 1
      end
  end.

Lemma GetDelay_fst maxRetries minDelay maxDelay attempt :
  (GetDelay maxRetries minDelay maxDelay attempt).1 =
  negb ((maxRetries =? NoRetries) || ((maxRetries <? attempt) && negb (maxRetries =? InfiniteRetries))).
Proof. unfold GetDelay. destruct (_ || _); [done|]. by destruct (_ <? _). Qed.

Lemma azure_settle_failed rp retryCount :
  azure_settle rp retryCount false = GiveUp \/ exists d, azure_settle rp retryCount false = Retry d.
Proof. unfold azure_settle. destruct (GetDelay _ _ _ _) as [[] d]; eauto. Qed.

Lemma azure_settle_iff rp retryCount :
  azure_settle rp retryCount false = GiveUp <->
  MaxRetries rp = NoRetries \/ (MaxRetries rp < u16 (i64 (retryCount + 1)) /\ MaxRetries rp <> InfiniteRetries).
Proof.
  unfold azure_settle. destruct (GetDelay _ _ _ _) as [b d] eqn:E. apply (f_equal fst) in E. rewrite GetDelay_fst in E. cbn [fst] in E. subst b.
  destruct (negb _) eqn:E; unfold NoRetries, InfiniteRetries in *; split; try done; lia.
Qed.

Lemma azure_retryCount_None : azure_retryCount None = 0.
Proof. reflexivity. Qed.

(** The count read from a rescheduled message. *)
Lemma azure_retryCount_prop prop : azure_retryCount (Some (azure_retry_prop prop)) = i64 (azure_retryCount prop + 1).
Proof.
  change (azure_retryCount (Some ?s)) with (ParseInt_value s). unfold azure_retry_prop, ParseInt_value.
  by rewrite ParseInt_Format by apply i64_range.
Qed.

Lemma azure_deliveries_from rp k prop :
  MaxRetries rp < 2 ^ 16 - 1 -> 0 <= azure_retryCount prop -> azure_retryCount prop + Z.of_nat k = MaxRetries rp ->
  forall fuel, (k < fuel)%nat -> azure_deliveries fuel rp prop = Ok (Z.of_nat k + 1).
Proof.
  intros HM. revert prop. induction k as [|k IH]; intros prop H0 Hk fuel Hf; (destruct fuel as [|fuel]; [lia|]); cbn [azure_deliveries].
  - assert (azure_settle rp (azure_retryCount prop) false = GiveUp) as ->; [|done].
    apply azure_settle_iff. right. unfold InfiniteRetries, u16. rewrite i64_id by (unfold is_i64; lia). rewrite Z.mod_small by lia. lia.
  - destruct (azure_settle_failed rp (azure_retryCount prop)) as [Hg|[d ->]].
    + apply azure_settle_iff in Hg. unfold NoRetries, InfiniteRetries, u16 in Hg. rewrite i64_id, Z.mod_small in Hg by (unfold is_i64; lia). lia.
    + rewrite (IH (Some (azure_retry_prop prop))); [| | |lia]; rewrite ?azure_retryCount_prop, ?i64_id by (unfold is_i64; lia); [|lia|lia].
      rewrite bind_Ok. f_equal. lia.
Qed.

Lemma azure_never_gives_up rp :
  MaxRetries rp = InfiniteRetries \/ 2 ^ 16 - 1 <= MaxRetries rp -> forall prop, diverges (fun fuel => azure_deliveries fuel rp prop).
Proof.
  intros HM prop fuel. revert prop. induction fuel as [|fuel IH]; intros prop; [done|]. cbn [azure_deliveries].
  destruct (azure_settle_failed rp (azure_retryCount prop)) as [Hg|[d ->]]; [|by rewrite IH].
  apply azure_settle_iff in Hg. unfold NoRetries, InfiniteRetries, u16 in *.
  pose proof (Z.mod_pos_bound (i64 (azure_retryCount prop + 1)) (2 ^ 16)). lia.
Qed.

(** A message whose handler always fails is delivered by Azure exactly [MaxRetries + 1] times and
    then dead-lettered, the count travelling as text in a property of the message; with infinite
    retries, or with a maximum of 65535 or more, which the 16-bit attempt never exceeds, it is
    delivered without end. *)
Theorem azure_delivery_count (rp : RetryPolicy) :
  (0 <= MaxRetries rp < 2 ^ 16 - 1 -> returns (fun fuel => azure_deliveries fuel rp None) (MaxRetries rp + 1)) /\
  (MaxRetries rp = NoRetries -> returns (fun fuel => azure_deliveries fuel rp None) 1) /\
  (MaxRetries rp = InfiniteRetries \/ 2 ^ 16 - 1 <= MaxRetries rp -> diverges (fun fuel => azure_deliveries fuel rp None)).
Proof.
  split; [|split].
  - intros HM. exists (S (Z.to_nat (MaxRetries rp))). intros fuel Hf.
    rewrite (azure_deliveries_from rp (Z.to_nat (MaxRetries rp)) None); [f_equal; lia|lia|done| |lia]. rewrite azure_retryCount_None. lia.
  - intros HM. exists 1%nat. intros [|fuel] Hf; [lia|]. cbn [azure_deliveries].
    assert (azure_settle rp (azure_retryCount None) false = GiveUp) as -> by (apply azure_settle_iff; by left). done.
  - intros HM. by apply azure_never_gives_up.
Qed.

Lemma azure_delivery_count_witness :
  returns (fun fuel => azure_deliveries fuel (mkPolicy Second Minute 3) None) (3 + 1).
Proof. apply (proj1 (azure_delivery_count (mkPolicy Second Minute 3))). cbn. lia. Defined.

(** A policy without a maximum of retries is not given one, whatever its backoffs: a message that
    fails is delivered once on Azure and dropped after its first attempt by NSQ, whose own limit
    is set to 100 attempts. *)
Theorem zero_retries_not_defaulted (mn mx : Z) :
  0 <= mn -> 0 <= mx ->
  exists p, policy_defaults (Some (mkPolicy mn mx 0)) = Ok p /\ MaxRetries p = 0 /\
    returns (fun fuel => azure_deliveries fuel p None) 1 /\
    (forall attempts, 1 <= attempts -> nsq_settle p attempts false = GiveUp) /\
    forall conc ack, MaxAttempts (getConsumerConfig conc ack p) = 100.
Proof.
  intros Hmn Hmx. unfold policy_defaults. cbn [default from_option id MinBackoff MaxBackoff MaxRetries].
  replace (mn <? 0) with false by lia. replace (mx <? 0) with false by lia. eexists. split; [done|].
  split; [done|]. split; [|split; [|done]].
  - exists 1%nat. intros fuel Hf. by apply (azure_deliveries_from _ 0%nat None).
  - intros attempts Ha. unfold nsq_settle. destruct (GetDelay _ _ _ _) as [b d] eqn:E. apply (f_equal fst) in E.
    rewrite GetDelay_fst in E. cbn [fst MaxRetries] in E. replace (0 <? attempts) with true in E by lia. cbn in E. by subst b.
Qed.

(** With an unlimited maximal backoff the doubled delay wraps around and is zero from the 64th
    attempt on. *)
Theorem unlimited_backoff_wraps (minDelay attempt : Z) :
  0 <= minDelay < 2 ^ 53 -> 64 <= attempt < 2 ^ 16 ->
  GetDelay InfiniteRetries minDelay (2 ^ 63 - 1) attempt = (true, 0).
Proof.
  intros Hm Ha. unfold GetDelay. cbn [InfiniteRetries]. change (InfiniteRetries =? NoRetries) with false.
  change (negb (InfiniteRetries =? InfiniteRetries)) with false. rewrite andb_false_r. cbn [orb].
  replace (2 ^ 63 - 1 <? minDelay) with false by lia. f_equal.
  assert (Hloop : forall n b, delay_loop n b (2 ^ 63 - 1) = match n with O => b | _ => i64 (b * 2 ^ Z.of_nat n) end).
  { induction n as [|n IH]; intros b; [done|]. cbn [delay_loop]. pose proof (i64_range (b * 2)) as Hr. unfold is_i64 in Hr.
    replace (2 ^ 63 - 1 <? i64 (b * 2)) with false by lia. rewrite IH. destruct n as [|n]; [done|]. apply i64_mod.
    rewrite <- (Z.mul_mod_idemp_l (i64 (b * 2))), i64_mod_eq, Z.mul_mod_idemp_l by lia. f_equal.
    rewrite (Nat2Z.inj_succ (S n)), Z.pow_succ_r by lia. lia. }
  rewrite Hloop. destruct (Z.to_nat attempt) as [|n] eqn:En; [lia|]. rewrite <- En, Z2Nat.id by lia.
  replace attempt with (64 + (attempt - 64)) by lia. rewrite Z.pow_add_r by lia.
  transitivity (i64 0); [|done]. apply i64_mod. rewrite Z.mul_assoc, (Z.mul_comm _ (2 ^ 64)), <- Z.mul_assoc, Z.mul_comm. by rewrite Z.mod_mul by lia.
Qed.

(** ** Attributes *)

(** C31. Attributes survive the transport: for a message whose tags are distinct and whose tagged
    fields are exported, booleans, strings, integers, or floats and complex numbers whose text is
    read back as the value at its width, without a [String] method and behind any number of pointers, [MarshalFields] writes attributes from which [UnmarshalFields] sets the
    tagged fields of any target of the same type to those of the message; nil pointers and fields
    without a tag keep what the target has. *)
Theorem attrs_roundtrip `{FloatText} (fs fs' : list field) :
  Forall field_ok fs -> NoDup (tags fs) -> Forall2 same_decl fs fs' ->
  exists a, MarshalFields (MStruct fs) = Ok (inr a) /\
    UnmarshalFields a (MPointer (Some (MStruct fs'))) = Ok (inr (MPointer (Some (MStruct (zip_with restore fs fs'))))).
Proof.
  intros Hok Hnd Hd. exists (foldl add_attr ∅ fs). split; [by apply marshal_fields_ok|].
  unfold UnmarshalFields. cbn [unmarshal_struct].
  rewrite (unmarshal_fields_ok _ fs fs' Hok Hd), bind_Ok; [done|]. intros f name Hf Ht. by apply add_attrs_lookup.
Qed.

(** Floats as numbers of thousandths, only to have an instance. *)
Definition demo_floats : FloatText := {|
  float := Z; complex := Z;
  Sprint_float := fun _ => FormatInt; ParseFloat := fun s => match ParseInt s with inr z => Some z | inl _ => None end;
  narrow_float := fun _ f => f;
  Sprint_complex := fun _ => FormatInt; ParseComplex := fun s => match ParseInt s with inr z => Some z | inl _ => None end;
  narrow_complex := fun _ c => c |}.

Definition demo_msg : list (field (H:=demo_floats)) := [
  mkField (Some (lit "user-id")) true (TBase KString None) (FScalar (VString (lit "u1")));
  mkField None false (TBase KStruct None) FOther;
  mkField (Some (lit "level")) true (TPointer (TPointer (TBase KInt8 None))) (FPtr (FPtr (FScalar (VInt (-128)))));
  mkField (Some (lit "seen")) true (TPointer (TBase KBool None)) FNil].

Definition demo_target : list (field (H:=demo_floats)) := [
  mkField (Some (lit "user-id")) true (TBase KString None) (FScalar (VString (lit "")));
  mkField None false (TBase KStruct None) FOther;
  mkField (Some (lit "level")) true (TPointer (TPointer (TBase KInt8 None))) FNil;
  mkField (Some (lit "seen")) true (TPointer (TBase KBool None)) (FPtr (FScalar (VBool true)))].

Lemma attrs_roundtrip_witness :
  exists a, MarshalFields (MStruct demo_msg) = Ok (inr a) /\
    UnmarshalFields a (MPointer (Some (MStruct demo_target))) =
      Ok (inr (MPointer (Some (MStruct (zip_with restore demo_msg demo_target))))).
Proof.
  apply (attrs_roundtrip demo_msg demo_target).
  - apply list.Forall_cons; split; [split; [done|by right]|]. apply list.Forall_cons; split; [done|].
    apply list.Forall_cons; split; [split; [done|right; cbn; lia]|]. apply list.Forall_cons; split; [split; [done|by left]|]. constructor.
  - apply (bool_decide_unpack _). vm_compute. exact I.
  - repeat constructor.
Defined.

(** ** The trace context *)

Definition reserved : list gostring := [parentTraceIDAttribute; extCorrelationIDAttribute; parentSampledAttribute].

Lemma context_attrs_other req a k : k ∉ reserved -> context_attrs req a !! k = a !! k.
Proof.
  intros Hk. unfold reserved in Hk. rewrite !not_elem_of_cons in Hk. destruct Hk as (H1 & H2 & H3 & _).
  unfold context_attrs. destruct req as [r|]; [|done]. rewrite lookup_insert_ne by done.
  repeat case_match; by rewrite ?lookup_insert_ne by done.
Qed.

(** The keys differ. *)
Lemma reserved_distinct : NoDup reserved.
Proof. apply (bool_decide_unpack _). vm_compute. exact I. Qed.

Lemma read_context_written sample r a :
  is_TraceID (req_TraceID r) -> a !! parentTraceIDAttribute = None -> a !! extCorrelationIDAttribute = None ->
  read_context sample (context_attrs (Some r) a) =
  Ok (mkCtx (req_TraceID r)
        (if decide (req_ExtCorrelationID r = []) then TraceID_String (req_TraceID r) else req_ExtCorrelationID r) (req_Traced r)).
Proof.
  intros Hid Ha1 Ha2. pose proof reserved_distinct as Hnd. unfold reserved in Hnd.
  rewrite !list.NoDup_cons, !not_elem_of_cons in Hnd. destruct Hnd as ((H12 & H13 & _) & (H23 & _) & _).
  unfold read_context, context_attrs. rewrite lookup_insert_eq, ParseBool_Format, !lookup_insert_ne by done.
  destruct (decide (req_TraceID r = zero_TraceID)) as [Hz|Hz].
  - rewrite (bool_decide_eq_true_2 _ Hz). cbn [negb]. destruct (decide (req_ExtCorrelationID r = [])) as [He|He].
    + rewrite (bool_decide_eq_true_2 _ He). cbn [negb]. rewrite Ha1, Ha2. cbn. rewrite Hz. done.
    + rewrite (bool_decide_eq_false_2 _ He). cbn [negb]. rewrite lookup_insert_eq, lookup_insert_ne, Ha1 by done. cbn. by rewrite Hz.
  - rewrite (bool_decide_eq_false_2 _ Hz). cbn [negb].
    assert (Hs : TraceID_String (req_TraceID r) <> []) by (intros Hs; by apply TraceID_String_empty in Hs).
    destruct (decide (req_ExtCorrelationID r = [])) as [He|He];
      [rewrite (bool_decide_eq_true_2 _ He)|rewrite (bool_decide_eq_false_2 _ He)]; cbn [negb];
      rewrite lookup_insert_eq, lookup_insert_ne, lookup_insert_eq by done; cbn [default from_option id];
      (rewrite decide_False by done); rewrite ParseTraceID_String by done; done.
Qed.

(** Fields whose tags are not reserved read the same attributes. *)
Lemma unmarshal_fields_agree `{FloatText} (a a' : gmap (list Init.Byte.byte) (list Init.Byte.byte)) fs :
  (forall k, k ∈ tags fs -> a !! k = a' !! k) -> unmarshal_fields a fs = unmarshal_fields a' fs.
Proof.
  induction fs as [|f fs IH]; intros Hk; [done|]. cbn [unmarshal_fields].
  assert (unmarshal_field a f = unmarshal_field a' f) as ->.
  { unfold unmarshal_field. destruct (f_tag f) as [name|] eqn:Et; [|done]. rewrite Hk; [done|].
    apply list_elem_of_omap. exists f. split; [by left|done]. }
  rewrite IH; [done|]. intros k Hin. apply Hk. unfold tags in *. apply list_elem_of_omap in Hin as (g & Hg & Ht).
  apply list_elem_of_omap. exists g. split; [by right|done].
Qed.

(** C30. The trace context reaches the subscriber: publishing within a request hands the topic
    implementation the message's attributes and the ordering key; a subscriber that receives these
    attributes gets the trace id of the request as its parent, the correlation id of the request,
    or its trace id when it has none, and the sampling decision, and reads the fields of the
    message as if nothing had been added. *)
Theorem publish_context `{GoEnv} `{FloatText} (ord : gostring) (json : msg -> option gostring) (r : Request) (m : msg) a0 data key (sample : bool) :
  is_TraceID (req_TraceID r) -> MarshalFields m = Ok (inr a0) -> json m = Some data ->
  (forall k, k ∈ reserved -> a0 !! k = None) ->
  (if decide (ord = []) then key = [] else a0 !! ord = Some key /\ key <> []) ->
  exists a,
    publish_input ord json (Some r) m = Ok (inr (key, a, data)) /\
    read_context sample a =
      Ok (mkCtx (req_TraceID r)
            (if decide (req_ExtCorrelationID r = []) then TraceID_String (req_TraceID r) else req_ExtCorrelationID r)
            (req_Traced r)) /\
    (forall fs, (forall k, k ∈ reserved -> k ∉ tags fs) -> unmarshal_fields a fs = unmarshal_fields a0 fs) /\
    (forall topic PublishMessage goctr st n1 n2 s,
      Publish false (Some topic) ord json [] (Some PublishMessage) (Some r) false goctr st n1 n2 m s =
      Some (match PublishMessage key a data with (id, []) => inr id | _ => inl (Some Unavailable) end, s)).
Proof.
  intros Hid Hm Hj Hres Hord. exists (context_attrs (Some r) a0).
  assert (Hin : publish_input ord json (Some r) m = Ok (inr (key, context_attrs (Some r) a0, data))).
  { unfold publish_input. rewrite Hm, bind_Ok, Hj. destruct (decide (ord = [])) as [->|Ho]; [by rewrite Hord|].
    destruct Hord as [-> Hk]. by destruct key. }
  split; [done|]. split; [|split].
  - apply read_context_written; [done|..]; apply Hres; unfold reserved; set_solver.
  - intros fs Hfs. apply unmarshal_fields_agree. intros k Hk. apply context_attrs_other. intros Hr. by apply (Hfs k).
  - intros. unfold Publish. rewrite Hin. cbn. by destruct (PublishMessage key _ data) as [id [|]].
Qed.

Definition demo_request : Request :=
  mkRequest PubSubMessage (replicate 15 Byte.x00 ++ [Byte.x01]) (replicate 8 Byte.x02) [] [] 0 [] true 0 0 None None None.

Definition demo_env : GoEnv := {|
  callers_frames := fun _ => []; json_Marshal := fun _ => inl []; range_order := map_to_list; range_order_perm := fun m => reflexivity _ |}.

Lemma publish_context_witness :
  exists a, publish_input (lit "user-id") (fun _ => Some (lit "{}")) (Some demo_request) (MStruct demo_msg)
              = Ok (inr (lit "u1", a, lit "{}")) /\
    read_context false a = Ok (mkCtx (req_TraceID demo_request) (TraceID_String (req_TraceID demo_request)) true).
Proof.
  destruct (publish_context (H:=demo_env) (lit "user-id") (fun _ => Some (lit "{}")) demo_request (MStruct demo_msg)
    (<[lit "level" := lit "-128"]> (<[lit "user-id" := lit "u1"]> ∅)) (lit "{}") (lit "u1") false) as (a & H1 & H2 & _).
  - reflexivity.
  - reflexivity.
  - reflexivity.
  - intros k Hk. unfold reserved in Hk. rewrite !elem_of_cons, elem_of_nil in Hk.
    destruct Hk as [->|[->|[->|[]]]]; reflexivity.
  - rewrite decide_False by done. split; [reflexivity|done].
  - exists a. split; [exact H1|exact H2].
Defined.

(** ** Values outside the exact kinds *)

(** A number too large for the field is stored truncated, without an error. *)
Theorem attr_overflow_accepted `{FloatText} (a : gmap (list Init.Byte.byte) (list Init.Byte.byte)) name v z :
  is_i64 z -> a !! name = Some (FormatInt z) ->
  unmarshal_field a (mkField (Some name) true (TBase KInt8 None) v) =
  Ok (inr (mkField (Some name) true (TBase KInt8 None) (FScalar (VInt ((z + 128) mod 256 - 128))))).
Proof.
  intros Hz Ha. unfold unmarshal_field. cbn [f_tag f_type base_type fst]. rewrite Ha. cbn [parse_value].
  by rewrite ParseInt_Format by done.
Qed.

(** A number of a named type with a [String] method is written as that text, which the reader
    refuses unless it is a number. *)
Theorem String_method_attr_rejected `{FloatText} (str : scalar -> gostring) name z v e :
  ParseInt (str (VInt z)) = inl e ->
  exists a, marshal_field (mkField (Some name) true (TBase KInt64 (Some str)) (FScalar (VInt z))) ∅ = Ok (inr a) /\
    unmarshal_field a (mkField (Some name) true (TBase KInt64 (Some str)) v) = Ok (inl BadValue).
Proof.
  intros He. eexists. split; [done|]. unfold unmarshal_field. cbn [f_tag f_type base_type fst]. rewrite lookup_insert_eq.
  cbn [parse_value Sprint]. by rewrite He.
Qed.
