(* ===== verification/GoText.v ===== *)
(** Text functions of the standard library: iteration over runes, [unicode.IsSpace],
    [strings.HasPrefix], [Split], [Join], [TrimSpace] and [bytes.Index]. *)

From S2P Require Import Prelude Utf8.

(** ** Runes *)

Definition cont_bits (b : byte) : Z := Z_of_byte b mod 64.

(** The code point of a well-formed sequence, [RuneError] otherwise. *)
Definition rune_value (s : gostring) : Z :=
  match rune_len s, s with
  | Some 1%nat, b0 :: _ => Z_of_byte b0
  | Some 2%nat, b0 :: b1 :: _ => Z_of_byte b0 mod 32 * 64 + cont_bits b1
  | Some 3%nat, b0 :: b1 :: b2 :: _ => Z_of_byte b0 mod 16 * 4096 + cont_bits b1 * 64 + cont_bits b2
  | Some 4%nat, b0 :: b1 :: b2 :: b3 :: _ => Z_of_byte b0 mod 8 * 262144 + cont_bits b1 * 4096 + cont_bits b2 * 64 + cont_bits b3
  | _, _ => 65533
  end.

Definition rune_width (s : gostring) : nat := default 1%nat (rune_len s).

(** [for i, r := range s]: the texts of the runes in order. *)
Fixpoint runes_loop (fuel : nat) (s : gostring) : list gostring :=
  match fuel, s with
  | S fuel, _ :: _ => take (rune_width s) s :: runes_loop fuel (drop (rune_width s) s)
  | _, _ => []
  end.

Definition runes (s : gostring) : list gostring := runes_loop (length s) s.

(** [unicode.IsSpace]: the Latin-1 cases and the White_Space property above them. *)
Definition IsSpace (r : Z) : bool :=
  bool_decide (r ∈ [9; 10; 11; 12; 13; 32; 133; 160; 5760; 8232; 8233; 8239; 8287; 12288]) || ((8192 <=? r) && (r <=? 8202)).

Definition space_rune (t : gostring) : bool := IsSpace (rune_value t).

(** ** Strings *)

Fixpoint HasPrefix (s prefix : gostring) {struct prefix} : bool :=
  match prefix, s with
  | [], _ => true
  | p :: prefix, c :: s => bool_decide (c = p) && HasPrefix s prefix
  | _ :: _, [] => false
  end.

(** [strings.Split] at a byte: never empty. *)
Fixpoint Split (s : gostring) (sep : byte) : list gostring :=
  match s with
  | [] => [[]]
  | c :: s =>
      let parts := Split s sep in
      if decide (c = sep) then [] :: parts
      else match parts with p :: parts => (c :: p) :: parts | [] => [[c]] end
  end.

Fixpoint Join (parts : list gostring) (sep : gostring) : gostring :=
  match parts with
  | [] => []
  | [p] => p
  | p :: parts => p ++ sep ++ Join parts sep
  end.

Fixpoint drop_spaces (ts : list gostring) : list gostring :=
  match ts with
  | [] => []
  | t :: ts' => if space_rune t then drop_spaces ts' else ts
  end.

Definition TrimSpace (s : gostring) : gostring := mjoin (reverse (drop_spaces (reverse (drop_spaces (runes s))))).

(** [bytes.Index]: the first position of [sub] in [s]. *)
Fixpoint Index (s sub : gostring) : option Z :=
  if HasPrefix s sub then Some 0
  else match s with [] => None | _ :: s => Z.succ <$> Index s sub end.

(** ** Facts *)

Lemma HasPrefix_spec s prefix : HasPrefix s prefix = true <-> exists t, s = prefix ++ t.
Proof.
  revert s. induction prefix as [|p prefix IH]; intros s; cbn.
  - split; [intros _; by exists s|done].
  - destruct s as [|c s]; [split; [done|by intros [t ?]]|]. cbn [HasPrefix app]. rewrite andb_true_iff, bool_decide_eq_true, IH. split.
    + intros [-> [t ->]]. by exists t.
    + intros [t [= -> ->]]. split; [done|]. by exists t.
Qed.

Lemma rune_width_bound s : s <> [] -> (1 <= rune_width s <= length s)%nat.
Proof.
  intros Hs. unfold rune_width. destruct (rune_len s) as [w|] eqn:E; cbn; [by apply rune_len_bound|].
  destruct s; [done|]. cbn. lia.
Qed.

Lemma runes_loop_enough n m s : (length s <= n)%nat -> (length s <= m)%nat -> runes_loop n s = runes_loop m s.
Proof.
  revert m s. induction n as [|n IH]; intros m s Hn Hm; destruct s as [|b s]; [by destruct m|cbn in Hn; lia|by destruct m|].
  destruct m as [|m]; [cbn in Hm; lia|]. cbn [runes_loop]. f_equal. pose proof (rune_width_bound (b :: s) ltac:(done)).
  apply IH; rewrite length_drop; lia.
Qed.

Lemma runes_cons s : s <> [] -> runes s = take (rune_width s) s :: runes (drop (rune_width s) s).
Proof.
  intros Hs. unfold runes. destruct s as [|b s]; [done|]. cbn [length runes_loop]. f_equal.
  pose proof (rune_width_bound (b :: s) ltac:(done)). apply runes_loop_enough; rewrite length_drop; cbn [length] in *; lia.
Qed.

(** Induction on a string rune by rune. *)
Lemma runes_ind (P : gostring -> Prop) :
  P [] -> (forall s, s <> [] -> P (drop (rune_width s) s) -> P s) -> forall s, P s.
Proof.
  intros H0 Hs s. remember (length s) as n eqn:En. assert (Hn : (length s <= n)%nat) by lia. clear En. revert s Hn.
  induction n as [|n IH]; intros s Hn; [destruct s; [done|cbn in Hn; lia]|]. destruct (decide (s = [])) as [->|He]; [done|].
  apply Hs; [done|]. apply IH. pose proof (rune_width_bound s He). rewrite length_drop. lia.
Qed.

Lemma mjoin_runes s : mjoin (runes s) = s.
Proof.
  induction s as [|s Hs IH] using runes_ind; [done|]. rewrite runes_cons by done.
  change (mjoin (?x :: ?l)) with (x ++ mjoin l). by rewrite IH, take_drop.
Qed.

(** ASCII bytes are runes of their own and end the rune before them. *)
Definition ascii (c : byte) : bool := Z_of_byte c <? 128.

Lemma rune_width_ascii c s : ascii c = true -> rune_width (c :: s) = 1%nat.
Proof. unfold ascii. intros Hc. unfold rune_width. rewrite rune_len_ascii by lia. done. Qed.

Lemma runes_ascii s : forallb ascii s = true -> runes s = (fun c => [c]) <$> s.
Proof.
  induction s as [|c s IH]; [done|]. cbn [forallb]. intros [Hc Hs]%andb_prop.
  rewrite runes_cons, rune_width_ascii by done. change (drop 1 (c :: s)) with s. by rewrite IH.
Qed.

(** ** Rune boundaries *)

(** A byte that does not continue a rune ends the one before it. *)
Lemma cont_range c lo hi : is_cont c = false -> 128 <= lo -> hi <= 191 -> in_range lo hi c = false.
Proof. unfold is_cont, in_range. intros H Hlo Hhi. apply andb_false_iff in H. apply andb_false_iff. lia. Qed.

Lemma rune_len_before s c t : is_cont c = false -> s <> [] -> rune_len (s ++ c :: t) = rune_len s.
Proof.
  intros Hn Hs. pose proof (fun lo hi => cont_range c lo hi Hn) as Hr.
  destruct s as [|b0 [|b1 [|b2 [|b3 s]]]]; [done| | | |]; cbn [app rune_len]; rewrite ?Hn, ?andb_false_r;
    repeat case_match; try done; simplify_eq; rewrite ?Hr in * by (try done; repeat case_match; lia); done.
Qed.

Lemma runes_app_boundary s c t : is_cont c = false -> runes (s ++ c :: t) = runes s ++ runes (c :: t).
Proof.
  intros Hc. induction s as [|s Hs IH] using runes_ind; [done|].
  rewrite (runes_cons s), (runes_cons (s ++ c :: t)) by (done || by destruct s).
  assert (rune_width (s ++ c :: t) = rune_width s) as Hw by (unfold rune_width; by rewrite rune_len_before).
  pose proof (rune_width_bound s Hs). rewrite Hw, take_app_le, drop_app_le by lia. cbn [app]. f_equal. exact IH.
Qed.

(** White space starts a rune. *)
Lemma space_rune_boundary t : space_rune t = true -> exists c t', t = c :: t' /\ is_cont c = false.
Proof.
  unfold space_rune, rune_value. intros H. destruct t as [|c t]; [done|]. exists c, t. split; [done|].
  destruct (is_cont c) eqn:E; [|done]. unfold is_cont, in_range in E.
  assert (Hn : rune_len (c :: t) = None).
  { cbn [rune_len]. unfold in_range. destruct (Z_of_byte c) eqn:Ez; repeat case_match; try done; lia. }
  by rewrite Hn in H.
Qed.

Lemma ascii_not_cont c : ascii c = true -> is_cont c = false.
Proof. unfold ascii, is_cont, in_range. intros H. apply andb_false_iff. left. lia. Qed.

Lemma runes_app_ascii s c t : ascii c = true -> runes (s ++ c :: t) = runes s ++ [c] :: runes t.
Proof. intros Hc. rewrite runes_app_boundary by by apply ascii_not_cont. by rewrite (runes_cons (c :: t)), rune_width_ascii. Qed.

(** ** Splitting *)

Lemma Split_none s sep : (sep ∉ s) -> Split s sep = [s].
Proof.
  induction s as [|c s IH]; intros Hn; [done|]. apply not_elem_of_cons in Hn as [Hc Hn]. cbn. rewrite decide_False by congruence. by rewrite IH.
Qed.

Lemma Split_app s t sep : (sep ∉ s) -> Split (s ++ sep :: t) sep = s :: Split t sep.
Proof.
  induction s as [|c s IH]; intros Hn; cbn; [by rewrite decide_True|]. apply not_elem_of_cons in Hn as [Hc Hn]. rewrite decide_False by congruence. by rewrite IH.
Qed.

Lemma Split_parts s sep p : p ∈ Split s sep -> sep ∉ p.
Proof.
  revert p. induction s as [|c s IH]; intros p; cbn; [intros ->%list_elem_of_singleton; apply not_elem_of_nil|]. case_decide as Ec.
  - intros [->|Hp]%elem_of_cons; [apply not_elem_of_nil|by apply IH].
  - destruct (Split s sep) as [|q parts]; [intros ->%list_elem_of_singleton; set_solver|]. intros [->|Hp]%elem_of_cons; [|apply IH; by right].
    specialize (IH q ltac:(by left)). set_solver.
Qed.
