(* ===== verification/Directive.v ===== *)
(** Directives: [v2/parser/apis/directive] (directive.go, fields.go).

    A directive is a comment line such as [//encore:api public path=/foo tag:x].  [fields] cuts it
    at white space, on a fast path for ASCII text and rune by rune otherwise; [parseOne] sorts the
    words into options, fields and tags.  Positions are those of [go/token].  A comment group is
    its comments with their positions and its [Text], which belongs to [go/ast]. *)

From S2P Require Import Prelude Run Utf8 GoSort GoText Selector.

Record Field := mkFld { fl_Key : gostring; fl_Value : gostring; fl_start : Z; fl_end : Z }.

Definition no_Field : Field := mkFld [] [] 0 0.

Record Directive := mkDir {
  d_Name : gostring;
  d_Options : list Field;
  d_Fields : list Field;
  d_Tags : list Field;
  d_start : Z;
  d_nameEnd : Z;
  d_end : Z
}.

Inductive dir_err :=
| errMultipleDirectives
| errMissingDirectiveName
| errDuplicateTag (tag : gostring)
| errInvalidTag (tag : gostring)
| errFieldHasNoValue
| errInvalidFieldName (key : gostring)
| errDuplicateField (key : gostring)
| errUnknownField (key : gostring)
| errInvalidOptionName (name : gostring)
| errDuplicateOption (name : gostring)
| errUnknownOption (name : gostring).

(** ** Splitting into words *)

Definition asciiSpace (c : byte) : Z := if decide (Z_of_byte c ∈ [9; 10; 11; 12; 13; 32]) then 1 else 0.

(** The first pass: the number of fields, exact for ASCII, and all bits that are set. *)
Fixpoint count_loop (s : gostring) (n wasSpace setBits : Z) : Z * Z :=
  match s with
  | [] => (n, setBits)
  | r :: s =>
      let isSpace := asciiSpace r in
      count_loop s (n + Z.land wasSpace (Z.lnot isSpace)) isSpace (Z.lor setBits (Z_of_byte r))
  end.

Fixpoint skip_spaces (i : Z) (s : gostring) : Z * gostring :=
  match s with
  | c :: s' => if asciiSpace c =? 0 then (i, s) else skip_spaces (i + 1) s'
  | [] => (i, [])
  end.

(** The fields from index [i] on; [cur] is the text from [fieldStart] to [i]. *)
Fixpoint ascii_loop (fuel : nat) (startPos fieldStart i : Z) (cur s : gostring) : list Field :=
  match fuel, s with
  | _, [] => if fieldStart <? i then [mkFld [] cur (startPos + fieldStart) (startPos + i)] else []
  | S fuel, c :: s =>
      if asciiSpace c =? 0 then ascii_loop fuel startPos fieldStart (i + 1) (cur ++ [c]) s
      else let '(i', s') := skip_spaces (i + 1) s in
           mkFld [] cur (startPos + fieldStart) (startPos + i) :: ascii_loop fuel startPos i' i' [] s'
  | O, _ => []
  end.

(** [fieldsFunc]: [start] is the start of the current field and its text so far. *)
Fixpoint fieldsFunc_loop (startPos i : Z) (start : option (Z * gostring)) (ts : list gostring) : list Field :=
  let flush := match start with Some (b, v) => [mkFld [] v (startPos + b) (startPos + b + blen v)] | None => [] end in
  match ts with
  | [] => flush
  | t :: ts =>
      if space_rune t then flush ++ fieldsFunc_loop startPos (i + blen t) None ts
      else fieldsFunc_loop startPos (i + blen t)
             (Some (match start with Some (b, v) => (b, v ++ t) | None => (i, t) end)) ts
  end.

Definition fieldsFunc (startPos : Z) (s : gostring) : list Field := fieldsFunc_loop startPos 0 None (runes s).

(** The slice is made with the counted length: more fields are a panic, fewer leave zero values. *)
Definition fields (startPos : Z) (s : gostring) : run (list Field) :=
  let '(n, setBits) := count_loop s 0 1 0 in
  if 128 <=? setBits then Ok (fieldsFunc startPos s)
  else let '(i, s') := skip_spaces 0 s in
       let a := ascii_loop (length s') startPos i i [] s' in
       if blen a <=? n then Ok (a ++ replicate (Z.to_nat n - length a) no_Field) else Crash.

(** ** One directive *)

Definition nameRe (s : gostring) : bool := negb (bool_decide (s = [])) && forallb lower s.

Definition tag_prefix : gostring := lit "tag:".

(** The words after the name; [seen] are the keys used so far. *)
Fixpoint parse_words (words : list Field) (seen : gset (list Init.Byte.byte)) (d : Directive) : dir_err + Directive :=
  match words with
  | [] => inr d
  | f :: words =>
      if HasPrefix (fl_Value f) tag_prefix then
        let tag := drop 4 (fl_Value f) in
        if decide (fl_Value f ∈ seen) then inl (errDuplicateTag (fl_Value f))
        else if negb (tagRegexp tag) then inl (errInvalidTag tag)
        else parse_words words ({[fl_Value f]} ∪ seen)
               (mkDir (d_Name d) (d_Options d) (d_Fields d) (d_Tags d ++ [f]) (d_start d) (d_nameEnd d) (d_end d))
      else
        let '(key, value, ok) := Cut (fl_Value f) Byte.x3d in
        if ok : bool then
          if decide (value = []) then inl errFieldHasNoValue
          else if negb (nameRe key) then inl (errInvalidFieldName key)
          else if decide (key ∈ seen) then inl (errDuplicateField key)
          else parse_words words ({[key]} ∪ seen)
                 (mkDir (d_Name d) (d_Options d) (d_Fields d ++ [mkFld key value (fl_start f) (fl_end f)]) (d_Tags d)
                    (d_start d) (d_nameEnd d) (d_end d))
        else
          if negb (nameRe (fl_Value f)) then inl (errInvalidOptionName (fl_Value f))
          else if decide (fl_Value f ∈ seen) then inl (errDuplicateOption (fl_Value f))
          else parse_words words ({[fl_Value f]} ∪ seen)
                 (mkDir (d_Name d) (d_Options d ++ [f]) (d_Fields d) (d_Tags d) (d_start d) (d_nameEnd d) (d_end d))
  end.

Definition parseOne (pos : Z) (line : gostring) : run (dir_err + Directive) :=
  fs ← fields (pos + 7) line;
  Ok (match fs with
      | [] => inl errMissingDirectiveName
      | f :: fs =>
          parse_words fs ∅ (mkDir (fl_Value f) [] [] [] pos (pos + 7 + blen (fl_Value f)) (pos + 7 + blen line))
      end).

(** ** Comment groups *)

Record CommentGroup := mkGroup { cg_Pos : Z; cg_List : list (Z * gostring); cg_Text : gostring }.

Definition std_prefix : gostring := lit "//encore:".
Definition legacy_prefix : gostring := lit "encore:".

(** The directives of the standard syntax, or the first error. *)
Fixpoint std_directives (cs : list (Z * gostring)) : run (dir_err + list Directive) :=
  match cs with
  | [] => Ok (inr [])
  | (pos, text) :: cs =>
      if HasPrefix text std_prefix then
        r ← parseOne (pos + 2) (drop (length std_prefix) text);
        match r with
        | inl e => Ok (inl e)
        | inr d => rs ← std_directives cs; Ok (match rs with inl e => inl e | inr ds => inr (d :: ds) end)
        end
      else std_directives cs
  end.

(** The position of a legacy line: where the first comment that contains it has it. *)
Fixpoint legacy_pos (default_pos : Z) (cs : list (Z * gostring)) (line : gostring) : Z :=
  match cs with
  | [] => default_pos
  | (pos, text) :: cs => match Index text line with Some idx => pos + idx | None => legacy_pos default_pos cs line end
  end.

(** The directives of the legacy syntax and the lines that are not directives. *)
Fixpoint legacy_directives (cg : CommentGroup) (ls : list gostring) : run (dir_err + list Directive * list gostring) :=
  match ls with
  | [] => Ok (inr ([], []))
  | l :: ls =>
      if HasPrefix l legacy_prefix then
        r ← parseOne (legacy_pos (cg_Pos cg) (cg_List cg) l) (drop (length legacy_prefix) l);
        match r with
        | inl e => Ok (inl e)
        | inr d => rs ← legacy_directives cg ls; Ok (match rs with inl e => inl e | inr (ds, doc) => inr (d :: ds, doc) end)
        end
      else rs ← legacy_directives cg ls; Ok (match rs with inl e => inl e | inr (ds, doc) => inr (ds, l :: doc) end)
  end.

Definition Parse (cg : option CommentGroup) : run (dir_err + option Directive * gostring) :=
  match cg with
  | None => Ok (inr (None, []))
  | Some cg =>
      r ← std_directives (cg_List cg);
      match r with
      | inl e => Ok (inl e)
      | inr [d] => Ok (inr (Some d, cg_Text cg))
      | inr (_ :: _ :: _) => Ok (inl errMultipleDirectives)
      | inr [] =>
          r ← legacy_directives cg (Split (cg_Text cg) Byte.x0a);
          Ok (match r with
              | inl e => inl e
              | inr ([], _) => inr (None, cg_Text cg)
              | inr ([d], docLines) => inr (Some d, TrimSpace (Join docLines [Byte.x0a]))
              | inr (_ :: _ :: _, _) => inl errMultipleDirectives
              end)
      end
  end.

(** ** Accessors and printing *)

Definition Field_List (f : Field) : list gostring := Split (fl_Value f) Byte.x2c.

Definition Directive_String (d : Directive) : gostring :=
  lit "encore:" ++ d_Name d ++
  mjoin ((fun o => lit " " ++ fl_Value o) <$> d_Options d) ++
  mjoin ((fun f => lit " " ++ fl_Key f ++ lit "=" ++ fl_Value f) <$> d_Fields d) ++
  mjoin ((fun t => lit " " ++ fl_Value t) <$> d_Tags d).

Definition HasOption (d : Directive) (name : gostring) : bool := existsb (fun o => bool_decide (fl_Value o = name)) (d_Options d).

Fixpoint get_field (fs : list Field) (name : gostring) : option Field :=
  match fs with
  | [] => None
  | f :: fs => if decide (fl_Key f = name) then Some f else get_field fs name
  end.

Definition Get (d : Directive) (name : gostring) : gostring :=
  match get_field (d_Fields d) name with Some f => fl_Value f | None => [] end.

Definition GetList (d : Directive) (name : gostring) : list gostring :=
  match get_field (d_Fields d) name with Some f => Field_List f | None => [] end.

(** ** Validation *)

(** The callbacks report errors of their own; a missing callback accepts. *)
Record ValidateSpec := mkSpec {
  AllowedOptions : list gostring;
  AllowedFields : list gostring;
  ValidateOption : Field -> bool;
  ValidateField : Field -> bool;
  ValidateTag : Field -> bool
}.

(** The first error: one of the package's, or [None] when a callback has reported it. *)
Fixpoint first_error {A} (check : A -> option (option dir_err)) (l : list A) : option (option dir_err) :=
  match l with
  | [] => None
  | x :: l => match check x with Some e => Some e | None => first_error check l end
  end.

Definition Validate (d : Directive) (spec : ValidateSpec) : option (option dir_err) :=
  let option_error o :=
    if decide (fl_Value o ∈ AllowedOptions spec) then if ValidateOption spec o then None else Some None
    else Some (Some (errUnknownOption (fl_Value o))) in
  let field_error f :=
    if decide (fl_Key f ∈ AllowedFields spec) then if ValidateField spec f then None else Some None
    else Some (Some (errUnknownField (fl_Key f))) in
  let tag_error t := if ValidateTag spec t then None else Some None in
  match first_error option_error (d_Options d) with
  | Some e => Some e
  | None =>
      match first_error field_error (d_Fields d) with
      | Some e => Some e
      | None => first_error tag_error (d_Tags d)
      end
  end.
