(* ===== verification/DirectiveTheorems.v ===== *)
(** Properties of directives: the fast path of [fields] agrees with the general one, words and
    their positions, and parsing and printing. *)

From S2P Require Import Prelude Run Utf8 GoSort GoText Selector Directive.

(** ** The ASCII path *)

Lemma ascii_space_rune c : ascii c = true -> space_rune [c] = negb (asciiSpace c =? 0).
Proof.
  unfold ascii, space_rune, rune_value, asciiSpace, IsSpace. intros Hc. pose proof (Z_of_byte_range c).
  rewrite rune_len_ascii by lia. replace ((8192 <=? Z_of_byte c) && _) with false by lia. rewrite orb_false_r.
  destruct (decide _) as [Hin|Hin]; [apply bool_decide_eq_true_2|apply bool_decide_eq_false_2];
    rewrite !elem_of_cons, elem_of_nil in *; lia.
Qed.

Abbreviation singles := (fmap (M:=list) (fun c : byte => [c])).

Lemma skip_spaces_spec p i s i' s' :
  forallb ascii s = true -> skip_spaces i s = (i', s') ->
  fieldsFunc_loop p i None (singles s) = fieldsFunc_loop p i' None (singles s') /\ forallb ascii s' = true /\
  (length s' <= length s)%nat /\ match s' with [] => True | c :: _ => asciiSpace c = 0 end.
Proof.
  revert i. induction s as [|c s IH]; intros i Ha; [by intros [= <- <-]|]. cbn [forallb] in Ha. apply andb_prop in Ha as [Hc Ha].
  cbn [skip_spaces]. destruct (asciiSpace c =? 0) eqn:E.
  - intros [= <- <-]. split; [done|]. split; [by cbn [forallb]; rewrite Hc|]. split; [done|]. lia.
  - intros H. destruct (IH (i + 1) Ha H) as (H1 & H2 & H3 & H4). split; [|split; [done|split; [cbn [length]; lia|done]]].
    rewrite fmap_cons. cbn [fieldsFunc_loop]. by rewrite (ascii_space_rune c Hc), E.
Qed.

Lemma ascii_end p fs cur :
  (if fs <? fs + blen cur then [mkFld [] cur (p + fs) (p + (fs + blen cur))] else []) =
  fieldsFunc_loop p (fs + blen cur) (match cur with [] => None | _ => Some (fs, cur) end) (singles []).
Proof.
  destruct cur as [|c cur]; cbn [fieldsFunc_loop fmap list_fmap].
  - by replace (fs <? fs + blen []) with false by (rewrite blen_nil; lia).
  - pose proof (blen_nonneg cur). replace (fs <? fs + blen (c :: cur)) with true by (rewrite blen_cons; lia). by rewrite Z.add_assoc.
Qed.

Lemma ascii_loop_spec p fuel fs cur s :
  (length s <= fuel)%nat -> forallb ascii s = true ->
  (cur = [] -> match s with [] => True | c :: _ => asciiSpace c = 0 end) ->
  ascii_loop fuel p fs (fs + blen cur) cur s =
  fieldsFunc_loop p (fs + blen cur) (match cur with [] => None | _ => Some (fs, cur) end) (singles s).
Proof.
  revert fs cur s. induction fuel as [|fuel IH]; intros fs cur s Hf Ha Hcur.
  { destruct s; [|cbn in Hf; lia]. apply ascii_end. }
  destruct s as [|c s]; [apply ascii_end|].
  cbn [forallb] in Ha. apply andb_prop in Ha as [Hc Ha]. rewrite fmap_cons. cbn [ascii_loop fieldsFunc_loop length] in *.
  rewrite (ascii_space_rune c Hc). destruct (asciiSpace c =? 0) eqn:E; cbn [negb].
  - replace (fs + blen cur + 1) with (fs + blen (cur ++ [c])) by (rewrite blen_app, blen_cons, blen_nil; lia).
    rewrite IH; [|lia|done|by destruct cur]. rewrite blen_app. change (blen [c]) with 1. rewrite Z.add_assoc. f_equal.
    destruct cur; [|done]. cbn [app]. by rewrite blen_nil, Z.add_0_r.
  - destruct cur as [|b cur]; [specialize (Hcur eq_refl); lia|].
    destruct (skip_spaces (fs + blen (b :: cur) + 1) s) as [i' s'] eqn:Es.
    destruct (skip_spaces_spec p _ _ _ _ Ha Es) as (H1 & H2 & H3 & H4). change (blen [c]) with 1. rewrite H1.
    cbn [app]. rewrite Z.add_assoc. f_equal. specialize (IH i' [] s' ltac:(lia) H2 ltac:(done)).
    rewrite blen_nil, Z.add_0_r in IH. exact IH.
Qed.

Lemma count_loop_fields p i start s n bits :
  forallb ascii s = true ->
  (count_loop s n (match start with None => 1 | Some _ => 0 end) bits).1 + (match start with None => 0 | Some _ => 1 end) =
  n + blen (fieldsFunc_loop p i start (singles s)).
Proof.
  revert i start n bits. induction s as [|c s IH]; intros i start n bits Ha; [by destruct start as [[]|]|].
  cbn [forallb] in Ha. apply andb_prop in Ha as [Hc Ha]. rewrite fmap_cons. cbn [count_loop fieldsFunc_loop].
  rewrite (ascii_space_rune c Hc). assert (Hs : asciiSpace c = 0 \/ asciiSpace c = 1) by (unfold asciiSpace; destruct (decide _); auto).
  destruct Hs as [Hs|Hs]; rewrite Hs; cbn [Z.eqb negb].
  - specialize (IH (i + blen [c]) (Some (match start with Some (b, v) => (b, v ++ [c]) | None => (i, [c]) end))
      (n + (match start with None => 1 | Some _ => 0 end)) (Z.lor bits (Z_of_byte c)) Ha).
    cbn beta iota in IH. destruct start as [[b v]|];
      [change (Z.land 0 (Z.lnot 0)) with 0|change (Z.land 1 (Z.lnot 0)) with 1]; lia.
  - specialize (IH (i + blen [c]) None n (Z.lor bits (Z_of_byte c)) Ha). cbn beta iota in IH.
    destruct start as [[b v]|]; [change (Z.land 0 (Z.lnot 1)) with 0|change (Z.land 1 (Z.lnot 1)) with 0];
      rewrite ?Z.add_0_r in *; cbn [app]; [rewrite (blen_cons (mkFld _ _ _ _))|]; lia.
Qed.

Lemma byte_high_bit v : 0 <= v < 256 -> Z.testbit v 7 = negb (v <? 128).
Proof.
  intros Hv. destruct (v <? 128) eqn:E; cbn [negb].
  - apply Z.testbit_false; [lia|]. change (2 ^ 7) with 128. rewrite Z.div_small by lia. done.
  - apply Z.testbit_true; [lia|]. change (2 ^ 7) with 128. Z.to_euclidean_division_equations; lia.
Qed.

Lemma count_loop_bits s n was bits :
  0 <= bits < 256 -> (count_loop s n was bits).2 < 128 -> bits < 128 /\ forallb ascii s = true.
Proof.
  revert n was bits. induction s as [|c s IH]; intros n was bits Hb H; [done|]. cbn [count_loop] in H.
  pose proof (Z_of_byte_range c) as Hc.
  assert (Hl : 0 <= Z.lor bits (Z_of_byte c) < 256).
  { split; [apply Z.lor_nonneg; lia|]. change 256 with (2 ^ 8).
    apply Z.log2_lt_cancel. rewrite Z.log2_lor by lia. 
    destruct (decide (Z.max (Z.log2 bits) (Z.log2 (Z_of_byte c)) < 8)) as [Hm|Hm]; [exact Hm|].
    exfalso. apply Hm. apply Z.max_lub_lt.
    - destruct (decide (bits = 0)) as [->|]; [done|]. apply Z.log2_lt_pow2; lia.
    - destruct (decide (Z_of_byte c = 0)) as [E0|]; [by rewrite E0|]. apply Z.log2_lt_pow2; lia. }
  destruct (IH _ _ _ Hl H) as [H1 H2]. pose proof (byte_high_bit _ Hl) as Ht. rewrite Z.lor_spec, !byte_high_bit in Ht by lia.
  cbn [forallb]. unfold ascii at 1. rewrite H2.
  destruct (bits <? 128) eqn:E1, (Z_of_byte c <? 128) eqn:E2, (Z.lor bits (Z_of_byte c) <? 128) eqn:E3; try done; lia.
Qed.

(** The fast path and the count are right: [fields] is [fieldsFunc] on every text. *)
Lemma fields_is_fieldsFunc p s : fields p s = Ok (fieldsFunc p s).
Proof.
  unfold fields. destruct (count_loop s 0 1 0) as [n bits] eqn:Ec. destruct (128 <=? bits) eqn:Eb; [done|].
  destruct (count_loop_bits s 0 1 0) as [_ Ha]; [lia|rewrite Ec; cbn; lia|].
  pose proof (count_loop_fields p 0 None s 0 0 Ha) as Hn. cbn beta iota in Hn. rewrite Ec in Hn. cbn [fst] in Hn. rewrite Z.add_0_r, Z.add_0_l in Hn.
  destruct (skip_spaces 0 s) as [i s'] eqn:Es. destruct (skip_spaces_spec p 0 s i s' Ha Es) as (H1 & H2 & H3 & H4).
  pose proof (ascii_loop_spec p (length s') i [] s' ltac:(done) H2 (fun _ => H4)) as Hl.
  rewrite blen_nil, Z.add_0_r in Hl.
  rewrite Hl, <- H1. unfold fieldsFunc. rewrite runes_ascii by done. rewrite <- Hn.
  replace (n <=? n) with true by lia. unfold blen in Hn. replace (Z.to_nat n - _)%nat with 0%nat by lia. by rewrite app_nil_r.
Qed.

(** ** Words *)

(** A word: some text without white space. *)
Definition word_text (v : gostring) : bool := negb (bool_decide (v = [])) && forallb (fun t => negb (space_rune t)) (runes v).

(** The field under construction before the suffix [s] of the line. *)
Definition partial (start : option (Z * gostring)) (i : Z) (s : gostring) : Prop :=
  match start with
  | None => True
  | Some (b, v) =>
      v <> [] /\ i = b + blen v /\ exists cs, runes (v ++ s) = cs ++ runes s /\ mjoin cs = v /\ forallb (fun t => negb (space_rune t)) cs = true
  end.

(** At white space or the end the field is complete. *)
Lemma partial_word b v i s :
  partial (Some (b, v)) i s -> match runes s with [] => True | t :: _ => space_rune t = true end -> word_text v = true.
Proof.
  intros (Hv & _ & cs & Hcs & Hj & Hn) Hs. unfold word_text. rewrite bool_decide_eq_false_2 by done. cbn [negb andb].
  destruct (decide (s = [])) as [->|Hne].
  - rewrite !app_nil_r in Hcs. by rewrite Hcs.
  - rewrite (runes_cons s Hne) in Hs. destruct (space_rune_boundary _ Hs) as (c & t' & Ht & Hc).
    destruct s as [|c' s]; [done|]. pose proof (rune_width_bound (c' :: s) Hne) as Hw.
    assert (c' = c) as -> by (destruct (rune_width (c' :: s)); [lia|]; cbn in Ht; by injection Ht).
    rewrite (runes_app_boundary v c s Hc) in Hcs. apply app_inv_tail in Hcs. by rewrite Hcs.
Qed.

Lemma partial_step b v i s :
  s <> [] -> space_rune (take (rune_width s) s) = false -> partial (Some (b, v)) i s ->
  partial (Some (b, v ++ take (rune_width s) s)) (i + blen (take (rune_width s) s)) (drop (rune_width s) s).
Proof.
  intros Hs Hn (Hv & -> & cs & Hcs & Hj & Hall). split; [by destruct v|]. split; [rewrite blen_app; lia|].
  exists (cs ++ [take (rune_width s) s]). split.
  - rewrite <- app_assoc, take_drop, Hcs, (runes_cons s Hs), <- app_assoc. done.
  - split; [by rewrite join_app, Hj; cbn; rewrite app_nil_r|]. rewrite forallb_app, Hall. cbn. by rewrite Hn.
Qed.

Lemma partial_start i s :
  s <> [] -> space_rune (take (rune_width s) s) = false ->
  partial (Some (i, take (rune_width s) s)) (i + blen (take (rune_width s) s)) (drop (rune_width s) s).
Proof.
  intros Hs Hn. pose proof (rune_width_bound s Hs). split; [destruct s; [done|]; by destruct (rune_width _); [lia|]|]. split; [done|].
  exists [take (rune_width s) s]. rewrite take_drop. split; [by apply runes_cons|]. split; [apply app_nil_r|]. cbn. by rewrite Hn.
Qed.

(** Every field is a word, its position is where it stands in the line, and the words are all the
    text that is not white space. *)
Definition field_at (p : Z) (line : gostring) (f : Field) : Prop :=
  word_text (fl_Value f) = true /\ fl_Key f = [] /\
  exists l r, line = l ++ fl_Value f ++ r /\ fl_start f = p + blen l /\ fl_end f = fl_start f + blen (fl_Value f).

Lemma fieldsFunc_loop_spec p line pre start s :
  line = pre ++ s -> partial start (blen pre) s ->
  (forall b v, start = Some (b, v) -> exists l, pre = l ++ v /\ b = blen l) ->
  Forall (field_at p line) (fieldsFunc_loop p (blen pre) start (runes s)) /\
  mjoin (fl_Value <$> fieldsFunc_loop p (blen pre) start (runes s)) =
    match start with Some (_, v) => v | None => [] end ++ mjoin (filter (fun t => space_rune t = false) (runes s)).
Proof.
  revert pre start. induction s as [|s Hs IH] using runes_ind; intros pre start Hline Hp Hpre.
  - change (runes []) with (@nil gostring). cbn [fieldsFunc_loop]. destruct start as [[b v]|]; [|done].
    destruct (Hpre b v eq_refl) as (l & -> & ->). split; [|done]. constructor; [|done].
    split; [by apply (partial_word (blen l) v (blen (l ++ v)) [])|]. split; [done|]. exists l, []. cbn [fl_Value fl_start fl_end].
    split; [|done]. rewrite Hline. by rewrite !app_nil_r.
  - rewrite (runes_cons s Hs). cbn [fieldsFunc_loop].
    set (t := take (rune_width s) s) in *. set (s' := drop (rune_width s) s) in *.
    assert (Hts : t ++ s' = s) by apply take_drop. assert (Hline' : line = (pre ++ t) ++ s') by by rewrite <- app_assoc, Hts.
    assert (Hpt : blen pre + blen t = blen (pre ++ t)) by by rewrite blen_app. rewrite Hpt.
    destruct (space_rune t) eqn:Et.
    + rewrite filter_cons_False by (by rewrite Et). destruct (IH (pre ++ t) None Hline' I ltac:(done)) as [H1 H2].
      destruct start as [[b v]|]; [|by split].
      destruct (Hpre b v eq_refl) as (l & -> & ->). rewrite fmap_app, join_app, H2. split; [|cbn; by rewrite app_nil_r].
      apply Forall_app. split; [|done]. constructor; [|done].
      split; [apply (partial_word (blen l) v (blen (l ++ v)) s); [done|by rewrite (runes_cons s Hs)]|]. split; [done|].
      exists l, s. cbn [fl_Value fl_start fl_end]. split; [by rewrite Hline, <- app_assoc|done].
    + rewrite filter_cons_True by done. rewrite join_cons || change (mjoin (t :: ?l)) with (t ++ mjoin l).
      destruct start as [[b v]|].
      * destruct (Hpre b v eq_refl) as (l & -> & ->).
        destruct (IH ((l ++ v) ++ t) (Some (blen l, v ++ t)) Hline') as [H1 H2].
        { rewrite <- Hpt. by apply partial_step. } { intros b' v' [= <- <-]. exists l. by rewrite app_assoc. }
        split; [done|]. rewrite H2. by rewrite app_assoc.
      * destruct (IH (pre ++ t) (Some (blen pre, t)) Hline') as [H1 H2].
        { rewrite <- Hpt. by apply partial_start. } { intros b' v' [= <- <-]. by exists pre. }
        split; [done|]. by rewrite H2.
Qed.

(** ** Words joined by blanks *)

Definition with_blank (w : gostring) : gostring := lit " " ++ w.

Lemma consume p cs i b v rest :
  forallb (fun t => negb (space_rune t)) cs = true ->
  fieldsFunc_loop p i (Some (b, v)) (cs ++ rest) = fieldsFunc_loop p (i + blen (mjoin cs)) (Some (b, v ++ mjoin cs)) rest.
Proof.
  revert i v. induction cs as [|t cs IH]; intros i v Hn; [by rewrite Z.add_0_r, app_nil_r|].
  cbn [forallb] in Hn. apply andb_prop in Hn as [Ht Hn]. cbn [app fieldsFunc_loop]. apply negb_true_iff in Ht. rewrite Ht, IH by done.
  change (mjoin (t :: cs)) with (t ++ mjoin cs). by rewrite blen_app, <- app_assoc, Z.add_assoc.
Qed.

Lemma consume_word p w i rest :
  word_text w = true ->
  fieldsFunc_loop p i None (runes w ++ rest) = fieldsFunc_loop p (i + blen w) (Some (i, w)) rest.
Proof.
  unfold word_text. intros [Hw Hn]%andb_prop. apply negb_true_iff, bool_decide_eq_false in Hw.
  pose proof (mjoin_runes w) as Hj. rewrite (runes_cons w Hw) in *. cbn [forallb] in Hn. apply andb_prop in Hn as [Ht Hn].
  cbn [app fieldsFunc_loop]. apply negb_true_iff in Ht. rewrite Ht, consume by done.
  change (mjoin (?t :: ?cs)) with (t ++ mjoin cs) in Hj. rewrite <- Z.add_assoc, <- blen_app, Hj. done.
Qed.

Lemma fields_of_words_loop p w ws i :
  word_text w = true -> forallb word_text ws = true ->
  fl_Value <$> fieldsFunc_loop p i None (runes (w ++ mjoin (with_blank <$> ws))) = w :: ws.
Proof.
  intros Hw Hws. revert w i Hw. induction ws as [|x ws IH]; intros w i Hw.
  - cbn [fmap list_fmap mjoin list_join]. rewrite app_nil_r. pose proof (consume_word p w i [] Hw) as H.
    rewrite app_nil_r in H. by rewrite H.
  - cbn [forallb] in Hws. apply andb_prop in Hws as [Hx Hws]. rewrite fmap_cons.
    change (mjoin (?a :: ?l)) with (a ++ mjoin l). unfold with_blank at 1. change (lit " ") with [Byte.x20]. rewrite <- app_assoc. cbn [app].
    rewrite runes_app_ascii by done. rewrite (consume_word p w i _ Hw). cbn [fieldsFunc_loop].
    change (space_rune [Byte.x20]) with true. cbv iota. cbn [app]. rewrite fmap_cons, (IH Hws x _ Hx). done.
Qed.

Lemma fields_of_words p w ws :
  word_text w = true -> forallb word_text ws = true ->
  exists fs, fields p (w ++ mjoin (with_blank <$> ws)) = Ok fs /\ fl_Value <$> fs = w :: ws.
Proof.
  intros Hw Hws. rewrite fields_is_fieldsFunc. eexists. split; [done|]. by apply fields_of_words_loop.
Qed.

(** ** What a word means *)

Inductive word := WOption (name : gostring) | WField (key value : gostring) | WTag (text : gostring).

Definition classify_word (v : gostring) : option word :=
  if HasPrefix v tag_prefix then if tagRegexp (drop 4 v) then Some (WTag v) else None
  else let '(key, value, ok) := Cut v Byte.x3d in
       if ok : bool then if negb (bool_decide (value = [])) && nameRe key then Some (WField key value) else None
       else if nameRe v then Some (WOption v) else None.

Definition word_key (w : word) : gostring := match w with WOption n => n | WField k _ => k | WTag t => t end.
Definition print_word (w : word) : gostring := match w with WOption n => n | WField k v => k ++ lit "=" ++ v | WTag t => t end.

Lemma print_classify v w : classify_word v = Some w -> print_word w = v.
Proof.
  unfold classify_word. destruct (HasPrefix v tag_prefix); [destruct (tagRegexp _); [by intros [= <-]|done]|].
  destruct (Cut v Byte.x3d) as [[key value] ok] eqn:Ec. apply Cut_spec in Ec. destruct ok.
  - destruct (_ && _); [|done]. intros [= <-]. destruct Ec as [-> _]. done.
  - destruct (nameRe v); [by intros [= <-]|done].
Qed.

Definition options (ws : list word) : list gostring := omap (fun w => match w with WOption n => Some n | _ => None end) ws.
Definition key_values (ws : list word) : list (gostring * gostring) := omap (fun w => match w with WField k v => Some (k, v) | _ => None end) ws.
Definition tag_words (ws : list word) : list gostring := omap (fun w => match w with WTag t => Some t | _ => None end) ws.

(** What a directive says, without positions. *)
Record content := mkContent { c_Name : gostring; c_Options : list gostring; c_Fields : list (gostring * gostring); c_Tags : list gostring }.

Definition content_of (d : Directive) : content :=
  mkContent (d_Name d) (fl_Value <$> d_Options d) ((fun f => (fl_Key f, fl_Value f)) <$> d_Fields d) (fl_Value <$> d_Tags d).

Definition extend (c : content) (ws : list word) : content :=
  mkContent (c_Name c) (c_Options c ++ options ws) (c_Fields c ++ key_values ws) (c_Tags c ++ tag_words ws).

Lemma extend_cons c w ws : extend c (w :: ws) = extend (extend c [w]) ws.
Proof. unfold extend. destruct w; cbn; f_equal; by rewrite ?app_nil_r, <- ?app_assoc. Qed.

(** One word: it is taken when it has a meaning and its key is new, and refused otherwise. *)
Lemma parse_word_step f fs seen d :
  match classify_word (fl_Value f) with
  | Some w =>
      if decide (word_key w ∈ seen) then exists e, parse_words (f :: fs) seen d = inl e
      else exists d1, parse_words (f :: fs) seen d = parse_words fs ({[word_key w]} ∪ seen) d1 /\
             content_of d1 = extend (content_of d) [w]
  | None => exists e, parse_words (f :: fs) seen d = inl e
  end.
Proof.
  unfold classify_word. cbn [parse_words]. destruct (HasPrefix (fl_Value f) tag_prefix).
  { destruct (tagRegexp _); cbn [negb word_key]; (destruct (decide (fl_Value f ∈ seen)); [by eexists|]); [|by eexists].
    eexists. split; [done|]. unfold content_of, extend. cbn. by rewrite fmap_app, !app_nil_r. }
  destruct (Cut (fl_Value f) Byte.x3d) as [[key value] ok]. destruct ok.
  - destruct (decide (value = [])) as [Hv|Hv];
      [rewrite bool_decide_eq_true_2 by done; by eexists|rewrite bool_decide_eq_false_2 by done; cbn [negb andb]].
    destruct (nameRe key); cbn [negb word_key]; [|by eexists]. destruct (decide (key ∈ seen)); [by eexists|].
    eexists. split; [done|]. unfold content_of, extend. cbn. by rewrite fmap_app, !app_nil_r.
  - destruct (nameRe (fl_Value f)); cbn [negb word_key]; [|by eexists]. destruct (decide (fl_Value f ∈ seen)); [by eexists|].
    eexists. split; [done|]. unfold content_of, extend. cbn. by rewrite fmap_app, !app_nil_r.
Qed.

(** The keys of the words are new and distinct. *)
Definition keys_ok (ws : list word) (seen : gset (list Init.Byte.byte)) : Prop :=
  NoDup (word_key <$> ws) /\ forall k, k ∈ (word_key <$> ws) -> k ∉ seen.

Lemma keys_ok_cons w ws seen : keys_ok (w :: ws) seen <-> (word_key w ∉ seen) /\ keys_ok ws ({[word_key w]} ∪ seen).
Proof.
  unfold keys_ok. rewrite fmap_cons, list.NoDup_cons. split.
  - intros [[Hn Hd] Hk]. split; [apply Hk; by left|]. split; [done|]. intros k Hin. rewrite elem_of_union, elem_of_singleton.
    intros [->|Hs]; [done|]. by apply (Hk k); [right|].
  - intros (Hw & Hd & Hk). split; [split; [|done]|].
    + intros Hin. apply (Hk _ Hin). set_solver.
    + intros k [->|Hin]%elem_of_cons; [done|]. intros Hs. apply (Hk _ Hin). set_solver.
Qed.

Lemma parse_words_sound fs seen d d' :
  parse_words fs seen d = inr d' ->
  exists ws, Forall2 (fun f w => classify_word (fl_Value f) = Some w) fs ws /\ keys_ok ws seen /\ content_of d' = extend (content_of d) ws.
Proof.
  revert seen d. induction fs as [|f fs IH]; intros seen d H.
  - injection H as <-. exists []. split; [done|]. split; [split; [constructor|by intros k Hk%elem_of_nil]|].
    unfold extend. cbn. rewrite !app_nil_r. done.
  - pose proof (parse_word_step f fs seen d) as Hs. destruct (classify_word (fl_Value f)) as [w|] eqn:Ew; [|by destruct Hs as [e He]; rewrite He in H].
    destruct (decide (word_key w ∈ seen)) as [Hin|Hin]; [by destruct Hs as [e He]; rewrite He in H|].
    destruct Hs as (d1 & E1 & E2). rewrite E1 in H. destruct (IH _ _ H) as (ws & H1 & H2 & H3).
    exists (w :: ws). split; [by constructor|]. split; [by apply keys_ok_cons|]. by rewrite H3, E2, <- extend_cons.
Qed.

Lemma parse_words_complete fs ws seen d :
  Forall2 (fun f w => classify_word (fl_Value f) = Some w) fs ws -> keys_ok ws seen ->
  exists d', parse_words fs seen d = inr d' /\ content_of d' = extend (content_of d) ws.
Proof.
  intros Hf. revert seen d. induction Hf as [|f w fs ws Hw _ IH]; intros seen d Hk.
  - exists d. split; [done|]. unfold extend. cbn. by rewrite !app_nil_r.
  - apply keys_ok_cons in Hk as [Hin Hk]. pose proof (parse_word_step f fs seen d) as Hs. rewrite Hw, decide_False in Hs by done.
    destruct Hs as (d1 & E1 & E2). destruct (IH _ d1 Hk) as (d' & E3 & E4). exists d'. rewrite E1. split; [done|].
    by rewrite E4, E2, <- extend_cons.
Qed.

(** ** Printing *)

(** The words of a directive in the order they are printed. *)
Definition printed_words (ws : list word) : list word :=
  (WOption <$> options ws) ++ ((fun kv => WField kv.1 kv.2) <$> key_values ws) ++ (WTag <$> tag_words ws).

Lemma printed_words_perm ws : printed_words ws ≡ₚ ws.
Proof.
  unfold printed_words. induction ws as [|[n|k v|t] ws IH]; [done| | |]; cbn [options key_values tag_words omap list_omap] in *;
    rewrite ?fmap_cons; cbn [app fst snd].
  - by rewrite IH.
  - etrans; [|apply perm_skip, IH]. solve_Permutation.
  - etrans; [|apply perm_skip, IH]. solve_Permutation.
Qed.

Lemma printed_words_content ws :
  options (printed_words ws) = options ws /\ key_values (printed_words ws) = key_values ws /\ tag_words (printed_words ws) = tag_words ws.
Proof.
  unfold printed_words. generalize (options ws) as os. generalize (key_values ws) as ks. generalize (tag_words ws) as ts. intros ts ks os.
  assert (Ho : options (WOption <$> os) = os /\ key_values (WOption <$> os) = [] /\ tag_words (WOption <$> os) = []).
  { split_and!; [|by induction os|by induction os]. induction os as [|o os IH]; [done|]. by apply (f_equal (cons o)). }
  assert (Hk : options ((fun kv => WField kv.1 kv.2) <$> ks) = [] /\ key_values ((fun kv => WField kv.1 kv.2) <$> ks) = ks /\ tag_words ((fun kv => WField kv.1 kv.2) <$> ks) = []).
  { split_and!; [by induction ks| |by induction ks]. induction ks as [|[k v] ks IH]; [done|]. by apply (f_equal (cons (k, v))). }
  assert (Ht : options (WTag <$> ts) = [] /\ key_values (WTag <$> ts) = [] /\ tag_words (WTag <$> ts) = ts).
  { split_and!; [by induction ts|by induction ts|]. induction ts as [|t ts IH]; [done|]. by apply (f_equal (cons t)). }
  destruct Ho as (A1 & A2 & A3), Hk as (B1 & B2 & B3), Ht as (C1 & C2 & C3).
  unfold options, key_values, tag_words in *. rewrite !omap_app. rewrite A1, A2, A3, B1, B2, B3, C1, C2, C3. by rewrite !app_nil_r.
Qed.

Lemma Directive_String_words d ws name :
  content_of d = extend (mkContent name [] [] []) ws ->
  Directive_String d = lit "encore:" ++ name ++ mjoin (with_blank <$> (print_word <$> printed_words ws)).
Proof.
  intros Hc. unfold content_of, extend in Hc. cbn in Hc. injection Hc as Hn Ho Hf Ht. unfold Directive_String, printed_words.
  rewrite Hn, !fmap_app, !join_app. f_equal. f_equal. rewrite <- Ho, <- Hf, <- Ht, <- !list_fmap_compose. done.
Qed.

Lemma fields_words p line fs : fields p line = Ok fs -> Forall (field_at p line) fs /\
  mjoin (fl_Value <$> fs) = mjoin (filter (fun t => space_rune t = false) (runes line)).
Proof.
  rewrite fields_is_fieldsFunc. intros [= <-]. apply (fieldsFunc_loop_spec p line [] None line); done.
Qed.

(** What [parseOne] accepts: a name and words with a meaning and distinct keys. *)
Lemma parseOne_sound pos line d :
  parseOne pos line = Ok (inr d) ->
  exists name ws, word_text name = true /\ Forall (fun w => word_text (print_word w) = true /\ classify_word (print_word w) = Some w) ws /\
    NoDup (word_key <$> ws) /\ content_of d = extend (mkContent name [] [] []) ws.
Proof.
  unfold parseOne. destruct (fields (pos + 7) line) as [fs| |] eqn:Ef; [|done|done]. rewrite bind_Ok.
  destruct (fields_words _ _ _ Ef) as [Hw _]. destruct fs as [|f fs]; [done|]. intros [= H].
  apply list.Forall_cons in Hw as [[Hf _] Hw]. apply parse_words_sound in H as (ws & H1 & [H2 _] & H3).
  exists (fl_Value f), ws. split; [done|]. split; [|split; [done|exact H3]].
  clear H2 H3 Ef. induction H1 as [|g w fs ws Hc _ IH]; [constructor|]. apply list.Forall_cons in Hw as [[Hg _] Hw].
  constructor; [|by apply IH]. rewrite (print_classify _ _ Hc). done.
Qed.

Lemma parseOne_complete pos name ws :
  word_text name = true -> Forall (fun w => word_text (print_word w) = true /\ classify_word (print_word w) = Some w) ws ->
  NoDup (word_key <$> ws) ->
  exists d, parseOne pos (name ++ mjoin (with_blank <$> (print_word <$> ws))) = Ok (inr d) /\
    content_of d = extend (mkContent name [] [] []) ws.
Proof.
  intros Hn Hw Hk. destruct (fields_of_words (pos + 7) name (print_word <$> ws) Hn) as (fs & Ef & Hv).
  { clear Hk. induction Hw as [|w ws [Hw _] _ IH]; [done|]. rewrite fmap_cons. cbn [forallb]. by rewrite Hw. }
  unfold parseOne. rewrite Ef, bind_Ok. destruct fs as [|f fs]; [done|]. rewrite fmap_cons in Hv. injection Hv as Hf Hfs.
  destruct (parse_words_complete fs ws ∅ (mkDir (fl_Value f) [] [] [] pos (pos + 7 + blen (fl_Value f))
    (pos + 7 + blen (name ++ mjoin (with_blank <$> (print_word <$> ws)))))) as (d & Ed & Hc).
  - clear Hk Ef Hn Hf. revert fs Hfs. induction Hw as [|w ws [_ Hw] _ IH]; intros [|g fs] Hfs; [constructor|done|done|].
    rewrite !fmap_cons in Hfs. injection Hfs as Hg Hfs. constructor; [by rewrite Hg|]. by apply IH.
  - split; [done|]. intros k _. set_solver.
  - exists d. rewrite Ed. split; [done|]. rewrite Hc. unfold content_of. cbn. by rewrite Hf.
Qed.

(** C37. Parsing and printing a directive: the printed form of an accepted directive is accepted again,
    at any position, with the same name, options, fields and tags, and prints the same; in an
    accepted directive no option, field or tag occurs twice. *)
Theorem directive_roundtrip (pos pos' : Z) (line : gostring) (d : Directive) :
  parseOne pos line = Ok (inr d) ->
  NoDup (c_Options (content_of d) ++ (fst <$> c_Fields (content_of d)) ++ c_Tags (content_of d)) /\
  exists rest d', Directive_String d = lit "encore:" ++ rest /\ parseOne pos' rest = Ok (inr d') /\
    content_of d' = content_of d /\ Directive_String d' = Directive_String d.
Proof.
  intros H. apply parseOne_sound in H as (name & ws & Hn & Hw & Hk & Hc). pose proof (printed_words_perm ws) as Hp.
  assert (Hk' : NoDup (word_key <$> printed_words ws)) by by rewrite Hp.
  split.
  { rewrite Hc. unfold extend. cbn [c_Options c_Fields c_Tags app]. unfold printed_words in Hk'.
    rewrite !fmap_app, <- !list_fmap_compose in Hk'. unfold compose in Hk'. cbn [word_key] in Hk'. by rewrite !list_fmap_id in Hk'. }
  destruct (parseOne_complete pos' name (printed_words ws) Hn) as (d' & E & Hc'); [by rewrite Hp|done|].
  destruct (printed_words_content ws) as (H1 & H2 & H3).
  assert (Hc2 : content_of d' = content_of d) by (rewrite Hc', Hc; unfold extend; by rewrite H1, H2, H3).
  eexists _, d'. split; [by apply Directive_String_words|]. split; [done|]. split; [done|].
  rewrite (Directive_String_words d ws name Hc), (Directive_String_words d' ws name); [done|]. by rewrite Hc2.
Qed.

Lemma directive_roundtrip_witness :
  exists d rest d', parseOne 10 (lit "api  tag:foo public path=/users/:id raw") = Ok (inr d) /\
    Directive_String d = lit "encore:" ++ rest /\ parseOne 3 rest = Ok (inr d') /\ content_of d' = content_of d.
Proof.
  assert (E : exists d, parseOne 10 (lit "api  tag:foo public path=/users/:id raw") = Ok (inr d)) by (vm_compute; eexists; reflexivity).
  destruct E as [d E]. destruct (directive_roundtrip 10 3 _ d E) as (_ & rest & d' & H1 & H2 & H3 & _). exists d, rest, d'.
  split; [exact E|]. split; [exact H1|]. split; [exact H2|exact H3].
Defined.

(** C38. Cutting a line into words: the fast path for ASCII lines gives what the path for Unicode text
    gives, without running past the slice it has counted out; every word is some text without
    white space that stands in the line where its position says, and the words together are all
    of the line but its white space. *)
Theorem fields_correct (startPos : Z) (line : gostring) :
  fields startPos line = Ok (fieldsFunc startPos line) /\
  Forall (field_at startPos line) (fieldsFunc startPos line) /\
  mjoin (fl_Value <$> fieldsFunc startPos line) = mjoin (filter (fun t => space_rune t = false) (runes line)).
Proof. split; [apply fields_is_fieldsFunc|]. by apply fields_words, fields_is_fieldsFunc. Qed.

(** ** Comment groups *)

Lemma parseOne_total pos line : exists r, parseOne pos line = Ok r.
Proof. unfold parseOne. rewrite fields_is_fieldsFunc, bind_Ok. by eexists. Qed.

Definition std_comment (c : Z * gostring) : Prop := HasPrefix c.2 std_prefix = true.
Definition legacy_line (l : gostring) : Prop := HasPrefix l legacy_prefix = true.

(** The directive in a comment of the standard syntax and in a line of the legacy syntax. *)
Definition std_parse (c : Z * gostring) : run (dir_err + Directive) := parseOne (c.1 + 2) (drop 9 c.2).
Definition legacy_parse (cg : CommentGroup) (l : gostring) : run (dir_err + Directive) :=
  parseOne (legacy_pos (cg_Pos cg) (cg_List cg) l) (drop 7 l).

(** Parsing one after the other: all directives, or the error of the first that has one. *)
Definition all_parsed {A} (f : A -> run (dir_err + Directive)) (l : list A) (ds : list Directive) : Prop :=
  Forall2 (fun x d => f x = Ok (inr d)) l ds.
Definition first_error_of {A} (f : A -> run (dir_err + Directive)) (l : list A) (e : dir_err) : Prop :=
  exists before x after ds, l = before ++ x :: after /\ all_parsed f before ds /\ f x = Ok (inl e).

Lemma first_error_here {A} (f : A -> run (dir_err + Directive)) x l e : f x = Ok (inl e) -> first_error_of f (x :: l) e.
Proof. intros H. exists [], x, l, []. split; [done|]. split; [constructor|done]. Qed.

Lemma first_error_later {A} (f : A -> run (dir_err + Directive)) x l d e :
  f x = Ok (inr d) -> first_error_of f l e -> first_error_of f (x :: l) e.
Proof. intros H (b & y & a & ds & -> & Hb & Hy). exists (x :: b), y, a, (d :: ds). split; [done|]. split; [by constructor|done]. Qed.

Lemma std_directives_spec cs :
  exists r, std_directives cs = Ok r /\
    match r with
    | inl e => first_error_of std_parse (filter std_comment cs) e
    | inr ds => all_parsed std_parse (filter std_comment cs) ds
    end.
Proof.
  induction cs as [|[pos text] cs (r & Hr & IH)]; [exists (inr []); split; [done|constructor]|]. cbn [std_directives].
  destruct (HasPrefix text std_prefix) eqn:E.
  - rewrite filter_cons_True by exact E. destruct (parseOne_total (pos + 2) (drop (length std_prefix) text)) as [[e|d] Hp];
      rewrite Hp, bind_Ok; [exists (inl e); split; [done|by apply first_error_here]|]. rewrite Hr, bind_Ok. eexists. split; [done|].
    destruct r as [e|ds]; [by apply (first_error_later _ _ _ d)|by constructor].
  - rewrite filter_cons_False by (unfold std_comment; cbn [snd]; congruence). by exists r.
Qed.

Lemma legacy_directives_spec cg ls :
  exists r, legacy_directives cg ls = Ok r /\
    match r with
    | inl e => first_error_of (legacy_parse cg) (filter legacy_line ls) e
    | inr (ds, doc) => all_parsed (legacy_parse cg) (filter legacy_line ls) ds /\ doc = filter (fun l => ~ legacy_line l) ls
    end.
Proof.
  induction ls as [|l ls (r & Hr & IH)]; [exists (inr ([], [])); split; [done|]; split; [constructor|done]|].
  cbn [legacy_directives].
  destruct (HasPrefix l legacy_prefix) eqn:E.
  - rewrite filter_cons_True by exact E.
    destruct (parseOne_total (legacy_pos (cg_Pos cg) (cg_List cg) l) (drop (length legacy_prefix) l)) as [[e|d] Hp];
      rewrite Hp, bind_Ok; [exists (inl e); split; [done|by apply first_error_here]|]. rewrite Hr, bind_Ok. eexists. split; [done|].
    destruct r as [e|[ds doc]]; [by apply (first_error_later _ _ _ d)|]. destruct IH as [H1 H2].
    rewrite filter_cons_False by (intros Hn; by apply Hn). split; [by constructor|done].
  - assert (Hn : ~ legacy_line l) by (unfold legacy_line; congruence).
    rewrite (filter_cons_False legacy_line), (filter_cons_True (fun l => ~ legacy_line l)) by done. rewrite Hr, bind_Ok. eexists. split; [done|].
    destruct r as [e|[ds doc]]; [done|]. destruct IH as [H1 ->]. done.
Qed.

(** The directive of a comment group: [Parse] never panics.  A group with one comment in the
    standard syntax has the directive of that comment; a group with none has the directive of its one
    line in the legacy syntax, which is the only line left out of the documentation, or no
    directive.  An error is that of the first directive that cannot be parsed, or, when all can,
    says that there are several. *)
Theorem Parse_comment_group (cg : CommentGroup) :
  let std := filter std_comment (cg_List cg) in
  let ls := Split (cg_Text cg) Byte.x0a in
  let legacy := filter legacy_line ls in
  exists r, Parse (Some cg) = Ok r /\
  match r with
  | inr (o, doc) =>
      (exists c d, std = [c] /\ std_parse c = Ok (inr d) /\ o = Some d /\ doc = cg_Text cg) \/
      (std = [] /\ exists l d, legacy = [l] /\ legacy_parse cg l = Ok (inr d) /\ o = Some d /\
        doc = TrimSpace (Join (filter (fun l => ~ legacy_line l) ls) [Byte.x0a])) \/
      (std = [] /\ legacy = [] /\ o = None /\ doc = cg_Text cg)
  | inl e =>
      first_error_of std_parse std e \/
      (e = errMultipleDirectives /\ (2 <= length std)%nat /\ exists ds, all_parsed std_parse std ds) \/
      (std = [] /\ first_error_of (legacy_parse cg) legacy e) \/
      (std = [] /\ e = errMultipleDirectives /\ (2 <= length legacy)%nat /\ exists ds, all_parsed (legacy_parse cg) legacy ds)
  end.
Proof.
  intros std ls legacy. unfold Parse. destruct (std_directives_spec (cg_List cg)) as (r & -> & Hs). rewrite bind_Ok. fold std in Hs.
  destruct r as [e|ds]; [eexists; split; [done|by left]|].
  destruct Hs as [|c d cs ds Hd [|c' d' cs' ds' Hd' Hs]]; cbn [length].
  - destruct (legacy_directives_spec cg ls) as (r & Hl & H). fold ls legacy. rewrite Hl, bind_Ok. fold legacy in H.
    eexists. split; [done|]. destruct r as [e|[ds docs]]; [right; right; left; by split|]. destruct H as [H ->].
    destruct H as [|l d ls' ds Hd [|l' d' ls'' ds' Hd' H]].
    + right; right. done.
    + right; left. split; [done|]. by exists l, d.
    + right; right; right. split; [done|]. split; [done|]. split; [cbn; lia|]. exists (d :: d' :: ds'). by repeat constructor.
  - eexists. split; [done|]. left. by exists c, d.
  - eexists. split; [done|]. right; left. split; [done|]. split; [lia|]. exists (d :: d' :: ds'). by repeat constructor.
Qed.

(** ** Validation *)

Lemma first_error_None {A} (check : A -> option (option dir_err)) l : first_error check l = None <-> Forall (fun x => check x = None) l.
Proof.
  induction l as [|x l IH]; [by split|]. cbn [first_error]. rewrite list.Forall_cons, <- IH. destruct (check x); [|tauto].
  split; [done|by intros [? _]].
Qed.

(** Validation accepts exactly the directives whose options and fields are allowed and which the
    callbacks accept. *)
Lemma Validate_accepts d spec :
  Validate d spec = None <->
  Forall (fun o => (fl_Value o ∈ AllowedOptions spec) /\ ValidateOption spec o = true) (d_Options d) /\
  Forall (fun f => (fl_Key f ∈ AllowedFields spec) /\ ValidateField spec f = true) (d_Fields d) /\
  Forall (fun t => ValidateTag spec t = true) (d_Tags d).
Proof.
  unfold Validate. set (eo := fun o => _). set (ef := fun f => _). set (et := fun t => _).
  assert (Ho : forall o, eo o = None <-> (fl_Value o ∈ AllowedOptions spec) /\ ValidateOption spec o = true)
    by (intros o; unfold eo; destruct (decide _), (ValidateOption spec o); naive_solver).
  assert (Hf : forall f, ef f = None <-> (fl_Key f ∈ AllowedFields spec) /\ ValidateField spec f = true)
    by (intros f; unfold ef; destruct (decide _), (ValidateField spec f); naive_solver).
  assert (Ht : forall t, et t = None <-> ValidateTag spec t = true) by (intros t; unfold et; destruct (ValidateTag spec t); naive_solver).
  assert (Hiff : forall (P Q : Field -> Prop) l, (forall f, P f <-> Q f) -> Forall P l <-> Forall Q l)
    by (intros P Q l H; rewrite !list.Forall_forall; firstorder).
  rewrite <- (Hiff _ _ _ Ho), <- (Hiff _ _ _ Hf), <- (Hiff _ _ _ Ht).
  rewrite <- !first_error_None. destruct (first_error eo _); [split; [done|by intros [? _]]|].
  destruct (first_error ef _); [split; [done|by intros (_ & ? & _)]|]. tauto.
Qed.
