(* ===== verification/Uuid.v ===== *)
(** UUIDs: [runtimes/go/types/uuid] (uuid.go, codec.go, sql.go, generator.go).

    A UUID is its 16 bytes.  The decoders write into the UUID as they go, so they return it also
    with an error.  [hex.Decode] and [hex.Encode] belong to the standard library.  The hash
    functions and the source of random bytes are arguments. *)

From S2P Require Import Prelude Run.

Definition Size : nat := 16.
Definition is_UUID (u : list byte) : Prop := length u = Size.

Definition V3 : Z := 3.
Definition V4 : Z := 4.
Definition V5 : Z := 5.

Definition variantNCS : Z := 0.
Definition variantRFC4122 : Z := 1.
Definition variantMicrosoft : Z := 2.
Definition variantFuture : Z := 3.

Definition urnPrefix : gostring := lit "urn:uuid:".
Definition byteGroups : list nat := [8; 4; 4; 4; 12]%nat.

Definition Nil : list byte := replicate Size Byte.x00.

(** [u[i]] as a number; the index is in range for every UUID. *)
Definition at_ (u : list byte) (i : nat) : Z := Z_of_byte (nth i u Byte.x00).

(** ** Versions and variants *)

Definition Version (u : list byte) : Z := Z.shiftr (at_ u 6) 4.

Definition variant (u : list byte) : Z :=
  let b := at_ u 8 in
  if Z.shiftr b 7 =? 0 then variantNCS
  else if Z.shiftr b 6 =? 2 then variantRFC4122
  else if Z.shiftr b 5 =? 6 then variantMicrosoft
  else variantFuture.

Definition SetVersion (u : list byte) (v : Z) : list byte :=
  <[6%nat := byte_of_Z (Z.lor (Z.land (at_ u 6) 15) (Z.shiftl v 4))]> u.

Definition setVariant (u : list byte) (v : Z) : list byte :=
  let b := at_ u 8 in
  <[8%nat := byte_of_Z (if v =? variantNCS then Z.lor (Z.land b 127) 0
                        else if v =? variantRFC4122 then Z.lor (Z.land b 63) 128
                        else if v =? variantMicrosoft then Z.lor (Z.land b 31) 192
                        else Z.lor (Z.land b 31) 224)]> u.

(** ** Hexadecimal *)

Definition hextable : gostring := lit "0123456789abcdef".

Definition hex_digit (v : Z) : byte := nth (Z.to_nat v) hextable Byte.x00.

Definition hex_Encode (src : list byte) : gostring :=
  mjoin ((fun b => [hex_digit (Z.shiftr (Z_of_byte b) 4); hex_digit (Z.land (Z_of_byte b) 15)]) <$> src).

(** [reverseHexTable]: both cases. *)
Definition hex_value (c : byte) : option Z :=
  let z := Z_of_byte c in
  if (48 <=? z) && (z <=? 57) then Some (z - 48)
  else if (97 <=? z) && (z <=? 102) then Some (z - 87)
  else if (65 <=? z) && (z <=? 70) then Some (z - 55)
  else None.

(** [hex.Decode] on a text of even length: what is written and whether it was valid. *)
Fixpoint hex_Decode (src : gostring) : list byte * bool :=
  match src with
  | p :: q :: src =>
      match hex_value p, hex_value q with
      | Some a, Some b => let '(out, ok) := hex_Decode src in (byte_of_Z (Z.lor (Z.shiftl a 4) b) :: out, ok)
      | _, _ => ([], false)
      end
  | _ => ([], true)
  end.

(** Writing at an offset. *)
Definition put_bytes (u : list byte) (off : nat) (bs : list byte) : list byte := take off u ++ bs ++ drop (off + length bs) u.

(** ** Text *)

Definition String_ (u : list byte) : gostring :=
  hex_Encode (take 4 u) ++ lit "-" ++ hex_Encode (take 2 (drop 4 u)) ++ lit "-" ++ hex_Encode (take 2 (drop 6 u)) ++ lit "-" ++
  hex_Encode (take 2 (drop 8 u)) ++ lit "-" ++ hex_Encode (drop 10 u).

(** The loop over the groups: from the second on a dash is skipped. *)
Fixpoint groups_loop (groups : list nat) (first : bool) (src : gostring) (off : nat) (u : list byte) : list byte * bool :=
  match groups with
  | [] => (u, true)
  | g :: groups =>
      let src := if first then src else drop 1 src in
      let '(bs, ok) := hex_Decode (take g src) in
      let u := put_bytes u off bs in
      if ok : bool then groups_loop groups false (drop g src) (off + g / 2) u else (u, false)
  end.

Definition is_dash (t : gostring) (i : nat) : bool := bool_decide (nth i t Byte.x00 = Byte.x2d).

Definition decodeCanonical (u : list byte) (t : gostring) : list byte * bool :=
  if is_dash t 8 && is_dash t 13 && is_dash t 18 && is_dash t 23 then groups_loop byteGroups true t 0 u else (u, false).

Definition decodeHashLike (u : list byte) (t : gostring) : list byte * bool :=
  let '(bs, ok) := hex_Decode t in (put_bytes u 0 bs, ok).

Definition decodePlain (u : list byte) (t : gostring) : list byte * bool :=
  let l := length t in
  if decide (l = 32)%nat then decodeHashLike u t
  else if decide (l = 36)%nat then decodeCanonical u t
  else (u, false).

Definition decodeBraced (u : list byte) (t : gostring) : list byte * bool :=
  let l := length t in
  if bool_decide (nth 0 t Byte.x00 = Byte.x7b) && bool_decide (nth (l - 1) t Byte.x00 = Byte.x7d) then decodePlain u (take (l - 2) (drop 1 t))
  else (u, false).

Definition decodeURN (u : list byte) (t : gostring) : list byte * bool :=
  if decide (take 9 t = urnPrefix) then decodePlain u (drop 9 t) else (u, false).

(** The UUID afterwards, and whether the text was accepted. *)
Definition UnmarshalText (u : list byte) (text : gostring) : list byte * bool :=
  let l := length text in
  if decide (l = 32)%nat then decodeHashLike u text
  else if decide (l = 34 \/ l = 38)%nat then decodeBraced u text
  else if decide (l = 36)%nat then decodeCanonical u text
  else if decide (l = 41 \/ l = 45)%nat then decodeURN u text
  else (u, false).

Definition UnmarshalBinary (u data : list byte) : list byte * bool :=
  if decide (length data = Size) then (data, true) else (u, false).

Definition FromBytes (input : list byte) : list byte * bool := UnmarshalBinary Nil input.
Definition FromBytesOrNil (input : list byte) : list byte := let '(u, ok) := FromBytes input in if ok then u else Nil.
Definition FromString (input : gostring) : list byte * bool := UnmarshalText Nil input.
Definition FromStringOrNil (input : gostring) : list byte := let '(u, ok) := FromString input in if ok then u else Nil.

(** ** The verbs of [Format] *)

Definition toCapitalHexDigits (c : byte) : byte :=
  match c with
  | Byte.x61 => Byte.x41 | Byte.x62 => Byte.x42 | Byte.x63 => Byte.x43
  | Byte.x64 => Byte.x44 | Byte.x65 => Byte.x45 | Byte.x66 => Byte.x46
  | c => c
  end.

(** Every verb but [%#v], which prints an array literal. *)
Definition Format (u : list byte) (verb : byte) : gostring :=
  match verb with
  | Byte.x78 => hex_Encode u
  | Byte.x58 => toCapitalHexDigits <$> hex_Encode u
  | Byte.x76 | Byte.x73 => String_ u
  | Byte.x53 => toCapitalHexDigits <$> String_ u
  | Byte.x71 => [Byte.x22] ++ String_ u ++ [Byte.x22]
  | c => lit "%!" ++ [c] ++ lit "(uuid.UUID=" ++ String_ u ++ lit ")"
  end.

(** ** SQL *)

Inductive sql_value := SqlNil | SqlUUID (u : list byte) | SqlBytes (b : list byte) | SqlString (s : gostring) | SqlOther.

Definition Value (u : list byte) : sql_value := SqlString (String_ u).

Definition Scan (u : list byte) (src : sql_value) : list byte * bool :=
  match src with
  | SqlUUID v => (v, true)
  | SqlBytes b => if decide (length b = Size) then UnmarshalBinary u b else UnmarshalText u b
  | SqlString s => UnmarshalText u s
  | SqlNil | SqlOther => (u, false)
  end.

Record NullUUID := mkNull { n_UUID : list byte; n_Valid : bool }.

Definition Null_Value (u : NullUUID) : sql_value := if n_Valid u then Value (n_UUID u) else SqlNil.

Definition Null_Scan (u : NullUUID) (src : sql_value) : NullUUID * bool :=
  match src with
  | SqlNil => (mkNull Nil false, true)
  | _ => let '(v, ok) := Scan (n_UUID u) src in (mkNull v true, ok)
  end.

(** ** Generation *)

Section Generation.
Context (md5 sha1 : list byte -> list byte).

(** [copy] into the 16 bytes from the sum of the hash. *)
Definition newFromHash (hash : list byte -> list byte) (ns : list byte) (name : gostring) : list byte :=
  let sum := hash (ns ++ name) in take Size sum ++ drop (length sum) Nil.

Definition NewV3 (ns : list byte) (name : gostring) : list byte := setVariant (SetVersion (newFromHash md5 ns name) V3) variantRFC4122.
Definition NewV5 (ns : list byte) (name : gostring) : list byte := setVariant (SetVersion (newFromHash sha1 ns name) V5) variantRFC4122.

End Generation.

(** [rand]: 16 random bytes, or an error. *)
Definition NewV4 (rand : option (list byte)) : option (list byte) :=
  match rand with
  | None => None
  | Some u => Some (setVariant (SetVersion u V4) variantRFC4122)
  end.

(** The clock of the time-based versions.  The clock sequence is seeded once, from two random
    bytes; a failed read uses up the one attempt. *)
Record gen := mkGen { clockSequenceOnce : bool; lastTime : Z; clockSequence : Z }.

Definition seed_clock (rand : option Z) (g : gen) : gen * bool :=
  if clockSequenceOnce g then (g, true)
  else match rand with
       | Some seed => (mkGen true (lastTime g) seed, true)
       | None => (mkGen true (lastTime g) (clockSequence g), false)
       end.

Definition getClockSequence (rand : option Z) (timeNow : Z) (g : gen) : option (Z * Z) * gen :=
  let '(g, ok) := seed_clock rand g in
  if ok : bool then
    let seq := if timeNow <=? lastTime g then (clockSequence g + 1) mod 2 ^ 16 else clockSequence g in
    (Some (timeNow, seq), mkGen true timeNow seq)
  else (None, g).
