(* ===== verification/UuidTheorems.v ===== *)
(** Properties of UUIDs: the texts that are accepted and what they stand for, storage in SQL
    columns, and the version and variant bits of generated UUIDs. *)

From S2P Require Import Prelude Run Uuid.

(** ** Hexadecimal digits *)

(** A letter in lower case, as far as hexadecimal digits go. *)
Definition lower_hex (c : byte) : byte :=
  match c with
  | Byte.x41 => Byte.x61 | Byte.x42 => Byte.x62 | Byte.x43 => Byte.x63
  | Byte.x44 => Byte.x64 | Byte.x45 => Byte.x65 | Byte.x46 => Byte.x66
  | c => c
  end.

Lemma hex_value_table c :
  match hex_value c with
  | Some v => (0 <=? v) && (v <? 16) && bool_decide (lower_hex c = hex_digit v)
  | None => forallb (fun v => negb (bool_decide (lower_hex c = hex_digit (Z.of_nat v)))) (seq 0 16)
  end = true.
Proof. destruct c; vm_compute; reflexivity. Qed.

Lemma hex_value_spec c v : hex_value c = Some v <-> 0 <= v < 16 /\ lower_hex c = hex_digit v.
Proof.
  pose proof (hex_value_table c) as H. split.
  - intros E. rewrite E in H. apply andb_prop in H as [H1 H2]. apply bool_decide_eq_true in H2. split; [lia|done].
  - intros [Hv Hl]. destruct (hex_value c) as [w|].
    + apply andb_prop in H as [H1 H2]. apply bool_decide_eq_true in H2. f_equal.
      assert (Hinj : forallb (fun a => forallb (fun b => bool_decide (hex_digit (Z.of_nat a) = hex_digit (Z.of_nat b) -> a = b)) (seq 0 16)) (seq 0 16) = true)
        by (vm_compute; reflexivity).
      rewrite forallb_forall in Hinj. specialize (Hinj (Z.to_nat w) ltac:(apply in_seq; lia)).
      rewrite forallb_forall in Hinj. specialize (Hinj (Z.to_nat v) ltac:(apply in_seq; lia)).
      apply bool_decide_eq_true in Hinj. rewrite !Z2Nat.id in Hinj by lia. specialize (Hinj ltac:(congruence)). lia.
    + rewrite forallb_forall in H. specialize (H (Z.to_nat v) ltac:(apply in_seq; lia)). rewrite Z2Nat.id in H by lia.
      by apply negb_true_iff, bool_decide_eq_false in H.
Qed.

Lemma nibbles b : 0 <= Z.shiftr (Z_of_byte b) 4 < 16 /\ 0 <= Z.land (Z_of_byte b) 15 < 16 /\
  byte_of_Z (Z.lor (Z.shiftl (Z.shiftr (Z_of_byte b) 4) 4) (Z.land (Z_of_byte b) 15)) = b.
Proof. destruct b; vm_compute; repeat split; done. Qed.

Lemma byte_nibbles a b : 0 <= a < 16 -> 0 <= b < 16 ->
  Z.shiftr (Z_of_byte (byte_of_Z (Z.lor (Z.shiftl a 4) b))) 4 = a /\ Z.land (Z_of_byte (byte_of_Z (Z.lor (Z.shiftl a 4) b))) 15 = b.
Proof.
  intros Ha Hb. rewrite Z.lor_comm, lor_shiftl_add, Z_of_byte_of_Z by (cbn; lia). change (2 ^ 4) with 16.
  rewrite Z.mod_small by lia. rewrite Z.shiftr_div_pow2 by lia. change 15 with (Z.ones 4). rewrite Z.land_ones by lia.
  change (2 ^ 4) with 16. split; Z.to_euclidean_division_equations; lia.
Qed.

Lemma hex_Encode_cons b bs : hex_Encode (b :: bs) = hex_digit (Z.shiftr (Z_of_byte b) 4) :: hex_digit (Z.land (Z_of_byte b) 15) :: hex_Encode bs.
Proof. done. Qed.

Lemma length_hex_Encode bs : length (hex_Encode bs) = (2 * length bs)%nat.
Proof. induction bs as [|b bs IH]; [done|]. rewrite hex_Encode_cons. cbn [length]. lia. Qed.

Lemma hex_Encode_app a b : hex_Encode (a ++ b) = hex_Encode a ++ hex_Encode b.
Proof. unfold hex_Encode. by rewrite fmap_app, join_app. Qed.

(** A text of digits decodes to the bytes it spells, in either case. *)
Lemma hex_Decode_spec n src bs :
  length src = (2 * n)%nat -> hex_Decode src = (bs, true) <-> length bs = n /\ lower_hex <$> src = hex_Encode bs.
Proof.
  revert src bs. induction n as [|n IH]; intros src bs Hl.
  { destruct src; [|done]. split; [by intros [= <-]|]. intros [Hb _]. by destruct bs. }
  destruct src as [|p [|q src]]; [done|cbn in Hl; lia|]. cbn [hex_Decode]. rewrite !fmap_cons.
  assert (Hl' : length src = (2 * n)%nat) by (cbn in Hl; lia). split.
  - destruct (hex_value p) as [a|] eqn:Ea; [|done]. destruct (hex_value q) as [b|] eqn:Eb; [|done].
    destruct (hex_Decode src) as [out ok] eqn:Ed. intros [= <- ->]. apply (IH src out Hl') in Ed as [H1 H2].
    apply hex_value_spec in Ea as [Ha Hpa], Eb as [Hb Hqb]. split; [cbn; lia|]. rewrite hex_Encode_cons, H2, Hpa, Hqb.
    destruct (byte_nibbles a b Ha Hb) as [-> ->]. done.
  - destruct bs as [|x bs]; intros [Hb He]; [done|]. rewrite hex_Encode_cons in He. injection He as H1 H2 H3.
    destruct (nibbles x) as (N1 & N2 & N3). assert (E1 := proj2 (hex_value_spec p _) (conj N1 H1)).
    assert (E2 := proj2 (hex_value_spec q _) (conj N2 H2)). rewrite E1, E2.
    assert (E3 : hex_Decode src = (bs, true)) by (apply IH; [done|]; split; [cbn in Hb; lia|done]). by rewrite E3, N3.
Qed.

(** ** The canonical text *)

(** The text of groups of bytes, with dashes between them. *)
Fixpoint group_text (groups : list nat) (first : bool) (bs : list byte) : gostring :=
  match groups with
  | [] => []
  | g :: groups => (if first then [] else lit "-") ++ hex_Encode (take (g / 2) bs) ++ group_text groups false (drop (g / 2) bs)
  end.

Fixpoint text_length (groups : list nat) (first : bool) : nat :=
  match groups with [] => 0 | g :: groups => (if first then 0 else 1) + g + text_length groups false end.

Fixpoint dashes (groups : list nat) (first : bool) (src : gostring) : Prop :=
  match groups with
  | [] => True
  | g :: groups => (if first then True else head src = Some Byte.x2d) /\ dashes groups false (drop (if first then g else S g) src)
  end.

Definition total (groups : list nat) : nat := foldr (fun g n => (g / 2 + n)%nat) 0%nat groups.

Lemma lower_dash c : lower_hex c = Byte.x2d <-> c = Byte.x2d.
Proof. by destruct c. Qed.

Lemma group_text_dashes groups first src bs :
  Forall (fun g => Nat.even g = true) groups -> length bs = total groups ->
  lower_hex <$> src = group_text groups first bs -> dashes groups first src.
Proof.
  intros He. revert first src bs. induction He as [|g groups Hg _ IH]; intros first src bs Hl Hs; [done|].
  cbn [group_text dashes total foldr] in *. fold (total groups) in Hl.
  assert (Hge : (g = 2 * (g / 2))%nat) by (apply Nat.even_spec in Hg as [k ->]; rewrite Nat.mul_comm, Nat.div_mul; lia).
  assert (Hlen : length (hex_Encode (take (g / 2) bs)) = g) by (rewrite length_hex_Encode, length_take; lia).
  destruct first; cbn [app] in *; split; try done.
  - apply (IH false _ (drop (g / 2) bs)); [rewrite length_drop; lia|]. rewrite fmap_drop, Hs, drop_app_length'; [done|lia].
  - destruct src as [|c src]; [done|]. injection Hs as Hc _. apply (proj1 (lower_dash c)) in Hc. by rewrite Hc.
  - apply (IH false _ (drop (g / 2) bs)); [rewrite length_drop; lia|]. rewrite fmap_drop, Hs. change (lit "-" ++ ?x) with (Byte.x2d :: x).
    cbn [drop]. rewrite drop_app_length'; [done|lia].
Qed.

Lemma put_bytes_end u off bs n : (off + length bs + n = length u)%nat -> take (off + length bs) (put_bytes u off bs) = take off u ++ bs.
Proof.
  intros Hl. unfold put_bytes. rewrite app_assoc. apply take_app_length'. rewrite length_app, length_take. lia.
Qed.

Lemma length_put_bytes u off bs : (off + length bs <= length u)%nat -> length (put_bytes u off bs) = length u.
Proof. intros Hl. unfold put_bytes. rewrite !length_app, length_take, length_drop. lia. Qed.

Lemma groups_loop_spec groups first src off u u' :
  Forall (fun g => Nat.even g = true) groups -> length src = text_length groups first -> (off + total groups = length u)%nat ->
  dashes groups first src ->
  groups_loop groups first src off u = (u', true) <->
  exists bs, length bs = total groups /\ u' = take off u ++ bs /\ lower_hex <$> src = group_text groups first bs.
Proof.
  intros He. revert first src off u. induction He as [|g groups Hg _ IH]; intros first src off u Hl Hu Hd.
  { cbn in *. split.
    - intros [= <-]. exists []. split; [done|]. split; [rewrite app_nil_r, take_ge by lia; done|]. by destruct src.
    - intros (bs & Hb & -> & _). destruct bs; [|done]. by rewrite app_nil_r, take_ge by lia. }
  assert (Hge : (g = 2 * (g / 2))%nat) by (apply Nat.even_spec in Hg as [k ->]; rewrite Nat.mul_comm, Nat.div_mul; lia).
  cbn [groups_loop group_text dashes total foldr text_length] in *. fold (total groups) in *.
  assert (Hbody : exists body, (if first then src else drop 1 src) = body /\ src = (if first then [] else lit "-") ++ body /\
    length body = (g + text_length groups false)%nat /\ dashes groups false (drop g body)).
  { destruct first; [exists src; split; [done|]; split; [done|]; split; [exact Hl|apply Hd]|]. destruct Hd as [Hh Hd]. destruct src as [|c src]; [done|]. injection Hh as ->.
    exists src. split; [done|]. split; [done|]. split; [cbn in Hl; lia|done]. }
  destruct Hbody as (body & -> & -> & Hlb & Hdb).
  assert (Hlow : forall t, lower_hex <$> (if first then [] else lit "-") ++ t = (if first then [] else lit "-") ++ (lower_hex <$> t))
    by (intros t; by destruct first).
  rewrite Hlow. destruct (hex_Decode (take g body)) as [bs1 ok] eqn:Ed.
  assert (Hlt : length (take g body) = (2 * (g / 2))%nat) by (rewrite length_take; lia).
  assert (Hld : length (drop g body) = text_length groups false) by (rewrite length_drop; lia).
  split.
  - destruct ok; [|done]. intros H. apply (hex_Decode_spec (g / 2) _ _ Hlt) in Ed as [Hb1 Ht1].
    apply IH in H as (bs2 & Hb2 & -> & Ht2); [|done|rewrite length_put_bytes by lia; lia|done].
    exists (bs1 ++ bs2). rewrite length_app. split; [lia|]. split.
    + rewrite <- Hb1, (put_bytes_end u off bs1 (total groups)), app_assoc by lia. done.
    + rewrite take_app_length', drop_app_length' by done. rewrite <- Ht1, <- Ht2, <- fmap_app, take_drop. done.
  - intros (bs & Hb & -> & Ht). apply app_inv_head in Ht. rewrite <- (take_drop g body), fmap_app in Ht.
    assert (Hh : length (hex_Encode (take (g / 2) bs)) = g) by (rewrite length_hex_Encode, length_take; lia).
    apply app_inj_1 in Ht as [Ht1 Ht2]; [|rewrite length_fmap, Hlt, Hh; lia].
    assert (Hdec : hex_Decode (take g body) = (take (g / 2) bs, true)) by (apply (hex_Decode_spec (g / 2)); [done|]; rewrite length_take; split; [lia|done]).
    assert (bs1 = take (g / 2) bs /\ ok = true) as [-> ->] by (split; congruence).
    assert (Hlb1 : length (take (g / 2) bs) = (g / 2)%nat) by (rewrite length_take; lia).
    apply IH; [done|rewrite length_put_bytes by lia; lia|done|]. exists (drop (g / 2) bs). rewrite length_drop. split; [lia|]. split; [|done].
    pose proof (put_bytes_end u off (take (g / 2) bs) (total groups) ltac:(lia)) as Hp. rewrite Hlb1 in Hp.
    by rewrite Hp, <- app_assoc, take_drop.
Qed.

Lemma String_group_text u : is_UUID u -> String_ u = group_text byteGroups true u.
Proof.
  unfold is_UUID, Size. intros Hl. unfold String_. cbn [group_text byteGroups app]. rewrite !drop_drop. cbn [Nat.div Nat.divmod fst Nat.add].
  rewrite (take_ge (drop 10 u)) by (rewrite length_drop; lia). by rewrite app_nil_r.
Qed.

Lemma is_dash_dashes t : length t = 36%nat -> is_dash t 8 && is_dash t 13 && is_dash t 18 && is_dash t 23 = true <-> dashes byteGroups true t.
Proof.
  intros Hl. unfold is_dash. rewrite !andb_true_iff, !bool_decide_eq_true. cbn [dashes byteGroups]. rewrite !drop_drop. cbn [Nat.add].
  assert (Hn : forall i, (i < 36)%nat -> nth i t Byte.x00 = Byte.x2d <-> head (drop i t) = Some Byte.x2d).
  { intros i Hi. rewrite <- (Nat.add_0_r i) at 1. rewrite <- nth_skipn. destruct (drop i t) as [|c r] eqn:E.
    - apply (f_equal length) in E. rewrite length_drop in E. cbn in E. lia.
    - cbn. split; [by intros ->|by intros [= ->]]. }
  rewrite !Hn by lia. tauto.
Qed.

Lemma byteGroups_even : Forall (fun g => Nat.even g = true) byteGroups.
Proof. repeat constructor. Qed.

Lemma decodeCanonical_spec u t u' :
  is_UUID u -> length t = 36%nat -> decodeCanonical u t = (u', true) <-> is_UUID u' /\ lower_hex <$> t = String_ u'.
Proof.
  intros Hu Ht. unfold decodeCanonical. destruct (_ && _) eqn:Ed.
  - apply is_dash_dashes in Ed; [|done]. rewrite (groups_loop_spec byteGroups true t 0 u u' byteGroups_even Ht (eq_sym Hu) Ed). cbn [take app]. split.
    + intros (bs & Hb & -> & H). split; [exact Hb|]. by rewrite String_group_text.
    + intros [Hu' H]. exists u'. rewrite <- String_group_text by done. done.
  - split; [done|]. intros [Hu' H]. rewrite String_group_text in H by done.
    pose proof (group_text_dashes _ _ _ _ byteGroups_even Hu' H) as Hd. apply is_dash_dashes in Hd; [|done]. congruence.
Qed.

Lemma decodeHashLike_spec u t u' :
  is_UUID u -> length t = 32%nat -> decodeHashLike u t = (u', true) <-> is_UUID u' /\ lower_hex <$> t = hex_Encode u'.
Proof.
  intros Hu Ht. unfold decodeHashLike. destruct (hex_Decode t) as [bs ok] eqn:Ed. rewrite <- (hex_Decode_spec 16 t u' Ht), Ed. unfold is_UUID, Size in *. split.
  - intros [= <- ->]. apply (hex_Decode_spec 16 t bs Ht) in Ed as [Hb _]. unfold put_bytes. cbn [take app]. rewrite drop_ge by lia. by rewrite app_nil_r.
  - intros [= -> ->]. apply (hex_Decode_spec 16 t u' Ht) in Ed as [Hb _]. unfold put_bytes. cbn [take app]. rewrite drop_ge by lia. by rewrite app_nil_r.
Qed.

(** ** The accepted texts *)

(** The frames a plain text may stand in. *)
Definition frames : list (gostring * gostring) := [([], []); (lit "{", lit "}"); (urnPrefix, [])].

(** The texts that stand for [u]: the canonical form or the bare digits, in a frame, with digits
    in either case. *)
Definition text_of (u : list byte) (s : gostring) : Prop :=
  exists pre post body, (pre, post) ∈ frames /\ s = pre ++ body ++ post /\
    (lower_hex <$> body = String_ u \/ lower_hex <$> body = hex_Encode u).

Lemma length_String u : is_UUID u -> length (String_ u) = 36%nat.
Proof.
  unfold is_UUID, Size. intros Hu. unfold String_. rewrite !length_app, !length_hex_Encode, !length_take, !length_drop, Hu. done.
Qed.

Lemma decodePlain_spec u t u' :
  is_UUID u -> decodePlain u t = (u', true) <-> is_UUID u' /\ (lower_hex <$> t = String_ u' \/ lower_hex <$> t = hex_Encode u').
Proof.
  intros Hu.
  assert (Hlen : is_UUID u' -> (lower_hex <$> t = String_ u' -> length t = 36%nat) /\ (lower_hex <$> t = hex_Encode u' -> length t = 32%nat)).
  { intros Hu'. split; intros H; apply (f_equal length) in H; rewrite length_fmap in H.
    - by rewrite length_String in H. - rewrite length_hex_Encode in H. unfold is_UUID, Size in Hu'. lia. }
  unfold decodePlain. destruct (decide (length t = 32)%nat) as [H32|H32]; [|destruct (decide (length t = 36)%nat) as [H36|H36]].
  - rewrite (decodeHashLike_spec u t u' Hu H32). split; [tauto|]. intros [Hu' [H|H]]; [|done]. apply Hlen in H; [lia|done].
  - rewrite (decodeCanonical_spec u t u' Hu H36). split; [tauto|]. intros [Hu' [H|H]]; [done|]. apply Hlen in H; [lia|done].
  - split; [done|]. intros [Hu' [H|H]]; by apply Hlen in H.
Qed.

Lemma plain_length u s : is_UUID u -> lower_hex <$> s = String_ u \/ lower_hex <$> s = hex_Encode u -> length s = 36%nat \/ length s = 32%nat.
Proof.
  intros Hu [H|H]; apply (f_equal length) in H; rewrite length_fmap in H; [left|right]; rewrite H; [by apply length_String|].
  rewrite length_hex_Encode, Hu. done.
Qed.

Lemma decodeBraced_spec u t u' :
  is_UUID u -> length t = 34%nat \/ length t = 38%nat ->
  decodeBraced u t = (u', true) <-> is_UUID u' /\ exists body, t = lit "{" ++ body ++ lit "}" /\ (lower_hex <$> body = String_ u' \/ lower_hex <$> body = hex_Encode u').
Proof.
  intros Hu Hl. unfold decodeBraced. split.
  - destruct (_ && _) eqn:E; [|done]. apply andb_prop in E as [E1%bool_decide_eq_true E2%bool_decide_eq_true].
    intros H. apply decodePlain_spec in H as [Hu' H]; [|done]. split; [done|]. exists (take (length t - 2) (drop 1 t)). split; [|done].
    destruct t as [|c t]; [cbn in Hl; lia|]. cbn in E1. subst c. destruct t as [|d t' _] using rev_ind; [cbn in Hl; lia|].
    cbn [length] in *. rewrite length_app in *. cbn [length] in *. change (drop 1 (?x :: ?l)) with l. rewrite take_app_length' by lia.
    replace (S (length t' + 1) - 1)%nat with (S (length t')) in E2 by lia. cbn [nth] in E2. rewrite app_nth2, Nat.sub_diag in E2 by lia.
    cbn in E2. by subst d.
  - intros [Hu' (body & -> & H)]. change (lit "{" ++ body ++ lit "}") with (Byte.x7b :: body ++ [Byte.x7d]). cbn [nth length].
    rewrite length_app. cbn [length]. replace (S (length body + 1) - 1)%nat with (S (length body)) by lia. cbn [nth]. rewrite app_nth2, Nat.sub_diag by lia.
    rewrite !bool_decide_eq_true_2 by done. cbn [andb]. change (drop 1 (?x :: ?l)) with l. rewrite take_app_length' by lia. by apply decodePlain_spec.
Qed.

Lemma decodeURN_spec u t u' :
  is_UUID u ->
  decodeURN u t = (u', true) <-> is_UUID u' /\ exists body, t = urnPrefix ++ body /\ (lower_hex <$> body = String_ u' \/ lower_hex <$> body = hex_Encode u').
Proof.
  intros Hu. unfold decodeURN. split.
  - destruct (decide _) as [E|]; [|done]. intros H. apply decodePlain_spec in H as [Hu' H]; [|done]. split; [done|]. exists (drop 9 t). split; [|done].
    by rewrite <- E, take_drop.
  - intros [Hu' (body & -> & H)]. rewrite take_app_length' by done. rewrite decide_True by done. rewrite drop_app_length' by done. by apply decodePlain_spec.
Qed.

(** In each of the frames the length tells which of them it is. *)
Lemma UnmarshalText_spec u s u' : is_UUID u -> UnmarshalText u s = (u', true) <-> is_UUID u' /\ text_of u' s.
Proof.
  intros Hu. unfold UnmarshalText, text_of. split.
  - intros Hr. repeat case_decide; try done.
    + apply decodeHashLike_spec in Hr as [H1 H2]; [|done..]. split; [done|]. exists [], [], s. rewrite app_nil_r. split; [by left|]. auto.
    + apply decodeBraced_spec in Hr as [H1 (b & -> & H2)]; [|done..]. split; [done|]. exists (lit "{"), (lit "}"), b. split; [by right; left|]. auto.
    + apply decodeCanonical_spec in Hr as [H3 H4]; [|done..]. split; [done|]. exists [], [], s. rewrite app_nil_r. split; [by left|]. auto.
    + apply decodeURN_spec in Hr as [H3 (b & -> & H4)]; [|done..]. split; [done|]. exists urnPrefix, [], b. rewrite app_nil_r. split; [by right; right; left|]. auto.
  - intros [Hu' (pre & post & b & Hf & -> & H)]. pose proof (plain_length u' b Hu' H) as Hl.
    unfold frames in Hf. rewrite !elem_of_cons in Hf. destruct Hf as [E|[E|[E|E]]]; [injection E as -> ->..|by apply elem_of_nil in E].
    + cbn [app]. rewrite app_nil_r. assert (Hp : decodePlain u b = (u', true)) by by apply decodePlain_spec. unfold decodePlain in Hp.
      destruct Hl as [Hl|Hl]; rewrite Hl in *; repeat case_decide; try done; lia.
    + assert (Hb : length (lit "{" ++ b ++ lit "}") = S (S (length b))) by (cbn; rewrite length_app; cbn; lia). rewrite Hb.
      assert (Hp : decodeBraced u (lit "{" ++ b ++ lit "}") = (u', true))
        by (apply decodeBraced_spec; [done|lia|]; split; [done|]; by exists b).
      repeat case_decide; try lia. done.
    + rewrite app_nil_r. assert (Hb : length (urnPrefix ++ b) = (9 + length b)%nat) by (rewrite length_app; done). rewrite Hb.
      assert (Hp : decodeURN u (urnPrefix ++ b) = (u', true)) by (apply decodeURN_spec; [done|]; split; [done|]; by exists b).
      repeat case_decide; try lia. done.
Qed.

Lemma is_UUID_Nil : is_UUID Nil.
Proof. done. Qed.

(** ** Round trips *)

Lemma lower_capital c : lower_hex (toCapitalHexDigits c) = lower_hex c.
Proof. by destruct c. Qed.

Lemma lower_capitals (s : gostring) : lower_hex <$> (toCapitalHexDigits <$> s) = lower_hex <$> s.
Proof. rewrite <- list_fmap_compose. apply list_fmap_ext. intros i c _. apply lower_capital. Qed.

Lemma lower_digits b :
  lower_hex (hex_digit (Z.shiftr (Z_of_byte b) 4)) = hex_digit (Z.shiftr (Z_of_byte b) 4) /\
  lower_hex (hex_digit (Z.land (Z_of_byte b) 15)) = hex_digit (Z.land (Z_of_byte b) 15).
Proof. destruct b; vm_compute; done. Qed.

Lemma lower_hex_Encode bs : lower_hex <$> hex_Encode bs = hex_Encode bs.
Proof.
  induction bs as [|b bs IH]; [done|]. rewrite hex_Encode_cons, !fmap_cons, IH. by destruct (lower_digits b) as [-> ->].
Qed.

Lemma lower_String u : lower_hex <$> String_ u = String_ u.
Proof. unfold String_. rewrite !fmap_app, !lower_hex_Encode. done. Qed.

Lemma text_of_plain u s : lower_hex <$> s = String_ u \/ lower_hex <$> s = hex_Encode u -> text_of u s.
Proof. intros H. exists [], [], s. rewrite app_nil_r. split; [by left|]. done. Qed.

Lemma text_of_String u : text_of u (String_ u).
Proof. apply text_of_plain. left. apply lower_String. Qed.

(** The verbs whose output is plain text. *)
Definition plain_verbs : list byte := [Byte.x78; Byte.x58; Byte.x76; Byte.x73; Byte.x53].

Lemma text_of_Format u verb : (verb ∈ plain_verbs) -> text_of u (Format u verb).
Proof.
  unfold plain_verbs. rewrite !elem_of_cons. intros [->|[->|[->|[->|[->|H]]]]]; [..|by apply elem_of_nil in H]; apply text_of_plain; cbn [Format];
    rewrite ?lower_capitals, ?lower_hex_Encode, ?lower_String; auto.
Qed.

(** C39. The texts accepted by [UnmarshalText] are exactly those of a UUID: the canonical form or the
    32 bare digits, in lower or upper case, alone, in braces or after [urn:uuid:]; the receiver then
    holds that UUID, whatever it held before, and no text stands for two of them.  [FromStringOrNil]
    gives the nil UUID for every other text. *)
Theorem uuid_texts u : is_UUID u ->
  (forall s v, UnmarshalText u s = (v, true) <-> is_UUID v /\ text_of v s) /\
  (forall s v w, is_UUID v -> is_UUID w -> text_of v s -> text_of w s -> v = w) /\
  (forall s, (exists v, is_UUID v /\ text_of v s /\ FromStringOrNil s = v) \/
    ((forall v, is_UUID v -> ~ text_of v s) /\ FromStringOrNil s = Nil)).
Proof.
  intros Hu. split; [intros s v; by apply UnmarshalText_spec|]. split.
  - intros s v w Hv Hw Tv Tw. assert (E := proj2 (UnmarshalText_spec u s v Hu) (conj Hv Tv)).
    assert (E' := proj2 (UnmarshalText_spec u s w Hu) (conj Hw Tw)). congruence.
  - intros s. unfold FromStringOrNil, FromString. destruct (UnmarshalText Nil s) as [v ok] eqn:E. destruct ok.
    + apply UnmarshalText_spec in E as [Hv Tv]; [|done]. left. by exists v.
    + right. split; [|done]. intros w Hv Tv. assert (E' := proj2 (UnmarshalText_spec Nil s w is_UUID_Nil) (conj Hv Tv)). congruence.
Qed.

(** The example of the documentation, in the three frames and in upper case. *)
Definition sample : list byte := FromStringOrNil (lit "6ba7b810-9dad-11d1-80b4-00c04fd430c8").

Lemma uuid_texts_witness :
  String_ sample = lit "6ba7b810-9dad-11d1-80b4-00c04fd430c8" /\
  FromStringOrNil (lit "{6BA7B8109DAD11D180B400C04FD430C8}") = sample /\
  UnmarshalText sample (lit "urn:uuid:6ba7b810-9dad-11d1-80b4-00c04fd430c8") = (sample, true) /\
  text_of sample (lit "urn:uuid:6ba7b810-9dad-11d1-80b4-00c04fd430c8").
Proof.
  split; [vm_compute; reflexivity|]. split; [vm_compute; reflexivity|]. split; [vm_compute; reflexivity|].
  refine (proj2 (proj1 (proj1 (uuid_texts sample _) (lit "urn:uuid:6ba7b810-9dad-11d1-80b4-00c04fd430c8") sample) _)).
  - vm_compute. reflexivity.
  - vm_compute. reflexivity.
Defined.

(** What a UUID is stored as is read back: its text, its output under the verbs x, X, v, s and
    S, its bytes, and a nullable UUID through an SQL column, where NULL clears both fields. *)
Theorem uuid_roundtrip u old valid : is_UUID u -> is_UUID old ->
  (forall verb, (verb ∈ plain_verbs) -> FromString (Format u verb) = (u, true)) /\
  FromBytes u = (u, true) /\
  Scan old (Value u) = (u, true) /\ Scan old (SqlBytes u) = (u, true) /\ Scan old (SqlUUID u) = (u, true) /\
  Null_Scan (mkNull old valid) (Null_Value (mkNull u true)) = (mkNull u true, true) /\
  Null_Scan (mkNull old valid) (Null_Value (mkNull u false)) = (mkNull Nil false, true).
Proof.
  intros Hu Ho. assert (Hs : Scan old (Value u) = (u, true)) by (apply UnmarshalText_spec; [done|]; split; [done|apply text_of_String]).
  split; [|split; [|split; [done|split; [|split; [done|split; [|done]]]]]].
  - intros verb Hv. apply UnmarshalText_spec; [done|]. split; [done|]. by apply text_of_Format.
  - unfold FromBytes, UnmarshalBinary. by rewrite decide_True.
  - cbn [Scan]. unfold UnmarshalBinary. by rewrite !decide_True.
  - unfold Null_Value, Null_Scan. cbn [n_Valid n_UUID]. rewrite Hs. done.
Qed.

Lemma uuid_roundtrip_witness :
  FromString (Format sample Byte.x53) = (sample, true) /\
  Null_Scan (mkNull Nil true) (Null_Value (mkNull sample true)) = (mkNull sample true, true).
Proof.
  split.
  - refine (proj1 (uuid_roundtrip sample Nil true _ _) Byte.x53 _); [vm_compute; reflexivity|vm_compute; reflexivity|].
    unfold plain_verbs. rewrite !elem_of_cons. tauto.
  - refine (proj1 (proj2 (proj2 (proj2 (proj2 (proj2 (uuid_roundtrip sample Nil true _ _))))))); vm_compute; reflexivity.
Defined.

(** ** Generated UUIDs *)

Lemma version_byte v b : 0 <= v < 16 ->
  Z.shiftr (Z_of_byte (byte_of_Z (Z.lor (Z.land (Z_of_byte b) 15) (Z.shiftl v 4)))) 4 = v /\
  Z.land (Z_of_byte (byte_of_Z (Z.lor (Z.land (Z_of_byte b) 15) (Z.shiftl v 4)))) 15 = Z.land (Z_of_byte b) 15.
Proof.
  intros Hv. rewrite Z.lor_comm. apply byte_nibbles; [done|]. apply (nibbles b).
Qed.

Lemma variant_byte b :
  let b' := Z_of_byte (byte_of_Z (Z.lor (Z.land (Z_of_byte b) 63) 128)) in
  Z.shiftr b' 7 = 1 /\ Z.shiftr b' 6 = 2 /\ Z.land b' 63 = Z.land (Z_of_byte b) 63.
Proof. destruct b; vm_compute; done. Qed.

Lemma nth_insert_ne (u : list byte) i j x : i <> j -> nth i (<[j := x]> u) Byte.x00 = nth i u Byte.x00.
Proof. intros H. rewrite !nth_lookup, list_lookup_insert_ne by done. done. Qed.

Lemma nth_insert_eq (u : list byte) i x : (i < length u)%nat -> nth i (<[i := x]> u) Byte.x00 = x.
Proof. intros H. rewrite nth_lookup, list_lookup_insert_eq by done. done. Qed.

(** The bits of [u] outside the version and the variant. *)
Definition kept (u u' : list byte) : Prop :=
  (forall i, (i <> 6)%nat -> (i <> 8)%nat -> at_ u' i = at_ u i) /\
  Z.land (at_ u' 6) 15 = Z.land (at_ u 6) 15 /\ Z.land (at_ u' 8) 63 = Z.land (at_ u 8) 63.

Lemma stamped u v : is_UUID u -> 0 <= v < 16 ->
  let u' := setVariant (SetVersion u v) variantRFC4122 in
  is_UUID u' /\ Version u' = v /\ variant u' = variantRFC4122 /\ kept u u'.
Proof.
  intros Hu Hv u'. unfold is_UUID, Size in *. assert (Hl : length u' = 16%nat) by (subst u'; unfold setVariant, SetVersion; by rewrite !length_insert).
  split; [done|]. destruct (version_byte v (nth 6 u Byte.x00) Hv) as [V1 V2]. destruct (variant_byte (nth 8 u Byte.x00)) as (W1 & W2 & W3).
  assert (E6 : at_ u' 6 = Z_of_byte (byte_of_Z (Z.lor (Z.land (at_ u 6) 15) (Z.shiftl v 4)))).
  { subst u'. unfold setVariant, SetVersion, at_. rewrite nth_insert_ne, nth_insert_eq by lia. done. }
  assert (E8 : at_ u' 8 = Z_of_byte (byte_of_Z (Z.lor (Z.land (at_ u 8) 63) 128))).
  { subst u'. unfold setVariant, SetVersion, at_. rewrite nth_insert_eq by (rewrite length_insert; lia).
    rewrite (nth_insert_ne u 8 6) by lia. done. }
  fold (at_ u 6) in *. fold (at_ u 8) in *.
  split; [unfold Version; by rewrite E6|]. split.
  - unfold variant. rewrite E8, W1, W2. done.
  - split; [|rewrite E6, E8; done]. intros i H6 H8. subst u'. unfold setVariant, SetVersion, at_. by rewrite !nth_insert_ne by done.
Qed.

Lemma is_UUID_newFromHash hash ns name :
  (16 <= length (hash (ns ++ name)))%nat -> newFromHash hash ns name = take Size (hash (ns ++ name)) /\ is_UUID (newFromHash hash ns name).
Proof.
  intros H. unfold newFromHash, is_UUID, Nil, Size. rewrite drop_ge by (rewrite length_replicate; lia). rewrite app_nil_r. split; [done|].
  rewrite length_take. lia.
Qed.

(** C40. Generated UUIDs are well formed: 16 bytes, the version of the function that made them and
    the RFC 4122 variant, and every other bit is the one of the hash of the namespace followed by the
    name (versions 3 and 5) or of the source of randomness (version 4), whose errors are passed on.
    The hash sums are 16 and 20 bytes long. *)
Theorem uuid_generated (md5 sha1 : list byte -> list byte) ns name rand :
  (forall m, length (md5 m) = 16%nat) -> (forall m, length (sha1 m) = 20%nat) -> (forall u, rand = Some u -> is_UUID u) ->
  (is_UUID (NewV3 md5 ns name) /\ Version (NewV3 md5 ns name) = V3 /\ variant (NewV3 md5 ns name) = variantRFC4122 /\
   kept (md5 (ns ++ name)) (NewV3 md5 ns name)) /\
  (is_UUID (NewV5 sha1 ns name) /\ Version (NewV5 sha1 ns name) = V5 /\ variant (NewV5 sha1 ns name) = variantRFC4122 /\
   kept (take Size (sha1 (ns ++ name))) (NewV5 sha1 ns name)) /\
  match rand, NewV4 rand with
  | Some u, Some u' => is_UUID u' /\ Version u' = V4 /\ variant u' = variantRFC4122 /\ kept u u'
  | None, None => True
  | _, _ => False
  end.
Proof.
  intros Hm Hs Hr. split; [|split].
  - destruct (is_UUID_newFromHash md5 ns name) as [E Hu]; [rewrite Hm; lia|]. pose proof (stamped _ V3 Hu ltac:(unfold V3; lia)) as H.
    rewrite E, take_ge in H by (rewrite Hm; done). unfold NewV3. rewrite E, take_ge by (rewrite Hm; done). exact H.
  - destruct (is_UUID_newFromHash sha1 ns name) as [E Hu]; [rewrite Hs; lia|]. pose proof (stamped _ V5 Hu ltac:(unfold V5; lia)) as H.
    unfold NewV5. rewrite E in *. exact H.
  - destruct rand as [u|]; [|done]. cbn [NewV4]. exact (stamped u V4 (Hr u eq_refl) ltac:(unfold V4; lia)).
Qed.

(** A hash of the right length; the random bytes are all ones. *)
Lemma uuid_generated_witness :
  let ones := replicate 16 Byte.xff in
  let u := NewV3 (fun m => take 16 (m ++ ones)) sample (lit "n") in
  (is_UUID u /\ Version u = V3) /\ NewV4 (Some ones) = Some (FromStringOrNil (lit "ffffffff-ffff-4fff-bfff-ffffffffffff")).
Proof.
  split; [|vm_compute; reflexivity].
  assert (H16 : forall m : list byte, length (take 16 (m ++ replicate 16 Byte.xff)) = 16%nat).
  { intros m. rewrite length_take, length_app, length_replicate. lia. }
  assert (H20 : forall m : list byte, length (replicate 20 Byte.x00) = 20%nat) by (intros m; apply length_replicate).
  pose proof (uuid_generated (fun m => take 16 (m ++ replicate 16 Byte.xff)) (fun _ => replicate 20 Byte.x00) sample (lit "n") (Some (replicate 16 Byte.xff))
    H16 H20 ltac:(intros u [= <-]; reflexivity)) as [(H1 & H2 & _) _].
  split; [exact H1|exact H2].
Defined.
