(* ===== verification/MetaScrub.v ===== *)
(** Scrub paths of a type: [pkg/scrub/metascrub].

    The metadata of an application describes its types; a [Computer] finds the paths to the fields
    that are tagged as sensitive, which [pkg/scrub] then removes from payloads.  The results for
    declarations are cached in the computer, also while they are being computed.  A panic is
    recovered by [Compute] and leaves the cache as it is.

    [unicode.IsPrint] is given by tables for characters beyond ASCII, the parameter [IsPrint]. *)

From S2P Require Import Prelude Utf8 GoText Uuid Run Scrub.

(** ** Types of the metadata *)

Record STag := mkSTag { t_Key : gostring; t_Name : gostring; t_Options : list gostring }.

Record FieldOf (T : Type) := mkField { f_Typ : T; f_Name : gostring; f_JsonName : gostring; f_Tags : list STag }.
Arguments mkField {T} _ _ _ _.
Arguments f_Typ {T} _.
Arguments f_Name {T} _.
Arguments f_JsonName {T} _.
Arguments f_Tags {T} _.

(** [T_nil] is a missing message, [T_other] a type of another kind or none. *)
Inductive SType :=
| T_nil
| T_Named (id : Z) (args : list SType)
| T_Struct (fs : list (FieldOf SType))
| T_Map (key value : SType)
| T_List (elem : SType)
| T_Builtin
| T_Pointer (base : SType)
| T_Union (ts : list SType)
| T_Literal
| T_Option (value : SType)
| T_TypeParameter (paramIdx : Z)
| T_other.

Abbreviation SField := (FieldOf SType).

(** ** Names of fields *)

Section Quote.
Context (IsPrint : Z -> bool).

Definition is_print (r : Z) : bool := if r <? 128 then (32 <=? r) && (r <? 127) else IsPrint r.

(** [n] hexadecimal digits. *)
Definition hex_digits (n : nat) (v : Z) : gostring :=
  (fun k => hex_digit (Z.land (Z.shiftr v (4 * Z.of_nat k)) 15)) <$> reverse (seq 0 n).

(** One rune of [strconv.Quote]; [t] is its text. *)
Definition quote_rune (t : gostring) : gostring :=
  match rune_len t, t with
  | None, b :: _ => lit "\x" ++ hex_digits 2 (Z_of_byte b)
  | _, _ =>
      let r := rune_value t in
      if (r =? 34) || (r =? 92) then c_backslash :: t
      else if is_print r then t
      else if r =? 7 then lit "\a" else if r =? 8 then lit "\b" else if r =? 12 then lit "\f"
      else if r =? 10 then lit "\n" else if r =? 13 then lit "\r" else if r =? 9 then lit "\t"
      else if r =? 11 then lit "\v"
      else if (r <? 32) || (r =? 127) then lit "\x" ++ hex_digits 2 r
      else if r <? 65536 then lit "\u" ++ hex_digits 4 r
      else lit "\U" ++ hex_digits 8 r
  end.

Definition Quote (s : gostring) : gostring := [c_quote] ++ mjoin (quote_rune <$> runes s) ++ [c_quote].

Definition sensitive_word : gostring := lit "sensitive".

(** The first tag with the key [encore] decides. *)
Fixpoint sensitive_tag (tags : list STag) : bool :=
  match tags with
  | [] => false
  | t :: tags =>
      if decide (t_Key t = lit "encore") then bool_decide (t_Name t = sensitive_word) || bool_decide (sensitive_word ∈ t_Options t)
      else sensitive_tag tags
  end.

Definition isSensitive (f : SField) : bool * gostring * bool :=
  let '(fieldName, caseSensitive) := if decide (f_JsonName f = []) then (f_Name f, false) else (f_JsonName f, true) in
  (sensitive_tag (f_Tags f), Quote fieldName, caseSensitive).

Fixpoint header_tag (name : gostring) (tags : list STag) : option gostring :=
  match tags with
  | [] => None
  | t :: tags =>
      if decide (t_Key t = lit "header") then Some (if decide (t_Name t = []) then name else t_Name t) else header_tag name tags
  end.

Definition isHeader (f : SField) : option gostring := header_tag (f_Name f) (f_Tags f).

End Quote.

(** ** Results *)

Record declResult := mkRes { r_scrub : list Path; r_typeParams : list (Path * Z); r_headers : list gostring }.

Definition no_result : declResult := mkRes [] [] [].

(** The results one after the other. *)
Definition combine (rs : list declResult) : declResult :=
  mkRes (mjoin (r_scrub <$> rs)) (mjoin (r_typeParams <$> rs)) (mjoin (r_headers <$> rs)).

(** The paths of a result below an entry; headers count only at the top. *)
Definition under (e : PathEntry) (r : declResult) : declResult :=
  mkRes (cons e <$> r_scrub r) ((fun pi => (e :: pi.1, pi.2)) <$> r_typeParams r) [].

(** An argument at the places of its parameter. *)
Definition instantiate (params : list (Path * Z)) (i : Z) (arg : declResult) : declResult :=
  combine ((fun pi => mkRes (app pi.1 <$> r_scrub arg) ((fun s => (pi.1 ++ s.1, s.2)) <$> r_typeParams arg) []) <$>
           filter (fun pi => pi.2 = u32 i) params).

(** ** The computation *)

Definition AuthHandler : Z := 1.
Definition maxSteps : Z := 10000.

Abbreviation declCache := (gmap (Z * Z) declResult).

(** What a computation changes: the cache of the computer and its own count of steps. *)
Record cstate := mkC { c_cache : declCache; c_steps : Z }.

Definition comp (A : Type) : Type := cstate -> run A * cstate.
#[export] Instance comp_ret : MRet comp := fun A a s => (Ok a, s).
#[export] Instance comp_bind : MBind comp := fun A B k m s =>
  match m s with
  | (Ok a, s) => k a s
  | (Crash, s) => (Crash, s)
  | (OutOfFuel, s) => (OutOfFuel, s)
  end.

Definition cache_get (key : Z * Z) : comp (option declResult) := fun s => (Ok (c_cache s !! key), s).
Definition cache_put (key : Z * Z) (r : declResult) : comp () := fun s => (Ok (), mkC (<[key := r]> (c_cache s)) (c_steps s)).
Definition panic {A} : comp A := fun s => (Crash, s).
Definition step : comp bool := fun s => (Ok (maxSteps <? c_steps s + 1), mkC (c_cache s) (c_steps s + 1)).

Section Computation.
Context (IsPrint : Z -> bool) (Decls : list SType) (mode : Z).

Definition entry (f : SField) : PathEntry := let '(_, fieldName, caseSensitive) := isSensitive IsPrint f in mkEntry ObjectField fieldName caseSensitive.

(** For auth handlers everything is sensitive. *)
Definition scrubbed (f : SField) : bool :=
  let '(sensitive, _, _) := isSensitive IsPrint f in if decide (Z.land mode AuthHandler = 0) then sensitive else true.

Section Loops.
Context (typ : SType -> comp declResult).

Definition decl (id : Z) : comp declResult :=
  c ← cache_get (id, mode);
  match c with
  | Some res => mret res
  | None =>
      _ ← cache_put (id, mode) no_result;
      match Decls !! Z.to_nat id with
      | None => panic
      | Some t =>
          res ← typ t;
          _ ← cache_put (id, mode) res;
          mret res
      end
  end.

Fixpoint arg_loop (params : list (Path * Z)) (i : Z) (args : list SType) (out : declResult) : comp declResult :=
  match args with
  | [] => mret out
  | arg :: args =>
      argRes ← typ arg;
      let r := instantiate params i argRes in
      arg_loop params (i + 1) args (mkRes (r_scrub out ++ r_scrub r) (r_typeParams out ++ r_typeParams r) (r_headers out))
  end.

Fixpoint union_loop (ts : list SType) : comp (list declResult) :=
  match ts with
  | [] => mret []
  | t :: ts => res ← typ t; rs ← union_loop ts; mret (res :: rs)
  end.

Fixpoint field_loop (fs : list SField) (out : declResult) : comp declResult :=
  match fs with
  | [] => mret out
  | f :: fs =>
      r ← (if scrubbed f then mret (mkRes [[entry f]] [] (match isHeader f with Some h => [h] | None => [] end))
           else fieldRes ← typ (f_Typ f); mret (under (entry f) fieldRes));
      field_loop fs (combine [out; r])
  end.

Definition map_entry (kind : EntryKind) : PathEntry := mkEntry kind [] false.

Definition typ_body (t : SType) : comp declResult :=
  match t with
  | T_nil => mret no_result
  | T_Named id args => d ← decl id; arg_loop (r_typeParams d) 0 args (mkRes (r_scrub d) [] (r_headers d))
  | T_Pointer t | T_Option t | T_List t => typ t
  | T_Union ts => rs ← union_loop ts; mret (combine rs)
  | T_Map k v => key ← typ k; val ← typ v; mret (combine [under (map_entry MapKey) key; under (map_entry MapValue) val])
  | T_Struct fs => field_loop fs no_result
  | T_TypeParameter i => mret (mkRes [] [([], i)] [])
  | T_Builtin | T_Literal | T_other => mret no_result
  end.

End Loops.

Fixpoint typ (fuel : nat) (t : SType) : comp declResult :=
  match t with
  | T_nil => mret no_result
  | _ =>
      match fuel with
      | O => fun s => (OutOfFuel, s)
      | S fuel => exceeded ← step; if exceeded : bool then mret no_result else typ_body (typ fuel) t
      end
  end.

End Computation.

Record Desc := mkDesc { Payload : list Path; Headers : list gostring }.

(** Every nested call takes a step, so the depth of calls is bounded by the limit. *)
Definition typ_fuel : nat := Z.to_nat (maxSteps + 1).

(** The result and the cache afterwards. *)
Definition Compute (IsPrint : Z -> bool) (Decls : list SType) (cache : declCache) (t : SType) (mode : Z) : run Desc * declCache :=
  match t with
  | T_nil => (Ok (mkDesc [] []), cache)
  | _ =>
      match typ IsPrint Decls mode typ_fuel t (mkC cache 0) with
      | (Ok res, s) => (Ok (mkDesc (r_scrub res) (r_headers res)), c_cache s)
      | (Crash, s) => (Ok (mkDesc [] []), c_cache s)
      | (OutOfFuel, s) => (OutOfFuel, c_cache s)
      end
  end.
