(* ===== verification/MetaScrubSpec.v ===== *)
(** Which paths of a type lead to sensitive fields: the meaning of [pkg/scrub/metascrub].

    A named type is its declaration with the arguments in place of the parameters; pointers,
    options, lists and unions are transparent.  The result of a computation stands for a set of
    paths once the parameters are known, and each case of the computation builds the set of its
    type from those of the parts. *)

From S2P Require Import Prelude Run Scrub MetaScrub.

(** ** Types *)

Lemma SType_induction (P : SType -> Prop) :
  P T_nil -> (forall id args, Forall P args -> P (T_Named id args)) ->
  (forall fs, Forall (fun f => P (f_Typ f)) fs -> P (T_Struct fs)) ->
  (forall k v, P k -> P v -> P (T_Map k v)) -> (forall t, P t -> P (T_List t)) -> P T_Builtin ->
  (forall t, P t -> P (T_Pointer t)) -> (forall ts, Forall P ts -> P (T_Union ts)) -> P T_Literal ->
  (forall t, P t -> P (T_Option t)) -> (forall i, P (T_TypeParameter i)) -> P T_other -> forall t, P t.
Proof.
  intros Hnil Hnamed Hstruct Hmap Hlist Hbuiltin Hpointer Hunion Hliteral Hoption Hparam Hother.
  fix IH 1. intros [|id args|fs|k v|t| |t|ts| |t|i|].
  - exact Hnil.
  - apply Hnamed. induction args; constructor; [apply IH|assumption].
  - apply Hstruct. induction fs as [|[t nm js tags] fs IHfs]; constructor; [apply IH|exact IHfs].
  - apply Hmap; apply IH.
  - apply Hlist, IH.
  - exact Hbuiltin.
  - apply Hpointer, IH.
  - apply Hunion. induction ts; constructor; [apply IH|assumption].
  - exact Hliteral.
  - apply Hoption, IH.
  - apply Hparam.
  - exact Hother.
Qed.

(** The arguments in place of the parameters. *)
Fixpoint subst (env : list SType) (t : SType) : SType :=
  match t with
  | T_Named id args => T_Named id (map (subst env) args)
  | T_Struct fs => T_Struct (map (fun f => mkField (subst env (f_Typ f)) (f_Name f) (f_JsonName f) (f_Tags f)) fs)
  | T_Map k v => T_Map (subst env k) (subst env v)
  | T_List t => T_List (subst env t)
  | T_Pointer t => T_Pointer (subst env t)
  | T_Union ts => T_Union (map (subst env) ts)
  | T_Option t => T_Option (subst env t)
  | T_TypeParameter i => default T_nil (env !! Z.to_nat i)
  | t => t
  end.

(** A test of every node of a type. *)
Fixpoint all_nodes (P : SType -> bool) (t : SType) : bool :=
  P t && match t with
         | T_Named _ ts | T_Union ts => forallb (all_nodes P) ts
         | T_Struct fs => forallb (fun f => all_nodes P (f_Typ f)) fs
         | T_Map k v => all_nodes P k && all_nodes P v
         | T_List t | T_Pointer t | T_Option t => all_nodes P t
         | _ => true
         end.

Fixpoint type_size (t : SType) : nat :=
  match t with
  | T_nil => 0
  | T_Named _ ts | T_Union ts => S (sum_list (map type_size ts))
  | T_Struct fs => S (sum_list (map (fun f => type_size (f_Typ f)) fs))
  | T_Map k v => S (type_size k + type_size v)
  | T_List t | T_Pointer t | T_Option t => S (type_size t)
  | _ => 1
  end.

(** No type parameter occurs. *)
Definition closed (t : SType) : bool := all_nodes (fun t => match t with T_TypeParameter _ => false | _ => true end) t.

Lemma subst_closed env t : closed t = true -> subst env t = t.
Proof.
  unfold closed. induction t as [|id args IH|fs IH|k v IHk IHv|t IH| |t IH|ts IH| |t IH|i|] using SType_induction; cbn [all_nodes subst andb]; intros H; try done.
  - f_equal. induction IH as [|a args Ha _ IHl]; [done|]. cbn in *. apply andb_prop in H as [H1 H2]. by rewrite Ha, IHl.
  - f_equal. induction IH as [|[t nm js tags] fs Hf _ IHl]; [done|]. cbn in *. apply andb_prop in H as [H1 H2]. by rewrite Hf, IHl.
  - apply andb_prop in H as [H1 H2]. by rewrite IHk, IHv.
  - by rewrite IH.
  - by rewrite IH.
  - f_equal. induction IH as [|a ts Ha _ IHl]; [done|]. cbn in *. apply andb_prop in H as [H1 H2]. by rewrite Ha, IHl.
  - by rewrite IH.
Qed.

(** ** Sensitive paths *)

Section Spec.
Context (IsPrint : Z -> bool) (Decls : list SType) (mode : Z).

Inductive Sensitive : SType -> Path -> Prop :=
| S_Named id args b p : Decls !! Z.to_nat id = Some b -> Sensitive (subst args b) p -> Sensitive (T_Named id args) p
| S_Pointer t p : Sensitive t p -> Sensitive (T_Pointer t) p
| S_Option t p : Sensitive t p -> Sensitive (T_Option t) p
| S_List t p : Sensitive t p -> Sensitive (T_List t) p
| S_Union ts t p : t ∈ ts -> Sensitive t p -> Sensitive (T_Union ts) p
| S_MapKey k v p : Sensitive k p -> Sensitive (T_Map k v) (map_entry MapKey :: p)
| S_MapValue k v p : Sensitive v p -> Sensitive (T_Map k v) (map_entry MapValue :: p)
| S_Field fs f : f ∈ fs -> scrubbed IsPrint mode f = true -> Sensitive (T_Struct fs) [entry IsPrint f]
| S_Inner fs f p : f ∈ fs -> scrubbed IsPrint mode f = false -> Sensitive (f_Typ f) p ->
    Sensitive (T_Struct fs) (entry IsPrint f :: p).

(** The header fields among them, at the top of the type. *)
Inductive SensitiveHeader : SType -> gostring -> Prop :=
| H_Named id args b h : Decls !! Z.to_nat id = Some b -> SensitiveHeader b h -> SensitiveHeader (T_Named id args) h
| H_Pointer t h : SensitiveHeader t h -> SensitiveHeader (T_Pointer t) h
| H_Option t h : SensitiveHeader t h -> SensitiveHeader (T_Option t) h
| H_List t h : SensitiveHeader t h -> SensitiveHeader (T_List t) h
| H_Union ts t h : t ∈ ts -> SensitiveHeader t h -> SensitiveHeader (T_Union ts) h
| H_Field fs f h : f ∈ fs -> scrubbed IsPrint mode f = true -> isHeader f = Some h -> SensitiveHeader (T_Struct fs) h.

(** ** What a result stands for *)

Definition denotes (env : list SType) (r : declResult) (p : Path) : Prop :=
  p ∈ r_scrub r \/
  exists q i a p', (q, i) ∈ r_typeParams r /\ env !! Z.to_nat i = Some a /\ Sensitive a p' /\ p = q ++ p'.

Lemma denotes_none env p : ~ denotes env no_result p.
Proof. intros [H|(q & i & a & p' & H & _)]; by apply elem_of_nil in H. Qed.

Lemma denotes_combine env rs p : denotes env (combine rs) p <-> exists r, r ∈ rs /\ denotes env r p.
Proof.
  unfold denotes, combine. cbn [r_scrub r_typeParams]. rewrite list_elem_of_join. setoid_rewrite list_elem_of_join.
  setoid_rewrite list_elem_of_fmap. split.
  - intros [(l & Hp & r & -> & Hr)|(q & i & a & p' & (l & Hq & r & -> & Hr) & H)].
    + exists r. auto.
    + exists r. split; [done|]. right. by exists q, i, a, p'.
  - intros (r & Hr & [H|(q & i & a & p' & Hq & H)]).
    + left. exists (r_scrub r). eauto.
    + right. exists q, i, a, p'. split; [|done]. exists (r_typeParams r). eauto.
Qed.

Lemma denotes_under env e r p : denotes env (under e r) p <-> exists p', p = e :: p' /\ denotes env r p'.
Proof.
  unfold denotes, under. cbn [r_scrub r_typeParams]. setoid_rewrite list_elem_of_fmap. split.
  - intros [(p' & -> & H)|(q & i & a & p' & ([q' i'] & [= -> ->] & Hq) & Ha & Hp & ->)].
    + exists p'. auto.
    + exists (q' ++ p'). split; [done|]. right. by exists q', i', a, p'.
  - intros (p' & -> & [H|(q & i & a & p'' & Hq & Ha & Hp & ->)]).
    + left. exists p'. auto.
    + right. exists (e :: q), i, a, p''. split; [|done]. by exists (q, i).
Qed.

Lemma denotes_instantiate env params k arg p :
  denotes env (instantiate params k arg) p <-> exists q p', (q, u32 k) ∈ params /\ p = q ++ p' /\ denotes env arg p'.
Proof.
  unfold instantiate. rewrite denotes_combine. setoid_rewrite list_elem_of_fmap. split.
  - intros (r & ([q i] & -> & Hq) & Hd). apply list_elem_of_filter in Hq as [Hi Hq]. cbn in Hi. subst i. exists q.
    destruct Hd as [H|(q' & i & a & p' & H & Ha & Hp & ->)]; cbn in H; apply list_elem_of_fmap in H.
    + destruct H as (p' & -> & H). exists p'. split; [done|]. split; [done|]. by left.
    + destruct H as ([q'' i'] & [= -> ->] & H). exists (q'' ++ p'). rewrite app_assoc. split; [done|]. split; [done|].
      right. by exists q'', i', a, p'.
  - intros (q & p' & Hq & -> & Hd). eexists. split; [exists (q, u32 k); split; [done|]; apply list_elem_of_filter; by split|].
    destruct Hd as [H|(q' & i & a & p'' & H & Ha & Hp & ->)]; [left|right]; cbn.
    + apply list_elem_of_fmap. by exists p'.
    + exists (q ++ q'), i, a, p''. rewrite app_assoc. split; [|done]. apply list_elem_of_fmap. by exists (q', i).
Qed.

(** Sound and complete results of a type. *)
Definition sound (t : SType) (r : declResult) : Prop :=
  (forall env p, denotes env r p -> Sensitive (subst env t) p) /\ (forall h, h ∈ r_headers r -> SensitiveHeader t h).

Definition complete (t : SType) (r : declResult) : Prop :=
  (forall env p, Sensitive (subst env t) p -> denotes env r p) /\ (forall h, SensitiveHeader t h -> h ∈ r_headers r) /\
  Forall (fun pi => 0 <= pi.2) (r_typeParams r).

Lemma sound_none t : sound t no_result.
Proof. split; [intros env p H; by apply denotes_none in H|]. intros h H. by apply elem_of_nil in H. Qed.

(** ** The cases of the computation *)

(** The types whose results a case uses, in order; a sensitive field needs none. *)
Definition children (t : SType) : list SType :=
  match t with
  | T_Pointer t | T_Option t | T_List t => [t]
  | T_Union ts => ts
  | T_Map k v => [k; v]
  | T_Struct fs => map (fun f => if scrubbed IsPrint mode f then T_nil else f_Typ f) fs
  | _ => []
  end.

Definition field_result (f : SField) (r : declResult) : declResult :=
  if scrubbed IsPrint mode f then mkRes [[entry IsPrint f]] [] (match isHeader f with Some h => [h] | None => [] end)
  else under (entry IsPrint f) r.

Definition build (t : SType) (rs : list declResult) : declResult :=
  match t with
  | T_Pointer _ | T_Option _ | T_List _ => default no_result (head rs)
  | T_Union _ => combine rs
  | T_Map _ _ => combine (zip_with (fun k r => under (map_entry k) r) [MapKey; MapValue] rs)
  | T_Struct fs => combine (zip_with field_result fs rs)
  | T_TypeParameter i => mkRes [] [([], i)] []
  | _ => no_result
  end.

Definition build_named (d : declResult) (rs : list declResult) : declResult :=
  combine (mkRes (r_scrub d) [] (r_headers d) :: imap (fun i r => instantiate (r_typeParams d) (Z.of_nat i) r) rs).

Definition is_named (t : SType) : bool := match t with T_Named _ _ => true | _ => false end.

Lemma headers_combine rs h : h ∈ r_headers (combine rs) <-> exists r, (r ∈ rs) /\ (h ∈ r_headers r).
Proof.
  unfold combine. cbn [r_headers]. rewrite list_elem_of_join. setoid_rewrite list_elem_of_fmap. split.
  - intros (l & Hh & r & -> & Hr). eauto.
  - intros (r & Hr & Hh). exists (r_headers r). eauto.
Qed.

Lemma headers_instantiate params i r : r_headers (instantiate params i r) = [].
Proof. unfold instantiate, combine. cbn [r_headers]. induction (filter _ params) as [|x l IH]; [done|]. exact IH. Qed.

(** The position of an element in two lists of the same length. *)
Lemma Forall2_elem_l {A B} (R : A -> B -> Prop) l k x : Forall2 R l k -> (x ∈ l) -> exists y, (y ∈ k) /\ R x y.
Proof. intros H (i & Hi)%list_elem_of_lookup. destruct (Forall2_lookup_l _ _ _ _ _ H Hi) as (y & Hy & HR). exists y. split; [|done]. by eapply list_elem_of_lookup_2. Qed.

Lemma Forall2_map_l {A B C} (f : A -> B) (R : B -> C -> Prop) l k : Forall2 R (map f l) k <-> Forall2 (fun x y => R (f x) y) l k.
Proof.
  revert k. induction l as [|x l IH]; intros k; cbn; split; intros H; inversion H; subst; constructor; try done; by apply IH.
Qed.

Definition subst_field (env : list SType) (f : SField) : SField := mkField (subst env (f_Typ f)) (f_Name f) (f_JsonName f) (f_Tags f).

Lemma denotes_field env f r p :
  denotes env (field_result f r) p <->
  if scrubbed IsPrint mode f then p = [entry IsPrint f] else exists p', p = entry IsPrint f :: p' /\ denotes env r p'.
Proof.
  unfold field_result. destruct (scrubbed IsPrint mode f); [|apply denotes_under]. unfold denotes. cbn. split.
  - intros [->%list_elem_of_singleton|(q & i & a & p' & H & _)]; [done|]. by apply elem_of_nil in H.
  - intros ->. left. by apply list_elem_of_singleton.
Qed.

Lemma sound_struct fs rs : Forall2 sound (children (T_Struct fs)) rs -> sound (T_Struct fs) (build (T_Struct fs) rs).
Proof.
  cbn [children build]. rewrite Forall2_map_l. intros H. split.
  - intros env p (r & (i & f & r' & -> & Hf & Hr)%elem_of_lookup_zip_with & Hd)%denotes_combine.
    pose proof (Forall2_lookup_lr _ _ _ _ _ _ H Hf Hr) as Hs. cbn in Hs.
    apply denotes_field in Hd. cbn [subst].
    assert (Hin : (subst_field env f ∈ map (subst_field env) fs)) by (apply list_elem_of_In, in_map, list_elem_of_In; by eapply list_elem_of_lookup_2).
    destruct (scrubbed IsPrint mode f) eqn:E.
    + subst p. exact (S_Field _ (subst_field env f) Hin E).
    + destruct Hd as (p' & -> & Hd). apply (S_Inner _ (subst_field env f) p' Hin E). by apply Hs.
  - intros h (r & (i & f & r' & -> & Hf & Hr)%elem_of_lookup_zip_with & Hd)%headers_combine. unfold field_result in Hd.
    destruct (scrubbed IsPrint mode f) eqn:E; [|by apply elem_of_nil in Hd]. cbn in Hd. destruct (isHeader f) as [h'|] eqn:Eh; [|by apply elem_of_nil in Hd].
    apply list_elem_of_singleton in Hd as ->. apply (H_Field fs f h'); [by eapply list_elem_of_lookup_2|done|done].
Qed.

Lemma build_sound t rs : is_named t = false -> Forall2 sound (children t) rs -> sound t (build t rs).
Proof.
  intros Hn H. destruct t as [|id args|fs|k v|t| |t|ts| |t|i|]; try done; cbn [children build] in *; try apply sound_none.
  - by apply sound_struct.
  - inversion H as [|? rk ? l [Hk _] H']; subst. inversion H' as [|? rv ? l' [Hv _] H'']; subst. inversion H''; subst. cbn. split.
    + intros env p Hd. apply denotes_combine in Hd as (r & Hr & Hd). rewrite !elem_of_cons in Hr. destruct Hr as [->|[->|Hr]]; [..|by apply elem_of_nil in Hr];
        apply denotes_under in Hd as (p' & -> & Hd); cbn [subst]; constructor; auto.
    + intros h Hh. apply headers_combine in Hh as (r & Hr & Hh). rewrite !elem_of_cons in Hr. destruct Hr as [->|[->|Hr]]; [..|by apply elem_of_nil in Hr]; by apply elem_of_nil in Hh.
  - inversion H as [|? r ? l [H1 H2] H']; subst. cbn. split; intros; cbn [subst]; constructor; eauto.
  - inversion H as [|? r ? l [H1 H2] H']; subst. cbn. split; intros; cbn [subst]; constructor; eauto.
  - split.
    + intros env p (r & Hr & Hd)%denotes_combine. destruct (Forall2_elem_l (flip sound) rs ts r) as (t & Ht & Hs); [by apply Forall2_flip|done|].
      cbn [subst]. apply (S_Union _ (subst env t)); [apply list_elem_of_In, in_map, list_elem_of_In, Ht|]. by apply Hs.
    + intros h (r & Hr & Hh)%headers_combine. destruct (Forall2_elem_l (flip sound) rs ts r) as (t & Ht & Hs); [by apply Forall2_flip|done|].
      apply (H_Union _ t); [done|]. by apply Hs.
  - inversion H as [|? r ? l [H1 H2] H']; subst. cbn. split; intros; cbn [subst]; constructor; eauto.
  - split; [|intros h Hh; by apply elem_of_nil in Hh]. intros env p [Hd|(q & j & a & p' & Hq & Ha & Hp & ->)]; [by apply elem_of_nil in Hd|].
    cbn in Hq. apply list_elem_of_singleton in Hq as [= -> ->]. cbn [subst app]. by rewrite Ha.
Qed.

(** Completeness of the cases. *)

Definition indices_ok (r : declResult) : Prop := Forall (fun pi => 0 <= pi.2) (r_typeParams r).

Lemma indices_combine rs : Forall indices_ok rs -> indices_ok (combine rs).
Proof. intros H. unfold indices_ok, combine. cbn [r_typeParams]. apply list.Forall_forall. intros pi (l & Hp & (r & -> & Hr)%list_elem_of_fmap)%list_elem_of_join. rewrite list.Forall_forall in H. specialize (H r Hr). unfold indices_ok in H. rewrite list.Forall_forall in H. auto. Qed.

Lemma indices_under e r : indices_ok r -> indices_ok (under e r).
Proof. intros H. unfold indices_ok, under. cbn [r_typeParams]. by apply list.Forall_fmap. Qed.

Lemma complete_indices t r : complete t r -> indices_ok r.
Proof. by intros (_ & _ & H). Qed.

Lemma indices_field f r : (scrubbed IsPrint mode f = false -> indices_ok r) -> indices_ok (field_result f r).
Proof. intros H. unfold field_result. destruct (scrubbed IsPrint mode f); [constructor|]. by apply indices_under, H. Qed.

Lemma complete_struct fs rs : Forall2 complete (children (T_Struct fs)) rs -> complete (T_Struct fs) (build (T_Struct fs) rs).
Proof.
  cbn [children build]. rewrite Forall2_map_l. intros H. split; [|split].
  - intros env p Hp. cbn [subst] in Hp. fold (subst_field env) in Hp. apply denotes_combine.
    assert (Hf : forall f', (f' ∈ map (subst_field env) fs) -> exists i f r, f' = subst_field env f /\ fs !! i = Some f /\ rs !! i = Some r /\
      complete (if scrubbed IsPrint mode f then T_nil else f_Typ f) r).
    { intros f' Hin. apply list_elem_of_In, in_map_iff in Hin as (f & <- & Hin). apply list_elem_of_In in Hin as (i & Hi)%list_elem_of_lookup.
      destruct (Forall2_lookup_l _ _ _ _ _ H Hi) as (r & Hr & Hc). by exists i, f, r. }
    inversion Hp as [| | | | | | |fs' f' Hin Es|fs' f' p' Hin Es Hp']; subst; destruct (Hf f' Hin) as (i & f & r & -> & Hi & Hr & Hc);
      change (scrubbed IsPrint mode (subst_field env f)) with (scrubbed IsPrint mode f) in Es;
      (exists (field_result f r); split; [apply elem_of_lookup_zip_with; by exists i, f, r|]); apply denotes_field; rewrite Es; [done|].
    rewrite Es in Hc. exists p'. split; [done|]. by apply Hc.
  - intros h Hh. inversion Hh as [| | | | |fs' f h' Hin Es Eh]; subst. apply list_elem_of_lookup in Hin as (i & Hi).
    destruct (Forall2_lookup_l _ _ _ _ _ H Hi) as (r & Hr & _). apply headers_combine. exists (field_result f r).
    split; [apply elem_of_lookup_zip_with; by exists i, f, r|]. unfold field_result. rewrite Es, Eh. by apply list_elem_of_singleton.
  - apply indices_combine, list.Forall_forall. intros x (i & f & r & -> & Hi & Hr)%elem_of_lookup_zip_with.
    pose proof (Forall2_lookup_lr _ _ _ _ _ _ H Hi Hr) as Hc. cbn in Hc. apply indices_field. intros _. by eapply complete_indices.
Qed.

(** A sensitive path of a type without parts does not exist. *)
Ltac no_path := let H := fresh in first [intros env p H; cbn [subst] in H; inversion H | intros h H; inversion H].

Lemma complete_none t : (forall env p, ~ Sensitive (subst env t) p) -> (forall h, ~ SensitiveHeader t h) -> complete t no_result.
Proof. intros H1 H2. split; [intros env p H; by apply H1 in H|]. split; [intros h H; by apply H2 in H|constructor]. Qed.

Lemma build_complete t rs :
  is_named t = false -> (forall i, t = T_TypeParameter i -> 0 <= i) -> Forall2 complete (children t) rs -> complete t (build t rs).
Proof.
  intros Hn Hi H. destruct t as [|id args|fs|k v|t| |t|ts| |t|i|]; try done; cbn [children build] in *; try (apply complete_none; no_path).
  - by apply complete_struct.
  - inversion H as [|? rk ? l (Hk & _ & Ik) H']; subst. inversion H' as [|? rv ? l' (Hv & _ & Iv) H'']; subst. inversion H''; subst. cbn. split; [|split].
    + intros env p Hp. cbn [subst] in Hp. apply denotes_combine. inversion Hp; subst.
      * exists (under (map_entry MapKey) rk). split; [by left|]. apply denotes_under. eauto.
      * exists (under (map_entry MapValue) rv). split; [by right; left|]. apply denotes_under. eauto.
    + no_path.
    + apply indices_combine. repeat constructor; by apply indices_under.
  - inversion H as [|? r ? l (H1 & H2 & H3) H']; subst. cbn. split; [|split; [|done]].
    + intros env p Hp. cbn [subst] in Hp. inversion Hp; subst; auto.
    + intros h Hh. inversion Hh; subst; auto.
  - inversion H as [|? r ? l (H1 & H2 & H3) H']; subst. cbn. split; [|split; [|done]].
    + intros env p Hp. cbn [subst] in Hp. inversion Hp; subst; auto.
    + intros h Hh. inversion Hh; subst; auto.
  - split; [|split].
    + intros env p Hp. cbn [subst] in Hp. inversion Hp as [| | | |ts' t' p' Hin Hp'| | | |]; subst. apply list_elem_of_In, in_map_iff in Hin as (t & <- & Hin%list_elem_of_In).
      destruct (Forall2_elem_l _ _ _ _ H Hin) as (r & Hr & Hc). apply denotes_combine. exists r. split; [done|]. by apply Hc.
    + intros h Hh. inversion Hh as [| | | |ts' t h' Hin Hh'|]; subst. destruct (Forall2_elem_l _ _ _ _ H Hin) as (r & Hr & Hc).
      apply headers_combine. exists r. split; [done|]. by apply Hc.
    + apply indices_combine, list.Forall_forall. intros r Hr.
      destruct (Forall2_elem_l (flip complete) rs ts r) as (t & Ht & Hs); [by apply Forall2_flip|done|]. by eapply complete_indices.
  - inversion H as [|? r ? l (H1 & H2 & H3) H']; subst. cbn. split; [|split; [|done]].
    + intros env p Hp. cbn [subst] in Hp. inversion Hp; subst; auto.
    + intros h Hh. inversion Hh; subst; auto.
  - split; [|split; [no_path|repeat constructor; by apply Hi]]. intros env p Hp. cbn [subst] in Hp. right.
    destruct (env !! Z.to_nat i) as [a|] eqn:Ea; cbn in Hp; [|inversion Hp]. exists [], i, a, p. split; [by apply list_elem_of_singleton|]. done.
Qed.

(** ** Named types *)

Lemma denotes_named env d rs p :
  denotes env (build_named d rs) p <->
  (p ∈ r_scrub d) \/ exists i r, rs !! i = Some r /\ denotes env (instantiate (r_typeParams d) (Z.of_nat i) r) p.
Proof.
  unfold build_named. rewrite denotes_combine. split.
  - intros (r & Hr & Hd). apply elem_of_cons in Hr as [->|Hr].
    + left. destruct Hd as [Hd|(q & i & a & p' & H & _)]; [done|]. by apply elem_of_nil in H.
    + right. apply elem_of_lookup_imap in Hr as (i & r' & -> & Hr). by exists i, r'.
  - intros [H|(i & r & Hr & Hd)].
    + eexists. split; [by left|]. by left.
    + eexists. split; [right; apply elem_of_lookup_imap; by exists i, r|]. done.
Qed.

Lemma headers_none (f : nat -> declResult -> declResult) rs :
  (forall i r, r_headers (f i r) = []) -> mjoin (r_headers <$> imap f rs) = [].
Proof.
  revert f. induction rs as [|r rs IH]; intros f Hf; [done|]. cbn [imap fmap list_fmap].
  change (r_headers (f 0%nat r) ++ mjoin (r_headers <$> imap (f ∘ S) rs) = []). rewrite Hf. apply IH. intros k x. apply Hf.
Qed.

Lemma headers_named d rs : r_headers (build_named d rs) = r_headers d.
Proof.
  change (r_headers d ++ mjoin (r_headers <$> imap (fun i r => instantiate (r_typeParams d) (Z.of_nat i) r) rs) = r_headers d).
  rewrite headers_none; [apply app_nil_r|]. intros i r. apply headers_instantiate.
Qed.

Section Named.
Context (id : Z) (args : list SType) (b : SType) (Hb : Decls !! Z.to_nat id = Some b) (Hlen : (length args <= Z.to_nat (2 ^ 32))%nat).

Lemma named_sound d rs : sound b d -> Forall2 sound args rs -> sound (T_Named id args) (build_named d rs).
Proof.
  intros [Hd1 Hd2] H. split; [|intros h; rewrite headers_named; intros Hh; apply (H_Named _ _ b); auto].
  intros env p Hp. cbn [subst]. apply (S_Named _ _ b); [done|]. apply Hd1. apply denotes_named in Hp as [Hp|(i & r & Hr & Hp)]; [by left|].
  destruct (Forall2_lookup_r _ _ _ _ _ H Hr) as (a & Ha & Hs). apply denotes_instantiate in Hp as (q & p' & Hq & -> & Hp).
  assert (Hi : u32 (Z.of_nat i) = Z.of_nat i) by (apply u32_id; apply lookup_lt_Some in Ha; width). rewrite Hi in Hq.
  right. exists q, (Z.of_nat i), (subst env a), p'. split; [done|]. rewrite Nat2Z.id. split; [|split; [by apply Hs|done]].
  change (map (subst env) args) with (subst env <$> args). rewrite list_lookup_fmap, Ha. done.
Qed.

Lemma named_complete d rs : complete b d -> Forall2 complete args rs -> complete (T_Named id args) (build_named d rs).
Proof.
  intros (Hd1 & Hd2 & Hd3) H. split; [|split].
  - intros env p Hp. cbn [subst] in Hp. inversion Hp as [id' args' b' p' Hb' Hp'| | | | | | | |]; subst. rewrite Hb in Hb'. injection Hb' as <-.
    apply denotes_named. apply Hd1 in Hp' as [Hp'|(q & i & a & p' & Hq & Ha & Hs & ->)]; [by left|]. right.
    change (map (subst env) args) with (subst env <$> args) in Ha. rewrite list_lookup_fmap in Ha. apply fmap_Some in Ha as (a' & Ha & ->).
    destruct (Forall2_lookup_l _ _ _ _ _ H Ha) as (r & Hr & Hc). exists (Z.to_nat i), r. split; [done|]. apply denotes_instantiate.
    rewrite list.Forall_forall in Hd3. specialize (Hd3 _ Hq). cbn in Hd3. exists q, p'. rewrite Z2Nat.id by lia.
    assert (Hi : u32 i = i) by (apply u32_id; apply lookup_lt_Some in Ha; width). rewrite Hi. split; [done|]. split; [done|]. by apply Hc.
  - intros h Hh. rewrite headers_named. inversion Hh as [id' args' b' h' Hb' Hh'| | | | |]; subst. apply Hd2. congruence.
  - apply indices_combine. constructor; [constructor|]. apply list.Forall_forall. intros x (i & r & -> & Hr)%elem_of_lookup_imap.
    destruct (Forall2_lookup_r _ _ _ _ _ H Hr) as (a & Ha & (_ & _ & Hc)). unfold instantiate. apply indices_combine, list.Forall_forall.
    intros y (pi & -> & _)%list_elem_of_fmap. unfold indices_ok. cbn [r_typeParams]. by apply list.Forall_fmap.
Qed.

End Named.
End Spec.
