(* ===== verification/MetaScrubTheorems.v ===== *)
(** Theorems about the scrub paths of types ([pkg/scrub/metascrub]): the computation ends within its
    limit of steps, finds only sensitive fields, and finds all of them when no type is recursive,
    whatever was computed before with the same computer. *)

From S2P Require Import Prelude Run Scrub ScrubDoc ScrubCorrect ScrubPaths ScrubTheorems.
From S2P Require Import MetaScrub MetaScrubSpec.

(** ** The loops as one loop

    Apart from named types, every case computes the results of some types in order and combines
    them. *)

Section Loops.
Context (IsPrint : Z -> bool) (mode : Z) (f : SType -> comp declResult) (Hnil : f T_nil = mret no_result).

Lemma comp_bind_assoc {A B C} (m : comp A) (k : A -> comp B) (h : B -> comp C) s :
  ((m ≫= k) ≫= h) s = (m ≫= (fun a => k a ≫= h)) s.
Proof. unfold mbind, comp_bind. by destruct (m s) as [[a| |] s']. Qed.

Lemma comp_bind_ext {A B} (m : comp A) (k h : A -> comp B) s : (forall a s, k a s = h a s) -> (m ≫= k) s = (m ≫= h) s.
Proof. intros H. unfold mbind, comp_bind. destruct (m s) as [[a| |] s']; [apply H|done|done]. Qed.

Lemma comp_bind_ret {A B} (a : A) (k : A -> comp B) s : (mret a ≫= k) s = k a s.
Proof. done. Qed.

Lemma combine_assoc a b rs : combine (combine [a; b] :: rs) = combine (a :: b :: rs).
Proof.
  unfold combine. cbn [fmap list_fmap r_scrub r_typeParams r_headers]. f_equal.
  all: repeat change (mjoin (?x :: ?l)) with (x ++ mjoin l); rewrite app_nil_r, <- app_assoc; done.
Qed.

Lemma arg_loop_eq params args : forall i out s,
  arg_loop f params i args out s =
  (union_loop f args ≫= (fun rs => mret (combine (mkRes (r_scrub out) (r_typeParams out) (r_headers out) ::
     imap (fun k r => instantiate params (i + Z.of_nat k) r) rs)))) s.
Proof.
  induction args as [|arg args IH]; intros i out s; cbn [arg_loop union_loop].
  { unfold mbind, comp_bind, mret, comp_ret. cbn. unfold combine. cbn. by rewrite !app_nil_r; destruct out. }
  rewrite comp_bind_assoc. apply comp_bind_ext. intros r s1. rewrite IH, comp_bind_assoc. apply comp_bind_ext. intros rs s2.
  unfold mbind, comp_bind, mret, comp_ret. cbn [imap]. do 2 f_equal. rewrite <- combine_assoc. f_equal. f_equal.
  - unfold combine. cbn [fmap list_fmap r_scrub r_typeParams r_headers]. repeat change (mjoin (?x :: ?l)) with (x ++ mjoin l).
    rewrite Z.add_0_r, headers_instantiate. cbn [app]. by rewrite !app_nil_r.
  - apply imap_ext. intros k x _. cbn. f_equal. lia.
Qed.

Lemma field_loop_eq fs : forall out s,
  field_loop IsPrint mode f fs out s =
  (union_loop f (children IsPrint mode (T_Struct fs)) ≫= (fun rs => mret (combine (out :: zip_with (field_result IsPrint mode) fs rs)))) s.
Proof.
  induction fs as [|fd fs IH]; intros out s; cbn [field_loop children map union_loop].
  { unfold mbind, comp_bind, mret, comp_ret. cbn. unfold combine. cbn. by rewrite !app_nil_r; destruct out. }
  fold (children IsPrint mode (T_Struct fs)). rewrite comp_bind_assoc.
  assert (E : forall r s, field_loop IsPrint mode f fs (combine [out; field_result IsPrint mode fd r]) s =
    (union_loop f (children IsPrint mode (T_Struct fs)) ≫=
       (fun rs => mret (combine (out :: field_result IsPrint mode fd r :: zip_with (field_result IsPrint mode) fs rs)))) s).
  { intros r s1. rewrite IH. apply comp_bind_ext. intros rs s2. by rewrite combine_assoc. }
  unfold field_result in E at 1. destruct (scrubbed IsPrint mode fd) eqn:Es.
  - rewrite Hnil, !comp_bind_ret, (E no_result), comp_bind_assoc. done.
  - rewrite comp_bind_assoc. apply comp_bind_ext. intros r s1. rewrite comp_bind_ret, (E r), comp_bind_assoc. done.
Qed.

Lemma typ_body_eq Decls t s : is_named t = false ->
  typ_body IsPrint Decls mode f t s = (union_loop f (children IsPrint mode t) ≫= (fun rs => mret (build IsPrint mode t rs))) s.
Proof.
  destruct t as [|id args|fs|k v|t| |t|ts| |t|i|]; intros Hn; try done; cbn [typ_body children build].
  all: try (cbn [union_loop]; unfold mbind, comp_bind, mret, comp_ret; by destruct (f t s) as [[r| |] s']).
  - rewrite field_loop_eq. done.
  - cbn [union_loop]. unfold mbind, comp_bind, mret, comp_ret. destruct (f k s) as [[r| |] s']; [|done|done].
    by destruct (f v s') as [[r'| |] s''].
Qed.

End Loops.

(** ** The effect on the computer *)

Section Effect.
Context (IsPrint : Z -> bool) (Decls : list SType) (mode : Z) (rank : Z -> nat).

(** Names refer to declarations, and parameters have indices. *)
Definition wf_node (t : SType) : bool :=
  match t with
  | T_Named id args => (0 <=? id) && (id <? blen Decls) && (blen args <=? 2 ^ 32)
  | T_TypeParameter i => 0 <=? i
  | _ => true
  end.
Definition wf_type (t : SType) : bool := all_nodes wf_node t.

(** All names in the type are of declarations of rank less than [n]. *)
Definition below (n : nat) (t : SType) : bool :=
  all_nodes (fun t => match t with T_Named id _ => bool_decide (rank id < n)%nat | _ => true end) t.

(** No declaration is recursive: the names in it are of smaller rank. *)
Definition ranked : Prop := forall id b, Decls !! Z.to_nat id = Some b -> 0 <= id -> below (rank id) b = true.
Definition lower (n : nat) (t : SType) : Prop := ranked /\ below n t = true.

Definition cache_sound (c : declCache) : Prop :=
  forall id r, c !! (id, mode) = Some r -> exists b, 0 <= id /\ Decls !! Z.to_nat id = Some b /\ sound IsPrint Decls mode b r.

Definition cache_complete (n : nat) (c : declCache) : Prop :=
  forall id r, c !! (id, mode) = Some r -> (rank id < n)%nat -> exists b, Decls !! Z.to_nat id = Some b /\ complete IsPrint Decls mode b r.

(** The sizes of the declarations that are not in the cache. *)
Fixpoint pending_size (i : nat) (l : list SType) (c : declCache) : nat :=
  match l with
  | [] => 0
  | t :: l => (if decide (is_Some (c !! (Z.of_nat i, mode))) then 0 else type_size t) + pending_size (S i) l c
  end.
Definition pending (c : declCache) : Z := Z.of_nat (pending_size 0 Decls c).

Lemma pending_insert c id r b :
  0 <= id -> Decls !! Z.to_nat id = Some b -> c !! (id, mode) = None ->
  pending (<[(id, mode) := r]> c) + Z.of_nat (type_size b) = pending c.
Proof.
  intros Hid Hb Hc. unfold pending. enough (H : forall l i, (i <= Z.to_nat id)%nat -> l !! (Z.to_nat id - i)%nat = Some b ->
    (pending_size i l (<[(id, mode) := r]> c) + type_size b = pending_size i l c)%nat).
  { specialize (H Decls 0%nat ltac:(lia)). rewrite Nat.sub_0_r in H. specialize (H Hb). lia. }
  assert (Hne : forall l i, (Z.to_nat id < i)%nat -> pending_size i l (<[(id, mode) := r]> c) = pending_size i l c).
  { induction l as [|t l IH]; intros i Hi; [done|]. cbn. rewrite lookup_insert_ne by (intros [= E]; lia). rewrite IH by lia. done. }
  induction l as [|t l IH]; intros i Hi Hl; [done|]. cbn [pending_size].
  destruct (decide (Z.to_nat id = i)) as [E|E].
  - rewrite E, Nat.sub_diag in Hl. injection Hl as <-. rewrite Hne by lia. replace (Z.of_nat i) with id by lia.
    rewrite lookup_insert_eq, Hc. rewrite decide_True by done. rewrite decide_False by (by intros [? [=]]). lia.
  - replace (Z.to_nat id - i)%nat with (S (Z.to_nat id - S i)) in Hl by lia. cbn in Hl. specialize (IH (S i) ltac:(lia) Hl).
    rewrite lookup_insert_ne by (intros [= E']; lia). lia.
Qed.

Lemma pending_overwrite c id r : is_Some (c !! (id, mode)) -> pending (<[(id, mode) := r]> c) = pending c.
Proof.
  intros Hc. unfold pending. f_equal. generalize 0%nat. induction Decls as [|t l IH]; intros i; [done|]. cbn. rewrite IH. f_equal.
  destruct (decide ((Z.of_nat i, mode) = (id, mode))) as [E|E].
  - rewrite E, lookup_insert_eq. rewrite !decide_True by done. done.
  - by rewrite lookup_insert_ne by done.
Qed.

(** What a computation of cost [c] on types satisfying [B] does to the state. *)
Record effect (c : Z) (B : nat -> Prop) (s s' : cstate) : Prop := {
  eff_steps : c_steps s <= c_steps s';
  eff_cost : c_steps s' + pending (c_cache s') <= c_steps s + c + pending (c_cache s);
  eff_sound : cache_sound (c_cache s) -> cache_sound (c_cache s');
  eff_modes : forall k, k.2 <> mode -> c_cache s' !! k = c_cache s !! k;
  eff_kept : forall k, is_Some (c_cache s !! k) -> is_Some (c_cache s' !! k);
  eff_complete : forall n, B n -> cache_complete n (c_cache s) -> c_steps s' <= maxSteps ->
    cache_complete n (c_cache s') /\ forall id, (n <= rank id)%nat -> c_cache s' !! (id, mode) = c_cache s !! (id, mode) }.

Lemma effect_refl c B s : 0 <= c -> effect c B s s.
Proof. intros Hc. split; try done; lia. Qed.

Lemma effect_trans c1 c2 (B1 B2 B : nat -> Prop) s1 s2 s3 :
  (forall n, B n -> B1 n /\ B2 n) -> effect c1 B1 s1 s2 -> effect c2 B2 s2 s3 -> effect (c1 + c2) B s1 s3.
Proof.
  intros HB [A1 A2 A3 A4 A5 A6] [C1 C2 C3 C4 C5 C6]. split; [lia|lia|auto| |auto|].
  - intros k Hk. rewrite C4, A4 by done. done.
  - intros n Hn Hc Hs. destruct (HB n Hn) as [H1 H2]. destruct (A6 n H1 Hc ltac:(lia)) as [Hc' Hf]. destruct (C6 n H2 Hc' Hs) as [Hc'' Hf'].
    split; [done|]. intros id Hid. rewrite Hf', Hf by done. done.
Qed.

Lemma effect_weaken c c' (B B' : nat -> Prop) s s' : c <= c' -> (forall n, B' n -> B n) -> effect c B s s' -> effect c' B' s s'.
Proof. intros Hc HB [A1 A2 A3 A4 A5 A6]. split; auto. lia. Qed.

(** What a call promises. *)
Definition call_result (t : SType) (s s' : cstate) (r : declResult) : Prop :=
  sound IsPrint Decls mode t r /\
  forall n, lower n t -> cache_complete n (c_cache s) -> c_steps s' <= maxSteps -> complete IsPrint Decls mode t r.

Definition call_ok (f : SType -> comp declResult) (fuel : nat) : Prop :=
  forall t s, wf_type t = true -> cache_sound (c_cache s) -> (1 <= fuel)%nat -> maxSteps < c_steps s + Z.of_nat fuel ->
  exists r s', f t s = (Ok r, s') /\ effect (Z.of_nat (type_size t)) (fun n => lower n t) s s' /\ call_result t s s' r.

Lemma union_loop_ok f fuel ts s :
  call_ok f fuel -> Forall (fun t => wf_type t = true) ts -> cache_sound (c_cache s) -> (1 <= fuel)%nat -> maxSteps < c_steps s + Z.of_nat fuel ->
  exists rs s', union_loop f ts s = (Ok rs, s') /\
    effect (Z.of_nat (sum_list (map type_size ts))) (fun n => Forall (lower n) ts) s s' /\ Forall2 (sound IsPrint Decls mode) ts rs /\
    forall n, Forall (lower n) ts -> cache_complete n (c_cache s) -> c_steps s' <= maxSteps -> Forall2 (complete IsPrint Decls mode) ts rs.
Proof.
  intros Hf Hw. revert s. induction Hw as [|t ts Ht _ IH]; intros s Hs H1 Hfuel.
  { exists [], s. split; [done|]. split; [by apply effect_refl|]. split; constructor. }
  destruct (Hf t s Ht Hs H1 Hfuel) as (r & s1 & E1 & Heff & Hr1 & Hr2).
  destruct (IH s1) as (rs & s2 & E2 & Heff2 & Hrs1 & Hrs2); [by apply Heff|done|pose proof (eff_steps _ _ _ _ Heff); lia|].
  exists (r :: rs), s2. cbn [union_loop]. unfold mbind, comp_bind. rewrite E1, E2. split; [done|]. split; [|split; [by constructor|]].
  - cbn [map sum_list sum_list_with]. rewrite Nat2Z.inj_add. eapply effect_trans; [|exact Heff|exact Heff2]. intros n Hn. by apply list.Forall_cons in Hn.
  - intros n Hn Hc Hmax. apply list.Forall_cons in Hn as [Hn Hns]. pose proof (eff_steps _ _ _ _ Heff2) as Hle. constructor; [apply (Hr2 n); [done..|lia]|].
    apply (Hrs2 n); [done| |done]. apply (eff_complete _ _ _ _ Heff); [done..|lia].
Qed.

Lemma cache_sound_insert c id b r :
  cache_sound c -> 0 <= id -> Decls !! Z.to_nat id = Some b -> sound IsPrint Decls mode b r -> cache_sound (<[(id, mode) := r]> c).
Proof.
  intros Hc Hid Hb Hr id' r'. destruct (decide (id' = id)) as [->|Hne].
  - rewrite lookup_insert_eq. intros [= <-]. by exists b.
  - rewrite lookup_insert_ne by congruence. apply Hc.
Qed.

Definition wf_decls : Prop := Forall (fun t => wf_type t = true) Decls.

Definition decl_result (id : Z) (s s' : cstate) (d : declResult) : Prop :=
  exists b, Decls !! Z.to_nat id = Some b /\ sound IsPrint Decls mode b d /\
    forall n, ranked -> (rank id < n)%nat -> cache_complete n (c_cache s) -> c_steps s' <= maxSteps -> complete IsPrint Decls mode b d.

(** The effect of computing a declaration and entering it into the cache. *)
Lemma decl_effect id b r s s1 :
  0 <= id -> Decls !! Z.to_nat id = Some b -> c_cache s !! (id, mode) = None ->
  let s0 := mkC (<[(id, mode) := no_result]> (c_cache s)) (c_steps s) in
  effect (Z.of_nat (type_size b)) (fun n => lower n b) s0 s1 -> call_result b s0 s1 r ->
  let s' := mkC (<[(id, mode) := r]> (c_cache s1)) (c_steps s1) in
  effect 0 (fun n => ranked /\ (rank id < n)%nat) s s' /\ decl_result id s s' r.
Proof.
  intros Hid Hb Hc s0 [A1 A2 A3 A4 A5 A6] [R1 R2] s'.
  assert (Hm : is_Some (c_cache s1 !! (id, mode))) by (apply A5; cbn; rewrite lookup_insert_eq; eauto).
  assert (Hp := pending_insert (c_cache s) id no_result b Hid Hb Hc).
  assert (Hlow : forall n, (rank id < n)%nat -> cache_complete n (c_cache s) -> cache_complete (rank id) (c_cache s0)).
  { intros n Hn Hcc id' r' Hl Hr. cbn in Hl. rewrite lookup_insert_ne in Hl by (intros [= ->]; lia). apply (Hcc id' r' Hl). lia. }
  assert (Hcb : forall n, ranked -> (rank id < n)%nat -> cache_complete n (c_cache s) -> c_steps s1 <= maxSteps -> complete IsPrint Decls mode b r).
  { intros n Hrk Hn Hcc Hs. apply (R2 (rank id)); [by split; [|apply Hrk]|by apply (Hlow n)|done]. }
  split; [|exists b; done]. subst s0 s'. split; cbn [c_cache c_steps] in *; [lia|rewrite pending_overwrite by done; lia| | | |].
  - intros Hs. apply cache_sound_insert with b; auto. apply A3, cache_sound_insert with b; auto. apply sound_none.
  - intros k Hk. rewrite lookup_insert_ne by (intros <-; done). rewrite A4 by done. by rewrite lookup_insert_ne by (intros <-; done).
  - intros k Hk. destruct (decide (k = (id, mode))) as [->|Hne]; [rewrite lookup_insert_eq; eauto|].
    rewrite lookup_insert_ne by done. apply A5. by rewrite lookup_insert_ne by done.
  - intros n [Hrk Hn] Hcc Hs. destruct (A6 (rank id)) as [C1 C2]; [by split; [|apply Hrk]|by apply (Hlow n)|done|]. split.
    + intros id' r' Hl Hr. destruct (decide (id' = id)) as [->|Hne]; [rewrite lookup_insert_eq in Hl; injection Hl as <-; exists b; split; [done|by apply (Hcb n)]|].
      rewrite lookup_insert_ne in Hl by congruence. destruct (decide (rank id' < rank id)%nat); [by apply C1|]. rewrite C2 in Hl by lia.
      rewrite lookup_insert_ne in Hl by congruence. by apply Hcc.
    + intros id' Hid'. rewrite lookup_insert_ne by (intros [= ->]; lia). rewrite C2 by lia. by rewrite lookup_insert_ne by (intros [= ->]; lia).
Qed.

Lemma decl_ok f fuel id s :
  call_ok f fuel -> wf_decls -> 0 <= id < blen Decls -> cache_sound (c_cache s) -> (1 <= fuel)%nat -> maxSteps < c_steps s + Z.of_nat fuel ->
  exists d s', decl Decls mode f id s = (Ok d, s') /\ effect 0 (fun n => ranked /\ (rank id < n)%nat) s s' /\ decl_result id s s' d.
Proof.
  intros Hf Hw Hid Hs H1 Hfuel. unfold decl, mbind, comp_bind, cache_get.
  destruct (c_cache s !! (id, mode)) as [r|] eqn:Ec.
  { destruct (Hs id r Ec) as (b & _ & Hb & Hr). exists r, s. split; [done|]. split; [by apply effect_refl|]. exists b. split; [done|]. split; [done|].
    intros n _ Hn Hc _. destruct (Hc id r Ec Hn) as (b' & Hb' & Hr'). congruence. }
  destruct (lookup_lt_is_Some_2 Decls (Z.to_nat id)) as [b Hb]; [unfold blen in Hid; lia|]. unfold cache_put at 1. rewrite Hb. cbn [c_cache c_steps].
  set (s0 := mkC (<[(id, mode) := no_result]> (c_cache s)) (c_steps s)).
  destruct (Hf b s0) as (r & s1 & E1 & Heff & Hr); [|apply cache_sound_insert with b; [done|lia|done|apply sound_none]|done|done|].
  { unfold wf_decls in Hw. rewrite list.Forall_forall in Hw. apply Hw. by eapply list_elem_of_lookup_2. }
  rewrite E1. eexists _, _. split; [reflexivity|]. exact (decl_effect id b r s s1 (proj1 Hid) Hb Ec Heff Hr).
Qed.

Lemma typ_nil fuel : typ IsPrint Decls mode fuel T_nil = mret no_result.
Proof. by destruct fuel. Qed.

Lemma wf_children t : wf_type t = true -> Forall (fun t => wf_type t = true) (children IsPrint mode t).
Proof.
  unfold wf_type. destruct t as [|id args|fs|k v|t| |t|ts| |t|i|]; cbn [all_nodes children wf_node andb]; intros H; try (by constructor); try (by repeat constructor).
  - apply list.Forall_forall. intros t (f & <- & Hf)%list_elem_of_In%in_map_iff. rewrite forallb_forall in H. specialize (H f Hf).
    by destruct (scrubbed IsPrint mode f).
  - apply andb_prop in H as [H1 H2]. by repeat constructor.
  - apply list.Forall_forall. intros t Ht%list_elem_of_In. rewrite forallb_forall in H. auto.
Qed.

Lemma lower_children n t : lower n t -> Forall (lower n) (children IsPrint mode t).
Proof.
  intros [Hr H]. unfold below in H. destruct t as [|id args|fs|k v|t| |t|ts| |t|i|]; cbn [all_nodes children andb] in *; try (by constructor); try (by repeat constructor).
  - apply list.Forall_forall. intros t (f & <- & Hf)%list_elem_of_In%in_map_iff. rewrite forallb_forall in H. specialize (H f Hf).
    destruct (scrubbed IsPrint mode f); by split.
  - apply andb_prop in H as [H1 H2]. by repeat constructor.
  - apply list.Forall_forall. intros t Ht%list_elem_of_In. rewrite forallb_forall in H. split; [done|exact (H t Ht)].
Qed.

Lemma size_children t : is_named t = false -> t <> T_nil -> (S (sum_list (map type_size (children IsPrint mode t))) <= type_size t)%nat.
Proof.
  intros Hn Hnil. destruct t as [|id args|fs|k v|t| |t|ts| |t|i|]; try done; cbn [children type_size map sum_list sum_list_with]; cbv [Datatypes.id]; try lia.
  apply le_n_S. clear Hn Hnil. induction fs as [|f fs IH]; [done|]. cbn. destruct (scrubbed IsPrint mode f); cbn; lia.
Qed.

(** The body of a call, after its step. *)
Lemma typ_body_ok f fuel t s :
  call_ok f fuel -> f T_nil = mret no_result -> wf_decls -> wf_type t = true -> t <> T_nil -> cache_sound (c_cache s) ->
  (1 <= fuel)%nat -> maxSteps < c_steps s + Z.of_nat fuel ->
  exists r s', typ_body IsPrint Decls mode f t s = (Ok r, s') /\
    effect (Z.of_nat (type_size t) - 1) (fun n => lower n t) s s' /\ call_result t s s' r.
Proof.
  intros Hf Hfn Hd Ht Hnil Hs H1 Hfuel. destruct (is_named t) eqn:En.
  - destruct t as [|id args| | | | | | | | | |]; try done. unfold wf_type in Ht. cbn [all_nodes wf_node] in Ht.
    apply andb_prop in Ht as [Ht Hargs]. apply andb_prop in Ht as [Hid Hlen]. apply andb_prop in Hid as [Hid1 Hid2].
    destruct (decl_ok f fuel id s Hf Hd ltac:(lia) Hs H1 Hfuel) as (d & s1 & E1 & Heff1 & b & Hb & Hdr1 & Hdr2).
    destruct (union_loop_ok f fuel args s1 Hf) as (rs & s2 & E2 & Heff2 & Hrs1 & Hrs2).
    { apply list.Forall_forall. intros t Ht%list_elem_of_In. rewrite forallb_forall in Hargs. by apply Hargs. }
    { by apply Heff1. } { done. } { pose proof (eff_steps _ _ _ _ Heff1). lia. }
    assert (Hn2 : (length args <= Z.to_nat (2 ^ 32))%nat) by (unfold blen in Hlen; lia).
    assert (HB : forall n, lower n (T_Named id args) -> (ranked /\ (rank id < n)%nat) /\ Forall (lower n) args).
    { intros n [Hrk Hb']. unfold below in Hb'. cbn [all_nodes] in Hb'. apply andb_prop in Hb' as [H3%bool_decide_eq_true H4].
      split; [done|]. apply list.Forall_forall. intros t Ht%list_elem_of_In. rewrite forallb_forall in H4. split; [done|exact (H4 t Ht)]. }
    exists (build_named d rs), s2. cbn [typ_body]. unfold mbind at 1, comp_bind. rewrite E1, arg_loop_eq. unfold mbind, comp_bind. rewrite E2.
    split; [done|]. split; [|split].
    + cbn [type_size]. replace (Z.of_nat (S (sum_list (map type_size args))) - 1) with (0 + Z.of_nat (sum_list (map type_size args))) by lia.
      exact (effect_trans _ _ _ _ _ _ _ _ HB Heff1 Heff2).
    + by apply (named_sound _ _ _ id args b Hb Hn2).
    + intros n Hl Hc Hmax. destruct (HB n Hl) as [[Hrk Hr] Ha]. pose proof (eff_steps _ _ _ _ Heff2). apply (named_complete _ _ _ id args b Hb Hn2).
      * apply (Hdr2 n); [done..|lia].
      * apply (Hrs2 n); [done| |done]. apply (eff_complete _ _ _ _ Heff1); [done..|lia].
  - rewrite typ_body_eq by done.
    destruct (union_loop_ok f fuel (children IsPrint mode t) s Hf (wf_children t Ht) Hs H1 Hfuel) as (rs & s2 & E2 & Heff2 & Hrs1 & Hrs2).
    exists (build IsPrint mode t rs), s2. unfold mbind, comp_bind. rewrite E2. split; [done|]. split; [|split].
    + pose proof (size_children t En Hnil). eapply effect_weaken; [|intros n; apply lower_children|exact Heff2]. lia.
    + by apply build_sound.
    + intros n Hl Hc Hmax. apply build_complete; [done| |by apply (Hrs2 n); [apply lower_children|..]].
      intros i ->. unfold wf_type in Ht. cbn in Ht. lia.
Qed.

Lemma effect_step c B s : 0 <= c -> effect (c + 1) B s (mkC (c_cache s) (c_steps s + 1)).
Proof. intros Hc. split; cbn; try done; lia. Qed.

Theorem typ_ok fuel : wf_decls -> call_ok (typ IsPrint Decls mode fuel) fuel.
Proof.
  intros Hd. induction fuel as [|fuel IH]; intros t s Ht Hs H1 Hfuel; [lia|].
  assert (t = T_nil \/ t <> T_nil) as [->|Hnil] by (destruct t; auto; by right).
  { exists no_result, s. split; [done|]. split; [by apply effect_refl|]. split; [apply sound_none|]. intros n _ _ _. apply complete_none; intros; intros H; inversion H. }
  assert (Hsize : (1 <= type_size t)%nat) by (destruct t; cbn; [done|lia..]).
  set (s1 := mkC (c_cache s) (c_steps s + 1)).
  assert (E : typ IsPrint Decls mode (S fuel) t s =
    if maxSteps <? c_steps s + 1 then (Ok no_result, s1) else typ_body IsPrint Decls mode (typ IsPrint Decls mode fuel) t s1).
  { destruct t; try done; cbn [typ]; unfold mbind, comp_bind, step; destruct (maxSteps <? c_steps s + 1); done. }
  rewrite E. destruct (maxSteps <? c_steps s + 1) eqn:Em.
  - exists no_result, s1. split; [done|]. split; [|split; [apply sound_none|]].
    + eapply (effect_weaken (0 + 1) _ (fun n => lower n t)); [lia|done|by apply effect_step].
    + intros n _ _ Hmax. cbn in Hmax. lia.
  - destruct (typ_body_ok (typ IsPrint Decls mode fuel) fuel t s1 IH (typ_nil fuel) Hd Ht Hnil) as (r & s' & E' & Heff & Hr); [done|lia|cbn; lia|].
    exists r, s'. split; [done|]. split; [|done]. replace (Z.of_nat (type_size t)) with ((0 + 1) + (Z.of_nat (type_size t) - 1)) by lia.
    eapply effect_trans; [|apply (effect_step 0 (fun n => lower n t)); lia|exact Heff]. done.
Qed.
End Effect.

(** ** Computers *)

Section Computers.
Context (IsPrint : Z -> bool) (Decls : list SType).

Definition total_size : nat := sum_list (map type_size Decls).

(** The caches of a computer after any sequence of computations on types whose size, with that of
    all declarations, is within [limit]. *)
Inductive computed (limit : Z) : declCache -> Prop :=
| computed_new : computed limit ∅
| computed_next c t mode d c' :
    computed limit c -> wf_type Decls t = true -> Z.of_nat (type_size t + total_size) <= limit ->
    Compute IsPrint Decls c t mode = (Ok d, c') -> computed limit c'.

Lemma pending_total mode c : pending Decls mode c <= Z.of_nat total_size.
Proof.
  unfold pending, total_size. apply inj_le. generalize 0%nat. induction Decls as [|t l IH]; intros i; [done|]. cbn. specialize (IH (S i)).
  destruct (decide _); cbv [Datatypes.id] in *; lia.
Qed.

Lemma below_mono rank n m t : (n <= m)%nat -> below rank n t = true -> below rank m t = true.
Proof.
  intros Hnm. unfold below. induction t as [|id args IH|fs IH|k v IHk IHv|t IH| |t IH|ts IH| |t IH|i|] using SType_induction; cbn [all_nodes andb]; auto.
  - intros [H1%bool_decide_eq_true H2]%andb_prop. apply andb_true_intro. split; [apply bool_decide_eq_true; lia|].
    rewrite forallb_forall in *. rewrite list.Forall_forall in IH. intros x Hx. apply IH; [by apply list_elem_of_In|auto].
  - rewrite !forallb_forall. rewrite list.Forall_forall in IH. intros H x Hx. apply IH; [by apply list_elem_of_In|auto].
  - rewrite !andb_true_iff. tauto.
  - rewrite !forallb_forall. rewrite list.Forall_forall in IH. intros H x Hx. apply IH; [by apply list_elem_of_In|auto].
Qed.

Lemma below_list {A} (g : A -> SType) rank l :
  Forall (fun x => exists n, below rank n (g x) = true) l -> exists n, forallb (fun x => below rank n (g x)) l = true.
Proof.
  induction 1 as [|x l [n Hn] _ [m IH]]; [by exists 0%nat|]. exists (n `max` m)%nat. cbn. apply andb_true_intro. split; [apply (below_mono _ n); [lia|done]|].
  rewrite forallb_forall in *. intros y Hy. apply (below_mono _ m); [lia|auto].
Qed.

Lemma below_exists rank t : exists n, below rank n t = true.
Proof.
  induction t as [|id args IH|fs IH|k v [n Hk] [m Hv]|t IH| |t IH|ts IH| |t IH|i|] using SType_induction; auto; try by exists 0%nat.
  - destruct (below_list (fun t => t) rank args IH) as [n Hn]. exists (n `max` S (rank id))%nat. unfold below. cbn [all_nodes]. apply andb_true_intro.
    split; [apply bool_decide_eq_true; lia|]. rewrite forallb_forall in *. intros x Hx. apply (below_mono _ n); [lia|auto].
  - destruct (below_list f_Typ rank fs IH) as [n Hn]. by exists n.
  - exists (n `max` m)%nat. unfold below. cbn [all_nodes andb]. apply andb_true_intro.
    split; [apply (below_mono _ n); [lia|done]|apply (below_mono _ m); [lia|done]].
  - destruct (below_list (fun t => t) rank ts IH) as [n Hn]. by exists n.
Qed.

Definition caches_sound (c : declCache) : Prop := forall mode, cache_sound IsPrint Decls mode c.
Definition caches_complete (rank : Z -> nat) (c : declCache) : Prop := forall mode n, cache_complete IsPrint Decls mode rank n c.

(** What a computation gives, for a computer whose cache is as it should be. *)
Definition exact_result (mode : Z) (t : SType) (d : Desc) : Prop :=
  (forall p, Sensitive IsPrint Decls mode t p -> p ∈ Payload d) /\ (forall h, SensitiveHeader IsPrint Decls mode t h -> h ∈ Headers d).
Definition sound_result (mode : Z) (t : SType) (d : Desc) : Prop :=
  (forall p, p ∈ Payload d -> Sensitive IsPrint Decls mode t p) /\ (forall h, h ∈ Headers d -> SensitiveHeader IsPrint Decls mode t h).

Lemma denotes_closed mode r p : denotes IsPrint Decls mode [] r p <-> p ∈ r_scrub r.
Proof. split; [|by left]. intros [H|(q & i & a & p' & _ & H & _)]; [done|]. by rewrite lookup_nil in H. Qed.

Lemma Compute_ok c t mode :
  wf_decls Decls -> caches_sound c -> wf_type Decls t = true ->
  exists d c', Compute IsPrint Decls c t mode = (Ok d, c') /\ caches_sound c' /\ (closed t = true -> sound_result mode t d) /\
  forall rank, ranked Decls rank -> Z.of_nat (type_size t + total_size) <= maxSteps -> caches_complete rank c ->
    caches_complete rank c' /\ (closed t = true -> exact_result mode t d).
Proof.
  intros Hd Hc Ht. assert (t = T_nil \/ t <> T_nil) as [->|Hnil] by (destruct t; auto; by right).
  { exists (mkDesc [] []), c. split; [done|]. split; [done|]. split; [intros _; split; intros ? H; by apply elem_of_nil in H|].
    intros rank _ _ Hcc. split; [done|]. intros _. split; intros ? H; inversion H. }
  destruct (typ_ok IsPrint Decls mode (fun _ => 0%nat) typ_fuel Hd t (mkC c 0) Ht (Hc mode)) as (r & s & E & Heff & Hr & _);
    [unfold typ_fuel, maxSteps; lia|unfold typ_fuel, maxSteps; cbn; lia|].
  exists (mkDesc (r_scrub r) (r_headers r)), (c_cache s).
  split; [unfold Compute; rewrite E; by destruct t|]. split; [|split].
  - intros m. destruct (decide (m = mode)) as [->|Hm]; [by apply Heff|]. intros id r' Hl. rewrite (eff_modes _ _ _ _ _ _ _ _ Heff) in Hl by done. by apply Hc.
  - intros Hcl. split; cbn; [|apply Hr]. intros p Hp. rewrite <- (subst_closed [] t Hcl). apply Hr. by apply denotes_closed.
  - intros rank Hrk Hsize Hcc.
    destruct (typ_ok IsPrint Decls mode rank typ_fuel Hd t (mkC c 0) Ht (Hc mode)) as (r' & s' & E' & Heff' & _ & Hr');
      [unfold typ_fuel, maxSteps; lia|unfold typ_fuel, maxSteps; cbn; lia|].
    assert (r' = r /\ s' = s) as [-> ->] by (split; congruence).
    destruct (below_exists rank t) as [n0 Hn0].
    assert (Hsteps : c_steps s <= maxSteps).
    { pose proof (eff_cost _ _ _ _ _ _ _ _ Heff') as Hcost. cbn in Hcost. pose proof (pending_total mode c).
      assert (0 <= pending Decls mode (c_cache s)) by (unfold pending; lia). lia. }
    split.
    + intros m n. destruct (decide (m = mode)) as [->|Hm].
      * destruct (eff_complete _ _ _ _ _ _ _ _ Heff' (n `max` n0)%nat) as [H _]; [split; [done|apply (below_mono _ n0); [lia|done]]|apply Hcc|done|].
        intros id x Hl Hx. apply (H id x Hl). lia.
      * intros id x Hl Hx. rewrite (eff_modes _ _ _ _ _ _ _ _ Heff) in Hl by done. by apply (Hcc m n).
    + intros Hcl. destruct (Hr' n0 (conj Hrk Hn0) (Hcc mode n0) Hsteps) as (H1 & H2 & _). split; cbn; [|done].
      intros p Hp. apply (denotes_closed mode). apply H1. by rewrite (subst_closed [] t Hcl).
Qed.

Lemma computed_sound limit c : wf_decls Decls -> computed limit c -> caches_sound c.
Proof.
  intros Hd. induction 1 as [|c t mode d c' _ IH Ht _ E]; [by intros m id r|].
  destruct (Compute_ok c t mode Hd IH Ht) as (d' & c'' & E' & H & _).
  rewrite E in E'. by injection E' as <- <-.
Qed.

Lemma computed_complete rank c : wf_decls Decls -> ranked Decls rank -> computed maxSteps c -> caches_complete rank c.
Proof.
  intros Hd Hrk. induction 1 as [|c t mode d c' Hc IH Ht Hs E]; [by intros m n id r|].
  destruct (Compute_ok c t mode Hd (computed_sound _ _ Hd Hc) Ht) as (d' & c'' & E' & _ & _ & H). 
  rewrite E in E'. injection E' as <- <-. by apply (H rank Hrk Hs IH).
Qed.

End Computers.

(** ** Results *)

(** C18. The computation of scrub paths ends within its fuel and without a panic, also for recursive
    types, and every path and header it gives is that of a sensitive field, with type parameters
    replaced by the arguments at each use.  When no declaration is recursive and the type and
    all declarations together stay within the limit of steps, now and in the earlier computations, it
    gives all of them, for any such history of the computer: neither the cache of declarations nor
    the mode of earlier computations changes the result. *)
Theorem computed_paths (IsPrint : Z -> bool) (Decls : list SType) (limit : Z) (c : declCache) (t : SType) (mode : Z) :
  wf_decls Decls -> computed IsPrint Decls limit c -> wf_type Decls t = true -> closed t = true ->
  exists d c', Compute IsPrint Decls c t mode = (Ok d, c') /\ sound_result IsPrint Decls mode t d /\
    forall rank, ranked Decls rank -> limit = maxSteps -> Z.of_nat (type_size t + total_size Decls) <= maxSteps ->
      exact_result IsPrint Decls mode t d.
Proof.
  intros Hd Hc Ht Hcl. destruct (Compute_ok IsPrint Decls c t mode Hd (computed_sound _ _ _ _ Hd Hc) Ht) as (d & c' & E & _ & H1 & H2).
  exists d, c'. split; [done|]. split; [auto|]. intros rank Hrk -> Hs. apply (H2 rank Hrk Hs); [|done]. by apply computed_complete.
Qed.

(** A generic box with a secret of its own, and an account that keeps its credentials in a box. *)
Definition tagged : list STag := [mkSTag (lit "encore") (lit "sensitive") []].
Definition plain_field (name : string) (t : SType) : SField := mkField t (lit name) [] [].
Definition secret_field (name : string) : SField := mkField T_Builtin (lit name) [] tagged.
Definition demo_decls : list SType :=
  [T_Struct [plain_field "Value" (T_TypeParameter 0); secret_field "Seal"];
   T_Struct [plain_field "Name" T_Builtin; secret_field "Password"];
   T_Struct [plain_field "Users" (T_List (T_Pointer (T_Named 0 [T_Named 1 []]))); plain_field "Count" T_Builtin]].
Definition demo_rank (id : Z) : nat := Z.to_nat id.
Definition ascii_print (r : Z) : bool := false.
Definition demo_name (s : string) : PathEntry := mkEntry ObjectField (quoted s) false.

Lemma demo_ranked : ranked demo_decls demo_rank.
Proof.
  intros id b H Hid. assert (Hlt := lookup_lt_Some _ _ _ H). cbn in Hlt.
  assert (id = 0 \/ id = 1 \/ id = 2) as [-> | [-> | ->]] by lia; injection H as <-; vm_compute; reflexivity.
Qed.

Lemma demo_wf : wf_decls demo_decls.
Proof. repeat constructor. Qed.

Lemma computed_paths_witness :
  Compute ascii_print demo_decls ∅ (T_Named 2 []) 0 =
    (Ok (mkDesc [[demo_name "Users"; demo_name "Seal"]; [demo_name "Users"; demo_name "Value"; demo_name "Password"]] []),
     (Compute ascii_print demo_decls ∅ (T_Named 2 []) 0).2) /\
  exists d c', Compute ascii_print demo_decls ∅ (T_Named 2 []) 0 = (Ok d, c') /\ exact_result ascii_print demo_decls 0 (T_Named 2 []) d.
Proof.
  split; [vm_compute; reflexivity|].
  destruct (computed_paths ascii_print demo_decls maxSteps ∅ (T_Named 2 []) 0 demo_wf (computed_new _ _ _) eq_refl eq_refl) as (d & c' & E & _ & H).
  exists d, c'. split; [exact E|]. apply (H demo_rank demo_ranked eq_refl). vm_compute. discriminate.
Defined.

(** ** From types to payloads *)

Lemma covers_same EqualFold P Q place : (forall p, p ∈ P <-> p ∈ Q) -> covers EqualFold P place = covers EqualFold Q place.
Proof.
  intros H. unfold covers. apply eq_true_iff_eq. rewrite !existsb_exists. setoid_rewrite <- list_elem_of_In. by setoid_rewrite H.
Qed.

Lemma entries_same (P Q : list Path) e : (forall p, p ∈ P <-> p ∈ Q) -> e ∈ mjoin P <-> e ∈ mjoin Q.
Proof. intros H. rewrite !list_elem_of_join. by setoid_rewrite H. Qed.

(** C19. From the types of an application to its payloads: scrubbing a document with the paths
    computed for a type replaces exactly the values at the sensitive fields of that type.  The
    paths [P] are those of the specification; they may not go through map values, which the
    scrubber does not reach, and the case-sensitive names in them do not differ in case only.  No
    declaration is recursive, the types stay within the limit of steps, and no string of the document
    begins with a colon or white space. *)
Theorem sensitive_fields_scrubbed (IsPrint : Z -> bool) (EqualFold : gostring -> gostring -> bool) (repl cm cl : list byte)
    (Decls : list SType) (rank : Z -> nat) (c : declCache) (t : SType) (mode : Z) (P : list Path) (v : json) :
  wf_decls Decls -> ranked Decls rank -> computed IsPrint Decls maxSteps c -> wf_type Decls t = true -> closed t = true ->
  Z.of_nat (type_size t + total_size Decls) <= maxSteps ->
  (forall p, p ∈ P <-> Sensitive IsPrint Decls mode t p) ->
  Forall (fun e => e_Kind e <> MapValue) (mjoin P) -> fold_safe EqualFold (mjoin P) ->
  forallb is_space cm = true -> forallb is_space cl = true -> wf_json v = true ->
  exists d c', Compute IsPrint Decls c t mode = (Ok d, c') /\
    returns (fun n => JSON EqualFold n (print cm cl v) (Payload d) repl) (print cm cl (scrub_paths EqualFold repl P v)).
Proof.
  intros Hd Hrk Hc Ht Hcl Hs HP Hmap Hfold Hcm Hcl' Hv.
  destruct (Compute_ok IsPrint Decls c t mode Hd (computed_sound _ _ _ _ Hd Hc) Ht) as (d & c' & E & _ & H1 & H2).
  destruct (H2 rank Hrk Hs (computed_complete _ _ _ _ Hd Hrk Hc)) as [_ H3]. destruct (H1 Hcl) as [S1 _], (H3 Hcl) as [S2 _].
  assert (Heq : forall p, p ∈ Payload d <-> p ∈ P) by (intros p; rewrite HP; split; auto).
  exists d, c'. split; [done|]. rewrite (scrub_paths_covers EqualFold repl v P (Payload d)) by (intros place; symmetry; by apply covers_same).
  apply JSON_paths; [done|done|done| |].
  - apply list.Forall_forall. intros e He. rewrite list.Forall_forall in Hmap. apply Hmap. by apply (entries_same (Payload d) P).
  - intros e f He Hf. apply Hfold; by apply (entries_same (Payload d) P).
Qed.

Definition demo_secret_paths : list Path := [[demo_name "Users"; demo_name "Seal"]; [demo_name "Users"; demo_name "Value"; demo_name "Password"]].
Definition demo_accounts : json :=
  JObj [(quoted "users", JArr [JObj [(quoted "value", JObj [(quoted "name", JLit (quoted "ann")); (quoted "password", JLit (quoted "x1"))]);
                                     (quoted "seal", JLit (lit "5"))]]); (quoted "count", JLit (lit "1"))].
Definition demo_accounts_scrubbed : json :=
  JObj [(quoted "users", JArr [JObj [(quoted "value", JObj [(quoted "name", JLit (quoted "ann")); (quoted "password", JLit (lit "###"))]);
                                     (quoted "seal", JLit (lit "###"))]]); (quoted "count", JLit (lit "1"))].

Lemma demo_Sensitive p : p ∈ demo_secret_paths <-> Sensitive ascii_print demo_decls 0 (T_Named 2 []) p.
Proof.
  destruct (Compute_ok ascii_print demo_decls ∅ (T_Named 2 []) 0 demo_wf (fun m id r H => ltac:(by rewrite lookup_empty in H)) eq_refl)
    as (d & c' & E & _ & H1 & H2).
  destruct (H2 demo_rank demo_ranked ltac:(vm_compute; discriminate) (fun m n id r H => ltac:(by rewrite lookup_empty in H))) as [_ H3].
  assert (Hd : Payload d = demo_secret_paths).
  { assert (E' : (Compute ascii_print demo_decls ∅ (T_Named 2 []) 0).1 = Ok (mkDesc demo_secret_paths [])) by (vm_compute; reflexivity).
    rewrite E in E'. cbn in E'. by injection E' as ->. }
  rewrite <- Hd. split; [apply (H1 eq_refl)|apply (H3 eq_refl)].
Qed.

Lemma sensitive_fields_scrubbed_witness :
  exists d c', Compute ascii_print demo_decls ∅ (T_Named 2 []) 0 = (Ok d, c') /\
    returns (fun n => JSON ascii_EqualFold n (print [] [] demo_accounts) (Payload d) (lit "###")) (print [] [] demo_accounts_scrubbed).
Proof.
  refine (sensitive_fields_scrubbed ascii_print ascii_EqualFold (lit "###") [] [] demo_decls demo_rank ∅ (T_Named 2 []) 0 demo_secret_paths
    demo_accounts demo_wf demo_ranked (computed_new _ _ _) eq_refl eq_refl _ demo_Sensitive _ _ eq_refl eq_refl eq_refl).
  - vm_compute. discriminate.
  - repeat constructor; discriminate.
  - intros e f He Hf _ _ Ecs. exfalso. assert (H : Forall (fun e => e_CaseSensitive e = false) (mjoin demo_secret_paths)) by (repeat constructor).
    rewrite list.Forall_forall in H. rewrite (H e He) in Ecs. discriminate.
Defined.

(** ** Recursive types *)

(** A node keeps a secret and a link, and the link a secret and its node. *)
Definition cyclic_decls : list SType :=
  [T_Struct [plain_field "Link" (T_Pointer (T_Named 1 [])); secret_field "Key"];
   T_Struct [plain_field "Owner" (T_Named 0 []); secret_field "Token"]].

(** The paths of a recursive type depend on what was computed before: the result for a link holds the
    key of its owner on a new computer, but not on one that has computed the node before, since the
    node was still in progress when the link was cached. *)
Theorem recursive_paths_order_dependent :
  let fresh := Compute ascii_print cyclic_decls ∅ (T_Named 1 []) 0 in
  let used := Compute ascii_print cyclic_decls (Compute ascii_print cyclic_decls ∅ (T_Named 0 []) 0).2 (T_Named 1 []) 0 in
  fresh.1 = Ok (mkDesc [[demo_name "Owner"; demo_name "Key"]; [demo_name "Token"]] []) /\
  used.1 = Ok (mkDesc [[demo_name "Token"]] []) /\
  Sensitive ascii_print cyclic_decls 0 (T_Named 1 []) [demo_name "Owner"; demo_name "Key"].
Proof.
  split; [vm_compute; reflexivity|]. split; [vm_compute; reflexivity|].
  destruct (Compute_ok ascii_print cyclic_decls ∅ (T_Named 1 []) 0 ltac:(repeat constructor) (fun m id r H => ltac:(by rewrite lookup_empty in H)) eq_refl)
    as (d & c' & E & _ & H & _).
  apply (H eq_refl).
  assert (E' : (Compute ascii_print cyclic_decls ∅ (T_Named 1 []) 0).1 = Ok (mkDesc [[demo_name "Owner"; demo_name "Key"]; [demo_name "Token"]] []))
    by (vm_compute; reflexivity).
  rewrite E in E'. cbn in E'. injection E' as ->. by left.
Qed.
