(* ===== verification/Shutdown.v ===== *)
(** Graceful shutdown: [runtimes/go/appruntime/shared/shutdown] (shutdown.go).

    A [Tracker] collects shutdown handlers.  The first call of [Shutdown] closes the channel
    [initiated], goes on accepting requests for a while after a SIGTERM, and starts a process:
    contexts with deadlines, three goroutines that connect them, one goroutine per handler, and
    the caller, which waits for the process to complete and exits.

    The steps are the atomic actions of these goroutines, of the timers, and of the outside: calls
    of the exported functions and the ends of handlers.  Time is a number of nanoseconds that only
    grows; a timer fires at some moment after its deadline.  A cancelled context passes its error
    on to the contexts derived from it at once. *)

From S2P Require Import Prelude Run Strconv.

Definition Millisecond : Z := 1000000.
Definition Second : Z := 1000 * Millisecond.

(** ** Timings *)

Record GracefulShutdownTimings := mkGraceful { g_Total : option Z; g_ShutdownHooks : option Z; g_Handlers : option Z }.

Record processTimings := mkTimings {
  keepAcceptingFor : Z;
  cancelRunningTasksAfter : Z;
  forceCloseTasksGrace : Z;
  forceShutdownAfter : Z;
  forceShutdownGrace : Z
}.

(** [k8s] is the value of ENCORE_K8S_GRACE_TERMINATION_SECONDS; one that is no number is a panic. *)
Definition timingsFromConfig (graceful : option GracefulShutdownTimings) (ShutdownTimeout : Z) (k8s : gostring) : run processTimings :=
  let cfg := default (mkGraceful None None None) graceful in
  let closeGrace := 1 * Second in
  let shutdownGrace := 1 * Second in
  let '(forceAfter, totalTime) :=
    match g_Total cfg with
    | None => (if ShutdownTimeout <=? 0 then 5 * Second else ShutdownTimeout, ShutdownTimeout)
    | Some total =>
        let after := i64 (total - shutdownGrace) in
        (if after <=? 0 then 500 * Millisecond else after, total)
    end in
  let cancelAfter := match g_Handlers cfg with None => i64 (forceAfter - closeGrace) | Some h => h end in
  let cancelAfter := if cancelAfter <? 0 then 0 else cancelAfter in
  match k8s with
  | [] => Ok (mkTimings 0 cancelAfter closeGrace forceAfter shutdownGrace)
  | _ =>
      match ParseInt k8s with
      | inl _ => Crash
      | inr graceSecs =>
          let keep := i64 (i64 (graceSecs * Second) - totalTime) in
          Ok (mkTimings (if keep <? 0 then 0 else keep) cancelAfter closeGrace forceAfter shutdownGrace)
      end
  end.

(** ** Contexts *)

(** The error of a context that can be cancelled or run out of time ... *)
Inductive ctx_err := Canceled | DeadlineExceeded.
(** ... and the cause of one that is cancelled with a cause. *)
Inductive ctx_cause := cleanShutdown | Failure | TimedOut.

Definition cancel_ctx {A} (c : option A) (e : A) : option A := match c with None => Some e | Some _ => c end.

(** ** Handlers *)

Inductive outcome := Returned | ReturnedError | Panicked.
Inductive hstate := Starting | Running | Finished (o : outcome).

Definition failed (o : outcome) : bool := match o with Returned => false | _ => true end.

(** ** The process *)

Record contexts := mkCtx {
  OutstandingRequests : option ctx_err;
  OutstandingPubSubMessages : option ctx_err;
  OutstandingTasks : option ctx_err;
  ForceCloseTasks : option ctx_err;
  ForceShutdown : option ctx_err
}.

Definition no_ctx : contexts := mkCtx None None None None None.

(** Cancelling the tasks cancels the contexts derived from them. *)
Definition cancelOutstandingTasks (e : ctx_err) (c : contexts) : contexts :=
  mkCtx (cancel_ctx (OutstandingRequests c) e) (cancel_ctx (OutstandingPubSubMessages c) e) (cancel_ctx (OutstandingTasks c) e)
    (cancel_ctx (ForceCloseTasks c) e) (ForceShutdown c).

Definition cancelOutstandingRequests (c : contexts) : contexts :=
  mkCtx (cancel_ctx (OutstandingRequests c) Canceled) (OutstandingPubSubMessages c) (OutstandingTasks c) (ForceCloseTasks c) (ForceShutdown c).
Definition cancelOutstandingPubSubMessages (c : contexts) : contexts :=
  mkCtx (OutstandingRequests c) (cancel_ctx (OutstandingPubSubMessages c) Canceled) (OutstandingTasks c) (ForceCloseTasks c) (ForceShutdown c).
Definition cancelForceCloseTasks (e : ctx_err) (c : contexts) : contexts :=
  mkCtx (OutstandingRequests c) (OutstandingPubSubMessages c) (OutstandingTasks c) (cancel_ctx (ForceCloseTasks c) e) (ForceShutdown c).
Definition cancelForceShutdown (e : ctx_err) (c : contexts) : contexts :=
  mkCtx (OutstandingRequests c) (OutstandingPubSubMessages c) (OutstandingTasks c) (ForceCloseTasks c) (cancel_ctx (ForceShutdown c) e).

(** The goroutines that close the tasks and that cancel the forced shutdown early. *)
Inductive tasks_pc := WaitRequests | WaitMessages | TasksDone.
Inductive force_pc := WaitTasks | WaitHandlers | ForceDone.

(** The goroutine that marks the shutdown as completed; in the grace period it has a context of its
    own with a deadline. *)
Inductive complete_pc := WaitForce | WaitGrace (timeout : option ctx_err) (deadline : Z) | CompleteDone.

(** The goroutine that runs the handlers, the state of each handler, and the errors added. *)
Inductive runner_pc := TakeHandlers | Spawning (next : nat) | WaitGroup | RunnerDone.
Record runner := mkRunner { r_pc : runner_pc; r_handlers : list hstate; r_errors : nat; handlersCompleted : option ctx_cause }.

Record Process := mkProc {
  p_start : Z;
  p_ctx : contexts;
  p_tasks : tasks_pc;
  p_force : force_pc;
  p_complete : complete_pc;
  p_run : runner;
  ServicesShutdownCompleted : option ctx_cause;
  ShutdownCompleted : option ctx_cause
}.

Definition beginShutdownProcess (start : Z) : Process :=
  mkProc start no_ctx WaitRequests WaitTasks WaitForce (mkRunner TakeHandlers [] 0 None) None None.

(** The context of the grace period is derived from [handlersCompleted]. *)
Definition propagate_handlers (c : complete_pc) : complete_pc :=
  match c with WaitGrace t d => WaitGrace (cancel_ctx t Canceled) d | c => c end.

Definition WasCleanShutdown (p : Process) : bool :=
  match ShutdownCompleted p with Some cleanShutdown => true | _ => false end.

(** ** The tracker *)

Inductive main_pc := NotInitiated | KeepAccepting (until : Z) | Beginning | Waiting (p : Process) | Exited (code : Z) (p : Process).

Record Tracker := mkTracker { t_now : Z; t_handlers : nat; t_main : main_pc }.

Definition ShutdownInitiated (t : Tracker) : bool := match t_main t with NotInitiated => false | _ => true end.

(** The error of the health check. *)
Definition HealthCheck (t : Tracker) : bool := ShutdownInitiated t.

Definition set_main (t : Tracker) (m : main_pc) : Tracker := mkTracker (t_now t) (t_handlers t) m.

Definition exited (t : Tracker) : bool := match t_main t with Exited _ _ => true | _ => false end.

(** The goroutine that calls [Shutdown] first, up to the start of the process; [sigterm] tells
    whether the reason is that signal.  Later calls wait for the first one inside [sync.Once] and
    change nothing. *)
Definition Shutdown (tt : processTimings) (sigterm : bool) (t : Tracker) : Tracker :=
  match t_main t with
  | NotInitiated => set_main t (if sigterm && (0 <? keepAcceptingFor tt) then KeepAccepting (t_now t + keepAcceptingFor tt) else Beginning)
  | _ => t
  end.

Definition RegisterShutdownHandler (t : Tracker) : Tracker := mkTracker (t_now t) (S (t_handlers t)) (t_main t).

Inductive label := Time | Outside | Inside.

(** The end of a handler: an error or a panic is added to the errors. *)
Definition finish (i : nat) (o : outcome) (r : runner) : runner :=
  mkRunner (r_pc r) (<[i := Finished o]> (r_handlers r)) (if failed o then S (r_errors r) else r_errors r) (handlersCompleted r).

(** Steps of a process at time [now], with [n] handlers registered. *)
Inductive proc_step (tt : processTimings) (now : Z) (n : nat) : label -> Process -> Process -> Prop :=
(* the outside *)
| P_requests st cx tp fp gr rn sv cp :
    proc_step tt now n Outside (mkProc st cx tp fp gr rn sv cp) (mkProc st (cancelOutstandingRequests cx) tp fp gr rn sv cp)
| P_messages st cx tp fp gr rn sv cp :
    proc_step tt now n Outside (mkProc st cx tp fp gr rn sv cp) (mkProc st (cancelOutstandingPubSubMessages cx) tp fp gr rn sv cp)
| P_services st cx tp fp gr rn sv cp (err : bool) :
    proc_step tt now n Outside (mkProc st cx tp fp gr rn sv cp)
      (mkProc st cx tp fp gr rn (cancel_ctx sv (if err then Failure else cleanShutdown)) cp)
| P_handler st cx tp fp gr rn sv cp i o :
    r_handlers rn !! i = Some Running ->
    proc_step tt now n Outside (mkProc st cx tp fp gr rn sv cp) (mkProc st cx tp fp gr (finish i o rn) sv cp)
(* timers *)
| P_tasks_deadline st cx tp fp gr rn sv cp :
    OutstandingTasks cx = None -> st + (cancelRunningTasksAfter tt + forceCloseTasksGrace tt) <= now ->
    proc_step tt now n Inside (mkProc st cx tp fp gr rn sv cp) (mkProc st (cancelOutstandingTasks DeadlineExceeded cx) tp fp gr rn sv cp)
| P_close_deadline st cx tp fp gr rn sv cp :
    ForceCloseTasks cx = None -> st + cancelRunningTasksAfter tt <= now ->
    proc_step tt now n Inside (mkProc st cx tp fp gr rn sv cp) (mkProc st (cancelForceCloseTasks DeadlineExceeded cx) tp fp gr rn sv cp)
| P_force_deadline st cx tp fp gr rn sv cp :
    ForceShutdown cx = None -> st + forceShutdownAfter tt <= now ->
    proc_step tt now n Inside (mkProc st cx tp fp gr rn sv cp) (mkProc st (cancelForceShutdown DeadlineExceeded cx) tp fp gr rn sv cp)
| P_grace_deadline st cx tp fp d rn sv cp :
    d <= now ->
    proc_step tt now n Inside (mkProc st cx tp fp (WaitGrace None d) rn sv cp) (mkProc st cx tp fp (WaitGrace (Some DeadlineExceeded) d) rn sv cp)
(* requests and messages done: the tasks are *)
| P_requests_done st cx fp gr rn sv cp :
    OutstandingRequests cx <> None ->
    proc_step tt now n Inside (mkProc st cx WaitRequests fp gr rn sv cp) (mkProc st cx WaitMessages fp gr rn sv cp)
| P_messages_done st cx fp gr rn sv cp :
    OutstandingPubSubMessages cx <> None ->
    proc_step tt now n Inside (mkProc st cx WaitMessages fp gr rn sv cp) (mkProc st (cancelOutstandingTasks Canceled cx) TasksDone fp gr rn sv cp)
(* tasks and handlers done: no forced shutdown *)
| P_tasks_done st cx tp gr rn sv cp :
    OutstandingTasks cx <> None ->
    proc_step tt now n Inside (mkProc st cx tp WaitTasks gr rn sv cp) (mkProc st cx tp WaitHandlers gr rn sv cp)
| P_handlers_done st cx tp gr rn sv cp :
    handlersCompleted rn <> None ->
    proc_step tt now n Inside (mkProc st cx tp WaitHandlers gr rn sv cp) (mkProc st (cancelForceShutdown Canceled cx) tp ForceDone gr rn sv cp)
(* completion *)
| P_force_canceled st cx tp fp rn sv cp :
    ForceShutdown cx = Some Canceled ->
    proc_step tt now n Inside (mkProc st cx tp fp WaitForce rn sv cp) (mkProc st cx tp fp CompleteDone rn sv (cancel_ctx cp cleanShutdown))
| P_force_exceeded st cx tp fp rn sv cp :
    ForceShutdown cx = Some DeadlineExceeded ->
    proc_step tt now n Inside (mkProc st cx tp fp WaitForce rn sv cp)
      (mkProc st cx tp fp (WaitGrace (match handlersCompleted rn with Some _ => Some Canceled | None => None end) (now + forceShutdownGrace tt)) rn sv cp)
| P_grace_over st cx tp fp e d rn sv cp :
    proc_step tt now n Inside (mkProc st cx tp fp (WaitGrace (Some e) d) rn sv cp)
      (mkProc st cx tp fp CompleteDone rn sv (cancel_ctx cp (match e with Canceled => cleanShutdown | DeadlineExceeded => TimedOut end)))
(* the handlers *)
| P_take st cx tp fp gr sv cp :
    proc_step tt now n Inside (mkProc st cx tp fp gr (mkRunner TakeHandlers [] 0 None) sv cp)
      (mkProc st cx tp fp gr (mkRunner (Spawning 0) (replicate n Starting) 0 None) sv cp)
| P_spawn st cx tp fp gr i hs e hc sv cp :
    (i < length hs)%nat ->
    proc_step tt now n Inside (mkProc st cx tp fp gr (mkRunner (Spawning i) hs e hc) sv cp)
      (mkProc st cx tp fp gr (mkRunner (Spawning (S i)) (<[i := Running]> hs) e hc) sv cp)
| P_spawned st cx tp fp gr hs e hc sv cp :
    proc_step tt now n Inside (mkProc st cx tp fp gr (mkRunner (Spawning (length hs)) hs e hc) sv cp)
      (mkProc st cx tp fp gr (mkRunner WaitGroup hs e hc) sv cp)
| P_completed st cx tp fp gr hs e hc sv cp :
    Forall (fun h => exists o, h = Finished o) hs ->
    proc_step tt now n Inside (mkProc st cx tp fp gr (mkRunner WaitGroup hs e hc) sv cp)
      (mkProc st cx tp fp (propagate_handlers gr)
         (mkRunner RunnerDone hs e (cancel_ctx hc (if (e =? 0)%nat then cleanShutdown else Failure))) sv cp).

Inductive step (tt : processTimings) : label -> Tracker -> Tracker -> Prop :=
| S_time now n m d : 0 < d -> exited (mkTracker now n m) = false -> step tt Time (mkTracker now n m) (mkTracker (now + d) n m)
| S_register t : exited t = false -> step tt Outside t (RegisterShutdownHandler t)
| S_shutdown t sigterm : t_main t = NotInitiated -> step tt Outside t (Shutdown tt sigterm t)
| S_awake now n u : u <= now -> step tt Inside (mkTracker now n (KeepAccepting u)) (mkTracker now n Beginning)
| S_begin now n : step tt Inside (mkTracker now n Beginning) (mkTracker now n (Waiting (beginShutdownProcess now)))
| S_process now n l p p' : proc_step tt now n l p p' -> step tt l (mkTracker now n (Waiting p)) (mkTracker now n (Waiting p'))
| S_exit now n p :
    ShutdownCompleted p <> None ->
    step tt Inside (mkTracker now n (Waiting p)) (mkTracker now n (Exited (if WasCleanShutdown p then 0 else 1) p)).

Definition NewTracker (now : Z) : Tracker := mkTracker now 0 NotInitiated.

(** Any history of the tracker. *)
Inductive reachable (tt : processTimings) (now0 : Z) : Tracker -> Prop :=
| R_new : reachable tt now0 (NewTracker now0)
| R_step l t t' : reachable tt now0 t -> step tt l t t' -> reachable tt now0 t'.
