(* ===== verification/ShutdownTheorems.v ===== *)
(** Theorems about graceful shutdown ([appruntime/shared/shutdown]): what an exit says about the
    handlers and the outstanding work, and that the process exits on its own. *)

From S2P Require Import Prelude Run Strconv Shutdown.

(** ** The invariant of the process *)

Definition finished (h : hstate) : Prop := exists o, h = Finished o.

Definition has_failed (h : hstate) : bool := match h with Finished o => failed o | _ => false end.
Definition count_failed (hs : list hstate) : nat := length (filter (fun h => has_failed h = true) hs).

Record ctx_inv (tt : processTimings) (now : Z) (p : Process) : Prop := {
  ci_start : p_start p <= now;
  ci_derived : OutstandingTasks (p_ctx p) <> None -> ForceCloseTasks (p_ctx p) <> None;
  ci_early : OutstandingTasks (p_ctx p) <> Some DeadlineExceeded ->
    OutstandingRequests (p_ctx p) <> Some DeadlineExceeded /\ OutstandingPubSubMessages (p_ctx p) <> Some DeadlineExceeded;
  ci_requests : p_tasks p <> WaitRequests -> OutstandingRequests (p_ctx p) <> None;
  ci_tasks : OutstandingTasks (p_ctx p) = Some Canceled ->
    OutstandingRequests (p_ctx p) = Some Canceled /\ OutstandingPubSubMessages (p_ctx p) = Some Canceled;
  ci_late : OutstandingTasks (p_ctx p) = Some DeadlineExceeded ->
    p_start p + (cancelRunningTasksAfter tt + forceCloseTasksGrace tt) <= now;
  ci_force_pc : p_force p <> WaitTasks -> OutstandingTasks (p_ctx p) <> None;
  ci_force : ForceShutdown (p_ctx p) = Some Canceled -> OutstandingTasks (p_ctx p) <> None /\ handlersCompleted (p_run p) <> None;
  ci_force_late : ForceShutdown (p_ctx p) = Some DeadlineExceeded -> p_start p + forceShutdownAfter tt <= now }.

Definition complete_inv (tt : processTimings) (now : Z) (p : Process) : Prop :=
  match p_complete p with
  | WaitForce => ShutdownCompleted p = None
  | WaitGrace t d =>
      ShutdownCompleted p = None /\ ForceShutdown (p_ctx p) = Some DeadlineExceeded /\
      p_start p + forceShutdownAfter tt + forceShutdownGrace tt <= d <= now + forceShutdownGrace tt /\
      match t with
      | None => handlersCompleted (p_run p) = None
      | Some Canceled => handlersCompleted (p_run p) <> None
      | Some DeadlineExceeded => d <= now
      end
  | CompleteDone =>
      (ShutdownCompleted p = Some cleanShutdown /\ handlersCompleted (p_run p) <> None /\ ForceShutdown (p_ctx p) <> None) \/
      (ShutdownCompleted p = Some TimedOut /\ p_start p + forceShutdownAfter tt + forceShutdownGrace tt <= now /\
       ForceShutdown (p_ctx p) = Some DeadlineExceeded)
  end.

Definition run_inv (r : runner) : Prop :=
  r_errors r = count_failed (r_handlers r) /\
  match r_pc r with
  | Spawning i => handlersCompleted r = None /\ Forall (eq Starting) (drop i (r_handlers r))
  | RunnerDone => Forall finished (r_handlers r) /\ handlersCompleted r = Some (if (r_errors r =? 0)%nat then cleanShutdown else Failure)
  | _ => handlersCompleted r = None
  end.

Definition proc_inv (tt : processTimings) (now : Z) (p : Process) : Prop :=
  ctx_inv tt now p /\ complete_inv tt now p /\ run_inv (p_run p).

Lemma count_failed_insert hs i h h' :
  hs !! i = Some h -> has_failed h = false -> count_failed (<[i := h']> hs) = (if has_failed h' then S (count_failed hs) else count_failed hs).
Proof.
  unfold count_failed. revert i. induction hs as [|x hs IH]; intros [|i] H Hh; try done.
  - injection H as ->. change (<[0%nat := h']> (h :: hs)) with (h' :: hs). rewrite !filter_cons, Hh. by destruct (has_failed h').
  - change (<[S i := h']> (x :: hs)) with (x :: <[i := h']> hs). rewrite !filter_cons. destruct (decide _); cbn [length]; rewrite (IH i H Hh); by destruct (has_failed h').
Qed.

(** ** Preservation *)

Lemma cancel_ctx_done {A} (c : option A) e : cancel_ctx c e <> None.
Proof. by destruct c. Qed.

Lemma run_inv_finish r i o : r_handlers r !! i = Some Running -> run_inv r -> run_inv (finish i o r).
Proof.
  intros Hi [He Hr]. unfold run_inv, finish. cbn [r_errors r_handlers r_pc handlersCompleted].
  rewrite (count_failed_insert _ _ Running) by done. cbn [has_failed]. split; [rewrite He; by destruct (failed o)|].
  destruct (r_pc r) as [|k| |] eqn:Epc; [done| |done|].
  - destruct Hr as [Hr1 Hr2]. split; [done|]. rewrite list.Forall_forall in *. intros h Hh. apply Hr2.
    destruct (decide (i < k)%nat) as [Hlt|Hge]; [by rewrite drop_insert_lt in Hh|].
    exfalso. assert (Hin : (Running ∈ drop k (r_handlers r))). { apply (list_elem_of_lookup_2 _ (i - k)). rewrite lookup_drop. rewrite <- Hi. f_equal. lia. }
    by specialize (Hr2 _ Hin).
  - destruct Hr as [Hr1 _]. rewrite list.Forall_forall in Hr1. destruct (Hr1 Running) as [o' [=]]. by eapply list_elem_of_lookup_2.
Qed.

Lemma run_inv_spawn i hs e hc : (i < length hs)%nat -> run_inv (mkRunner (Spawning i) hs e hc) -> run_inv (mkRunner (Spawning (S i)) (<[i := Running]> hs) e hc).
Proof.
  intros Hi (He & Hc & Hs). unfold run_inv in *. cbn [r_errors r_handlers r_pc handlersCompleted] in *.
  destruct (lookup_lt_is_Some_2 hs i Hi) as [h Hh]. rewrite (drop_S _ _ _ Hh) in Hs. inversion Hs as [|? ? Hst Hs']; subst h.
  rewrite (count_failed_insert _ _ Starting) by done. split; [done|]. split; [done|]. by rewrite drop_insert_lt by lia.
Qed.

(** Case analysis on the contexts that occur. *)
Ltac ctx_cases :=
  repeat match goal with
         | H : context [cancel_ctx ?c _] |- _ => is_var c; destruct c as [[]|]; cbn [cancel_ctx] in *
         | |- context [cancel_ctx ?c _] => is_var c; destruct c as [[]|]; cbn [cancel_ctx] in *
         end.

Ltac open_process :=
  repeat match goal with
         | cx : contexts |- _ => destruct cx as [? ? ? ? ?]
         end;
  cbn [p_start p_ctx p_tasks p_force p_complete p_run ShutdownCompleted ServicesShutdownCompleted OutstandingRequests OutstandingPubSubMessages
       OutstandingTasks ForceCloseTasks ForceShutdown cancelOutstandingTasks cancelOutstandingRequests cancelOutstandingPubSubMessages
       cancelForceCloseTasks cancelForceShutdown r_pc r_handlers r_errors handlersCompleted finish] in *.

Lemma ctx_inv_step tt now n l p p' : run_inv (p_run p) -> ctx_inv tt now p -> proc_step tt now n l p p' -> ctx_inv tt now p'.
Proof.
  intros Hr H Hstep. destruct Hstep; destruct H as [I1 I2 I3 I4 I5 I6 I7 I8 I9]; open_process; split; cbn; intros; ctx_cases; try (naive_solver lia).
Qed.

Lemma complete_inv_step tt now n l p p' :
  ctx_inv tt now p -> run_inv (p_run p) -> complete_inv tt now p -> proc_step tt now n l p p' -> complete_inv tt now p'.
Proof.
  intros Hc Hr H Hstep. pose proof (ci_force _ _ _ Hc) as Hf. pose proof (ci_force_late _ _ _ Hc) as Hl. pose proof (ci_start _ _ _ Hc) as Hs. clear Hc.
  destruct Hstep; unfold complete_inv in *; open_process; unfold run_inv in Hr; cbn in Hr.
  all: try (destruct gr as [|t d|]; [by naive_solver| |]; ctx_cases; by naive_solver).
  all: try done.
  - tauto.
  - subst. left. split; [done|]. split; [by apply Hf|done].
  - split; [done|]. split; [done|]. split; [assert (st + forceShutdownAfter tt <= now) by auto; lia|]. destruct (handlersCompleted rn); done.
  - destruct H as (-> & Hd & Hb & He). cbn. destruct e; [left|right]; [by rewrite Hd|]. split; [done|]. split; [lia|done].
  - destruct gr as [|t d|]; cbn [propagate_handlers]; [done| |].
    + destruct H as (H1 & H2 & H3 & H4). split; [done|]. split; [done|]. split; [done|]. destruct t as [[]|]; cbn; [by apply cancel_ctx_done|done|by apply cancel_ctx_done].
    + destruct H as [(H1 & H2 & H3)|H]; [left|by right]. split; [done|]. split; [by apply cancel_ctx_done|done].
Qed.

Lemma run_inv_step tt now n l p p' : run_inv (p_run p) -> proc_step tt now n l p p' -> run_inv (p_run p').
Proof.
  intros H Hstep. destruct Hstep; cbn [p_run] in *; try done.
  - by apply run_inv_finish.
  - split; [|split; [done|by apply Forall_replicate]]. cbn. unfold count_failed. by induction n.
  - by apply run_inv_spawn.
  - destruct H as (H1 & H2 & _). by split.
  - destruct H as (H1 & H2). cbn in *. subst hc. split; [done|]. by split.
Qed.

Lemma proc_inv_step tt now n l p p' : proc_inv tt now p -> proc_step tt now n l p p' -> proc_inv tt now p'.
Proof.
  intros (H1 & H2 & H3) Hs. split; [by eapply ctx_inv_step|]. split; [by eapply complete_inv_step|by eapply run_inv_step].
Qed.

Lemma proc_inv_time tt now d p : 0 < d -> proc_inv tt now p -> proc_inv tt (now + d) p.
Proof.
  intros Hd ([I1 I2 I3 I4 I5 I6 I7 I8 I9] & H2 & H3). split; [|split; [|done]].
  - split; try done; naive_solver lia.
  - unfold complete_inv in *. destruct (p_complete p) as [|[[]|] u|]; naive_solver lia.
Qed.

Definition tracker_inv (tt : processTimings) (t : Tracker) : Prop :=
  match t_main t with
  | KeepAccepting u => u <= t_now t + keepAcceptingFor tt
  | Waiting p => proc_inv tt (t_now t) p
  | Exited code p => proc_inv tt (t_now t) p /\ ShutdownCompleted p <> None /\ code = (if WasCleanShutdown p then 0 else 1)
  | _ => True
  end.

Lemma shutdown_inv tt now0 t : reachable tt now0 t -> tracker_inv tt t.
Proof.
  induction 1 as [|l t t' _ IH Hs]; [done|]. destruct Hs as [now n m d Hd He|t He|t sig Hm|now n u Hu|now n|now n l p p' Hp|now n p Hc]; unfold tracker_inv in *; cbn in *; try done.
  - destruct m; try done; [lia|by apply proc_inv_time].
  - unfold Shutdown. rewrite Hm. cbn. destruct (_ && _); cbn; [lia|done].
  - by eapply proc_inv_step.
Qed.

(** ** Exits *)

(** C23. What an exit says.  The exit code is 0 or 1.  With 0 every handler that was started has
    returned or panicked; with 1 the deadline of the forced shutdown and its grace period are over.
    Before that deadline the process exits only after all handlers and the outstanding tasks are
    done, and the tasks are done before their own deadline only if both the requests and the messages
    were reported as completed; from then on the tasks are told to close. *)
Theorem shutdown_exit (tt : processTimings) (now0 : Z) (t : Tracker) (code : Z) (p : Process) :
  reachable tt now0 t -> t_main t = Exited code p ->
  (code = 0 /\ Forall finished (r_handlers (p_run p)) \/
   code = 1 /\ p_start p + forceShutdownAfter tt + forceShutdownGrace tt <= t_now t) /\
  (t_now t < p_start p + forceShutdownAfter tt ->
     code = 0 /\ OutstandingTasks (p_ctx p) <> None /\ ForceCloseTasks (p_ctx p) <> None /\
     (t_now t < p_start p + (cancelRunningTasksAfter tt + forceCloseTasksGrace tt) ->
        OutstandingRequests (p_ctx p) = Some Canceled /\ OutstandingPubSubMessages (p_ctx p) = Some Canceled)).
Proof.
  intros Hr Hm. apply shutdown_inv in Hr. unfold tracker_inv in Hr. rewrite Hm in Hr. destruct Hr as ((H1 & H2 & H3) & Hc & ->).
  assert (Hfin : handlersCompleted (p_run p) <> None -> Forall finished (r_handlers (p_run p))).
  { intros Hh. destruct H3 as [_ H3]. destruct (r_pc (p_run p)); [tauto|tauto|tauto|apply H3]. }
  unfold complete_inv in H2. unfold WasCleanShutdown. destruct (p_complete p); [congruence|by destruct H2; congruence|].
  destruct H2 as [(E & Hh & Hf)|(E & Hl & Hf)]; rewrite E.
  - split; [by left; split; [|apply Hfin]|]. intros Hnow. split; [done|].
    assert (Hcan : ForceShutdown (p_ctx p) = Some Canceled).
    { destruct (ForceShutdown (p_ctx p)) as [[]|] eqn:Ef; [done| |done]. apply (ci_force_late _ _ _ H1) in Ef. lia. }
    destruct (ci_force _ _ _ H1 Hcan) as [Ht _]. split; [done|]. split; [by apply (ci_derived _ _ _ H1)|]. intros Hnow'.
    apply (ci_tasks _ _ _ H1). destruct (OutstandingTasks (p_ctx p)) as [[]|] eqn:Et; [done| |done]. apply (ci_late _ _ _ H1) in Et. lia.
  - split; [by right|]. intros Hnow. apply (ci_force_late _ _ _ H1) in Hf. lia.
Qed.

(** ** Progress *)

Definition tasks_left (pc : tasks_pc) : nat := match pc with WaitRequests => 2 | WaitMessages => 1 | TasksDone => 0 end.
Definition force_left (pc : force_pc) : nat := match pc with WaitTasks => 2 | WaitHandlers => 1 | ForceDone => 0 end.
Definition complete_left (pc : complete_pc) : nat := match pc with WaitForce => 3 | WaitGrace None _ => 2 | WaitGrace (Some _) _ => 1 | CompleteDone => 0 end.
Definition open_left {A} (c : option A) : nat := match c with None => 1 | Some _ => 0 end.
Definition runner_left (n : nat) (r : runner) : nat :=
  match r_pc r with TakeHandlers => n + 3 | Spawning i => length (r_handlers r) - i + 2 | WaitGroup => 1 | RunnerDone => 0 end.

(** How many steps the goroutines of the process have left. *)
Definition proc_left (n : nat) (p : Process) : nat :=
  open_left (OutstandingTasks (p_ctx p)) + open_left (ForceCloseTasks (p_ctx p)) + open_left (ForceShutdown (p_ctx p)) +
  tasks_left (p_tasks p) + force_left (p_force p) + complete_left (p_complete p) + runner_left n (p_run p).

Definition steps_left (t : Tracker) : nat :=
  match t_main t with
  | NotInitiated => 0
  | KeepAccepting _ => t_handlers t + 16
  | Beginning => t_handlers t + 15
  | Waiting p => S (proc_left (t_handlers t) p)
  | Exited _ _ => 0
  end.

Lemma proc_left_step tt now n p p' : proc_step tt now n Inside p p' -> (proc_left n p' < proc_left n p)%nat.
Proof.
  intros H. inversion H; subst; unfold proc_left, runner_left; open_process; ctx_cases; cbn in *; try lia; try done.
  all: try (destruct gr as [|[]|]; cbn; lia).
  - destruct (handlersCompleted rn); cbn; lia.
  - rewrite length_replicate. lia.
  - rewrite length_insert. lia.
Qed.

Lemma inside_decreases tt t t' : step tt Inside t t' -> (steps_left t' < steps_left t)%nat.
Proof.
  intros H. inversion H; subst; unfold steps_left, set_main; cbn; try lia.
  apply proc_left_step in H0. lia.
Qed.

(** The moment until which nothing may happen. *)
Definition wake_time (tt : processTimings) (t : Tracker) : Z :=
  match t_main t with
  | KeepAccepting u => u
  | Waiting p => match p_complete p with WaitForce => p_start p + forceShutdownAfter tt | WaitGrace _ d => d | CompleteDone => t_now t end
  | _ => t_now t
  end.

Lemma inside_enabled tt now0 t :
  reachable tt now0 t -> ShutdownInitiated t = true -> exited t = false -> wake_time tt t <= t_now t -> exists t', step tt Inside t t'.
Proof.
  intros Hr Hi He Hw. apply shutdown_inv in Hr. destruct t as [now n m]. unfold tracker_inv, wake_time in *. cbn in *.
  destruct m as [|u| |p|code p]; try done; [by eexists; constructor|by eexists; constructor|].
  destruct (ShutdownCompleted p) as [c|] eqn:Ec; [eexists; apply S_exit; congruence|].
  destruct Hr as (_ & H2 & _). unfold complete_inv in H2. destruct p as [st cx tp fp gr rn sv cp]. cbn in *. subst cp.
  destruct gr as [|t d|].
  - destruct (ForceShutdown cx) as [[]|] eqn:Ef; eexists; apply S_process; [by apply P_force_canceled|by apply P_force_exceeded|by apply P_force_deadline].
  - destruct t as [e|]; eexists; apply S_process; [apply P_grace_over|by apply P_grace_deadline].
  - destruct H2 as [(H & _)|(H & _)]; done.
Qed.

Lemma wake_bound tt now0 t :
  0 <= keepAcceptingFor tt -> 0 <= forceShutdownAfter tt -> 0 <= forceShutdownGrace tt -> reachable tt now0 t ->
  wake_time tt t <= t_now t + keepAcceptingFor tt + forceShutdownAfter tt + forceShutdownGrace tt.
Proof.
  intros H1 H2 H3 Hr. apply shutdown_inv in Hr. unfold tracker_inv, wake_time in *. destruct (t_main t) as [|u| |p|code p]; try lia.
  destruct Hr as (Hc & Hcc & _). pose proof (ci_start _ _ _ Hc). unfold complete_inv in Hcc. destruct (p_complete p); [lia| |lia]. destruct Hcc as (_ & _ & ? & _). lia.
Qed.

(** Steps of time and of the process itself: no handler ends, nothing is reported. *)
Definition alone (tt : processTimings) (t t' : Tracker) : Prop := step tt Time t t' \/ step tt Inside t t'.

Lemma initiated_step tt l t t' : step tt l t t' -> ShutdownInitiated t = true -> ShutdownInitiated t' = true.
Proof. intros H. destruct H as [| |t sig Hm| | | |]; try done. unfold ShutdownInitiated. by rewrite Hm. Qed.

(** C22. A shutdown that was initiated ends, whether or not the handlers return and the tasks complete:
    from every state that can be reached, time and the steps of the process itself lead to an exit;
    there is never a longer wait than the configured durations, and between two moments only
    finitely many steps.  (The comment of [RegisterShutdownHandler] says that the process does not exit
    before all handlers have returned; the forced shutdown does not wait for them.) *)
Theorem shutdown_exits (tt : processTimings) (now0 : Z) (t : Tracker) :
  0 <= keepAcceptingFor tt -> 0 <= forceShutdownAfter tt -> 0 <= forceShutdownGrace tt ->
  reachable tt now0 t -> ShutdownInitiated t = true ->
  (exists t', rtc (alone tt) t t' /\ exited t' = true) /\
  (exited t = true \/ (exists t', step tt Inside t t') \/
   t_now t < wake_time tt t <= t_now t + keepAcceptingFor tt + forceShutdownAfter tt + forceShutdownGrace tt) /\
  (forall t', step tt Inside t t' -> (steps_left t' < steps_left t)%nat).
Proof.
  intros H1 H2 H3 Hr Hi. split; [|split; [|apply inside_decreases]].
  - remember (steps_left t) as k eqn:Ek. revert t Hr Hi Ek. induction k as [k IH] using lt_wf_ind. intros t Hr Hi ->.
    destruct (exited t) eqn:He; [exists t; split; [done|done]|].
    assert (Hgo : forall t1, reachable tt now0 t1 -> ShutdownInitiated t1 = true -> exited t1 = false -> steps_left t1 = steps_left t ->
      wake_time tt t1 <= t_now t1 -> exists t', rtc (alone tt) t1 t' /\ exited t' = true).
    { intros t1 Hr1 Hi1 He1 El Hw. destruct (inside_enabled tt now0 t1 Hr1 Hi1 He1 Hw) as [t2 Hs].
      destruct (IH (steps_left t2)) with (t := t2) as (t3 & Ht3 & He3); [rewrite <- El; by eapply inside_decreases|by econstructor|by eapply initiated_step|done|].
      exists t3. split; [|done]. eapply rtc_l; [|exact Ht3]. by right. }
    destruct (decide (wake_time tt t <= t_now t)) as [Hw|Hw]; [by apply Hgo|].
    destruct t as [now n m]. set (t1 := mkTracker (now + (wake_time tt (mkTracker now n m) - now)) n m).
    assert (Hs : step tt Time (mkTracker now n m) t1) by (apply S_time; [cbn in Hw; lia|done]).
    destruct (Hgo t1) as (t2 & Ht2 & He2); [by econstructor|done|done|by destruct m| |exists t2; split; [eapply rtc_l; [by left|done]|done]].
    subst t1. unfold wake_time in *. cbn in *. destruct m as [|u| |p|code p]; try lia. destruct (p_complete p); lia.
  - destruct (exited t) eqn:He; [by left|]. right. destruct (decide (wake_time tt t <= t_now t)) as [Hw|Hw].
    + left. by eapply inside_enabled.
    + right. split; [lia|]. by eapply wake_bound.
Qed.

(** ** Timings *)

(** The timings derived from the configuration: no duration is negative and the forced shutdown
    never comes at once; with a total longer than the grace period the forced shutdown ends when the
    total is over; by default the tasks are told to close a second before the forced shutdown; and on
    Kubernetes requests are accepted for as long as the total still fits into the termination
    period.  A termination period that is not a number is a panic, and only that. *)
Theorem timings_bounds (graceful : option GracefulShutdownTimings) (ShutdownTimeout : Z) (k8s : gostring) :
  is_i64 ShutdownTimeout -> (forall g T, graceful = Some g -> g_Total g = Some T -> 0 <= T < 2 ^ 63) ->
  match timingsFromConfig graceful ShutdownTimeout k8s with
  | Ok tm =>
      0 <= keepAcceptingFor tm /\ 0 <= cancelRunningTasksAfter tm /\ 0 < forceShutdownAfter tm /\
      forceShutdownGrace tm = Second /\ forceCloseTasksGrace tm = Second /\
      (forall T, graceful ≫= g_Total = Some T -> Second < T -> forceShutdownAfter tm + forceShutdownGrace tm = T) /\
      (graceful ≫= g_Handlers = None -> cancelRunningTasksAfter tm = Z.max 0 (forceShutdownAfter tm - Second)) /\
      (forall T s, graceful ≫= g_Total = Some T -> k8s <> [] -> ParseInt k8s = inr s -> T <= s * Second < 2 ^ 63 -> keepAcceptingFor tm + T = s * Second)
  | Crash => k8s <> [] /\ exists e, ParseInt k8s = inl e
  | OutOfFuel => False
  end.
Proof.
  intros Hst Hg. set (cfg := default (mkGraceful None None None) graceful).
  assert (ET : graceful ≫= g_Total = g_Total cfg) by (by destruct graceful). assert (EH : graceful ≫= g_Handlers = g_Handlers cfg) by (by destruct graceful).
  rewrite ET, EH. assert (HT : forall T, g_Total cfg = Some T -> 0 <= T < 2 ^ 63) by (intros T HT; destruct graceful as [g|]; [by apply (Hg g)|done]).
  unfold timingsFromConfig. fold cfg. clearbody cfg. unfold is_i64, Second, Millisecond in *.
  set (body := match g_Total cfg with None => _ | Some _ => _ end).
  assert (Hbody : 0 < body.1 < 2 ^ 63 /\ forall T, g_Total cfg = Some T -> body.2 = T /\ (1000 * 1000000 < T -> body.1 + 1 * (1000 * 1000000) = T)).
  { subst body. destruct (g_Total cfg) as [T|]; cbn [fst snd].
    - specialize (HT T eq_refl). rewrite (i64_id (T - _)) by width. destruct (Z.leb_spec (T - 1 * (1000 * 1000000)) 0); split; try lia; intros T' [= <-]; lia.
    - destruct (Z.leb_spec ShutdownTimeout 0); split; try lia; done. }
  destruct body as [after total]. cbn [fst snd] in Hbody. destruct Hbody as [Ha Hb].
  set (cancel := match g_Handlers cfg with None => _ | Some _ => _ end).
  assert (Hc : g_Handlers cfg = None -> cancel = after - 1 * (1000 * 1000000)) by (subst cancel; intros ->; rewrite i64_id; [done|width]). clearbody cancel.
  assert (Hcan : 0 <= (if cancel <? 0 then 0 else cancel) /\ (g_Handlers cfg = None -> (if cancel <? 0 then 0 else cancel) = Z.max 0 (after - 1000 * 1000000))).
  { destruct (Z.ltb_spec cancel 0); split; intros; try lia; rewrite ?Hc in * by done; lia. }
  destruct k8s as [|c k8s]; [|destruct (ParseInt (c :: k8s)) as [e|g] eqn:Ep]; [| |].
  - cbn. split; [lia|]. split; [lia|]. split; [lia|]. split; [lia|]. split; [lia|]. split; [intros T HT1 HT2; by apply (Hb T HT1)|]. split; [tauto|]. intros T s _ Hk. by contradiction Hk.
  - split; [done|]. by exists e.
  - set (keep := i64 (i64 (g * (1000 * 1000000)) - total)). cbn [keepAcceptingFor cancelRunningTasksAfter forceShutdownAfter forceShutdownGrace forceCloseTasksGrace].
    split; [destruct (Z.ltb_spec keep 0); lia|]. split; [lia|]. split; [lia|]. split; [lia|]. split; [lia|].
    split; [intros T HT' HT''; by apply (Hb T HT')|]. split; [tauto|].
    intros T s HT' _ [= <-] Hs. destruct (Hb T HT') as [-> _]. specialize (HT T HT'). subst keep. rewrite (i64_id (g * _)), i64_id by width.
    destruct (Z.ltb_spec (g * (1000 * 1000000) - T) 0); lia.
Qed.

Definition demo_config : option GracefulShutdownTimings := Some (mkGraceful (Some (10 * Second)) None None).

Lemma timings_bounds_witness :
  timingsFromConfig demo_config 0 (lit "30") = Ok (mkTimings (20 * Second) (8 * Second) Second (9 * Second) Second) /\
  20 * Second + 10 * Second = 30 * Second.
Proof.
  assert (E : timingsFromConfig demo_config 0 (lit "30") = Ok (mkTimings (20 * Second) (8 * Second) Second (9 * Second) Second))
    by (vm_compute; reflexivity).
  split; [exact E|].
  pose proof (timings_bounds demo_config 0 (lit "30") ltac:(split; [discriminate|reflexivity])
    ltac:(intros g T [= <-] [= <-]; split; [discriminate|reflexivity])) as H.
  rewrite E in H. destruct H as (_ & _ & _ & _ & _ & _ & _ & H). apply (H (10 * Second) 30); [reflexivity|discriminate|vm_compute; reflexivity|].
  split; [discriminate|reflexivity].
Defined.

(** The handlers' share of the total is not taken from its end, as the documentation has it (8 seconds
    for this configuration), but from its beginning. *)
Theorem handlers_from_start :
  exists tm, timingsFromConfig (Some (mkGraceful (Some (10 * Second)) None (Some (2 * Second)))) 0 [] = Ok tm /\ cancelRunningTasksAfter tm = 2 * Second.
Proof. eexists. split; [vm_compute; reflexivity|]. reflexivity. Qed.

(** Without a configured total the process takes five seconds and the grace period, but the time it
    goes on accepting requests is computed as if it took none: a pod that is given 30 seconds takes
    up to 36. *)
Theorem default_total_overruns :
  exists tm, timingsFromConfig None 0 (lit "30") = Ok tm /\
    keepAcceptingFor tm + forceShutdownAfter tm + forceShutdownGrace tm = 36 * Second.
Proof. eexists. split; [vm_compute; reflexivity|]. vm_compute. reflexivity. Qed.

(** ** A shutdown with one handler *)

Definition demo_timings : processTimings := mkTimings 0 8 1 9 1.

Definition demo_process : Process :=
  mkProc 0 (mkCtx (Some Canceled) (Some Canceled) (Some Canceled) (Some Canceled) (Some Canceled)) TasksDone ForceDone CompleteDone
    (mkRunner RunnerDone [Finished ReturnedError] 1 (Some Failure)) None (Some cleanShutdown).

(** The next state of a run, by a step given with its premises. *)
Tactic Notation "go" hyp(H) uconstr(s) := let H' := fresh in pose proof (R_step _ _ _ _ _ H s) as H'; clear H; rename H' into H; cbn in H.

Lemma demo_reachable : reachable demo_timings 0 (mkTracker 0 1 (Exited 0 demo_process)).
Proof.
  pose proof (R_new demo_timings 0) as H.
  go H (S_register demo_timings (NewTracker 0) eq_refl).
  go H (S_shutdown demo_timings (mkTracker 0 1 NotInitiated) false eq_refl).
  go H (S_begin demo_timings 0 1).
  go H (S_process demo_timings 0 1 _ _ _ (P_take _ _ _ 0 no_ctx WaitRequests WaitTasks WaitForce None None)).
  go H (S_process demo_timings 0 1 _ _ _ (P_spawn _ 0 1 0 no_ctx WaitRequests WaitTasks WaitForce 0 [Starting] 0 None None None ltac:(cbn; lia))).
  go H (S_process demo_timings 0 1 _ _ _ (P_spawned _ 0 1 0 no_ctx WaitRequests WaitTasks WaitForce [Running] 0 None None None)).
  go H (S_process demo_timings 0 1 _ _ _ (P_handler _ 0 1 0 no_ctx WaitRequests WaitTasks WaitForce (mkRunner WaitGroup [Running] 0 None) None None 0 ReturnedError eq_refl)).
  go H (S_process demo_timings 0 1 _ _ _ (P_completed _ 0 1 0 no_ctx WaitRequests WaitTasks WaitForce [Finished ReturnedError] 1 None None None
    ltac:(repeat constructor; by eexists))).
  go H (S_process demo_timings 0 1 _ _ _ (P_requests _ 0 1 0 _ WaitRequests WaitTasks WaitForce _ None None)).
  go H (S_process demo_timings 0 1 _ _ _ (P_messages _ 0 1 0 _ WaitRequests WaitTasks WaitForce _ None None)).
  go H (S_process demo_timings 0 1 _ _ _ (P_requests_done _ 0 1 0 (mkCtx (Some Canceled) _ _ _ _) WaitTasks WaitForce _ None None ltac:(discriminate))).
  go H (S_process demo_timings 0 1 _ _ _ (P_messages_done _ 0 1 0 (mkCtx _ (Some Canceled) _ _ _) WaitTasks WaitForce _ None None ltac:(discriminate))).
  go H (S_process demo_timings 0 1 _ _ _ (P_tasks_done _ 0 1 0 (mkCtx _ _ (Some Canceled) _ _) TasksDone WaitForce _ None None ltac:(discriminate))).
  go H (S_process demo_timings 0 1 _ _ _ (P_handlers_done _ 0 1 0 _ TasksDone WaitForce (mkRunner _ _ _ (Some Failure)) None None ltac:(discriminate))).
  go H (S_process demo_timings 0 1 _ _ _ (P_force_canceled _ 0 1 0 (mkCtx _ _ _ _ (Some Canceled)) TasksDone ForceDone _ None None eq_refl)).
  go H (S_exit demo_timings 0 1 (mkProc _ _ _ _ _ _ _ (Some cleanShutdown)) ltac:(discriminate)).
  exact H.
Qed.

(** The exit code does not tell whether the handlers succeeded: a handler that returns an error is
    recorded in a cause that nothing reads, and the process exits with 0. *)
Theorem failing_handler_exits_clean :
  exists t p, reachable demo_timings 0 t /\ t_main t = Exited 0 p /\ r_handlers (p_run p) = [Finished ReturnedError] /\ handlersCompleted (p_run p) = Some Failure.
Proof. exists (mkTracker 0 1 (Exited 0 demo_process)), demo_process. split; [apply demo_reachable|]. done. Qed.

Lemma shutdown_exit_witness :
  OutstandingRequests (p_ctx demo_process) = Some Canceled /\ OutstandingPubSubMessages (p_ctx demo_process) = Some Canceled.
Proof.
  exact (proj2 (proj2 (proj2 (proj2 (shutdown_exit demo_timings 0 (mkTracker 0 1 (Exited 0 demo_process)) 0 demo_process demo_reachable eq_refl)
    eq_refl))) eq_refl).
Defined.

(** A shutdown whose handler never returns. *)
Lemma shutdown_exits_witness :
  exists t', rtc (alone demo_timings) (Shutdown demo_timings true (mkTracker 5 1 NotInitiated)) t' /\ exited t' = true.
Proof.
  refine (proj1 (shutdown_exits demo_timings 5 (Shutdown demo_timings true (mkTracker 5 1 NotInitiated)) _ _ _ _ _)).
  - vm_compute. discriminate.
  - vm_compute. discriminate.
  - vm_compute. discriminate.
  - eapply R_step; [|apply S_shutdown; reflexivity]. eapply (R_step _ _ Outside (NewTracker 5)); [apply R_new|apply S_register; reflexivity].
  - reflexivity.
Defined.
