(* ===== verification/HttpCache.v ===== *)
(** The caching HTTP transport: [internal/httpcache] (httpcache.go).

    Parameters: the dump of a response and its reading ([httputil.DumpResponse],
    [http.ReadResponse]), the parsing of dates and durations ([time.Parse], [time.ParseDuration]),
    the present time, and the server, a function from requests to responses or an error.  The
    cache is an interface of three operations.  A header is a map from canonical names to values. *)

From S2P Require Import Prelude Utf8 GoText.

(** ** Headers *)

Abbreviation Header := (gmap gostring (list gostring)).

Definition is_upper (c : byte) : bool := (65 <=? Z_of_byte c) && (Z_of_byte c <=? 90).
Definition is_lower (c : byte) : bool := (97 <=? Z_of_byte c) && (Z_of_byte c <=? 122).

(** [validHeaderFieldByte]: the bytes of a token. *)
Definition token_byte (c : byte) : bool :=
  is_upper c || is_lower c || ((48 <=? Z_of_byte c) && (Z_of_byte c <=? 57)) || bool_decide (c ∈ lit "!#$%&'*+-.^_`|~").

Fixpoint canonical_loop (upper : bool) (s : gostring) : gostring :=
  match s with
  | [] => []
  | c :: s =>
      let c' := if upper && is_lower c then byte_of_Z (Z_of_byte c - 32)
                else if negb upper && is_upper c then byte_of_Z (Z_of_byte c + 32) else c in
      c' :: canonical_loop (bool_decide (c' = Byte.x2d)) s
  end.

(** A name with other bytes is left as it is. *)
Definition CanonicalHeaderKey (s : gostring) : gostring := if forallb token_byte s then canonical_loop true s else s.

Definition header_Get (h : Header) (name : gostring) : gostring :=
  match h !! CanonicalHeaderKey name with Some (v :: _) => v | _ => [] end.
Definition header_Set (h : Header) (name value : gostring) : Header := <[CanonicalHeaderKey name := [value]]> h.

(** [strings.Trim] with a one-byte cut set. *)
Fixpoint trim_left (c : byte) (s : gostring) : gostring :=
  match s with
  | b :: s' => if decide (b = c) then trim_left c s' else s
  | [] => []
  end.
Definition Trim (s : gostring) (c : byte) : gostring := reverse (trim_left c (reverse (trim_left c s))).

Definition c_space : byte := Byte.x20.
Definition c_equals : byte := Byte.x3d.
Definition c_sep : byte := Byte.x2c.

Definition cacheControl : Type := gmap gostring gostring.

Definition cc_part (cc : cacheControl) (part : gostring) : cacheControl :=
  let part := Trim part c_space in
  if decide (part = []) then cc
  else match Split part c_equals with
       | k :: v :: _ => <[Trim k c_space := Trim v c_sep]> cc
       | _ => <[part := []]> cc
       end.

Definition parseCacheControl (h : Header) : cacheControl := foldl cc_part ∅ (Split (header_Get h (lit "Cache-Control")) c_sep).

Definition headerAllCommaSepValues (h : Header) (name : gostring) : list gostring :=
  mjoin ((fun v => TrimSpace <$> Split v c_sep) <$> default [] (h !! CanonicalHeaderKey name)).

(** ** Requests, responses and the cache *)

Record HttpRequest := mkReq { rq_Method : gostring; rq_URL : gostring; rq_Header : Header }.
Record HttpResponse := mkResp { rs_Status : Z; rs_Header : Header; rs_Body : list byte }.

Class Cache (C : Type) := {
  cache_Get : C -> gostring -> option (list byte);
  cache_Set : C -> gostring -> list byte -> C;
  cache_Delete : C -> gostring -> C
}.

Class CacheLaws (C : Type) `{Cache C} := {
  get_set : forall c k k' b, cache_Get (cache_Set c k b) k' = if decide (k' = k) then Some b else cache_Get c k';
  get_delete : forall c k k', cache_Get (cache_Delete c k) k' = if decide (k' = k) then None else cache_Get c k'
}.

(** [MemoryCache]. *)
Definition MemoryCache : Type := gmap gostring (list byte).
Definition mc_Get (c : MemoryCache) (key : gostring) : option (list byte) := c !! key.
Definition mc_Set (c : MemoryCache) (key : gostring) (resp : list byte) : MemoryCache := <[key := resp]> c.
Definition mc_Delete (c : MemoryCache) (key : gostring) : MemoryCache := delete key c.

#[export] Instance MemoryCache_Cache : Cache MemoryCache := { cache_Get := mc_Get; cache_Set := mc_Set; cache_Delete := mc_Delete }.

Definition GET : gostring := lit "GET".
Definition HEAD : gostring := lit "HEAD".

Definition cacheKey (req : HttpRequest) : gostring := if decide (rq_Method req = GET) then rq_URL req else rq_Method req ++ lit " " ++ rq_URL req.

Definition XFromCache : gostring := lit "X-From-Cache".

Definition set_header (r : HttpResponse) (name value : gostring) : HttpResponse := mkResp (rs_Status r) (header_Set (rs_Header r) name value) (rs_Body r).

Definition varied (header : gostring) : gostring := lit "X-Varied-" ++ header.

Definition varyMatches (cachedResp : HttpResponse) (req : HttpRequest) : bool :=
  forallb (fun header =>
             let header := CanonicalHeaderKey header in
             bool_decide (header = []) || bool_decide (header_Get (rq_Header req) header = header_Get (rs_Header cachedResp) (varied header)))
    (headerAllCommaSepValues (rs_Header cachedResp) (lit "vary")).

(** ** Freshness *)

Inductive freshness := stale | fresh | transparent.

#[export] Instance freshness_eq_dec : EqDecision freshness.
Proof. solve_decision. Defined.

Section Times.
Context (ParseTime : gostring -> option Z) (ParseDuration : gostring -> option Z) (now : Z).

Definition Date (h : Header) : option Z := let d := header_Get h (lit "date") in if decide (d = []) then None else ParseTime d.

(** A difference of times is a duration, clipped to 64 bits. *)
Definition clip (d : Z) : Z := Z.max (- 2 ^ 63) (Z.min (2 ^ 63 - 1) d).
Definition since (d : Z) : Z := clip (now - d).

(** A number of seconds, 0 if it cannot be parsed. *)
Definition seconds (v : gostring) : option Z := ParseDuration (v ++ lit "s").

Definition lifetime_of (resp req : Header) (date : Z) : Z :=
  let respCC := parseCacheControl resp in
  let lifetime :=
    match respCC !! lit "max-age" with
    | Some maxAge => default 0 (seconds maxAge)
    | None =>
        let expires := header_Get resp (lit "Expires") in
        if decide (expires = []) then 0
        else match ParseTime expires with Some e => clip (e - date) | None => 0 end
    end in
  match parseCacheControl req !! lit "max-age" with
  | Some maxAge => default 0 (seconds maxAge)
  | None => lifetime
  end.

Definition getFreshness (resp req : Header) : freshness :=
  let respCC := parseCacheControl resp in
  let reqCC := parseCacheControl req in
  if decide (is_Some (reqCC !! lit "no-cache")) then transparent
  else if decide (is_Some (respCC !! lit "no-cache")) then stale
  else if decide (is_Some (reqCC !! lit "only-if-cached")) then fresh
  else match Date resp with
       | None => stale
       | Some date =>
           let lifetime := lifetime_of resp req date in
           let currentAge := since date in
           let currentAge := match reqCC !! lit "min-fresh" ≫= seconds with Some d => i64 (currentAge + d) | None => currentAge end in
           match reqCC !! lit "max-stale" with
           | Some [] => fresh
           | Some v =>
               let currentAge := match seconds v with Some d => i64 (currentAge - d) | None => currentAge end in
               if currentAge <? lifetime then fresh else stale
           | None => if currentAge <? lifetime then fresh else stale
           end
       end.

Definition canStaleOnError (resp req : Header) : bool :=
  let check lifetime :=
    if 0 <=? lifetime then match Date resp with None => false | Some date => since date <? lifetime end else false in
  let from_req lifetime :=
    match parseCacheControl req !! lit "stale-if-error" with
    | Some [] => true
    | Some v => match seconds v with None => false | Some d => check d end
    | None => check lifetime
    end in
  match parseCacheControl resp !! lit "stale-if-error" with
  | Some [] => true
  | Some v => match seconds v with None => false | Some d => from_req d end
  | None => from_req (-1)
  end.

(** ** Headers of a response to a validated request *)

Definition hop_by_hop : list gostring :=
  [lit "Connection"; lit "Keep-Alive"; lit "Proxy-Authenticate"; lit "Proxy-Authorization"; lit "Te"; lit "Trailers";
   lit "Transfer-Encoding"; lit "Upgrade"].

Definition hopByHopHeaders (h : Header) : list gostring :=
  hop_by_hop ++ (CanonicalHeaderKey <$> filter (fun extra => Trim extra c_space <> []) (Split (header_Get h (lit "connection")) c_sep)).

(** The end-to-end headers of the new response replace those of the cached one. *)
Definition update_headers (cached resp : HttpResponse) : HttpResponse :=
  mkResp (rs_Status cached) (filter (fun kv => kv.1 ∉ hopByHopHeaders (rs_Header resp)) (rs_Header resp) ∪ rs_Header cached) (rs_Body cached).

Definition canStore (reqCC respCC : cacheControl) : bool :=
  if decide (is_Some (respCC !! lit "no-store")) then false
  else if decide (is_Some (reqCC !! lit "no-store")) then false else true.

Definition newGatewayTimeoutResponse : HttpResponse := mkResp 504 ∅ [].

(** ** The round trip *)

Section Transport.
Context {C : Type} `{Cache C}.
Context (DumpResponse : HttpResponse -> option (list byte)) (ReadResponse : list byte -> option HttpResponse).
Context (MarkCachedResponses : bool) (transport : HttpRequest -> option HttpResponse).

Definition CachedResponse (c : C) (req : HttpRequest) : option HttpResponse := cache_Get c (cacheKey req) ≫= ReadResponse.

Definition cacheable (req : HttpRequest) : bool :=
  (bool_decide (rq_Method req = GET) || bool_decide (rq_Method req = HEAD)) && bool_decide (header_Get (rq_Header req) (lit "range") = []).

Definition with_header (req : HttpRequest) (name value : gostring) : HttpRequest := mkReq (rq_Method req) (rq_URL req) (header_Set (rq_Header req) name value).

Definition add_validators (cached : HttpResponse) (req : HttpRequest) : HttpRequest :=
  let etag := header_Get (rs_Header cached) (lit "etag") in
  let req1 := if decide (etag <> [] /\ header_Get (rq_Header req) (lit "etag") = []) then with_header req (lit "if-none-match") etag else req in
  let lastModified := header_Get (rs_Header cached) (lit "last-modified") in
  if decide (lastModified <> [] /\ header_Get (rq_Header req) (lit "last-modified") = [])
  then with_header req1 (lit "if-modified-since") lastModified else req1.

(** The values of the request for the headers the response varies by. *)
Definition add_varied (req : HttpRequest) (resp : HttpResponse) : HttpResponse :=
  foldl (fun r key =>
           let key := CanonicalHeaderKey key in
           let v := header_Get (rq_Header req) key in
           if decide (v = []) then r else set_header r (varied key) v)
    resp (headerAllCommaSepValues (rs_Header resp) (lit "vary")).

(** The response or an error, the request that was sent, the cache, and the key under which the
    response is stored when its body has been read. *)
Record trip := mkTrip { tr_resp : option HttpResponse; tr_sent : option HttpRequest; tr_cache : C; tr_onEOF : option gostring }.

Definition store (c : C) (key : gostring) (resp : HttpResponse) : C :=
  match DumpResponse resp with Some b => cache_Set c key b | None => c end.

Definition finish (key : gostring) (can : bool) (req : HttpRequest) (sent : option HttpRequest) (c : C) (resp : HttpResponse) : trip :=
  if can && canStore (parseCacheControl (rq_Header req)) (parseCacheControl (rs_Header resp)) then
    let resp := add_varied req resp in
    if decide (rq_Method req = GET) then mkTrip (Some resp) sent c (Some key)
    else mkTrip (Some resp) sent (store c key resp) None
  else mkTrip (Some resp) sent (cache_Delete c key) None.

Definition RoundTrip (c : C) (req : HttpRequest) : trip :=
  let key := cacheKey req in
  let can := cacheable req in
  let cached := if can then CachedResponse c req else None in
  let c := if can then c else cache_Delete c key in
  match cached with
  | Some cr =>
      let cr := if MarkCachedResponses then set_header cr XFromCache (lit "1") else cr in
      let matches := varyMatches cr req in
      let f := getFreshness (rs_Header cr) (rq_Header req) in
      if decide (matches = true /\ f = fresh) then mkTrip (Some cr) None c None
      else
        let req := if decide (matches = true /\ f = stale) then add_validators cr req else req in
        let on_error := bool_decide (rq_Method req = GET) && canStaleOnError (rs_Header cr) (rq_Header req) in
        match transport req with
        | Some r =>
            if decide (rq_Method req = GET /\ rs_Status r = 304) then finish key can req (Some req) c (update_headers cr r)
            else if (500 <=? rs_Status r) && on_error then mkTrip (Some cr) (Some req) c None
            else finish key can req (Some req) (if rs_Status r =? 200 then c else cache_Delete c key) r
        | None =>
            if on_error then mkTrip (Some cr) (Some req) c None
            else mkTrip None (Some req) (cache_Delete c key) None
        end
  | None =>
      if decide (is_Some (parseCacheControl (rq_Header req) !! lit "only-if-cached")) then finish key can req None c newGatewayTimeoutResponse
      else match transport req with
           | None => mkTrip None (Some req) c None
           | Some r => finish key can req (Some req) c r
           end
  end.

(** ** Bodies

    [cachingReadCloser] hands out the bytes of the body and keeps a copy; at the end of the body the
    copy is stored.  A reader may report the end with the last bytes or on its own. *)

Record reader := mkReader { rd_R : list byte; rd_buf : list byte }.

(** The bytes read and, at the end, the copy handed to [OnEOF]. *)
Definition rd_Read (n : nat) (eof_early : bool) (r : reader) : list byte * option (list byte) * reader :=
  let chunk := take n (rd_R r) in
  let rest := drop n (rd_R r) in
  let buf := rd_buf r ++ chunk in
  let eof := bool_decide (rest = []) && (eof_early || bool_decide (chunk = [])) in
  (chunk, if eof then Some buf else None, mkReader rest buf).

(** Reading by a sequence of calls, storing at every end. *)
Fixpoint read_body (calls : list (nat * bool)) (key : gostring) (resp : HttpResponse) (r : reader) (c : C) : C :=
  match calls with
  | [] => c
  | (n, early) :: calls =>
      let '(_, eof, r) := rd_Read n early r in
      let c := match eof with Some b => store c key (mkResp (rs_Status resp) (rs_Header resp) b) | None => c end in
      read_body calls key resp r c
  end.

(** A use of the transport: the round trip, then the caller reads the body. *)
Definition exchange (calls : list (nat * bool)) (c : C) (req : HttpRequest) : trip * C :=
  let t := RoundTrip c req in
  (t, match tr_onEOF t, tr_resp t with
      | Some key, Some resp => read_body calls key resp (mkReader (rs_Body resp) []) (tr_cache t)
      | _, _ => tr_cache t
      end).

End Transport.

End Times.
