(* ===== verification/HttpCacheTheorems.v ===== *)
(** Theorems about the caching HTTP transport ([internal/httpcache]): where a response comes from, what
    the cache holds after any use of it, and that a stored response is found again. *)

From S2P Require Import Prelude Utf8 GoText HttpCache.

(** ** Canonical names *)

Definition canonical_byte (upper : bool) (c : byte) : byte :=
  if upper && is_lower c then byte_of_Z (Z_of_byte c - 32)
  else if negb upper && is_upper c then byte_of_Z (Z_of_byte c + 32) else c.

Lemma canonical_byte_facts u c :
  bool_decide (canonical_byte u (canonical_byte u c) = canonical_byte u c) && Bool.eqb (token_byte (canonical_byte u c)) (token_byte c) = true.
Proof. destruct u, c; vm_compute; reflexivity. Qed.

Lemma canonical_byte_idem u c : canonical_byte u (canonical_byte u c) = canonical_byte u c.
Proof. pose proof (canonical_byte_facts u c) as H. apply andb_prop in H as [H _]. by apply bool_decide_eq_true in H. Qed.

Lemma canonical_byte_token u c : token_byte (canonical_byte u c) = token_byte c.
Proof. pose proof (canonical_byte_facts u c) as H. apply andb_prop in H as [_ H]. by apply eqb_prop in H. Qed.

Lemma canonical_loop_cons u c s : canonical_loop u (c :: s) = canonical_byte u c :: canonical_loop (bool_decide (canonical_byte u c = Byte.x2d)) s.
Proof. done. Qed.

Lemma canonical_loop_idem u s : canonical_loop u (canonical_loop u s) = canonical_loop u s.
Proof. revert u. induction s as [|c s IH]; intros u; [done|]. rewrite !canonical_loop_cons, canonical_byte_idem. by rewrite IH. Qed.

Lemma canonical_loop_token u s : forallb token_byte (canonical_loop u s) = forallb token_byte s.
Proof. revert u. induction s as [|c s IH]; intros u; [done|]. rewrite canonical_loop_cons. cbn [forallb]. by rewrite canonical_byte_token, IH. Qed.

Lemma Canonical_idem s : CanonicalHeaderKey (CanonicalHeaderKey s) = CanonicalHeaderKey s.
Proof.
  unfold CanonicalHeaderKey. destruct (forallb token_byte s) eqn:E; [|by rewrite E]. by rewrite canonical_loop_token, E, canonical_loop_idem.
Qed.

Lemma Canonical_varied h : CanonicalHeaderKey (varied (CanonicalHeaderKey h)) = varied (CanonicalHeaderKey h).
Proof.
  unfold varied. assert (E : forall k, forallb token_byte (lit "X-Varied-" ++ k) = forallb token_byte k) by (intros k; by rewrite forallb_app).
  assert (L : forall k, canonical_loop true (lit "X-Varied-" ++ k) = lit "X-Varied-" ++ canonical_loop true k) by done.
  set (k := CanonicalHeaderKey h). unfold CanonicalHeaderKey at 1. rewrite E, L. destruct (forallb token_byte k) eqn:Ek; [|done]. f_equal.
  subst k. unfold CanonicalHeaderKey in *. destruct (forallb token_byte h) eqn:Eh; [apply canonical_loop_idem|congruence].
Qed.

Lemma varied_inj a b : varied a = varied b -> a = b.
Proof. apply app_inv_head. Qed.

(** Names that do not begin with an X are not touched by the marks of the cache. *)
Definition other_name (name : gostring) : Prop := head (CanonicalHeaderKey name) <> Some Byte.x58.

Lemma lookup_varied h name key v : other_name name -> header_Set h (varied (CanonicalHeaderKey key)) v !! CanonicalHeaderKey name = h !! CanonicalHeaderKey name.
Proof. intros Hn. unfold header_Set. rewrite Canonical_varied. apply lookup_insert_ne. intros E. apply Hn. by rewrite <- E. Qed.

Lemma lookup_mark h name v : other_name name -> header_Set h XFromCache v !! CanonicalHeaderKey name = h !! CanonicalHeaderKey name.
Proof. intros Hn. unfold header_Set. apply lookup_insert_ne. intros E. apply Hn. by rewrite <- E. Qed.

Lemma other_control : other_name (lit "Cache-Control").
Proof. by vm_compute. Qed.

Lemma other_vary : other_name (lit "vary").
Proof. by vm_compute. Qed.

(** ** The marks on a response *)

Section Marks.
Context (req : HttpRequest).

Definition mark_varied (r : HttpResponse) (key : gostring) : HttpResponse :=
  let key := CanonicalHeaderKey key in
  let v := header_Get (rq_Header req) key in
  if decide (v = []) then r else set_header r (varied key) v.

Lemma mark_varied_same r key : rs_Status (mark_varied r key) = rs_Status r /\ rs_Body (mark_varied r key) = rs_Body r.
Proof. unfold mark_varied. by case_decide. Qed.

Lemma mark_varied_other r key name : other_name name -> rs_Header (mark_varied r key) !! CanonicalHeaderKey name = rs_Header r !! CanonicalHeaderKey name.
Proof. intros Hn. unfold mark_varied. case_decide; [done|]. by apply lookup_varied. Qed.

Lemma add_varied_same r : rs_Status (add_varied req r) = rs_Status r /\ rs_Body (add_varied req r) = rs_Body r.
Proof.
  unfold add_varied. fold mark_varied. generalize (headerAllCommaSepValues (rs_Header r) (lit "vary")) as keys. intros keys. revert r.
  induction keys as [|k keys IH]; intros r; [done|]. cbn [foldl]. destruct (IH (mark_varied r k)) as [-> ->]. apply mark_varied_same.
Qed.

Lemma add_varied_other r name : other_name name -> rs_Header (add_varied req r) !! CanonicalHeaderKey name = rs_Header r !! CanonicalHeaderKey name.
Proof.
  intros Hn. unfold add_varied. fold mark_varied. generalize (headerAllCommaSepValues (rs_Header r) (lit "vary")) as keys. intros keys. revert r.
  induction keys as [|k keys IH]; intros r; [done|]. cbn [foldl]. by rewrite IH, mark_varied_other.
Qed.

Abbreviation of_req h := (header_Get (rq_Header req) (CanonicalHeaderKey h)).
Abbreviation of_resp r h := (header_Get (rs_Header r) (varied (CanonicalHeaderKey h))).

Lemma mark_varied_get r k h :
  of_resp (mark_varied r k) h = if decide (CanonicalHeaderKey k = CanonicalHeaderKey h /\ of_req k <> []) then of_req k else of_resp r h.
Proof.
  unfold mark_varied. case_decide as Ev; [by rewrite decide_False by tauto|]. unfold header_Get at 1, set_header, header_Set. cbn [rs_Header].
  rewrite !Canonical_varied. case_decide as Ek.
  - destruct Ek as [-> _]. by rewrite lookup_insert_eq.
  - rewrite lookup_insert_ne by (intros E%varied_inj; tauto). unfold header_Get. by rewrite Canonical_varied.
Qed.

Lemma mark_varied_keep keys r h : of_resp r h = of_req h -> of_resp (foldl mark_varied r keys) h = of_req h.
Proof.
  revert r. induction keys as [|k keys IH]; intros r Hr; [done|]. cbn [foldl]. apply IH. rewrite mark_varied_get. case_decide as E; [|done].
  by destruct E as [-> _].
Qed.

(** Each header the response varies by is recorded with the value of the request. *)
Lemma mark_varied_value keys r h :
  of_resp r h = [] -> (h ∈ keys) -> of_resp (foldl mark_varied r keys) h = of_req h.
Proof.
  revert r. induction keys as [|k keys IH]; intros r Hnone Hin; [by apply elem_of_nil in Hin|]. cbn [foldl].
  destruct (decide (CanonicalHeaderKey k = CanonicalHeaderKey h)) as [Ek|Ek].
  - apply mark_varied_keep. rewrite mark_varied_get. case_decide as E; [by rewrite Ek|]. rewrite Hnone. rewrite Ek in E.
    destruct (decide (of_req h = [])) as [|Hne]; [done|tauto].
  - apply elem_of_cons in Hin as [->|Hin]; [done|]. apply IH; [|done]. rewrite mark_varied_get. rewrite decide_False by tauto. done.
Qed.
End Marks.

(** ** The mark of a cached response *)

Definition mark (on : bool) (cr : HttpResponse) : HttpResponse := if on then set_header cr XFromCache (lit "1") else cr.

Lemma mark_same on cr : rs_Status (mark on cr) = rs_Status cr /\ rs_Body (mark on cr) = rs_Body cr.
Proof. by destruct on. Qed.

Lemma mark_other on cr name : other_name name -> rs_Header (mark on cr) !! CanonicalHeaderKey name = rs_Header cr !! CanonicalHeaderKey name.
Proof. intros Hn. destruct on; [by apply lookup_mark|done]. Qed.

Lemma mark_varied_name on cr h : header_Get (rs_Header (mark on cr)) (varied (CanonicalHeaderKey h)) = header_Get (rs_Header cr) (varied (CanonicalHeaderKey h)).
Proof. destruct on; [|done]. unfold header_Get, mark, set_header, header_Set. cbn [rs_Header]. by rewrite Canonical_varied, lookup_insert_ne. Qed.

(** Two headers that agree on the names the cache decides by. *)
Definition same_names (h1 h2 : Header) : Prop := forall name, other_name name -> h1 !! CanonicalHeaderKey name = h2 !! CanonicalHeaderKey name.

Lemma same_Get h1 h2 name : same_names h1 h2 -> other_name name -> header_Get h1 name = header_Get h2 name.
Proof. intros Hs Hn. unfold header_Get. by rewrite (Hs name Hn). Qed.

Lemma same_control h1 h2 : same_names h1 h2 -> parseCacheControl h1 = parseCacheControl h2.
Proof. intros Hs. unfold parseCacheControl. by rewrite (same_Get h1 h2 _ Hs other_control). Qed.

Lemma same_all_values h1 h2 : same_names h1 h2 -> headerAllCommaSepValues h1 (lit "vary") = headerAllCommaSepValues h2 (lit "vary").
Proof. intros Hs. unfold headerAllCommaSepValues. by rewrite (Hs _ other_vary). Qed.

Section Fresh.
Context (ParseTime ParseDuration : gostring -> option Z) (now : Z).

Lemma same_Date h1 h2 : same_names h1 h2 -> Date ParseTime h1 = Date ParseTime h2.
Proof. intros Hs. unfold Date. by rewrite (same_Get h1 h2 (lit "date") Hs) by by vm_compute. Qed.

Lemma same_freshness h1 h2 req : same_names h1 h2 -> getFreshness ParseTime ParseDuration now h1 req = getFreshness ParseTime ParseDuration now h2 req.
Proof.
  intros Hs. unfold getFreshness, lifetime_of. rewrite (same_control h1 h2 Hs), (same_Date h1 h2 Hs).
  by rewrite (same_Get h1 h2 (lit "Expires") Hs) by by vm_compute.
Qed.

Lemma same_stale h1 h2 req : same_names h1 h2 -> canStaleOnError ParseTime ParseDuration now h1 req = canStaleOnError ParseTime ParseDuration now h2 req.
Proof. intros Hs. unfold canStaleOnError. by rewrite (same_control h1 h2 Hs), (same_Date h1 h2 Hs). Qed.
End Fresh.

Lemma mark_names on cr : same_names (rs_Header (mark on cr)) (rs_Header cr).
Proof. intros name Hn. by apply mark_other. Qed.

Lemma varied_names req r : same_names (rs_Header (add_varied req r)) (rs_Header r).
Proof. intros name Hn. by apply add_varied_other. Qed.

Lemma mark_matches on cr req : varyMatches (mark on cr) req = varyMatches cr req.
Proof.
  unfold varyMatches. rewrite (same_all_values _ _ (mark_names on cr)). generalize (headerAllCommaSepValues (rs_Header cr) (lit "vary")). intros l.
  induction l as [|h l IH]; [done|]. cbn [forallb]. by rewrite IH, mark_varied_name.
Qed.

(** ** Validators *)

(** The request that is sent differs from the caller's at most by two headers. *)
Definition revalidates (req sent : HttpRequest) : Prop :=
  rq_Method sent = rq_Method req /\ rq_URL sent = rq_URL req /\
  forall k, k <> lit "If-None-Match" -> k <> lit "If-Modified-Since" -> rq_Header sent !! k = rq_Header req !! k.

Lemma revalidates_refl req : revalidates req req.
Proof. done. Qed.

Lemma with_header_validates req0 req name v :
  revalidates req0 req -> CanonicalHeaderKey name = lit "If-None-Match" \/ CanonicalHeaderKey name = lit "If-Modified-Since" ->
  revalidates req0 (with_header req name v).
Proof.
  intros (Hm & Hu & Hh) Hn. split_and!; [done..|]. intros k Hk1 Hk2. cbn. unfold header_Set. rewrite lookup_insert_ne; [by apply Hh|].
  destruct Hn as [-> | ->]; congruence.
Qed.

Lemma add_validators_only cached req : revalidates req (add_validators cached req).
Proof.
  unfold add_validators. assert (H1 : forall e, revalidates req (with_header req (lit "if-none-match") e)) by
    (intros e; apply with_header_validates; [done|left; by vm_compute]).
  repeat case_decide; try done; try (apply with_header_validates; [|right; by vm_compute]; done). 
  all: apply with_header_validates; [apply H1|right; by vm_compute].
Qed.

Lemma revalidates_cc req sent : revalidates req sent -> parseCacheControl (rq_Header sent) = parseCacheControl (rq_Header req).
Proof. intros (_ & _ & Hh). unfold parseCacheControl, header_Get. by rewrite Hh. Qed.

Lemma revalidates_key req sent : revalidates req sent -> cacheKey sent = cacheKey req.
Proof. intros (Hm & Hu & _). unfold cacheKey. by rewrite Hm, Hu. Qed.

#[export] Hint Resolve revalidates_refl add_validators_only : core.

(** ** Where a response comes from *)

Section Transport.
Context (ParseTime ParseDuration : gostring -> option Z).
Context {C : Type} `{HC : Cache C}.
Context (DumpResponse : HttpResponse -> option (list byte)) (ReadResponse : list byte -> option HttpResponse).
Context (MarkCachedResponses : bool).

Abbreviation getFresh now := (getFreshness ParseTime ParseDuration now).
Abbreviation round now tr := (RoundTrip ParseTime ParseDuration now DumpResponse ReadResponse MarkCachedResponses tr).
Abbreviation only_cached req := (is_Some (parseCacheControl (rq_Header req) !! lit "only-if-cached")).

(** The cached response the round trip looks at. *)
Definition cached_for (c : C) (req : HttpRequest) : option HttpResponse := if cacheable req then CachedResponse ReadResponse c req else None.

(** The same response but for its header. *)
Definition content_of (resp r : HttpResponse) : Prop := rs_Status resp = rs_Status r /\ rs_Body resp = rs_Body r.

(** What the transport promises about the origin of its answer, given the cached response. *)
Inductive origin (now : Z) (tr : HttpRequest -> option HttpResponse) (c : C) (req : HttpRequest) : trip -> Prop :=
| from_cache cr resp :
    cached_for c req = Some cr -> varyMatches cr req = true -> getFresh now (rs_Header cr) (rq_Header req) = fresh ->
    content_of resp cr -> origin now tr c req (mkTrip (Some resp) None c None)
| refused t :
    cached_for c req = None -> only_cached req -> tr_sent t = None -> (forall resp, tr_resp t = Some resp -> rs_Status resp = 504 /\ rs_Body resp = []) ->
    is_Some (tr_resp t) -> origin now tr c req t
| from_server t sent r resp :
    tr_sent t = Some sent -> revalidates req sent -> tr sent = Some r -> tr_resp t = Some resp -> content_of resp r -> origin now tr c req t
| validated t sent r cr resp :
    tr_sent t = Some sent -> revalidates req sent -> tr sent = Some r -> rs_Status r = 304 -> rq_Method req = GET ->
    cached_for c req = Some cr -> tr_resp t = Some resp -> content_of resp cr -> origin now tr c req t
| stale_on_error sent cr resp :
    revalidates req sent -> (forall r, tr sent = Some r -> 500 <= rs_Status r) -> rq_Method req = GET -> cached_for c req = Some cr ->
    canStaleOnError ParseTime ParseDuration now (rs_Header cr) (rq_Header req) = true -> content_of resp cr ->
    origin now tr c req (mkTrip (Some resp) (Some sent) c None)
| failed t sent :
    tr_sent t = Some sent -> revalidates req sent -> tr sent = None -> tr_resp t = None -> origin now tr c req t.

Lemma finish_resp key can req sent (c : C) resp :
  exists resp', tr_resp (finish DumpResponse key can req sent c resp) = Some resp' /\ content_of resp' resp /\
                tr_sent (finish DumpResponse key can req sent c resp) = sent.
Proof.
  unfold finish. destruct (can && _); [|by eexists]. case_decide; (eexists; split_and!; [done| |done]); apply add_varied_same.
Qed.

Lemma mark_content on cr : content_of (mark on cr) cr.
Proof. apply mark_same. Qed.

(** A cached response that answers the request. *)
Definition hit (now : Z) (c : C) (req : HttpRequest) : Prop :=
  exists cr, cached_for c req = Some cr /\ varyMatches cr req = true /\ getFresh now (rs_Header cr) (rq_Header req) = fresh.

Lemma finish_sent key can req sent (c : C) resp : tr_sent (finish DumpResponse key can req sent c resp) = sent.
Proof. edestruct finish_resp as (? & _ & _ & H). exact H. Qed.

(** A request is spared exactly when the cache answers, or when only the cache may answer. *)
Lemma round_spared now tr c req : (hit now c req \/ (cached_for c req = None /\ only_cached req)) -> tr_sent (round now tr c req) = None.
Proof.
  unfold RoundTrip. fold (cached_for c req). intros [(cr & -> & Hm & Hf)|[-> Ho]]; cbn zeta.
  - fold (mark MarkCachedResponses cr). rewrite mark_matches, (same_freshness _ _ _ _ _ _ (mark_names MarkCachedResponses cr)).
    by rewrite decide_True by done.
  - rewrite decide_True by done. apply finish_sent.
Qed.

Lemma round_origin now tr (c : C) (req : HttpRequest) : origin now tr c req (round now tr c req).
Proof.
  unfold RoundTrip. fold (cached_for c req). destruct (cached_for c req) as [cr|] eqn:Ec; cbn zeta.
  - assert (Hcan : cacheable req = true) by (unfold cached_for in Ec; by destruct (cacheable req)). rewrite Hcan.
    fold (mark MarkCachedResponses cr). rewrite mark_matches, (same_freshness _ _ _ _ _ _ (mark_names MarkCachedResponses cr)).
    case_decide as Hhit; [destruct Hhit; eapply from_cache; eauto using mark_content|].
    match goal with |- context [tr ?s] => set (sent := s) end.
    assert (Hs : revalidates req sent) by (subst sent; case_decide; auto).
    rewrite (same_stale _ _ _ _ _ _ (mark_names MarkCachedResponses cr)).
    assert (Hmeth : rq_Method sent = rq_Method req) by apply Hs. rewrite Hmeth.
    assert (Hstale : canStaleOnError ParseTime ParseDuration now (rs_Header cr) (rq_Header sent) = canStaleOnError ParseTime ParseDuration now (rs_Header cr) (rq_Header req))
      by (unfold canStaleOnError; by rewrite (revalidates_cc _ _ Hs)).
    rewrite Hstale. destruct (tr sent) as [r|] eqn:Er.
    + case_decide as H304.
      * edestruct finish_resp as (resp & Hr & Hc & Hsent). destruct H304. eapply validated; eauto. destruct Hc as [Hc1 Hc2]. cbn in Hc1, Hc2.
        split; [rewrite Hc1|rewrite Hc2]; apply mark_content.
      * destruct ((500 <=? rs_Status r) && _) eqn:Ee.
        -- apply andb_prop in Ee as [E5 Ee]. apply andb_prop in Ee as [Eg Es]. eapply stale_on_error; eauto using mark_content.
           ++ intros r' Hr'. assert (r' = r) by congruence. subst. lia.
           ++ by apply bool_decide_eq_true in Eg.
        -- edestruct finish_resp as (resp & Hr & Hc & Hsent). eapply from_server; eauto.
    + destruct (bool_decide _ && _) eqn:Ee; [|by eapply failed]. apply andb_prop in Ee as [Eg Es].
      eapply stale_on_error; eauto using mark_content; [intros; congruence|]. by apply bool_decide_eq_true in Eg.
  - case_decide as Ho.
    + edestruct finish_resp as (resp & Hr & Hc & Hsent). eapply refused; eauto. intros resp' E. assert (resp' = resp) by congruence. subst. apply Hc.
    + destruct (tr req) as [r|] eqn:Er; [|by eapply failed]. edestruct finish_resp as (resp & Hr & Hc & Hsent). eapply from_server; eauto.
Qed.
(** Every answer has one of six origins: a cached response that matches the request by its Vary
    header and is fresh, given without a request and without a change of the cache; a 504 when only a
    cached response was wanted and there is none; the server's answer to the request, to which only
    validators were added; the cached response after the server said 304; the cached response, when
    the server failed and stale-if-error allows it; or the error of the transport.  No request is
    sent exactly when the cache answers, or when only the cache may answer and does not. *)
Theorem http_sources now tr (c : C) (req : HttpRequest) :
  origin now tr c req (round now tr c req) /\
  (tr_sent (round now tr c req) = None <-> hit now c req \/ (cached_for c req = None /\ only_cached req)).
Proof.
  split; [apply round_origin|]. split; [|apply round_spared]. intros Hs. pose proof (round_origin now tr c req) as Ho.
  destruct Ho as [cr|t| | | |]; try congruence; try done; [left; by exists cr|by right].
Qed.

(** ** Bodies and the content of the cache *)

Context `{HL : !CacheLaws C}.

Lemma get_store (c : C) k k' r :
  cache_Get (store DumpResponse c k r) k' = match DumpResponse r with Some b => if decide (k' = k) then Some b else cache_Get c k' | None => cache_Get c k' end.
Proof. unfold store. destruct (DumpResponse r); [apply get_set|done]. Qed.

(** The calls meet the end of a body. *)
Fixpoint reaches_eof (calls : list (nat * bool)) (R : list byte) : bool :=
  match calls with
  | [] => false
  | (n, early) :: calls => (bool_decide (drop n R = []) && (early || bool_decide (take n R = []))) || reaches_eof calls (drop n R)
  end.

(** Whenever the end is met, the copy is the whole body. *)
Lemma read_body_get calls key resp R buf (c : C) k :
  cache_Get (read_body DumpResponse calls key resp (mkReader R buf) c) k =
  if reaches_eof calls R then cache_Get (store DumpResponse c key (mkResp (rs_Status resp) (rs_Header resp) (buf ++ R))) k else cache_Get c k.
Proof.
  revert R buf c. induction calls as [|[n early] calls IH]; intros R buf c; [done|]. cbn [read_body reaches_eof rd_Read rd_R rd_buf].
  rewrite IH, <- app_assoc, take_drop.
  destruct (bool_decide (drop n R = []) && _) eqn:Ee; cbn [orb]; [|done].
  apply andb_prop in Ee as [Er _]. apply bool_decide_eq_true in Er.
  assert (Et : take n R = R) by (rewrite <- (take_drop n R) at 2; by rewrite Er, app_nil_r). rewrite Et.
  destruct (reaches_eof calls (drop n R)); [|done]. rewrite !get_store. destruct (DumpResponse _); [|done]. by case_decide.
Qed.

Lemma resp_eta r : mkResp (rs_Status r) (rs_Header r) (rs_Body r) = r.
Proof. by destruct r. Qed.

Abbreviation exch now tr := (exchange ParseTime ParseDuration now DumpResponse ReadResponse MarkCachedResponses tr).

Lemma exchange_get now tr calls (c : C) req k :
  let t := round now tr c req in
  cache_Get (exch now tr calls c req).2 k =
  match tr_onEOF t, tr_resp t with
  | Some key, Some resp => if reaches_eof calls (rs_Body resp) then cache_Get (store DumpResponse (tr_cache t) key resp) k else cache_Get (tr_cache t) k
  | _, _ => cache_Get (tr_cache t) k
  end.
Proof.
  unfold exchange. cbn [snd]. destruct (tr_onEOF _); [|done]. destruct (tr_resp _) as [resp|]; [|done]. rewrite read_body_get. cbn [app]. by rewrite resp_eta.
Qed.

(** A new entry is a response that may be stored, under the key of the request. *)
Lemma finish_get key can req sent (c : C) resp calls k b :
  let t := finish DumpResponse key can req sent c resp in
  match tr_onEOF t, tr_resp t with
  | Some key, Some resp => if reaches_eof calls (rs_Body resp) then cache_Get (store DumpResponse (tr_cache t) key resp) k else cache_Get (tr_cache t) k
  | _, _ => cache_Get (tr_cache t) k
  end = Some b ->
  cache_Get c k = Some b \/
  (k = key /\ can = true /\ canStore (parseCacheControl (rq_Header req)) (parseCacheControl (rs_Header resp)) = true /\ DumpResponse (add_varied req resp) = Some b).
Proof.
  unfold finish. destruct (can && _) eqn:Ecan.
  - apply andb_prop in Ecan as [Hcan Ecan]. case_decide; cbn [tr_onEOF tr_resp tr_cache].
    + destruct (reaches_eof _ _); [|by left]. rewrite get_store. destruct (DumpResponse _) eqn:Ed; [|by left]. case_decide; [|by left]. subst. right. split_and!; [done..|congruence].
    + rewrite get_store. destruct (DumpResponse _) eqn:Ed; [|by left]. case_decide; [|by left]. subst. right. split_and!; [done..|congruence].
  - cbn [tr_onEOF tr_cache]. rewrite get_delete. case_decide; [done|by left].
Qed.

Lemma delete_keeps (c : C) key k b (on : bool) : cache_Get (if on then c else cache_Delete c key) k = Some b -> cache_Get c k = Some b.
Proof. destruct on; [done|]. rewrite get_delete. by case_decide. Qed.

(** A response that may be stored for a request. *)
Definition storable (req : HttpRequest) (resp : HttpResponse) : Prop := canStore (parseCacheControl (rq_Header req)) (parseCacheControl (rs_Header resp)) = true.

(** What an exchange can add: the server's answer, the cached answer that the server validated, or the 504. *)
Lemma exchange_adds now tr calls (c : C) req k b :
  cache_Get (exch now tr calls c req).2 k = Some b -> cache_Get c k = Some b \/
  (k = cacheKey req /\ cacheable req = true /\ exists sent resp, revalidates req sent /\ storable sent resp /\ DumpResponse (add_varied sent resp) = Some b /\
   (tr sent = Some resp \/ (exists cr, CachedResponse ReadResponse c req = Some cr /\ content_of resp cr) \/
    resp = newGatewayTimeoutResponse /\ only_cached req)).
Proof.
  rewrite exchange_get. cbn zeta. unfold RoundTrip. fold (cached_for c req). destruct (cached_for c req) as [cr|] eqn:Ec; cbn zeta.
  - assert (Hcr : CachedResponse ReadResponse c req = Some cr) by (unfold cached_for in Ec; by destruct (cacheable req)).
    fold (mark MarkCachedResponses cr). case_decide as Hhit; [intros H%delete_keeps; by left|].
    match goal with |- context [tr ?s] => set (sent := s) end.
    assert (Hs : revalidates req sent) by (subst sent; case_decide; auto).
    destruct (tr sent) as [r|] eqn:Er.
    + case_decide as H304; [|destruct (_ && _); [intros H%delete_keeps; by left|]]; intros [H|(-> & Hcan & Hst & Hd)]%finish_get.
      * apply delete_keeps in H. by left.
      * right. do 2 (split; [done|]). exists sent. eexists. split_and!; [done..|]. right. left. exists cr. split; [done|]. apply mark_content.
      * destruct (_ =? _); [|rewrite get_delete in H; case_decide; [done|]]; apply delete_keeps in H; by left.
      * right. do 2 (split; [done|]). exists sent, r. split_and!; [done..|]. by left.
    + destruct (_ && _); cbn; [intros H%delete_keeps; by left|]. rewrite get_delete. case_decide as Hk; [done|]. intros H%delete_keeps. by left.
  - case_decide as Ho; [|destruct (tr req) as [r|] eqn:Er; [|intros H%delete_keeps; by left]]; intros [H|(-> & Hcan & Hst & Hd)]%finish_get;
      try (apply delete_keeps in H; by left); right; do 2 (split; [done|]); exists req; eexists; split_and!; eauto.
Qed.

(** ** Any use of the transport *)

(** A use: the time, the server at that time, the request, and how the caller reads the body. *)
Record use := mkUse { u_now : Z; u_server : HttpRequest -> option HttpResponse; u_req : HttpRequest; u_calls : list (nat * bool) }.

Definition run (c : C) (us : list use) : C := foldl (fun c u => (exch (u_now u) (u_server u) (u_calls u) c (u_req u)).2) c us.

Definition no_store (h : Header) : bool := bool_decide (is_Some (parseCacheControl h !! lit "no-store")).

(** The answer of a server to one of the uses, with the key and without no-store on either side; or
    the 504 of a use that only wanted a cached response. *)
Definition came_from (us : list use) (k : gostring) (resp : HttpResponse) : Prop :=
  (exists u sent r, (u ∈ us) /\ revalidates (u_req u) sent /\ cacheKey (u_req u) = k /\ no_store (rq_Header (u_req u)) = false /\
     u_server u sent = Some r /\ no_store (rs_Header r) = false /\ content_of resp r) \/
  (exists u, (u ∈ us) /\ only_cached (u_req u) /\ cacheKey (u_req u) = k /\ no_store (rq_Header (u_req u)) = false /\ content_of resp newGatewayTimeoutResponse).

(** The entry was put there by the use at [i], and has been there since. *)
Definition stored_by (c : C) (us : list use) (i : nat) (k : gostring) (b : list byte) : Prop :=
  cache_Get (run c (take i us)) k <> Some b /\ forall m, (i < m <= length us)%nat -> cache_Get (run c (take m us)) k = Some b.

(** An entry was stored by a use whose request has its key, can be cached and has no no-store; it is a
    response without no-store, with the content of [came_from]. *)
Definition entry_ok (c : C) (us : list use) (k : gostring) (b : list byte) : Prop :=
  exists i u resp, us !! i = Some u /\ stored_by c us i k b /\ cacheKey (u_req u) = k /\ cacheable (u_req u) = true /\ no_store (rq_Header (u_req u)) = false /\
    DumpResponse resp = Some b /\ no_store (rs_Header resp) = false /\ came_from (take (S i) us) k resp.

Hypothesis read_dump : forall r b, DumpResponse r = Some b -> exists r', ReadResponse b = Some r' /\ content_of r' r.

Lemma content_trans a b c : content_of a b -> content_of b c -> content_of a c.
Proof. unfold content_of. intuition congruence. Qed.

Lemma came_from_mono us us' k resp : (forall u, u ∈ us -> u ∈ us') -> came_from us k resp -> came_from us' k resp.
Proof. intros Hsub [(u & sent & r & Hu & Hrest)|(u & Hu & Hrest)]; [left; exists u, sent, r; auto|right; exists u; auto]. Qed.

Lemma came_from_content us k resp resp' : content_of resp' resp -> came_from us k resp -> came_from us k resp'.
Proof.
  intros Hc [(u & sent & r & ? & ? & ? & ? & ? & ? & Hr)|(u & ? & ? & ? & ? & Hr)]; [left; exists u, sent, r|right; exists u]; split_and!; try done; by eapply content_trans.
Qed.

Lemma run_snoc c us u : run c (us ++ [u]) = (exch (u_now u) (u_server u) (u_calls u) (run c us) (u_req u)).2.
Proof. unfold run. by rewrite foldl_snoc. Qed.

(** An entry that is still there. *)
Lemma entry_ok_kept c us u k b : entry_ok c us k b -> cache_Get (run c (us ++ [u])) k = Some b -> entry_ok c (us ++ [u]) k b.
Proof.
  intros (i & u0 & resp & Hi & [Hnot Hsince] & Hrest) Hb. pose proof (lookup_lt_Some _ _ _ Hi) as Hlt.
  exists i, u0, resp. rewrite take_app_le by lia. split; [by apply lookup_app_l_Some|]. split; [|exact Hrest].
  split; [by rewrite take_app_le by lia|]. rewrite length_app. cbn. intros m Hm. destruct (decide (m <= length us)%nat) as [Hle|Hgt].
  - rewrite take_app_le by done. apply Hsince. lia.
  - rewrite take_ge by (rewrite length_app; cbn; lia). exact Hb.
Qed.

(** The last use has stored an entry. *)
Lemma stored_by_last c us u k b : cache_Get (run c us) k <> Some b -> cache_Get (run c (us ++ [u])) k = Some b -> stored_by c (us ++ [u]) (length us) k b.
Proof.
  intros Hnot Hb. split; [by rewrite take_app_length|]. rewrite length_app. cbn. intros m Hm. rewrite take_ge by (rewrite length_app; cbn; lia). exact Hb.
Qed.

Lemma storable_no_store sent resp : storable sent resp ->
  no_store (rs_Header resp) = false /\ no_store (rs_Header (add_varied sent resp)) = false /\ no_store (rq_Header sent) = false.
Proof.
  unfold storable, canStore, no_store. rewrite (same_control _ _ (varied_names sent resp)). repeat case_decide; [done..|].
  intros _. by rewrite !bool_decide_eq_false_2.
Qed.

Lemma revalidates_no_store req sent : revalidates req sent -> no_store (rq_Header sent) = no_store (rq_Header req).
Proof. intros H. unfold no_store. by rewrite (revalidates_cc _ _ H). Qed.

(** The content of a cached response is that of an entry. *)
Lemma cached_from c us req cr : (forall k b, cache_Get (run c us) k = Some b -> entry_ok c us k b) ->
  CachedResponse ReadResponse (run c us) req = Some cr -> came_from us (cacheKey req) cr.
Proof.
  intros Hinv (b & Hb & Hread)%bind_Some. destruct (Hinv _ _ Hb) as (i & u & resp & Hi & _ & _ & _ & _ & Hd & _ & Hfrom).
  destruct (read_dump _ _ Hd) as (r' & Hr' & Hc). assert (r' = cr) by congruence. subst r'. eapply came_from_content; [exact Hc|].
  eapply came_from_mono; [|exact Hfrom]. intros x Hx. rewrite <- (take_drop (S i) us). apply elem_of_app. by left.
Qed.

Lemma exchange_entry c us u k b :
  (forall k b, cache_Get (run c us) k = Some b -> entry_ok c us k b) -> cache_Get (run c (us ++ [u])) k = Some b -> entry_ok c (us ++ [u]) k b.
Proof.
  intros Hinv Hb. destruct (decide (cache_Get (run c us) k = Some b)) as [Hold|Hnew]; [apply entry_ok_kept; auto|].
  pose proof (stored_by_last c us u k b Hnew Hb) as Hst. rewrite run_snoc in Hb. apply exchange_adds in Hb as [?|(-> & Hcan & sent & resp & Hs & Hok & Hd & Hfrom)]; [done|].
  destruct (storable_no_store _ _ Hok) as (Hr & Hr' & Hq). rewrite (revalidates_no_store _ _ Hs) in Hq.
  exists (length us), u, (add_varied sent resp). split_and!; [by apply list_lookup_middle|done..|].
  rewrite take_ge by (rewrite length_app; cbn; lia). apply (came_from_content _ _ resp); [apply add_varied_same|].
  assert (Hu : u ∈ us ++ [u]) by (apply elem_of_app; right; by left).
  destruct Hfrom as [Hsrv|[(cr & Hcr & Hc)|[-> Ho]]].
  - left. by exists u, sent, resp.
  - eapply came_from_content; [exact Hc|]. eapply came_from_mono; [|by apply (cached_from c us)]. intros x Hx. apply elem_of_app. by left.
  - right. by exists u.
Qed.

(** C29. After any sequence of requests, at any times and with any servers, whatever is cached under
    a key was stored in one of the exchanges and has been there since.  The request of that exchange
    has the key, is a GET or HEAD without a range and does not say no-store, nor does the stored
    response; and its status and body are those of an answer a server gave to a request with the key,
    where neither said no-store, or those of the 504 made up for a request with the key that only
    wanted a cached response.  (What counts as no-store is what [parseCacheControl] finds.) *)
Theorem http_cache_content c us k b :
  (forall k, cache_Get c k = None) -> cache_Get (run c us) k = Some b -> entry_ok c us k b.
Proof.
  intros Hempty. revert k b. induction us as [|u us IH] using rev_ind; intros k b; [cbn; by rewrite Hempty|]. by apply exchange_entry.
Qed.
End Transport.

(** ** Stored and found *)

(** The headers that the wire form of a response may change. *)
Definition framing : list gostring := [lit "Connection"; lit "Content-Length"; lit "Trailer"; lit "Transfer-Encoding"].

(** A response read back: the same content, and the same values of all headers but the framing. *)
Definition read_back (r' r : HttpResponse) : Prop :=
  content_of r' r /\ forall k, k ∉ framing -> rs_Header r' !! k = rs_Header r !! k.

Lemma Canonical_Get h1 h2 name : h1 !! CanonicalHeaderKey name = h2 !! CanonicalHeaderKey name -> header_Get h1 name = header_Get h2 name.
Proof. unfold header_Get. by intros ->. Qed.

Section Found.
Context (ParseTime ParseDuration : gostring -> option Z).

Lemma read_back_fresh now r' r req : read_back r' r -> getFreshness ParseTime ParseDuration now (rs_Header r') req = getFreshness ParseTime ParseDuration now (rs_Header r) req.
Proof.
  intros [_ Hh]. unfold getFreshness, lifetime_of, Date, parseCacheControl.
  rewrite !(Canonical_Get (rs_Header r') (rs_Header r)); [done|..]; apply Hh; vm_compute; set_solver.
Qed.

Lemma varied_not_framing h : varied h ∉ framing.
Proof. unfold framing. rewrite !not_elem_of_cons. split_and!; try by destruct h. apply not_elem_of_nil. Qed.

Lemma read_back_matches r' r req : read_back r' r -> varyMatches r' req = varyMatches r req.
Proof.
  intros [_ Hh]. unfold varyMatches, headerAllCommaSepValues. rewrite Hh by (vm_compute; set_solver).
  generalize (mjoin ((λ v, TrimSpace <$> Split v c_sep) <$> default [] (rs_Header r !! CanonicalHeaderKey (lit "vary")))). intros l.
  induction l as [|h l IH]; [done|]. cbn [forallb]. rewrite IH. do 3 f_equal. rewrite (Canonical_Get (rs_Header r') (rs_Header r)); [done|].
  rewrite Canonical_varied. apply Hh, varied_not_framing.
Qed.

(** A response marked for a request matches the requests that agree with it on the headers it varies by. *)
Lemma add_varied_matches req req' r :
  (forall h, header_Get (rs_Header r) (varied (CanonicalHeaderKey h)) = []) ->
  (forall h, h ∈ headerAllCommaSepValues (rs_Header r) (lit "vary") -> header_Get (rq_Header req') h = header_Get (rq_Header req) h) ->
  varyMatches (add_varied req r) req' = true.
Proof.
  intros Hnone Hagree. unfold varyMatches. rewrite (same_all_values _ _ (varied_names req r)). apply forallb_forall. intros h Hin%list_elem_of_In.
  apply orb_true_intro. right. apply bool_decide_eq_true. unfold add_varied. fold (mark_varied req).
  rewrite (mark_varied_value req _ r h (Hnone h) Hin). unfold header_Get in *. rewrite !Canonical_idem. by apply Hagree.
Qed.

Context {C : Type} `{HC : Cache C} `{HL : !CacheLaws C}.
Context (DumpResponse : HttpResponse -> option (list byte)) (ReadResponse : list byte -> option HttpResponse).
Context (MarkCachedResponses : bool).

Abbreviation round now tr := (RoundTrip ParseTime ParseDuration now DumpResponse ReadResponse MarkCachedResponses tr).
Abbreviation exch now tr := (exchange ParseTime ParseDuration now DumpResponse ReadResponse MarkCachedResponses tr).

(** A response to a GET that may be stored, once its body has been read to the end, is given to a
    later GET of the same URL without a request to the server, with the same status and body and the
    cache unchanged, as long as it is fresh and the two requests agree on the headers the response
    varies by. *)
Theorem http_hit now now' server server' (c : C) req req' r b calls :
  rq_Method req = GET -> cacheable req = true -> CachedResponse ReadResponse c req = None ->
  parseCacheControl (rq_Header req) !! lit "only-if-cached" = None ->
  server req = Some r -> storable req r -> (forall h, header_Get (rs_Header r) (varied (CanonicalHeaderKey h)) = []) ->
  reaches_eof calls (rs_Body r) = true ->
  DumpResponse (add_varied req r) = Some b -> (exists r', ReadResponse b = Some r' /\ read_back r' (add_varied req r)) ->
  rq_Method req' = GET -> rq_URL req' = rq_URL req -> cacheable req' = true ->
  (forall h, h ∈ headerAllCommaSepValues (rs_Header r) (lit "vary") -> header_Get (rq_Header req') h = header_Get (rq_Header req) h) ->
  getFreshness ParseTime ParseDuration now' (rs_Header r) (rq_Header req') = fresh ->
  let c' := (exch now server calls c req).2 in
  exists resp, round now' server' c' req' = mkTrip (Some resp) None c' None /\ rs_Status resp = rs_Status r /\ rs_Body resp = rs_Body r.
Proof.
  intros Hm Hcan Hmiss Honly Hsrv Hst Hnone Hall Hd (r' & Hread & Hback) Hm' Hu' Hcan' Hagree Hfresh. cbn zeta.
  set (c' := (exch now server calls c req).2).
  assert (Hget : cache_Get c' (cacheKey req') = Some b).
  { assert (Ek : cacheKey req' = rq_URL req) by (unfold cacheKey; by rewrite decide_True by done). subst c'. rewrite exchange_get by exact HL. rewrite Ek. cbn zeta.
    unfold RoundTrip. rewrite Hcan, Hmiss. cbn zeta. rewrite decide_False by (rewrite Honly; apply is_Some_None). rewrite Hsrv. unfold finish.
    unfold storable in Hst. rewrite Hst. cbn [andb]. rewrite decide_True by done. cbn [tr_onEOF tr_resp tr_cache].
    rewrite (proj2 (add_varied_same req r)), Hall. rewrite get_store by exact HL. rewrite Hd. rewrite decide_True; [done|]. unfold cacheKey. by rewrite decide_True. }
  unfold RoundTrip. rewrite Hcan'. unfold CachedResponse. rewrite Hget. cbn [mbind option_bind]. rewrite Hread. cbn zeta.
  fold (mark MarkCachedResponses r'). rewrite mark_matches, (same_freshness _ _ _ _ _ _ (mark_names MarkCachedResponses r')).
  rewrite (read_back_matches _ _ _ Hback), add_varied_matches by done. rewrite (read_back_fresh _ _ _ _ Hback), (same_freshness _ _ _ _ _ _ (varied_names req r)), Hfresh.
  rewrite decide_True by done. eexists. split; [done|]. destruct Hback as [[Hs Hb] _]. destruct (add_varied_same req r) as [Hs2 Hb2].
  destruct (mark_same MarkCachedResponses r') as [-> ->]. split; congruence.
Qed.
End Found.

#[export] Instance MemoryCache_Laws : CacheLaws MemoryCache.
Proof.
  split; intros c k k' *; cbn; unfold mc_Get, mc_Set, mc_Delete; case_decide; subst.
  - apply lookup_insert_eq.
  - by apply lookup_insert_ne.
  - apply lookup_delete_eq.
  - by apply lookup_delete_ne.
Qed.

(** ** A wire form *)

Module Wire.

Fixpoint of_pos (p : positive) : list byte :=
  match p with xH => [] | xO p => Byte.x00 :: of_pos p | xI p => Byte.x01 :: of_pos p end.
Fixpoint to_pos (b : list byte) : positive :=
  match b with [] => xH | Byte.x00 :: b => xO (to_pos b) | _ :: b => xI (to_pos b) end.

Lemma to_of_pos p : to_pos (of_pos p) = p.
Proof. by induction p as [p IH|p IH|]; cbn; rewrite ?IH. Qed.

Definition wire (r : HttpResponse) : list byte := of_pos (encode (rs_Status r, rs_Header r, rs_Body r)).
Definition dump (r : HttpResponse) : option (list byte) := Some (wire r).
Definition read (b : list byte) : option HttpResponse := (fun '(s, h, body) => mkResp s h body) <$> decode (to_pos b).

Lemma read_dump r b : dump r = Some b -> read b = Some r.
Proof. intros [= <-]. unfold read, wire. rewrite to_of_pos, decode_encode. by destruct r. Qed.

Definition time_of (s : gostring) : option Z := Some 0.
Definition seconds_of (s : gostring) : option Z := Some (60 * 10 ^ 9).

Definition page : HttpResponse :=
  mkResp 200 (<[lit "Cache-Control" := [lit "max-age=60"]]> (<[lit "Vary" := [lit "Accept"]]> (<[lit "Date" := [lit "today"]]> ∅))) (lit "hello").
Definition get (h : Header) : HttpRequest := mkReq GET (lit "/page") h.
Definition html : HttpRequest := get (<[lit "Accept" := [lit "text/html"]]> ∅).
Definition server (_ : HttpRequest) : option HttpResponse := Some page.

Lemma page_unmarked h : header_Get (rs_Header page) (varied (CanonicalHeaderKey h)) = [].
Proof. unfold header_Get. rewrite Canonical_varied. unfold page. cbn [rs_Header]. by rewrite !lookup_insert_ne, lookup_empty. Qed.

End Wire.

Lemma http_cache_content_witness :
  exists b : list byte,
    cache_Get (run Wire.time_of Wire.seconds_of Wire.dump Wire.read true (∅ : MemoryCache) [mkUse 5 Wire.server Wire.html [(10%nat, true)]]) (lit "/page") = Some b /\
    entry_ok Wire.time_of Wire.seconds_of Wire.dump Wire.read true ∅ [mkUse 5 Wire.server Wire.html [(10%nat, true)]] (lit "/page") b.
Proof.
  eexists. split; [vm_compute; reflexivity|].
  eapply (http_cache_content Wire.time_of Wire.seconds_of Wire.dump Wire.read true).
  - intros r b Hd. exists r. split; [by apply Wire.read_dump|done].
  - intros k. apply lookup_empty.
  - vm_compute. reflexivity.
Defined.

Lemma http_hit_witness :
  exists resp, RoundTrip Wire.time_of Wire.seconds_of 7 Wire.dump Wire.read true (fun _ => None)
                 (exchange Wire.time_of Wire.seconds_of 5 Wire.dump Wire.read true Wire.server [(3%nat, false); (9%nat, true)] (∅ : MemoryCache) Wire.html).2 Wire.html =
               mkTrip (Some resp) None (exchange Wire.time_of Wire.seconds_of 5 Wire.dump Wire.read true Wire.server [(3%nat, false); (9%nat, true)] (∅ : MemoryCache) Wire.html).2 None /\
               rs_Status resp = 200 /\ rs_Body resp = lit "hello".
Proof.
  apply (http_hit Wire.time_of Wire.seconds_of Wire.dump Wire.read true 5 7 Wire.server (fun _ => None) (∅ : MemoryCache) Wire.html Wire.html Wire.page
           (Wire.wire (add_varied Wire.html Wire.page)) [(3%nat, false); (9%nat, true)]);
    try reflexivity; try done.
  - apply Wire.page_unmarked.
  - exists (add_varied Wire.html Wire.page). by split; [apply Wire.read_dump|].
Defined.

(** ** Where the transport departs from its documentation *)

Module Departures.

(** Only the first line of Cache-Control counts, and names are compared as they are written: a
    no-store on a second line, or in capitals, does not keep a response from being stored. *)
Theorem no_store_overlooked :
  canStore (parseCacheControl ∅) (parseCacheControl (<[lit "Cache-Control" := [lit "max-age=60"; lit "no-store"]]> ∅)) = true /\
  canStore (parseCacheControl ∅) (parseCacheControl (<[lit "Cache-Control" := [lit "No-Store"]]> ∅)) = true.
Proof. by vm_compute. Qed.

(** A header named after a comma and a space in Connection is not taken for hop-by-hop. *)
Theorem connection_untrimmed :
  bool_decide (lit "X-Hop" ∈ hopByHopHeaders (<[lit "Connection" := [lit "close, X-Hop"]]> ∅)) = false /\
  bool_decide (lit "X-Hop" ∈ hopByHopHeaders (<[lit "Connection" := [lit "close,X-Hop"]]> ∅)) = true.
Proof. by vm_compute. Qed.

Definition json : HttpRequest := Wire.get (<[lit "Accept" := [lit "application/json"]]> (<[lit "If-None-Match" := [lit "j1"]]> ∅)).
Definition not_modified (_ : HttpRequest) : option HttpResponse := Some (mkResp 304 ∅ []).

(** The server says that the JSON the caller holds is current; the caller is given the HTML of another
    request, which the cache holds under the same URL, with status 200. *)
Theorem other_variant_served :
  let c := (exchange Wire.time_of Wire.seconds_of 5 Wire.dump Wire.read false Wire.server [(9%nat, true)] (∅ : MemoryCache) Wire.html).2 in
  varyMatches (add_varied Wire.html Wire.page) json = false /\
  (fun r => (rs_Status r, rs_Body r)) <$> tr_resp (RoundTrip Wire.time_of Wire.seconds_of 6 Wire.dump Wire.read false not_modified c json) = Some (200, lit "hello").
Proof. by vm_compute. Qed.

Definition only_cached : HttpRequest := Wire.get (<[lit "Cache-Control" := [lit "only-if-cached"]]> ∅).
Definition tolerant : HttpRequest := Wire.get (<[lit "Cache-Control" := [lit "stale-if-error"]]> ∅).

(** The 504 made up for a request that only wants a cached response is itself cached, and answers a
    later request whose server cannot be reached. *)
Theorem gateway_timeout_cached :
  let c := (exchange Wire.time_of Wire.seconds_of 5 Wire.dump Wire.read false Wire.server [(9%nat, true)] (∅ : MemoryCache) only_cached).2 in
  (fun r => (rs_Status r, rs_Body r)) <$> tr_resp (RoundTrip Wire.time_of Wire.seconds_of 6 Wire.dump Wire.read false (fun _ => None) c tolerant) = Some (504, []).
Proof. by vm_compute. Qed.

End Departures.
