(* ===== verification/GcsLocks.v ===== *)
(** The per-object locks of the storage emulator: [pkg/emulators/storage/gcsutil]
    (transient_lock_map.go, counted_lock.go).

    A lock is a channel of one element with a count of the goroutines that refer to it; the map holds
    the locks in use.  The goroutines are a list of control states, and a step is one critical
    section of the map's mutex or one operation on a channel. *)

From S2P Require Import Prelude.

(** ** Locks *)

(** [ch] is full when the lock is held. *)
Record countedLock := mkLock { ch : bool; refcount : Z }.

Definition newCountedLock : countedLock := mkLock false 0.

(** [countedLock.Lock] and [countedLock.Unlock] on the channel: [None] is a send that blocks, a panic. *)
Definition ch_push (l : countedLock) : option countedLock := if ch l then None else Some (mkLock true (refcount l)).
Definition ch_pop (l : countedLock) : option countedLock := if ch l then Some (mkLock false (refcount l)) else None.

(** [TransientLockMap]: the locks by key, and the heap they live in. *)
Record TransientLockMap := mkMap { locks : gmap gostring nat; heap : gmap nat countedLock }.

Definition NewTransientLockMap : TransientLockMap := mkMap ∅ ∅.

(** The first critical section of [Lock]. *)
Definition Lock_find (key : gostring) (m : TransientLockMap) : option (nat * TransientLockMap) :=
  let '(a, m) :=
    match locks m !! key with
    | Some a => (a, m)
    | None => let a := fresh (dom (heap m)) in (a, mkMap (<[key := a]> (locks m)) (<[a := newCountedLock]> (heap m)))
    end in
  l ← heap m !! a;
  Some (a, mkMap (locks m) (<[a := mkLock (ch l) (i64 (refcount l + 1))]> (heap m))).

(** The critical section of [Unlock]; [None] is its panic. *)
Definition Unlock_find (key : gostring) (m : TransientLockMap) : option nat := locks m !! key.

(** [returnLockObj]; [None] is its panic. *)
Definition returnLockObj (key : gostring) (a : nat) (m : TransientLockMap) : option TransientLockMap :=
  l ← heap m !! a;
  let n := i64 (refcount l - 1) in
  if n <? 0 then None
  else Some (mkMap (if n =? 0 then delete key (locks m) else locks m) (<[a := mkLock (ch l) n]> (heap m))).

Definition with_lock (a : nat) (f : countedLock -> option countedLock) (m : TransientLockMap) : option TransientLockMap :=
  l ← heap m !! a; l' ← f l; Some (mkMap (locks m) (<[a := l']> (heap m))).

(** ** Goroutines

    Where a goroutine stands in [Run]; the address is the local variable [lock]. *)

Inductive pc :=
| Idle                                       (* outside *)
| Found (key : gostring) (a : nat)           (* Lock: the reference is counted *)
| Select (key : gostring) (a : nat)          (* Lock: ctx.Err() was nil *)
| GaveUp (key : gostring) (a : nat)          (* Lock: the context is done *)
| Holding (key : gostring) (a : nat)         (* Lock has returned true: the callback runs *)
| Unlocking (key : gostring) (a : nat)       (* Unlock: the lock was found in the map *)
| Returning (key : gostring) (a : nat)       (* Unlock: the channel is empty again *)
| Panicked.

Record world := mkWorld { w_map : TransientLockMap; w_pcs : list pc; w_done : gset nat }.

Definition init (n : nat) : world := mkWorld NewTransientLockMap (replicate n Idle) ∅.

Definition set_pc (t : nat) (p : pc) (m : TransientLockMap) (w : world) : world := mkWorld m (<[t := p]> (w_pcs w)) (w_done w).

(** The next critical section or channel operation of a goroutine. *)
Inductive step (t : nat) (w : world) : world -> Prop :=
(* the context of the goroutine is cancelled or runs out *)
| S_done : step t w (mkWorld (w_map w) (w_pcs w) ({[t]} ∪ w_done w))
(* Lock *)
| S_find key a m :
    w_pcs w !! t = Some Idle -> Lock_find key (w_map w) = Some (a, m) -> step t w (set_pc t (Found key a) m w)
| S_check key a :
    w_pcs w !! t = Some (Found key a) ->
    step t w (set_pc t (if decide (t ∈ w_done w) then GaveUp key a else Select key a) (w_map w) w)
| S_push key a m :
    w_pcs w !! t = Some (Select key a) -> with_lock a ch_push (w_map w) = Some m -> step t w (set_pc t (Holding key a) m w)
| S_ctx key a :
    w_pcs w !! t = Some (Select key a) -> (t ∈ w_done w) -> step t w (set_pc t (GaveUp key a) (w_map w) w)
| S_give key a :
    w_pcs w !! t = Some (GaveUp key a) ->
    step t w (match returnLockObj key a (w_map w) with Some m => set_pc t Idle m w | None => set_pc t Panicked (w_map w) w end)
(* Unlock *)
| S_unlock key a0 :
    w_pcs w !! t = Some (Holding key a0) ->
    step t w (set_pc t (match Unlock_find key (w_map w) with Some a => Unlocking key a | None => Panicked end) (w_map w) w)
| S_pop key a :
    w_pcs w !! t = Some (Unlocking key a) ->
    step t w (match with_lock a ch_pop (w_map w) with Some m => set_pc t (Returning key a) m w | None => set_pc t Panicked (w_map w) w end)
| S_return key a :
    w_pcs w !! t = Some (Returning key a) ->
    step t w (match returnLockObj key a (w_map w) with Some m => set_pc t Idle m w | None => set_pc t Panicked (w_map w) w end).

Inductive reachable (n : nat) : world -> Prop :=
| R_init : reachable n (init n)
| R_step w w' t : reachable n w -> step t w w' -> reachable n w'.
