(* ===== verification/GcsLocksTheorems.v ===== *)
(** Theorems about the per-object locks of the storage emulator: they refine one mutex per key. *)

From S2P Require Import Prelude GcsLocks.

(** ** Counting goroutines *)

Definition cnt (P : pc -> bool) (l : list pc) : Z := foldr (fun p n => (if P p then 1 else 0) + n) 0 l.

Lemma cnt_app P l1 l2 : cnt P (l1 ++ l2) = cnt P l1 + cnt P l2.
Proof.
  induction l1 as [|p l1 IH]; [done|]. change (cnt P ((p :: l1) ++ l2)) with ((if P p then 1 else 0) + cnt P (l1 ++ l2)).
  change (cnt P (p :: l1)) with ((if P p then 1 else 0) + cnt P l1). lia.
Qed.

Lemma cnt_one P p : cnt P [p] = if P p then 1 else 0.
Proof. cbn. by destruct (P p). Qed.

Lemma cnt_le P l : 0 <= cnt P l <= blen l.
Proof. induction l as [|p l IH]; [done|]. rewrite blen_cons. cbn. fold (cnt P l). destruct (P p); lia. Qed.

Lemma cnt_nonneg P l : 0 <= cnt P l.
Proof. apply cnt_le. Qed.

Lemma cnt_insert P l t p p' : l !! t = Some p -> cnt P (<[t := p']> l) = cnt P l - (if P p then 1 else 0) + (if P p' then 1 else 0).
Proof.
  intros Hp. assert (Hlt : (t < length l)%nat) by by apply lookup_lt_is_Some_1.
  rewrite insert_take_drop by done. rewrite <- (take_drop_middle l t p Hp) at 3.
  rewrite !(cnt_app P (take t l)). cbn [app]. change (p' :: ?x) with ([p'] ++ x). change (p :: ?x) with ([p] ++ x).
  rewrite !cnt_app, !cnt_one. lia.
Qed.

Lemma cnt_pos P l t p : l !! t = Some p -> P p = true -> 1 <= cnt P l.
Proof.
  intros Hp HP. rewrite <- (take_drop_middle l t p Hp). change (p :: ?x) with ([p] ++ x). rewrite !cnt_app, cnt_one, HP.
  pose proof (cnt_nonneg P (take t l)). pose proof (cnt_nonneg P (drop (S t) l)). lia.
Qed.

Lemma cnt_zero P l : (forall t p, l !! t = Some p -> P p = false) -> cnt P l = 0.
Proof.
  intros HP. induction l as [|p l IH]; [done|]. change (p :: l) with ([p] ++ l). rewrite cnt_app, cnt_one, (HP 0%nat p eq_refl), IH; [done|].
  intros t q Hq. by apply (HP (S t)).
Qed.

Lemma cnt_pos_inv P l : 1 <= cnt P l -> exists t p, l !! t = Some p /\ P p = true.
Proof.
  induction l as [|p l IH]; [cbn; lia|]. intros Hc. destruct (P p) eqn:E; [by exists 0%nat, p|].
  destruct IH as (t & q & Ht & Hq); [|by exists (S t), q]. change (p :: l) with ([p] ++ l) in Hc. rewrite cnt_app, cnt_one, E in Hc. lia.
Qed.

Lemma cnt_two P l t1 t2 p1 p2 : l !! t1 = Some p1 -> l !! t2 = Some p2 -> P p1 = true -> P p2 = true -> cnt P l <= 1 -> t1 = t2.
Proof.
  intros H1 H2 HP1 HP2 Hc. destruct (decide (t1 = t2)) as [|Hne]; [done|]. exfalso.
  assert (Hi : <[t1 := Idle]> l !! t2 = Some p2) by (by rewrite list_lookup_insert_ne).
  pose proof (cnt_insert P l t1 p1 Idle H1) as E. rewrite HP1 in E. pose proof (cnt_pos P _ _ _ Hi HP2). destruct (P Idle) eqn:EI; [|lia].
  assert (Hc0 : 2 <= cnt P l); [|lia]. clear -H1 H2 HP1 HP2 Hne.
  revert t1 t2 H1 H2 Hne. induction l as [|p l IH]; intros t1 t2 H1 H2 Hne; [done|]. change (p :: l) with ([p] ++ l). rewrite cnt_app, cnt_one.
  pose proof (cnt_nonneg P l). destruct t1 as [|t1], t2 as [|t2]; cbn in H1, H2; simplify_eq; try done.
  - rewrite HP1. pose proof (cnt_pos _ _ _ _ H2 HP2). lia.
  - rewrite HP2. pose proof (cnt_pos _ _ _ _ H1 HP1). lia.
  - specialize (IH t1 t2 H1 H2 ltac:(congruence)). destruct (P p); lia.
Qed.

#[global] Arguments cnt : simpl never.

(** ** The invariant *)

(** The lock a goroutine refers to, and whether it is inside the channel's critical section. *)
Definition pc_ref (p : pc) : option (gostring * nat) :=
  match p with
  | Found k a | Select k a | GaveUp k a | Holding k a | Unlocking k a | Returning k a => Some (k, a)
  | Idle | Panicked => None
  end.
Definition pc_inside (p : pc) : bool := match p with Holding _ _ | Unlocking _ _ => true | _ => false end.

Definition refers (k : gostring) (p : pc) : bool := match pc_ref p with Some (k', _) => bool_decide (k' = k) | None => false end.
Definition holds (k : gostring) (p : pc) : bool := refers k p && pc_inside p.

Record Inv (w : world) : Prop := {
  inv_ref : forall t p k a, w_pcs w !! t = Some p -> pc_ref p = Some (k, a) -> locks (w_map w) !! k = Some a;
  inv_lock : forall k a, locks (w_map w) !! k = Some a ->
    heap (w_map w) !! a = Some (mkLock (bool_decide (cnt (holds k) (w_pcs w) = 1)) (cnt (refers k) (w_pcs w))) /\
    1 <= cnt (refers k) (w_pcs w) /\ cnt (holds k) (w_pcs w) <= 1;
  inv_inj : forall k k' a, locks (w_map w) !! k = Some a -> locks (w_map w) !! k' = Some a -> k = k';
  inv_safe : forall t, w_pcs w !! t <> Some Panicked;
  inv_size : blen (w_pcs w) < 2 ^ 63
}.

Lemma refers_of p k a k' : pc_ref p = Some (k, a) -> refers k' p = bool_decide (k = k').
Proof. unfold refers. by intros ->. Qed.

Lemma refers_none p k : pc_ref p = None -> refers k p = false /\ holds k p = false.
Proof. unfold holds, refers. by intros ->. Qed.

(** The references of a goroutine are at most to the one key. *)
Definition only (k : gostring) (a : nat) (p : pc) : Prop := pc_ref p = None \/ pc_ref p = Some (k, a).

Lemma only_other k a p k' : only k a p -> k <> k' -> refers k' p = false /\ holds k' p = false.
Proof.
  intros [Hn|Hs] Hne; [by apply refers_none|]. unfold holds. rewrite (refers_of p k a k' Hs). by rewrite bool_decide_eq_false_2.
Qed.

Lemma cnt_other k a l t p p' k' : l !! t = Some p -> only k a p -> only k a p' -> k <> k' ->
  cnt (refers k') (<[t := p']> l) = cnt (refers k') l /\ cnt (holds k') (<[t := p']> l) = cnt (holds k') l.
Proof.
  intros Hp Ho Ho' Hne. destruct (only_other _ _ _ _ Ho Hne) as [E1 E2]. destruct (only_other _ _ _ _ Ho' Hne) as [E3 E4].
  rewrite !(cnt_insert _ l t p p' Hp), E1, E2, E3, E4. lia.
Qed.

(** Changing the lock of one key together with the goroutine that refers to it. *)
Lemma inv_update w t p p' k a d :
  let pcs' := <[t := p']> (w_pcs w) in
  Inv w -> w_pcs w !! t = Some p -> locks (w_map w) !! k = Some a -> only k a p -> only k a p' -> p' <> Panicked ->
  1 <= cnt (refers k) pcs' -> cnt (holds k) pcs' <= 1 ->
  Inv (mkWorld (mkMap (locks (w_map w)) (<[a := mkLock (bool_decide (cnt (holds k) pcs' = 1)) (cnt (refers k) pcs')]> (heap (w_map w)))) pcs' d).
Proof.
  intros pcs' [Href Hlock Hinj Hsafe Hsize] Hp Hk Ho Ho' Hnp Hn Hh. subst pcs'. split; cbn.
  - intros t' q k' a' Hq Hr. destruct (decide (t' = t)) as [->|Hne].
    + rewrite list_lookup_insert_eq in Hq by by apply lookup_lt_is_Some_1. simplify_eq. destruct Ho'; congruence.
    + rewrite list_lookup_insert_ne in Hq by done. by eapply Href.
  - intros k' a' Hk'. destruct (decide (k' = k)) as [->|Hne].
    + simplify_eq. by rewrite lookup_insert_eq.
    + assert (a <> a') by (intros ->; apply Hne; by eapply Hinj). rewrite lookup_insert_ne by done.
      destruct (cnt_other k a (w_pcs w) t p p' k' Hp Ho Ho' ltac:(done)) as [-> ->]. by apply Hlock.
  - done.
  - intros t'. destruct (decide (t' = t)) as [->|Hne].
    + rewrite list_lookup_insert_eq by by apply lookup_lt_is_Some_1. congruence.
    + by rewrite list_lookup_insert_ne.
  - unfold blen. rewrite length_insert. done.
Qed.

(** Moving on without a change of the references or of the map. *)
Lemma inv_same w t p p' d :
  Inv w -> w_pcs w !! t = Some p -> is_Some (pc_ref p) -> pc_ref p' = pc_ref p -> pc_inside p' = pc_inside p -> p' <> Panicked ->
  Inv (mkWorld (w_map w) (<[t := p']> (w_pcs w)) d).
Proof.
  intros Hi Hp [[k a] Hr] Hr' Hin Hnp. pose proof Hi as [Href Hlock _ _ _]. pose proof (Href _ _ _ _ Hp Hr) as Hk.
  assert (Hc : cnt (refers k) (<[t := p']> (w_pcs w)) = cnt (refers k) (w_pcs w)).
  { rewrite (cnt_insert _ _ _ _ _ Hp). unfold refers. rewrite Hr'. lia. }
  assert (Hc' : cnt (holds k) (<[t := p']> (w_pcs w)) = cnt (holds k) (w_pcs w)).
  { rewrite (cnt_insert _ _ _ _ _ Hp). unfold holds, refers. rewrite Hr', Hin. lia. }
  destruct (Hlock _ _ Hk) as (Hh & Hn & Hle).
  pose proof (inv_update w t p p' k a d Hi Hp Hk ltac:(by right) ltac:(right; congruence) Hnp) as Hu. cbn zeta in Hu. rewrite Hc, Hc' in Hu.
  rewrite insert_id in Hu by done. destruct (w_map w); cbn in *. by apply Hu.
Qed.

Lemma refs_small w k : Inv w -> 0 <= cnt (refers k) (w_pcs w) < 2 ^ 63.
Proof. intros [_ _ _ _ Hs]. pose proof (cnt_le (refers k) (w_pcs w)). lia. Qed.

Lemma cnt_step P w t p p' : w_pcs w !! t = Some p -> cnt P (<[t := p']> (w_pcs w)) = cnt P (w_pcs w) - (if P p then 1 else 0) + (if P p' then 1 else 0).
Proof. apply cnt_insert. Qed.

(** The first critical section of [Lock] counts the reference. *)
Lemma inv_find w t k a m d :
  Inv w -> w_pcs w !! t = Some Idle -> Lock_find k (w_map w) = Some (a, m) -> Inv (mkWorld m (<[t := Found k a]> (w_pcs w)) d).
Proof.
  intros Hi Hp. pose proof Hi as [Href Hlock Hinj Hsafe Hsize]. unfold Lock_find.
  assert (Hr : cnt (refers k) (<[t := Found k a]> (w_pcs w)) = cnt (refers k) (w_pcs w) + 1).
  { rewrite (cnt_insert _ _ _ _ _ Hp). unfold refers. cbn. rewrite bool_decide_eq_true_2 by done. lia. }
  assert (Hh : cnt (holds k) (<[t := Found k a]> (w_pcs w)) = cnt (holds k) (w_pcs w)).
  { rewrite (cnt_insert _ _ _ _ _ Hp). unfold holds. rewrite !andb_false_r. lia. }
  pose proof (refs_small w k Hi) as Hsmall.
  assert (Hsmall' : cnt (refers k) (w_pcs w) + 1 < 2 ^ 63) by (rewrite <- Hr; pose proof (cnt_le (refers k) (<[t := Found k a]> (w_pcs w))) as Hle; unfold blen in *; rewrite length_insert in Hle; lia).
  destruct (locks (w_map w) !! k) as [a0|] eqn:Ek.
  - destruct (Hlock _ _ Ek) as (Hheap & Hn & Hle). rewrite Hheap. cbn. intros [= -> <-].
    rewrite i64_id by (unfold is_i64; lia). rewrite <- Hr, <- Hh.
    apply (inv_update w t Idle (Found k a) k a d); try done; [by left|by right|lia|lia].
  - set (a0 := fresh (dom (heap (w_map w)))). cbn [heap]. rewrite lookup_insert_eq. cbn. intros E. injection E as Ea Em. subst m.
    rewrite insert_insert_eq. assert (Hf : heap (w_map w) !! a0 = None) by (apply not_elem_of_dom, is_fresh). clearbody a0. subst a.
    assert (Hno : forall t' p, w_pcs w !! t' = Some p -> refers k p = false).
    { intros t' p Hp'. unfold refers. destruct (pc_ref p) as [[k' a']|] eqn:E; [|done]. apply bool_decide_eq_false. intros ->. by rewrite (Href _ _ _ _ Hp' E) in Ek. }
    assert (Hz : cnt (refers k) (w_pcs w) = 0) by (apply cnt_zero; eauto).
    assert (Hz' : cnt (holds k) (w_pcs w) = 0) by (apply cnt_zero; intros t' p Hp'; unfold holds; by rewrite (Hno _ _ Hp')).
    split; cbn.
    + intros t' q k' a' Hq Hrq. destruct (decide (t' = t)) as [->|Hne].
      * rewrite list_lookup_insert_eq in Hq by by apply lookup_lt_is_Some_1. simplify_eq/=. by rewrite lookup_insert_eq.
      * rewrite list_lookup_insert_ne in Hq by done. pose proof (Href _ _ _ _ Hq Hrq). rewrite lookup_insert_ne; [done|]. intros ->. congruence.
    + intros k' a' Hk'. destruct (decide (k' = k)) as [->|Hne].
      * rewrite lookup_insert_eq in Hk'. simplify_eq. rewrite lookup_insert_eq, Hr, Hh, Hz, Hz'. split_and!; [done|lia|lia].
      * rewrite lookup_insert_ne in Hk' by done. destruct (Hlock _ _ Hk') as (Hheap & ?).
        rewrite lookup_insert_ne by (intros <-; congruence).
        by destruct (cnt_other k a0 (w_pcs w) t Idle (Found k a0) k' Hp ltac:(by left) ltac:(by right) ltac:(done)) as [-> ->].
    + intros k1 k2 a'. assert (Hnew : forall k', locks (w_map w) !! k' <> Some a0) by (intros k' E; by destruct (Hlock _ _ E) as [? _]; congruence).
      destruct (decide (k1 = k)) as [->|], (decide (k2 = k)) as [->|]; rewrite ?lookup_insert_eq, ?lookup_insert_ne by done; try done.
      * intros [= <-] E. by apply Hnew in E.
      * intros E [= <-]. by apply Hnew in E.
      * apply Hinj.
    + intros t'. destruct (decide (t' = t)) as [->|Hne].
      * by rewrite list_lookup_insert_eq by by apply lookup_lt_is_Some_1.
      * by rewrite list_lookup_insert_ne.
    + unfold blen. by rewrite length_insert.
Qed.

(** [returnLockObj] by a goroutine outside the lock never panics. *)
Lemma inv_return w t p k a d :
  Inv w -> w_pcs w !! t = Some p -> pc_ref p = Some (k, a) -> pc_inside p = false ->
  exists m, returnLockObj k a (w_map w) = Some m /\ Inv (mkWorld m (<[t := Idle]> (w_pcs w)) d).
Proof.
  intros Hi Hp Hr Hin. pose proof Hi as [Href Hlock Hinj Hsafe Hsize]. pose proof (Href _ _ _ _ Hp Hr) as Hk.
  destruct (Hlock _ _ Hk) as (Hheap & Hn & Hle). pose proof (refs_small w k Hi) as Hsmall.
  assert (Hr' : cnt (refers k) (<[t := Idle]> (w_pcs w)) = cnt (refers k) (w_pcs w) - 1).
  { rewrite (cnt_insert _ _ _ _ _ Hp), (refers_of p k a k Hr), bool_decide_eq_true_2 by done. change (refers k Idle) with false. cbn. lia. }
  assert (Hh' : cnt (holds k) (<[t := Idle]> (w_pcs w)) = cnt (holds k) (w_pcs w)).
  { rewrite (cnt_insert _ _ _ _ _ Hp). unfold holds. rewrite Hin, !andb_false_r. lia. }
  unfold returnLockObj. rewrite Hheap. cbn. rewrite i64_id by (unfold is_i64; lia). rewrite (proj2 (Z.ltb_ge _ _)) by lia.
  eexists. split; [done|]. destruct (cnt (refers k) (w_pcs w) - 1 =? 0) eqn:Ez.
  2: { rewrite <- Hr', <- Hh'. apply (inv_update w t p Idle k a d); try done; [by right|by left|lia|lia]. }
  assert (Hz : cnt (refers k) (<[t := Idle]> (w_pcs w)) = 0) by lia.
  assert (Hother : forall t' q k' a', <[t := Idle]> (w_pcs w) !! t' = Some q -> pc_ref q = Some (k', a') -> t' <> t /\ k' <> k).
  { intros t' q k' a' Hq Hrq. split.
    - intros ->. rewrite list_lookup_insert_eq in Hq by by apply lookup_lt_is_Some_1. by simplify_eq.
    - intros ->. pose proof (cnt_pos (refers k) _ _ _ Hq) as Hc. rewrite (refers_of q k a' k Hrq), bool_decide_eq_true_2 in Hc by done. specialize (Hc eq_refl). lia. }
  split; cbn.
  - intros t' q k' a' Hq Hrq. destruct (Hother _ _ _ _ Hq Hrq) as [Ht Hk']. rewrite lookup_delete_ne by done.
    rewrite list_lookup_insert_ne in Hq by done. by eapply Href.
  - intros k' a' Hk'. apply lookup_delete_Some in Hk' as [Hne Hk'].
    rewrite lookup_insert_ne by (intros ->; apply Hne; by eapply Hinj).
    destruct (cnt_other k a (w_pcs w) t p Idle k' Hp ltac:(by right) ltac:(by left) Hne) as [-> ->]. by apply Hlock.
  - intros k1 k2 a' H1 H2. apply lookup_delete_Some in H1 as [_ H1], H2 as [_ H2]. by eapply Hinj.
  - intros t'. destruct (decide (t' = t)) as [->|Hne].
    + by rewrite list_lookup_insert_eq by by apply lookup_lt_is_Some_1.
    + by rewrite list_lookup_insert_ne.
  - unfold blen. by rewrite length_insert.
Qed.

Lemma holds_of p k a : pc_ref p = Some (k, a) -> holds k p = pc_inside p.
Proof. intros Hr. unfold holds. by rewrite (refers_of p k a k Hr), bool_decide_eq_true_2. Qed.

Lemma refers_kept w t p p' k a :
  w_pcs w !! t = Some p -> pc_ref p = Some (k, a) -> pc_ref p' = Some (k, a) -> cnt (refers k) (<[t := p']> (w_pcs w)) = cnt (refers k) (w_pcs w).
Proof. intros Hp Hr Hr'. rewrite (cnt_insert _ _ _ _ _ Hp), (refers_of p k a k Hr), (refers_of p' k a k Hr'). lia. Qed.

(** A send succeeds exactly when no goroutine is inside. *)
Lemma push_free w t k a : Inv w -> w_pcs w !! t = Some (Select k a) ->
  is_Some (with_lock a ch_push (w_map w)) <-> cnt (holds k) (w_pcs w) = 0.
Proof.
  intros Hi Hp. pose proof Hi as [Href Hlock _ _ _]. destruct (Hlock _ _ (Href _ _ _ _ Hp eq_refl)) as (Hheap & Hn & Hle).
  pose proof (cnt_nonneg (holds k) (w_pcs w)). unfold with_lock. rewrite Hheap. cbn. unfold ch_push. cbn. case_bool_decide as E; cbn.
  - split; [by intros []|lia].
  - split; [lia|by eexists].
Qed.

Lemma inv_push w t k a m d : Inv w -> w_pcs w !! t = Some (Select k a) -> with_lock a ch_push (w_map w) = Some m ->
  Inv (mkWorld m (<[t := Holding k a]> (w_pcs w)) d).
Proof.
  intros Hi Hp Hm. pose proof (proj1 (push_free w t k a Hi Hp) ltac:(by eexists)) as Hfree.
  pose proof Hi as [Href Hlock _ _ _]. pose proof (Href _ _ _ _ Hp eq_refl) as Hk. destruct (Hlock _ _ Hk) as (Hheap & Hn & Hle).
  pose proof (refers_kept w t _ (Holding k a) k a Hp eq_refl eq_refl) as Hr.
  assert (Hh : cnt (holds k) (<[t := Holding k a]> (w_pcs w)) = 1).
  { rewrite (cnt_insert _ _ _ _ _ Hp), !(holds_of _ k a) by done. cbn. lia. }
  pose proof (inv_update w t _ (Holding k a) k a d Hi Hp Hk ltac:(by right) ltac:(by right) ltac:(done)) as Hu. cbn zeta in Hu. rewrite Hr, Hh in Hu.
  unfold with_lock in Hm. rewrite Hheap in Hm. cbn in Hm. unfold ch_push in Hm. cbn in Hm. rewrite Hfree in Hm. cbn in Hm. injection Hm as <-. apply Hu; lia.
Qed.

(** The lock that [Unlock] empties is held. *)
Lemma inv_pop w t k a d : Inv w -> w_pcs w !! t = Some (Unlocking k a) ->
  exists m, with_lock a ch_pop (w_map w) = Some m /\ Inv (mkWorld m (<[t := Returning k a]> (w_pcs w)) d).
Proof.
  intros Hi Hp. pose proof Hi as [Href Hlock _ _ _]. pose proof (Href _ _ _ _ Hp eq_refl) as Hk. destruct (Hlock _ _ Hk) as (Hheap & Hn & Hle).
  pose proof (refers_kept w t _ (Returning k a) k a Hp eq_refl eq_refl) as Hr.
  assert (Hone : cnt (holds k) (w_pcs w) = 1).
  { pose proof (cnt_pos (holds k) _ _ _ Hp) as Hc. rewrite (holds_of _ k a) in Hc by done. specialize (Hc eq_refl). lia. }
  assert (Hh : cnt (holds k) (<[t := Returning k a]> (w_pcs w)) = 0).
  { rewrite (cnt_insert _ _ _ _ _ Hp), !(holds_of _ k a) by done. cbn. lia. }
  pose proof (inv_update w t _ (Returning k a) k a d Hi Hp Hk ltac:(by right) ltac:(by right) ltac:(done)) as Hu. cbn zeta in Hu. rewrite Hr, Hh in Hu.
  unfold with_lock. rewrite Hheap. cbn. unfold ch_pop. cbn. rewrite Hone. cbn. eexists. split; [done|]. apply Hu; lia.
Qed.

Lemma step_inv t w w' : Inv w -> step t w w' -> Inv w'.
Proof.
  intros Hi Hs. pose proof Hi as [Href Hlock Hinj Hsafe Hsize]. destruct Hs as [|k a m Hp Hf|k a Hp|k a m Hp Hm|k a Hp Hd|k a Hp|k a0 Hp|k a Hp|k a Hp].
  - by split.
  - by eapply inv_find.
  - eapply inv_same; try done; case_decide; done.
  - by eapply inv_push.
  - by eapply inv_same.
  - by destruct (inv_return w t _ k a (w_done w) Hi Hp eq_refl eq_refl) as (m & -> & ?).
  - unfold Unlock_find. rewrite (Href _ _ _ _ Hp eq_refl). by eapply inv_same.
  - by destruct (inv_pop w t k a (w_done w) Hi Hp) as (m & -> & ?).
  - by destruct (inv_return w t _ k a (w_done w) Hi Hp eq_refl eq_refl) as (m & -> & ?).
Qed.

Lemma lock_init_inv n : Z.of_nat n < 2 ^ 63 -> Inv (init n).
Proof.
  intros Hn. assert (Hi : forall t p, w_pcs (init n) !! t = Some p -> p = Idle) by (intros t p Hp; cbn in Hp; by apply lookup_replicate in Hp as [-> _]).
  split.
  - intros t p k a Hp Hr. by rewrite (Hi _ _ Hp) in Hr.
  - by intros k a Hk.
  - by intros k k' a Hk.
  - intros t Hp. by apply Hi in Hp.
  - cbn. unfold blen. by rewrite length_replicate.
Qed.

Lemma lock_reachable_inv n w : Z.of_nat n < 2 ^ 63 -> reachable n w -> Inv w.
Proof. intros Hn. induction 1; [by apply lock_init_inv|by eapply step_inv]. Qed.

(** ** One mutex per key *)

Module Mutexes.

(** The owner of each key that is locked. *)
Abbreviation owners := (gmap gostring nat).

Inductive step : owners -> owners -> Prop :=
| acquire o k t : o !! k = None -> step o (<[k := t]> o)
| release o k t : o !! k = Some t -> step o (delete k o).

Definition reachable (o : owners) : Prop := rtc step ∅ o.

End Mutexes.

(** The goroutine is between the return of [Lock] and the emptying of the channel. *)
Definition inside (w : world) (k : gostring) (t : nat) : Prop := exists p, w_pcs w !! t = Some p /\ holds k p = true.

Definition represents (w : world) (o : Mutexes.owners) : Prop := forall k t, o !! k = Some t <-> inside w k t.

Lemma inside_unique w k t1 t2 : Inv w -> inside w k t1 -> inside w k t2 -> t1 = t2.
Proof.
  intros Hi (p1 & H1 & Hh1) (p2 & H2 & Hh2). eapply (cnt_two (holds k)); eauto. pose proof Hi as [Href Hlock _ _ _].
  unfold holds, refers in Hh1. destruct (pc_ref p1) as [[k' a]|] eqn:Hr; [|done]. apply andb_prop in Hh1 as [Hk _]. apply bool_decide_eq_true in Hk as ->.
  by destruct (Hlock _ _ (Href _ _ _ _ H1 Hr)) as (_ & _ & Hle).
Qed.

Lemma inside_set w m d t p p' k t' : w_pcs w !! t = Some p -> inside (mkWorld m (<[t := p']> (w_pcs w)) d) k t' <-> (t' = t /\ holds k p' = true) \/ (t' <> t /\ inside w k t').
Proof.
  intros Hp. unfold inside. cbn. destruct (decide (t' = t)) as [->|Hne].
  - rewrite list_lookup_insert_eq by by apply lookup_lt_is_Some_1. split; [intros (q & [= <-] & Hq); by left|]. intros [[_ H]|[? _]]; [by exists p'|done].
  - rewrite list_lookup_insert_ne by done. split; [intros H; right; by split|]. by intros [[? _]|[_ H]].
Qed.

(** Moves that neither enter nor leave the critical section are not seen. *)
Lemma represents_same w m d t p p' o : w_pcs w !! t = Some p -> (forall k, holds k p' = holds k p) -> represents w o -> represents (mkWorld m (<[t := p']> (w_pcs w)) d) o.
Proof.
  intros Hp Hh Ho k t'. rewrite (Ho k t'), (inside_set w m d t p p' k t' Hp), Hh. split.
  - intros Hin. destruct (decide (t' = t)) as [->|Hne]; [|by right]. left. split; [done|]. destruct Hin as (q & Hq & Hk). by simplify_eq.
  - intros [[-> Hk]|[_ H]]; [by exists p|done].
Qed.

Lemma holds_outside k p : pc_inside p = false -> holds k p = false.
Proof. unfold holds. intros ->. apply andb_false_r. Qed.

Lemma holds_inside k p k' a : pc_ref p = Some (k', a) -> pc_inside p = true -> holds k p = bool_decide (k' = k).
Proof. intros Hr Hin. unfold holds. by rewrite (refers_of p k' a k Hr), Hin, andb_true_r. Qed.

Ltac outside := intros ?; rewrite !holds_outside; [done|try case_decide; done..].

(** Every step of a goroutine is a step of the mutexes, or is not seen. *)
Lemma step_simulates t w w' o : Inv w -> step t w w' -> represents w o -> exists o', rtc Mutexes.step o o' /\ represents w' o'.
Proof.
  intros Hi Hs Ho. pose proof Hi as [Href Hlock _ _ _]. destruct Hs as [|k a m Hp Hf|k a Hp|k a m Hp Hm|k a Hp Hd|k a Hp|k a0 Hp|k a Hp|k a Hp].
  - by exists o.
  - exists o. split; [done|]. eapply represents_same; [done|outside|done].
  - exists o. split; [done|]. eapply represents_same; [done|outside|done].
  - pose proof (proj1 (push_free w t k a Hi Hp) ltac:(by eexists)) as Hfree.
    assert (Hnone : o !! k = None).
    { destruct (o !! k) as [t'|] eqn:E; [|done]. apply Ho in E as (p & Hp' & Hh). pose proof (cnt_pos _ _ _ _ Hp' Hh). lia. }
    exists (<[k := t]> o). split; [apply rtc_once; by constructor|]. intros k' t'. rewrite (inside_set w m _ t _ (Holding k a) k' t' Hp), (holds_inside k' _ k a) by done.
    destruct (decide (k = k')) as [->|Hne].
    + rewrite lookup_insert_eq, bool_decide_eq_true_2 by done. split; [intros [= ->]; by left|]. intros [[-> _]|[_ H]]; [done|]. apply Ho in H. congruence.
    + rewrite lookup_insert_ne, bool_decide_eq_false_2 by done. rewrite (Ho k' t'). split; [|by intros [[_ ?]|[_ ?]]]. intros Hin. right. split; [|done].
      intros ->. destruct Hin as (q & Hq & Hh). simplify_eq. by rewrite holds_outside in Hh.
  - exists o. split; [done|]. eapply represents_same; [done|outside|done].
  - destruct (inv_return w t _ k a (w_done w) Hi Hp eq_refl eq_refl) as (m & -> & _). exists o. split; [done|]. eapply represents_same; [done|outside|done].
  - unfold Unlock_find. rewrite (Href _ _ _ _ Hp eq_refl). exists o. split; [done|]. eapply represents_same; [done| |done]. done.
  - destruct (inv_pop w t k a (w_done w) Hi Hp) as (m & -> & _).
    assert (Hin : inside w k t) by (exists (Unlocking k a); split; [done|]; rewrite (holds_inside k _ k a) by done; by apply bool_decide_eq_true).
    exists (delete k o). split; [apply rtc_once; apply (Mutexes.release o k t); by apply Ho|]. intros k' t'. unfold set_pc.
    rewrite (inside_set w m _ t _ (Returning k a) k' t' Hp), (holds_outside k' (Returning k a)) by done.
    rewrite lookup_delete_Some, (Ho k' t'). split.
    + intros [Hne H]. right. split; [|done]. intros ->. destruct H as (q & Hq & Hh). simplify_eq. rewrite (holds_inside k' _ k a) in Hh by done. by apply bool_decide_eq_true in Hh.
    + intros [[_ ?]|[Hne H]]; [done|]. split; [|done]. intros <-. apply Hne. by eapply inside_unique.
  - destruct (inv_return w t _ k a (w_done w) Hi Hp eq_refl eq_refl) as (m & -> & _). exists o. split; [done|]. eapply represents_same; [done|outside|done].
Qed.

(** C24. However many goroutines lock and unlock keys, in any interleaving and with contexts that end
    at any time, the map of counted locks behaves as one mutex per key: the goroutines between
    [Lock] and [Unlock] are the owners in a run of the mutexes, so there is never more than one for a
    key; and no goroutine panics. *)
Theorem lock_map_refines n w :
  Z.of_nat n < 2 ^ 63 -> reachable n w ->
  (exists o, Mutexes.reachable o /\ represents w o) /\ forall t, w_pcs w !! t <> Some Panicked.
Proof.
  intros Hn Hr. split; [|intros t; by eapply inv_safe, lock_reachable_inv]. induction Hr as [|w w' t Hr (o & Hro & Ho) Hs].
  - exists ∅. split; [by apply rtc_refl|]. intros k t. split; [by intros|]. intros (p & Hp & Hh). cbn in Hp. by apply lookup_replicate in Hp as [-> _].
  - destruct (step_simulates t w w' o) as (o' & Hoo & Ho'); [by eapply lock_reachable_inv|done..|]. exists o'. split; [|done]. unfold Mutexes.reachable. by etrans.
Qed.

(** The map holds the lock of a key exactly while some goroutine locks, holds or unlocks it, and
    its count is their number; a goroutine waits for a key only while another one is inside, and can
    take the lock at once otherwise. *)
Theorem lock_map_transient n w k :
  Z.of_nat n < 2 ^ 63 -> reachable n w ->
  (is_Some (locks (w_map w) !! k) <-> exists t p, w_pcs w !! t = Some p /\ refers k p = true) /\
  (forall a, locks (w_map w) !! k = Some a -> exists l, heap (w_map w) !! a = Some l /\ refcount l = cnt (refers k) (w_pcs w)) /\
  (forall t a, w_pcs w !! t = Some (Select k a) ->
     (exists t', t' <> t /\ inside w k t') \/ (exists w', step t w w' /\ inside w' k t)).
Proof.
  intros Hn Hr. pose proof (lock_reachable_inv n w Hn Hr) as Hi. pose proof Hi as [Href Hlock _ _ _]. split_and!.
  - split.
    + intros [a Ha]. destruct (Hlock _ _ Ha) as (_ & Hc & _). by apply cnt_pos_inv in Hc.
    + intros (t & p & Hp & Hk). unfold refers in Hk. destruct (pc_ref p) as [[k' a]|] eqn:E; [|done]. apply bool_decide_eq_true in Hk as ->. eexists. by eapply Href.
  - intros a Ha. destruct (Hlock _ _ Ha) as (Hheap & _ & _). by eexists.
  - intros t a Hp. destruct (decide (cnt (holds k) (w_pcs w) = 0)) as [Hz|Hnz].
    + right. apply (push_free w t k a Hi Hp) in Hz as [m Hm]. exists (set_pc t (Holding k a) m w). split; [by eapply S_push|].
      exists (Holding k a). cbn. rewrite list_lookup_insert_eq by by apply lookup_lt_is_Some_1. split; [done|]. rewrite (holds_inside k _ k a) by done. by apply bool_decide_eq_true.
    + left. destruct (cnt_pos_inv (holds k) (w_pcs w)) as (t' & p & Hp' & Hh); [pose proof (cnt_nonneg (holds k) (w_pcs w)); lia|].
      exists t'. split; [|by exists p]. intros ->. simplify_eq. by rewrite holds_outside in Hh.
Qed.

(** ** Two goroutines and one key *)

Definition key : gostring := lit "bucket/object".
Definition waiting : world :=
  mkWorld (mkMap {[key := 0%nat]} {[0%nat := mkLock true 2]}) [Holding key 0; Select key 0] ∅.

Lemma S_go t w k a : w_pcs w !! t = Some (Found k a) -> (t ∉ w_done w) -> step t w (set_pc t (Select k a) (w_map w) w).
Proof. intros Hp Ht. pose proof (S_check t w k a Hp) as Hs. by rewrite decide_False in Hs. Qed.

Lemma waiting_reachable : reachable 2 waiting.
Proof.
  assert (H1 : reachable 2 (mkWorld (mkMap {[key := 0%nat]} {[0%nat := mkLock false 1]}) [Found key 0; Idle] ∅)).
  { eapply R_step; [apply R_init|]. by apply (S_find 0 (init 2) key 0 (mkMap {[key := 0%nat]} {[0%nat := mkLock false 1]})). }
  assert (H2 : reachable 2 (mkWorld (mkMap {[key := 0%nat]} {[0%nat := mkLock false 1]}) [Select key 0; Idle] ∅)).
  { eapply R_step; [exact H1|]. by apply (S_go 0 (mkWorld _ [Found key 0; Idle] ∅) key 0). }
  assert (H3 : reachable 2 (mkWorld (mkMap {[key := 0%nat]} {[0%nat := mkLock true 1]}) [Holding key 0; Idle] ∅)).
  { eapply R_step; [exact H2|]. by apply (S_push 0 (mkWorld (mkMap {[key := 0%nat]} {[0%nat := mkLock false 1]}) [Select key 0; Idle] ∅) key 0 (mkMap {[key := 0%nat]} {[0%nat := mkLock true 1]})). }
  assert (H4 : reachable 2 (mkWorld (mkMap {[key := 0%nat]} {[0%nat := mkLock true 2]}) [Holding key 0; Found key 0] ∅)).
  { eapply R_step; [exact H3|]. by apply (S_find 1 (mkWorld (mkMap {[key := 0%nat]} {[0%nat := mkLock true 1]}) [Holding key 0; Idle] ∅) key 0 (mkMap {[key := 0%nat]} {[0%nat := mkLock true 2]})). }
  eapply R_step; [exact H4|]. by apply (S_go 1 (mkWorld _ [Holding key 0; Found key 0] ∅) key 0).
Qed.

Lemma lock_map_refines_witness :
  (exists o, Mutexes.reachable o /\ represents waiting o) /\ forall t, w_pcs waiting !! t <> Some Panicked.
Proof. apply (lock_map_refines 2 waiting); [lia|apply waiting_reachable]. Defined.

Lemma lock_map_transient_witness : (exists t', t' <> 1%nat /\ inside waiting key t') \/ (exists w', step 1 waiting w' /\ inside w' key 1).
Proof. apply (lock_map_transient 2 waiting key ltac:(lia) waiting_reachable) with 0%nat. reflexivity. Defined.
