(* ===== verification/GcsStore.v ===== *)
(** The storage emulator, part one: object metadata, preconditions, byte ranges, URLs and the store in
    memory ([pkg/emulators/storage/gcsemu]: meta.go, memstore.go, range.go, parse.go, and the
    conditions of gcsemu.go).

    The structures of the cloud client ([storage.Object], [storage.Conditions]) are records with the
    fields the emulator looks at; the rest of an object is carried along in one field.  The B-tree of
    the store is an interface; times are nanoseconds. *)

From S2P Require Import Prelude GoSort Run Strconv GoText.

(** ** Metadata *)

Record Object := mkObject {
  o_Name : gostring; o_Bucket : gostring; o_Kind : gostring; o_MediaLink : gostring; o_SelfLink : gostring; o_Size : Z;
  o_StorageClass : gostring; o_ContentType : gostring; o_ContentEncoding : gostring; o_ContentDisposition : gostring;
  o_Generation : Z; o_Metageneration : Z; o_TimeCreated : gostring; o_Updated : gostring; o_Id : gostring; o_Etag : gostring;
  o_Md5Hash : gostring; o_ComponentCount : Z; o_Rest : gostring
}.

Definition zero_object : Object := mkObject [] [] [] [] [] 0 [] [] [] [] 0 0 [] [] [] [] [] 0 [].

Definition HttpBaseUrl : Type := gostring.
Definition dontNeedUrls : HttpBaseUrl := [].

Definition normalizeBaseUrl (baseUrl : HttpBaseUrl) : HttpBaseUrl :=
  if decide (baseUrl = dontNeedUrls \/ baseUrl = lit "https://storage.googleapis.com/") then lit "https://www.googleapis.com/"
  else if decide (baseUrl = lit "http://storage.googleapis.com/") then lit "http://www.googleapis.com/"
  else baseUrl.

Definition BucketUrl (baseUrl : HttpBaseUrl) (bucket : gostring) : gostring := normalizeBaseUrl baseUrl ++ lit "storage/v1/b/" ++ bucket.
Definition ObjectUrl (baseUrl : HttpBaseUrl) (bucket filepath : gostring) : gostring :=
  normalizeBaseUrl baseUrl ++ lit "storage/v1/b/" ++ bucket ++ lit "/o/" ++ filepath.

Record Bucket := mkBucket { b_Kind : gostring; b_Name : gostring; b_SelfLink : gostring; b_StorageClass : gostring; b_Updated : gostring }.

Definition BucketMeta (baseUrl : HttpBaseUrl) (bucket : gostring) : Bucket :=
  mkBucket (lit "storage#bucket") bucket (BucketUrl baseUrl bucket) (lit "STANDARD") [].

Definition ScrubMeta (m : Object) : Object :=
  mkObject (o_Name m) [] [] [] [] 0 [] (o_ContentType m) (o_ContentEncoding m) (o_ContentDisposition m) (o_Generation m)
    (o_Metageneration m) (o_TimeCreated m) (o_Updated m) (o_Id m) (o_Etag m) (o_Md5Hash m) (o_ComponentCount m) (o_Rest m).

(** Assignments to single fields. *)
Definition set_name (m : Object) (name : gostring) : Object :=
  mkObject name (o_Bucket m) (o_Kind m) (o_MediaLink m) (o_SelfLink m) (o_Size m) (o_StorageClass m) (o_ContentType m) (o_ContentEncoding m)
    (o_ContentDisposition m) (o_Generation m) (o_Metageneration m) (o_TimeCreated m) (o_Updated m) (o_Id m) (o_Etag m) (o_Md5Hash m) (o_ComponentCount m) (o_Rest m).
Definition set_bucket (m : Object) (bucket : gostring) : Object :=
  mkObject (o_Name m) bucket (o_Kind m) (o_MediaLink m) (o_SelfLink m) (o_Size m) (o_StorageClass m) (o_ContentType m) (o_ContentEncoding m)
    (o_ContentDisposition m) (o_Generation m) (o_Metageneration m) (o_TimeCreated m) (o_Updated m) (o_Id m) (o_Etag m) (o_Md5Hash m) (o_ComponentCount m) (o_Rest m).
Definition set_ctype (m : Object) (ct : gostring) : Object :=
  mkObject (o_Name m) (o_Bucket m) (o_Kind m) (o_MediaLink m) (o_SelfLink m) (o_Size m) (o_StorageClass m) ct (o_ContentEncoding m)
    (o_ContentDisposition m) (o_Generation m) (o_Metageneration m) (o_TimeCreated m) (o_Updated m) (o_Id m) (o_Etag m) (o_Md5Hash m) (o_ComponentCount m) (o_Rest m).
Definition set_metagen (m : Object) (n : Z) : Object :=
  mkObject (o_Name m) (o_Bucket m) (o_Kind m) (o_MediaLink m) (o_SelfLink m) (o_Size m) (o_StorageClass m) (o_ContentType m) (o_ContentEncoding m)
    (o_ContentDisposition m) (o_Generation m) n (o_TimeCreated m) (o_Updated m) (o_Id m) (o_Etag m) (o_Md5Hash m) (o_ComponentCount m) (o_Rest m).
Definition set_created (m : Object) (t : gostring) : Object :=
  mkObject (o_Name m) (o_Bucket m) (o_Kind m) (o_MediaLink m) (o_SelfLink m) (o_Size m) (o_StorageClass m) (o_ContentType m) (o_ContentEncoding m)
    (o_ContentDisposition m) (o_Generation m) (o_Metageneration m) t (o_Updated m) (o_Id m) (o_Etag m) (o_Md5Hash m) (o_ComponentCount m) (o_Rest m).
Definition set_version (m : Object) (gen : Z) (updated id etag : gostring) : Object :=
  mkObject (o_Name m) (o_Bucket m) (o_Kind m) (o_MediaLink m) (o_SelfLink m) (o_Size m) (o_StorageClass m) (o_ContentType m) (o_ContentEncoding m)
    (o_ContentDisposition m) gen (o_Metageneration m) (o_TimeCreated m) updated id etag (o_Md5Hash m) (o_ComponentCount m) (o_Rest m).
Definition set_hash (m : Object) (md5 etag : gostring) : Object :=
  mkObject (o_Name m) (o_Bucket m) (o_Kind m) (o_MediaLink m) (o_SelfLink m) (o_Size m) (o_StorageClass m) (o_ContentType m) (o_ContentEncoding m)
    (o_ContentDisposition m) (o_Generation m) (o_Metageneration m) (o_TimeCreated m) (o_Updated m) (o_Id m) etag md5 (o_ComponentCount m) (o_Rest m).
Definition set_components (m : Object) (n : Z) : Object :=
  mkObject (o_Name m) (o_Bucket m) (o_Kind m) (o_MediaLink m) (o_SelfLink m) (o_Size m) (o_StorageClass m) (o_ContentType m) (o_ContentEncoding m)
    (o_ContentDisposition m) (o_Generation m) (o_Metageneration m) (o_TimeCreated m) (o_Updated m) (o_Id m) (o_Etag m) (o_Md5Hash m) n (o_Rest m).
Definition set_size (m : Object) (n : Z) : Object :=
  mkObject (o_Name m) (o_Bucket m) (o_Kind m) (o_MediaLink m) (o_SelfLink m) n (o_StorageClass m) (o_ContentType m) (o_ContentEncoding m)
    (o_ContentDisposition m) (o_Generation m) (o_Metageneration m) (o_TimeCreated m) (o_Updated m) (o_Id m) (o_Etag m) (o_Md5Hash m) (o_ComponentCount m) (o_Rest m).

(** The text behind the last dot of a name. *)
Definition extension (filename : gostring) : gostring := last (Split filename Byte.x2e) [].

Section Meta.
Context (TypeByExtension : gostring -> gostring).

Definition default_ctype (m : Object) (filename : gostring) : Object :=
  if decide (o_ContentType m = []) then set_ctype m (TypeByExtension (extension filename)) else m.

Definition InitScrubbedMeta (m : Object) (filename : gostring) : Object := ScrubMeta (set_name (default_ctype m filename) filename).

Definition InitMetaWithUrls (baseUrl : HttpBaseUrl) (m : Object) (bucket filename : gostring) (size : Z) : Object :=
  let m := default_ctype (set_bucket m bucket) filename in
  mkObject filename (o_Bucket m) (lit "storage#object") (ObjectUrl baseUrl bucket filename ++ lit "?alt=media") (ObjectUrl baseUrl bucket filename) size
    (lit "STANDARD") (o_ContentType m) (o_ContentEncoding m) (o_ContentDisposition m) (o_Generation m) (o_Metageneration m) (o_TimeCreated m)
    (o_Updated m) (o_Id m) (o_Etag m) (o_Md5Hash m) (o_ComponentCount m) (o_Rest m).

(** ** The store *)

Record memFile := mkFile { f_meta : Object; f_data : list byte }.
Definition f_name (f : memFile) : gostring := o_Name (f_meta f).
Definition Less (f than : memFile) : bool := str_ltb (f_name f) (f_name than).

(** [btree.BTree] with files ordered by [Less]. *)
Class BTree (T : Type) := {
  bt_New : T;
  bt_ReplaceOrInsert : T -> memFile -> T;
  bt_Get : T -> gostring -> option memFile;
  bt_Delete : T -> gostring -> option T;
  bt_Ascend : T -> list memFile
}.

Context {T : Type} `{BTree T}.

Record memBucket := mkMemBucket { mb_created : Z; mb_files : T }.
Definition memstore : Type := gmap gostring memBucket.

Definition NewMemStore : memstore := (∅ : gmap gostring memBucket).

Definition getBucket (ms : memstore) (bucket : gostring) : option memBucket := (ms : gmap gostring memBucket) !! bucket.

Context (FormatTime : Z -> gostring).

Definition CreateBucket (now : Z) (ms : memstore) (bucket : gostring) : memstore :=
  match getBucket ms bucket with None => <[bucket := mkMemBucket now bt_New]> (ms : gmap gostring memBucket) | Some _ => ms end.

Definition GetBucketMeta (ms : memstore) (baseUrl : HttpBaseUrl) (bucket : gostring) : option Bucket :=
  b ← getBucket ms bucket;
  let m := BucketMeta baseUrl bucket in
  Some (mkBucket (b_Kind m) (b_Name m) (b_SelfLink m) (b_StorageClass m) (FormatTime (mb_created b))).

Definition find (ms : memstore) (bucket filename : gostring) : option memFile := b ← getBucket ms bucket; bt_Get (mb_files b) filename.

Definition Get (ms : memstore) (bucket filename : gostring) : option (Object * list byte) :=
  f ← find ms bucket filename; Some (f_meta f, f_data f).

Definition GetMeta (ms : memstore) (baseUrl : HttpBaseUrl) (bucket filename : gostring) : option Object :=
  f ← find ms bucket filename; Some (InitMetaWithUrls baseUrl (f_meta f) bucket filename (u64 (blen (f_data f)))).

Definition put (ms : memstore) (bucket : gostring) (f : memFile) : memstore :=
  match getBucket ms bucket with
  | Some b => <[bucket := mkMemBucket (mb_created b) (bt_ReplaceOrInsert (mb_files b) f)]> (ms : gmap gostring memBucket)
  | None => ms
  end.

(** The metadata [Add] stores. *)
Definition Add_meta (now : Z) (bucket filename : gostring) (meta : Object) : Object :=
  let meta := set_metagen (InitScrubbedMeta meta filename) 1 in
  let updated := FormatTime now in
  let meta := set_version meta now updated (bucket ++ lit "/" ++ filename ++ lit "/" ++ FormatInt now) (FormatInt now) in
  if decide (o_TimeCreated meta = []) then set_created meta updated else meta.

Definition Add (now : Z) (ms : memstore) (bucket filename : gostring) (contents : list byte) (meta : Object) : memstore :=
  put (CreateBucket now ms bucket) bucket (mkFile (Add_meta now bucket filename meta) contents).

(** [None] is [os.ErrNotExist]. *)
Definition UpdateMeta (ms : memstore) (bucket filename : gostring) (meta : Object) (metagen : Z) : option memstore :=
  f ← find ms bucket filename;
  Some (put ms bucket (mkFile (set_metagen (InitScrubbedMeta meta filename) metagen) (f_data f))).

Definition Copy (now : Z) (ms : memstore) (srcBucket srcFile dstBucket dstFile : gostring) : bool * memstore :=
  match find ms srcBucket srcFile with
  | None => (false, ms)
  | Some src => (true, Add now ms dstBucket dstFile (f_data src) (set_created (f_meta src) []))
  end.

Definition Delete (ms : memstore) (bucket filename : gostring) : option memstore :=
  if decide (filename = []) then
    match getBucket ms bucket with None => None | Some _ => Some (delete bucket (ms : gmap gostring memBucket)) end
  else match getBucket ms bucket with
       | Some b => t ← bt_Delete (mb_files b) filename; Some (<[bucket := mkMemBucket (mb_created b) t]> (ms : gmap gostring memBucket))
       | None => None
       end.

End Meta.
Arguments memBucket : clear implicits.
Arguments memstore : clear implicits.

(** ** Preconditions *)

Record Conditions := mkConds { GenerationMatch : Z; GenerationNotMatch : Z; DoesNotExist : bool; MetagenerationMatch : Z; MetagenerationNotMatch : Z }.

#[export] Instance Conditions_eq_dec : EqDecision Conditions.
Proof. solve_decision. Defined.

Definition emptyConds : Conditions := mkConds 0 0 false 0 0.
Definition doesNotExistConds : Conditions := mkConds 0 0 true 0 0.

Definition StatusPreconditionFailed : Z := 412.
Definition StatusNotModified : Z := 304.

(** The code of the error, if any. *)
Definition validateConds (obj : option Object) (cond : Conditions) : option Z :=
  match obj with
  | None => if decide (cond = emptyConds \/ cond = doesNotExistConds) then None else Some StatusPreconditionFailed
  | Some obj =>
      if DoesNotExist cond then Some StatusPreconditionFailed
      else if negb (GenerationMatch cond =? 0) && negb (o_Generation obj =? GenerationMatch cond) then Some StatusPreconditionFailed
      else if negb (GenerationNotMatch cond =? 0) && (o_Generation obj =? GenerationNotMatch cond) then Some StatusNotModified
      else if negb (MetagenerationMatch cond =? 0) && negb (o_Metageneration obj =? MetagenerationMatch cond) then Some StatusPreconditionFailed
      else if negb (MetagenerationNotMatch cond =? 0) && (o_Metageneration obj =? MetagenerationNotMatch cond) then Some StatusNotModified
      else None
  end.

(** [url.Values] *)
Abbreviation Values := (gmap gostring (list gostring)).
Definition vals_Get (vals : Values) (key : gostring) : gostring := match vals !! key with Some (v :: _) => v | _ => [] end.

(** A parameter that is missing leaves the condition as it is. *)
Definition cond_param (vals : Values) (name : gostring) (old : Z) : option Z :=
  let v := vals_Get vals name in
  if decide (v = []) then Some old else match ParseInt v with inr val => Some val | inl _ => None end.

Definition parseConds (vals : Values) : option Conditions :=
  gm ← cond_param vals (lit "ifGenerationMatch") 0;
  let dne := bool_decide (vals_Get vals (lit "ifGenerationMatch") <> []) && (gm =? 0) in
  gn ← cond_param vals (lit "ifGenerationNotMatch") 0;
  mm ← cond_param vals (lit "ifMetagenerationMatch") 0;
  mn ← cond_param vals (lit "ifMetagenerationNotMatch") 0;
  Some (mkConds gm gn dne mm mn).

(** ** Byte ranges *)

Record byteRange := mkRange { br_lo : Z; br_hi : Z; br_sz : Z }.

Definition ParseInt_opt (s : gostring) : option Z := match ParseInt s with inr v => Some v | inl _ => None end.

Definition parseByteRange (inp : gostring) : option byteRange :=
  if negb (HasPrefix inp (lit "bytes ")) then None
  else match Split (drop 6 inp) Byte.x2f with
       | [p0; p1] =>
           '(lo, hi) ← (if decide (p0 = lit "*") then Some (-1, -1)
                        else match Split p0 Byte.x2d with
                             | [a; b] => lo ← ParseInt_opt a; hi ← ParseInt_opt b; Some (lo, hi)
                             | _ => None
                             end);
           sz ← (if decide (p1 = lit "*") then Some (-1) else ParseInt_opt p1);
           Some (mkRange lo hi sz)
       | _ => None
       end.

(** ** URLs

    The patterns are searched for from the left; a submatch is the longest text without a slash, or
    the rest of the line. *)

Record GcsParams := mkParams { p_Bucket : gostring; p_Object : gostring; p_IsPublic : bool }.

Fixpoint search {A} (m : gostring -> option A) (s : gostring) : option A :=
  match m s with
  | Some a => Some a
  | None => match s with [] => None | _ :: s' => search m s' end
  end.

Definition strip (prefix s : gostring) : option gostring := if HasPrefix s prefix then Some (drop (length prefix) s) else None.

Fixpoint span_not (c : byte) (s : gostring) : gostring * gostring :=
  match s with
  | [] => ([], [])
  | b :: s' => if decide (b = c) then ([], s) else let '(l, r) := span_not c s' in (b :: l, r)
  end.

Definition c_slash : byte := Byte.x2f.
Definition c_newline : byte := Byte.x0a.

(** [([^\/]+)] *)
Definition segment (s : gostring) : option (gostring * gostring) := let '(seg, rest) := span_not c_slash s in if decide (seg = []) then None else Some (seg, rest).
(** [(.+)] *)
Definition rest_of_line (s : gostring) : option gostring := let '(l, _) := span_not c_newline s in if decide (l = []) then None else Some l.

Definition match_object (prefix s : gostring) : option GcsParams :=
  s1 ← strip prefix s; '(bucket, s2) ← segment s1; s3 ← strip (lit "/o") s2;
  Some (mkParams bucket (default [] (s4 ← strip (lit "/") s3; rest_of_line s4)) false).

Definition match_bucket (s : gostring) : option GcsParams :=
  s1 ← strip (lit "/storage/v1/b") s;
  Some (mkParams (default [] (s2 ← strip (lit "/") s1; '(bucket, _) ← segment s2; Some bucket)) [] false).

Definition match_storage (s : gostring) : option GcsParams :=
  s1 ← strip (lit "/") s; '(bucket, s2) ← segment s1; s3 ← strip (lit "/") s2; object ← rest_of_line s3;
  Some (mkParams bucket object true).

Definition ParseGcsUrl (path : gostring) : option GcsParams :=
  match search (match_object (lit "/storage/v1/b/")) path with
  | Some g => Some g
  | None =>
      match search match_bucket path with
      | Some g => Some g
      | None => match search (match_object (lit "/b/")) path with Some g => Some g | None => search match_storage path end
      end
  end.
