(* ===== verification/GcsEmu.v ===== *)
(** The storage emulator, part two: the requests ([pkg/emulators/storage/gcsemu]: gcsemu.go, walk.go,
    multipart.go, util.go; [gcsutil/gcspagetoken.go]).

    A handler is a function of the request, the time, whether the lock of its object was granted, and
    the state; it replies or panics ([Crash]).  Parameters: JSON decoding, MIME types and multipart
    bodies, MD5, base64, gzip and the protocol-buffer form of page tokens, and the cache of uploads,
    which holds pointers. *)

From S2P Require Import Prelude GoSort Run Strconv GoText MetaScrub GcsStore.

(** ** Listing *)

(** Greater than anything that begins with [prefix]. *)
Definition greaterThanPrefix (item prefix : gostring) : bool :=
  if (length item <? length prefix)%nat then str_ltb prefix item else str_ltb prefix (take (length prefix) item).

Definition lessThanPrefix (item prefix : gostring) : bool :=
  if (length item <? length prefix)%nat then str_ltb item (take (length item) prefix) else str_ltb item prefix.

Inductive walk_result := WNil | SkipDir | errAbort.

(** [seenPrefixes] holds the elements of [l_prefixes]. *)
Record listing := mkListing { l_found : list gostring; l_prefixes : list gostring; l_count : Z; l_more : bool }.

(** The callback of the walk; [dir] says that the file system reports a directory. *)
Definition walk_cb (delimiter cursor prefix : gostring) (maxResults : Z) (dir : bool) (filename : gostring) (l : listing) : walk_result * listing :=
  if greaterThanPrefix filename prefix then (errAbort, l)
  else if dir then
    if lessThanPrefix filename cursor then (SkipDir, l)
    else if lessThanPrefix filename prefix then (SkipDir, l)
    else (WNil, l)
  else if negb (str_ltb cursor filename) then (WNil, l)
  else if negb (HasPrefix filename prefix) then (WNil, l)
  else if maxResults <=? l_count l then (errAbort, mkListing (l_found l) (l_prefixes l) (l_count l) true)
  else
    let count := l_count l + 1 in
    let item := (WNil, mkListing (l_found l ++ [filename]) (l_prefixes l) count (l_more l)) in
    if decide (delimiter = []) then item
    else match Index (drop (length prefix) filename) delimiter with
         | Some delimiterPos =>
             let itemPrefix := take (length prefix + Z.to_nat delimiterPos + length delimiter) filename in
             (WNil, mkListing (l_found l) (if decide (itemPrefix ∈ l_prefixes l) then l_prefixes l else l_prefixes l ++ [itemPrefix]) count (l_more l))
         | None => item
         end.

(** [memstore.Walk]: the callback on the files in order until it reports an error, which is dropped. *)
Fixpoint walk_files (cb : gostring -> listing -> walk_result * listing) (names : list gostring) (l : listing) : listing :=
  match names with
  | [] => l
  | name :: names => match cb name l with (WNil, l) => walk_files cb names l | (_, l) => l end
  end.

(** ** Page tokens *)

Section Emulator.
Context (ProtoMarshal : gostring -> option (list byte)) (ProtoUnmarshal : list byte -> option gostring).
Context (b64_Encode : list byte -> gostring) (b64_Decode : gostring -> option (list byte)).

Definition EncodePageToken (greaterThan : gostring) : run gostring :=
  match ProtoMarshal greaterThan with Some bytes => Ok (b64_Encode bytes) | None => Crash end.

Definition DecodePageToken (pageToken : gostring) : option gostring := b64_Decode pageToken ≫= ProtoUnmarshal.

(** ** State and replies *)

Context (TypeByExtension : gostring -> gostring) (FormatTime : Z -> gostring).
Context {T : Type} `{BTree T}.

Record uploadData := mkUpload { u_Object : Object; u_Conds : Conditions; u_data : list byte }.

(** [gcache.Cache] with the ids of uploads; a lookup may fail, and may say that there is nothing. *)
Class UploadIds (I : Type) := {
  ids_New : I;
  ids_Set : I -> gostring -> nat -> I;
  ids_GetIFPresent : I -> gostring -> option (option nat) * I;
  ids_Remove : I -> gostring -> I
}.

Context {I : Type} `{UploadIds I}.

Record GcsEmu := mkEmu { store : memstore T; uploadIds : I; uploads : gmap nat uploadData; idCounter : Z }.

Definition NewGcsEmu : GcsEmu := mkEmu NewMemStore ids_New ∅ 0.

Definition with_store (g : GcsEmu) (ms : memstore T) : GcsEmu := mkEmu ms (uploadIds g) (uploads g) (idCounter g).

Inductive Reply :=
| GapiError (code : Z)
| JsonObject (obj : option Object)
| JsonUploaded (obj : Object)                                   (* with the generation in the headers *)
| JsonBucket (bucket : gostring)
| JsonBucketMeta (bucket : Bucket)
| JsonRewrite (size : Z) (obj : Object)
| JsonObjects (nextPageToken : gostring) (items : list (option Object)) (prefixes : list gostring)
| Media (obj : Object) (gzip : bool) (length : option Z) (body : list byte) (failed : bool)
| Resume (received : Z) (contentType : gostring) (override : bool)
| Created (location contentType : gostring)
| NoContent.

(** An error without a code of its own is an internal error. *)
Definition gapiError (code : Z) : Reply := GapiError (if code =? 0 then 500 else code).

Record GRequest := mkGReq {
  g_Method : gostring; g_Path : gostring; g_Host : gostring; g_TLS : bool; g_Header : Values; g_Query : Values;
  g_Form : option Values; g_Body : option (list byte)
}.

(** ** Listing a bucket *)

Definition list_items (ms : memstore T) (baseUrl : HttpBaseUrl) (bucket : gostring) (found : list gostring) : list (option Object) :=
  GetMeta TypeByExtension ms baseUrl bucket <$> found.

Definition makeBucketListResults (ms : memstore T) (baseUrl : HttpBaseUrl) (delimiter cursor prefix bucket : gostring) (maxResults : Z) : run Reply :=
  match getBucket ms bucket with
  | None => Ok (GapiError 404)
  | Some b =>
      let l := walk_files (walk_cb delimiter cursor prefix maxResults false) (f_name <$> bt_Ascend (mb_files b)) (mkListing [] [] 0 false) in
      let items := list_items ms baseUrl bucket (l_found l) in
      token ← (match l_more l, last items None with
               | true, Some obj => EncodePageToken (o_Name obj)
               | true, None => if decide (items = []) then Ok [] else Crash
               | false, _ => Ok []
               end);
      Ok (JsonObjects token items (l_prefixes l))
  end.

Definition handleGcsListBucket (ms : memstore T) (baseUrl : HttpBaseUrl) (params : Values) (bucket : gostring) : run Reply :=
  let delimiter := vals_Get params (lit "delimiter") in
  let prefix := vals_Get params (lit "prefix") in
  let pageToken := vals_Get params (lit "pageToken") in
  match (if decide (pageToken = []) then Some [] else DecodePageToken pageToken) with
  | None => Ok (GapiError 400)
  | Some cursor =>
      let maxResultsStr := vals_Get params (lit "maxResults") in
      match (if decide (maxResultsStr = []) then Some 1000 else ParseInt_opt maxResultsStr) with
      | None => Ok (GapiError 400)
      | Some maxResults =>
          if bool_decide (maxResultsStr <> []) && (maxResults <? 1) then Ok (GapiError 400)
          else makeBucketListResults ms baseUrl delimiter cursor prefix bucket maxResults
      end
  end.

(** ** Reading *)

Context (Gunzip : list byte -> option (list byte * bool)).

(** [strings.Contains] *)
Definition Contains (s sub : gostring) : bool := bool_decide (is_Some (Index s sub)).

Definition handleGcsMediaRequest (ms : memstore T) (acceptEncoding bucket filename : gostring) : run Reply :=
  match Get ms bucket filename with
  | None => Ok (GapiError 404)
  | Some (obj, contents) =>
      if decide (o_ContentEncoding obj = lit "gzip") then
        if Contains acceptEncoding (lit "gzip") then Ok (Media obj true (Some (blen contents)) contents false)
        else match Gunzip contents with
             | None => Crash   (* the error is reported, and the nil reader is used all the same *)
             | Some (out, ok) => Ok (Media obj false None out (negb ok))
             end
      else Ok (Media obj false (Some (blen contents)) contents false)
  end.

Definition handleGcsMetadataRequest (ms : memstore T) (baseUrl : HttpBaseUrl) (bucket filename : gostring) : Reply :=
  if decide (filename = []) then match GetBucketMeta FormatTime ms baseUrl bucket with Some b => JsonBucketMeta b | None => GapiError 404 end
  else match GetMeta TypeByExtension ms baseUrl bucket filename with Some o => JsonObject (Some o) | None => GapiError 404 end.

(** ** Deleting, updating, copying *)

Definition handleGcsDelete (granted : bool) (g : GcsEmu) (bucket filename : gostring) (conds : Conditions) : Reply * GcsEmu :=
  if negb granted then (gapiError 0, g)
  else match validateConds (GetMeta TypeByExtension (store g) dontNeedUrls bucket filename) conds with
       | Some code => (gapiError code, g)
       | None =>
           match Delete (store g) bucket filename with
           | None => (gapiError 404, g)
           | Some ms => (NoContent, with_store g ms)
           end
       end.

(** [Decode] of a patch into an object: an error, a null that makes the pointer nil, or the object. *)
Context (DecodePatch : option (list byte) -> Object -> option (option Object)).

Definition handleGcsUpdateMetadataRequest (granted : bool) (g : GcsEmu) (baseUrl : HttpBaseUrl) (body : option (list byte)) (bucket filename : gostring) (conds : Conditions) : run (Reply * GcsEmu) :=
  if negb granted then Ok (gapiError 0, g)
  else match GetMeta TypeByExtension (store g) baseUrl bucket filename with
       | None => Ok (GapiError 404, g)
       | Some obj =>
           match validateConds (Some obj) conds with
           | Some code => Ok (gapiError code, g)
           | None =>
               match DecodePatch body obj with
               | None => Ok (gapiError 400, g)
               | Some None => Crash
               | Some (Some obj') =>
                   match UpdateMeta TypeByExtension (store g) bucket filename obj' (i64 (o_Metageneration obj + 1)) with
                   | None => Ok (gapiError 0, g)
                   | Some ms => Ok (JsonObject (GetMeta TypeByExtension ms baseUrl bucket filename), with_store g ms)
                   end
               end
           end
       end.

(** [strings.Split] at a text. *)
Fixpoint SplitS_loop (fuel : nat) (s sep : gostring) : list gostring :=
  match fuel with
  | O => [s]
  | S fuel => match Index s sep with None => [s] | Some i => take (Z.to_nat i) s :: SplitS_loop fuel (drop (Z.to_nat i + length sep) s) sep end
  end.
Definition SplitS (s sep : gostring) : list gostring := SplitS_loop (length s) s sep.

Definition handleGcsCopy (now : Z) (granted : bool) (g : GcsEmu) (baseUrl : HttpBaseUrl) (b1 objectPaths : gostring) : run (Reply * GcsEmu) :=
  match SplitS objectPaths (lit "/rewriteTo/b/") with
  | [f1; dest] =>
      match SplitS dest (lit "/o/") with
      | b2 :: f2 :: _ =>
          if negb granted then Ok (gapiError 0, g)
          else match Copy TypeByExtension FormatTime now (store g) b1 f1 b2 f2 with
               | (false, _) => Ok (GapiError 404, g)
               | (true, ms) =>
                   match GetMeta TypeByExtension ms baseUrl b2 f2 with
                   | None => Ok (GapiError 404, with_store g ms)
                   | Some obj => Ok (JsonRewrite (i64 (o_Size obj)) obj, with_store g ms)
                   end
               end
      | _ => Crash   (* index out of range: the length that is checked is that of the other split *)
      end
  | _ => Ok (GapiError 400, g)
  end.

(** ** Uploads *)

Context (Md5 : list byte -> list byte) (IsPrint : Z -> bool).

(** The part of [finishUpload] up to the end of the critical section: a code or nothing, the object the
    caller's pointer now points to, and the store. *)
Definition finish_locked (now : Z) (granted : bool) (ms : memstore T) (baseUrl : HttpBaseUrl) (obj : Object) (contents : list byte) (bucket : gostring) (conds : Conditions) :
  option Z * Object * memstore T :=
  let filename := o_Name obj in
  let contentHash := Md5 contents in
  let md5Hash := b64_Encode contentHash in
  let mismatch :=
    if decide (o_Md5Hash obj = []) then false
    else match b64_Decode (o_Md5Hash obj) with None => true | Some h => negb (bool_decide (contentHash = h)) end in
  if mismatch then (Some 400, obj, ms)
  else
    let obj := set_hash obj md5Hash (Quote IsPrint md5Hash) in
    if negb granted then (Some 0, obj, ms)
    else
      let existing := GetMeta TypeByExtension ms baseUrl bucket filename in
      match validateConds existing conds with
      | Some code => (Some code, obj, ms)
      | None =>
          let obj := match existing with Some e => set_created obj (o_TimeCreated e) | None => obj end in
          (None, Add_meta TypeByExtension FormatTime now bucket filename obj, Add TypeByExtension FormatTime now ms bucket filename contents obj)
      end.

(** The rest, on the store as it is by then. *)
Definition finish_respond (ms : memstore T) (baseUrl : HttpBaseUrl) (bucket filename : gostring) : run Object :=
  match GetMeta TypeByExtension ms baseUrl bucket filename with
  | None => Crash
  | Some m => Ok (set_version m (o_Generation m) (o_Updated m) (bucket ++ lit "/" ++ filename ++ lit "/" ++ FormatInt (o_Generation m)) (o_Etag m))
  end.

Definition finishUpload (now : Z) (granted : bool) (ms : memstore T) (baseUrl : HttpBaseUrl) (obj : Object) (contents : list byte) (bucket : gostring) (conds : Conditions) :
  run ((Z + Object) * Object * memstore T) :=
  match finish_locked now granted ms baseUrl obj contents bucket conds with
  | (Some code, obj', ms') => Ok (inl code, obj', ms')
  | (None, obj', ms') => m ← finish_respond ms' baseUrl bucket (o_Name obj); Ok (inr m, obj', ms')
  end.

(** The reply to a finished upload. *)
Definition upload_reply (r : Z + Object) : Reply := match r with inl code => gapiError code | inr m => JsonUploaded m end.

Context (DecodeObject : option (list byte) -> option Object) (DecodeBucket : option (list byte) -> option gostring).

Definition handleGcsNewBucket (now : Z) (granted : bool) (g : GcsEmu) (body : option (list byte)) : Reply * GcsEmu :=
  match DecodeBucket body with
  | None => (GapiError 400, g)
  | Some name => if negb granted then (gapiError 0, g) else (JsonBucket name, with_store g (CreateBucket now (store g) name))
  end.

(** [readMultipartInsert]: the parts are read one after the other; a part that cannot be read is [None]. *)
Context (ParseMediaType : gostring -> option (gostring * gmap gostring gostring)) (MultipartParts : gostring -> option (list byte) -> list (option (list byte))).
Context (UnmarshalObject : list byte -> option Object).

Definition readMultipartInsert (r : GRequest) : option (Object * list byte) :=
  let v := vals_Get (g_Header r) (lit "Content-Type") in
  if decide (v = []) then None
  else
    '(d, params) ← ParseMediaType v;
    if decide (d <> lit "multipart/related") then None
    else
      boundary ← params !! lit "boundary";
      match MultipartParts boundary (g_Body r) with
      | Some b :: rest =>
          obj ← UnmarshalObject b;
          match rest with
          | Some contents :: _ => Some (set_size obj (u64 (blen contents)), contents)
          | _ => None
          end
      | _ => None
      end.

Definition form_Get (r : GRequest) (name : gostring) : gostring := vals_Get (default ∅ (g_Form r)) name.

Definition upload_now (now : Z) (granted : bool) (g : GcsEmu) (baseUrl : HttpBaseUrl) (obj : Object) (contents : list byte) (bucket : gostring) (conds : Conditions) : run (Reply * GcsEmu) :=
  '(r, _, ms) ← finishUpload now granted (store g) baseUrl obj contents bucket conds;
  Ok (upload_reply r, with_store g ms).

Definition handleGcsNewObject (now : Z) (granted : bool) (g : GcsEmu) (baseUrl : HttpBaseUrl) (r : GRequest) (bucket : gostring) (conds : Conditions) : run (Reply * GcsEmu) :=
  let uploadType := form_Get r (lit "uploadType") in
  if decide (uploadType = lit "media") then
    let name := form_Get r (lit "name") in
    if decide (name = []) then Ok (GapiError 400, g)
    else match g_Body r with
         | None => Ok (GapiError 400, g)
         | Some contents =>
             let obj := set_size (set_name (set_ctype (set_bucket zero_object bucket) (vals_Get (g_Header r) (lit "Content-Type"))) name) (u64 (blen contents)) in
             upload_now now granted g baseUrl obj contents bucket conds
         end
  else if decide (uploadType = lit "resumable") then
    match DecodeObject (g_Body r) with
    | None => Ok (GapiError 400, g)
    | Some obj =>
        let obj := set_bucket obj bucket in
        let nextId := i32 (idCounter g + 1) in
        let id := FormatInt nextId in
        let a := fresh (dom (uploads g)) in
        Ok (Created (ObjectUrl baseUrl bucket (o_Name obj) ++ lit "?upload_id=" ++ id) (o_ContentType obj),
            mkEmu (store g) (ids_Set (uploadIds g) id a) (<[a := mkUpload obj conds []]> (uploads g)) nextId)
    end
  else if decide (uploadType = lit "multipart") then
    match readMultipartInsert r with
    | None => Ok (GapiError 400, g)
    | Some (obj, contents) => upload_now now granted g baseUrl obj contents bucket conds
    end
  else Ok (GapiError 501, g).

(** The received range applied to the data: [None] is a refusal. *)
Definition range_matches (br : byteRange) (contents : list byte) : bool :=
  negb (((br_lo br =? -1) && negb (blen contents =? 0)) || (negb (br_lo br =? -1) && negb (blen contents =? i64 (br_hi br + 1 - br_lo br)))).

Definition apply_range (br : byteRange) (data contents : list byte) : option (run (list byte)) :=
  if negb (range_matches br contents) then None
  else if blen data <? br_lo br then None
  else Some (if br_lo br =? -1 then Ok (data ++ contents)
             else if br_lo br <? 0 then Crash else Ok (take (Z.to_nat (br_lo br)) data ++ contents)).

Definition handleGcsNewObjectResume (now : Z) (granted : bool) (g : GcsEmu) (baseUrl : HttpBaseUrl) (r : GRequest) (id : gostring) : run (Reply * GcsEmu) :=
  let '(found, ids) := ids_GetIFPresent (uploadIds g) id in
  let g := mkEmu (store g) ids (uploads g) (idCounter g) in
  match found with
  | None => Ok (GapiError 500, g)
  | Some None => Ok (GapiError 404, g)
  | Some (Some a) =>
      match uploads g !! a with
      | None => Crash
      | Some u =>
          match g_Body r with
          | None => Ok (GapiError 400, g)
          | Some contents =>
              let contentRange := vals_Get (g_Header r) (lit "Content-Range") in
              if decide (contentRange = []) then Ok (GapiError 400, g)
              else match parseByteRange contentRange with
                   | None => Ok (GapiError 400, g)
                   | Some br =>
                       match apply_range br (u_data u) contents with
                       | None => Ok (GapiError 400, g)
                       | Some result =>
                           data ← result;
                           let g := mkEmu (store g) (uploadIds g) (<[a := mkUpload (u_Object u) (u_Conds u) data]> (uploads g)) (idCounter g) in
                           if (br_sz br <? 0) || (blen data <? br_sz br) then
                             Ok (Resume (blen data - 1) (o_ContentType (u_Object u)) (bool_decide (vals_Get (g_Header r) (lit "X-Guploader-No-308") = lit "yes")), g)
                           else
                             '(res, obj', ms) ← finishUpload now granted (store g) baseUrl (u_Object u) data (o_Bucket (u_Object u)) (u_Conds u);
                             Ok (upload_reply res,
                                 mkEmu ms (match res with inl _ => uploadIds g | inr _ => ids_Remove (uploadIds g) id end)
                                   (<[a := mkUpload obj' (u_Conds u) data]> (uploads g)) (idCounter g))
                       end
                   end
          end
      end
  end.

(** ** Composing *)

Record composeObj := mkCompose { c_filename : gostring; c_conds : Conditions }.
Definition gcsMaxComposeSources : Z := 32.

(** The contents of the sources in order and the sum of their component counts. *)
Fixpoint compose_sources (ms : memstore T) (bucket : gostring) (srcs : list composeObj) : Z + (list byte * list Object) :=
  match srcs with
  | [] => inr ([], [])
  | src :: srcs =>
      match Get ms bucket (c_filename src) with
      | None => inl 404
      | Some (meta, contents) =>
          match validateConds (Some meta) (c_conds src) with
          | Some code => inl code
          | None => match compose_sources ms bucket srcs with inl code => inl code | inr (data, metas) => inr (contents ++ data, meta :: metas) end
          end
      end
  end.

Definition finishCompose (now : Z) (ms : memstore T) (baseUrl : HttpBaseUrl) (bucket : gostring) (dst : composeObj) (srcs : list composeObj) (meta : option Object) :
  run ((Z + option Object) * memstore T) :=
  if gcsMaxComposeSources <? blen srcs then Ok (inl 400, ms)
  else match compose_sources ms bucket srcs with
       | inl code => Ok (inl code, ms)
       | inr (data, metas) =>
           match meta with
           | None => Crash
           | Some meta =>
               let meta := foldl (fun meta m => set_components meta (i64 (o_ComponentCount meta + o_ComponentCount m))) meta metas in
               let meta := set_hash meta [] (o_Etag meta) in
               let dstMeta := GetMeta TypeByExtension ms baseUrl bucket (c_filename dst) in
               match validateConds dstMeta (c_conds dst) with
               | Some code => Ok (inl code, ms)
               | None =>
                   let meta := match dstMeta with Some d => set_created meta (o_TimeCreated d) | None => meta end in
                   let ms := Add TypeByExtension FormatTime now ms bucket (c_filename dst) data meta in
                   Ok (inr (GetMeta TypeByExtension ms baseUrl bucket (c_filename dst)), ms)
               end
           end
       end.

(** [storage.ComposeRequest]: the sources with their generation, and the metadata of the result. *)
Record ComposeRequest := mkComposeReq { cr_SourceObjects : list (gostring * option Z); cr_Destination : option Object }.
Context (DecodeCompose : option (list byte) -> option ComposeRequest).

Definition handleGcsCompose (now : Z) (granted : bool) (g : GcsEmu) (baseUrl : HttpBaseUrl) (body : option (list byte)) (bucket object : gostring) (conds : Conditions) : run (Reply * GcsEmu) :=
  match DecodeCompose body with
  | None => Ok (GapiError 400, g)
  | Some req =>
      match SplitS object (lit "/compose") with
      | [name; _] =>
          let dst := mkCompose name conds in
          let srcs := (fun s => mkCompose s.1 (mkConds (default 0 s.2) 0 false 0 0)) <$> cr_SourceObjects req in
          if negb granted then Ok (gapiError 0, g)
          else
            '(res, ms) ← finishCompose now (store g) baseUrl bucket dst srcs (cr_Destination req);
            Ok (match res with inl code => gapiError code | inr obj => JsonObject obj end, with_store g ms)
      | _ => Ok (GapiError 400, g)
      end
  end.

(** ** The host of a request *)

Definition req_header (r : GRequest) (name : gostring) : gostring := vals_Get (g_Header r) name.

(** The value behind [host=] up to a comma, a semicolon, white space or the end, and what follows. *)
Definition host_end (c : byte) : bool := bool_decide (c ∈ [Byte.x2c; Byte.x3b; Byte.x09; Byte.x0a; Byte.x0c; Byte.x0d; Byte.x20]).
Fixpoint host_value (s : gostring) : gostring * gostring :=
  match s with
  | [] => ([], [])
  | c :: s => if host_end c then ([], s) else let '(v, rest) := host_value s in (c :: v, rest)
  end.

Definition to_lower (c : byte) : byte := if (65 <=? Z_of_byte c) && (Z_of_byte c <=? 90) then byte_of_Z (Z_of_byte c + 32) else c.

(** The length of [host=] at the start of the text, in any case; the long s is a case of s. *)
Definition is_host (s : gostring) : option nat :=
  if decide (to_lower <$> take 5 s = lit "host=") then Some 5%nat
  else if decide (to_lower <$> take 6 s = lit "ho" ++ [Byte.xc5; Byte.xbf] ++ lit "t=") then Some 6%nat else None.

Definition removeDoubleQuotes (s : gostring) : gostring :=
  let s := if HasPrefix s [Byte.x22] then drop 1 s else s in
  if bool_decide (last s Byte.x00 = Byte.x22) then take (length s - 1) s else s.

(** All matches of the pattern from the left. *)
Fixpoint hosts_loop (fuel : nat) (s : gostring) : list gostring :=
  match fuel, s with
  | S fuel, _ :: s' =>
      match is_host s with
      | Some n => let '(v, rest) := host_value (drop n s) in removeDoubleQuotes v :: hosts_loop fuel rest
      | None => hosts_loop fuel s'
      end
  | _, _ => []
  end.
Definition parseForwardedHeader (s : gostring) : list gostring := hosts_loop (length s) s.

Definition requestHost (r : GRequest) : gostring :=
  let proxyHost := req_header r (lit "X-Forwarded-Host") in
  if decide (proxyHost <> []) then (span_not Byte.x2c proxyHost).1
  else match parseForwardedHeader (req_header r (lit "Forwarded")) with
       | (_ :: _) as h :: _ => h
       | _ => let host := req_header r (lit "Authority") in if decide (host <> []) then host else g_Host r
       end.

Definition request_baseUrl (r : GRequest) : HttpBaseUrl :=
  let host := requestHost r in
  if decide (host = []) then dontNeedUrls
  else (if g_TLS r || bool_decide (req_header r (lit "X-Forwarded-Proto") = lit "https") then lit "https://" else lit "http://") ++ host ++ lit "/".

(** ** Dispatch *)

Definition HasSuffix (s suffix : gostring) : bool := HasPrefix (reverse s) (reverse suffix).

Definition read_only (g : GcsEmu) (r : run Reply) : run (Reply * GcsEmu) := reply ← r; Ok (reply, g).

Definition Handler (now : Z) (granted : bool) (g : GcsEmu) (r : GRequest) : run (Reply * GcsEmu) :=
  let baseUrl := request_baseUrl r in
  match ParseGcsUrl (g_Path r) with
  | None => Ok (GapiError 400, g)
  | Some p =>
      let object := p_Object p in
      let bucket := p_Bucket p in
      match g_Form r with
      | None => Ok (GapiError 400, g)
      | Some form =>
          match parseConds form with
          | None => Ok (GapiError 400, g)
          | Some conds =>
              let alt := vals_Get (g_Query r) (lit "alt") in
              let upload_id := vals_Get form (lit "upload_id") in
              if decide (g_Method r = lit "DELETE") then Ok (handleGcsDelete granted g bucket object conds)
              else if decide (g_Method r = lit "GET") then
                if decide (object = []) then
                  if HasSuffix (g_Path r) (lit "/o") then read_only g (handleGcsListBucket (store g) baseUrl (g_Query r) bucket)
                  else Ok (handleGcsMetadataRequest (store g) baseUrl bucket object, g)
                else if bool_decide (alt = lit "media") || (p_IsPublic p && bool_decide (alt = [])) then
                  read_only g (handleGcsMediaRequest (store g) (req_header r (lit "Accept-Encoding")) bucket object)
                else if bool_decide (alt = lit "json") || (negb (p_IsPublic p) && bool_decide (alt = [])) then
                  Ok (handleGcsMetadataRequest (store g) baseUrl bucket object, g)
                else Ok (GapiError 400, g)
              else if decide (g_Method r = lit "PATCH") then
                if bool_decide (alt = lit "json") || bool_decide (req_header r (lit "Content-Type") = lit "application/json") then
                  handleGcsUpdateMetadataRequest granted g baseUrl (g_Body r) bucket object conds
                else Ok (GapiError 400, g)
              else if decide (g_Method r = lit "POST") then
                if decide (bucket = []) then Ok (handleGcsNewBucket now granted g (g_Body r))
                else if decide (object = []) then handleGcsNewObject now granted g baseUrl r bucket conds
                else if Contains object (lit "/compose") then handleGcsCompose now granted g baseUrl (g_Body r) bucket object conds
                else if Contains object (lit "/rewriteTo/") then handleGcsCopy now granted g baseUrl bucket object
                else if decide (upload_id <> []) then handleGcsNewObjectResume now granted g baseUrl r upload_id
                else Ok (GapiError 400, g)
              else if decide (g_Method r = lit "PUT") then
                if decide (upload_id <> []) then handleGcsNewObjectResume now granted g baseUrl r upload_id else Ok (GapiError 400, g)
              else Ok (GapiError 405, g)
          end
      end
  end.

(** [InitBucket] *)
Definition InitBucket (now : Z) (g : GcsEmu) (bucketName : gostring) : GcsEmu := with_store g (CreateBucket now (store g) bucketName).

End Emulator.
