(* ===== verification/GcsListing.v ===== *)
(** Theorems about the store in memory and its listing: the B-tree as an interface, and what following
    the page tokens collects. *)

From Stdlib Require Import Sorting.Sorted.
From S2P Require Import Prelude GoSort Run Strconv GoText GcsStore GcsEmu.

(** ** The B-tree *)

Definition sorted_names (l : list gostring) : Prop := StronglySorted (fun a b => str_ltb a b = true) l.

(** What the documentation of the tree promises. *)
Class BTreeLaws (T : Type) `{BTree T} := {
  bt_ok : T -> Prop;
  bt_new : bt_ok bt_New /\ bt_Ascend bt_New = [];
  bt_sorted : forall t, bt_ok t -> sorted_names (f_name <$> bt_Ascend t);
  bt_get : forall t n f, bt_ok t -> bt_Get t n = Some f <-> (f ∈ bt_Ascend t) /\ f_name f = n;
  bt_insert : forall t f, bt_ok t -> bt_ok (bt_ReplaceOrInsert t f) /\
    forall g, g ∈ bt_Ascend (bt_ReplaceOrInsert t f) <-> g = f \/ ((g ∈ bt_Ascend t) /\ f_name g <> f_name f);
  bt_delete : forall t n, bt_ok t ->
    match bt_Delete t n with
    | None => bt_Get t n = None
    | Some t' => bt_ok t' /\ forall g, g ∈ bt_Ascend t' <-> (g ∈ bt_Ascend t) /\ f_name g <> n
    end
}.

(** ** Names and prefixes *)

Lemma str_ltb_app_prefix p s t : str_ltb (p ++ s) (p ++ t) = str_ltb s t.
Proof. induction p as [|c p IH]; [done|]. cbn. by rewrite Z.ltb_irrefl, Z.eqb_refl, IH. Qed.

(** A text that is greater than a prefix without beginning with it is greater than all that begins with it. *)
Lemma greater_spec item prefix : greaterThanPrefix item prefix = true -> HasPrefix item prefix = false /\ forall item', str_ltb item item' = true -> HasPrefix item' prefix = false.
Proof.
  revert item. induction prefix as [|p prefix IH]; intros item; unfold greaterThanPrefix.
  - destruct item; done.
  - destruct item as [|c item]; [done|]. cbn [length]. change (S (length item) <? S (length prefix))%nat with (length item <? length prefix)%nat.
    intros Hg. assert (Hg' : Z_of_byte p < Z_of_byte c \/ (Z_of_byte p = Z_of_byte c /\ greaterThanPrefix item prefix = true)).
    { unfold greaterThanPrefix. destruct (length item <? length prefix)%nat; cbn in Hg; rewrite orb_true_iff, andb_true_iff, Z.ltb_lt, Z.eqb_eq in Hg; tauto. }
    clear Hg. destruct Hg' as [Hlt|[Heq Hg]].
    + split; [cbn; rewrite bool_decide_eq_false_2; [done|intros ->; lia]|]. intros [|c' item'] Hl; [done|]. cbn in Hl |- *.
      rewrite orb_true_iff, andb_true_iff, Z.ltb_lt, Z.eqb_eq in Hl. rewrite bool_decide_eq_false_2; [done|]. intros ->. lia.
    + destruct (IH item Hg) as [H1 H2]. split; [cbn; by rewrite H1, andb_false_r|]. intros [|c' item'] Hl; [done|]. cbn in Hl |- *.
      rewrite orb_true_iff, andb_true_iff, Z.ltb_lt, Z.eqb_eq in Hl. destruct Hl as [Hl|[_ Hl]].
      * rewrite bool_decide_eq_false_2; [done|]. intros ->. lia.
      * by rewrite (H2 _ Hl), andb_false_r.
Qed.

Lemma less_spec item prefix : lessThanPrefix item prefix = true -> forall item', HasPrefix item' prefix = true -> str_ltb item item' = true.
Proof.
  intros Hl item' [t ->]%HasPrefix_spec. revert item Hl. induction prefix as [|p prefix IH]; intros item; unfold lessThanPrefix.
  - destruct item; done.
  - destruct item as [|c item]; [done|]. cbn [length]. change (S (length item) <? S (length prefix))%nat with (length item <? length prefix)%nat.
    intros Hg. cbn. rewrite orb_true_iff, andb_true_iff, Z.ltb_lt, Z.eqb_eq.
    assert (Hg' : Z_of_byte c < Z_of_byte p \/ (Z_of_byte c = Z_of_byte p /\ lessThanPrefix item prefix = true)).
    { unfold lessThanPrefix. destruct (length item <? length prefix)%nat; cbn in Hg; rewrite orb_true_iff, andb_true_iff, Z.ltb_lt, Z.eqb_eq in Hg; tauto. }
    destruct Hg' as [?|[? ?]]; [by left|right; auto].
Qed.

(** ** The walk *)

(** The files of a listing, before it is cut into pages. *)
Definition wanted (cursor prefix : gostring) (names : list gostring) : list gostring :=
  List.filter (fun n => str_ltb cursor n && HasPrefix n prefix) names.

(** What the callback does with a file that is listed. *)
Definition note (delimiter prefix : gostring) (l : listing) (filename : gostring) : listing :=
  let item := mkListing (l_found l ++ [filename]) (l_prefixes l) (l_count l + 1) (l_more l) in
  if decide (delimiter = []) then item
  else match Index (drop (length prefix) filename) delimiter with
       | Some i =>
           let p := take (length prefix + Z.to_nat i + length delimiter) filename in
           mkListing (l_found l) (if decide (p ∈ l_prefixes l) then l_prefixes l else l_prefixes l ++ [p]) (l_count l + 1) (l_more l)
       | None => item
       end.

Definition set_more (l : listing) : listing := mkListing (l_found l) (l_prefixes l) (l_count l) true.

Lemma note_count d p l n : l_count (note d p l n) = l_count l + 1 /\ l_more (note d p l n) = l_more l.
Proof. unfold note. case_decide; [done|]. by destruct (Index _ _). Qed.

Lemma note_found d p l v n : n ∈ l_found (note d p l v) -> (n ∈ l_found l) \/ n = v.
Proof.
  unfold note. destruct (decide (d = [])); [|destruct (Index _ _)]; cbn [l_found]; try (by left); intros [Hn|Hn%list_elem_of_singleton]%elem_of_app; auto.
Qed.

Lemma wanted_none cursor prefix names : (forall n, n ∈ names -> HasPrefix n prefix = false) -> wanted cursor prefix names = [].
Proof.
  intros Hn. induction names as [|n names IH]; [done|]. cbn. rewrite (Hn n) by by left. rewrite andb_false_r. apply IH. intros m Hm. apply Hn. by right.
Qed.

Lemma cb_wanted d cursor prefix m n l :
  greaterThanPrefix n prefix = false -> str_ltb cursor n && HasPrefix n prefix = true -> l_count l < m ->
  walk_cb d cursor prefix m false n l = (WNil, note d prefix l n).
Proof.
  intros Hg [Hc Hp]%andb_prop Hm. unfold walk_cb, note. rewrite Hg, Hc, Hp. cbn. rewrite (proj2 (Z.leb_gt _ _)) by lia. case_decide; [done|]. by destruct (Index _ _).
Qed.

Lemma cb_unwanted d cursor prefix m n l :
  greaterThanPrefix n prefix = false -> str_ltb cursor n && HasPrefix n prefix = false -> walk_cb d cursor prefix m false n l = (WNil, l).
Proof. intros Hg Hw. unfold walk_cb. rewrite Hg. destruct (str_ltb cursor n); [|done]. cbn in Hw. by rewrite Hw. Qed.

Lemma cb_full d cursor prefix m n l :
  greaterThanPrefix n prefix = false -> str_ltb cursor n && HasPrefix n prefix = true -> m <= l_count l ->
  walk_cb d cursor prefix m false n l = (errAbort, set_more l).
Proof. intros Hg [Hc Hp]%andb_prop Hm. unfold walk_cb. rewrite Hg, Hc, Hp. cbn. by rewrite (proj2 (Z.leb_le _ _)) by lia. Qed.

Lemma wanted_prefix cursor prefix names n : n ∈ wanted cursor prefix names -> (n ∈ names) /\ str_ltb cursor n = true /\ HasPrefix n prefix = true.
Proof. intros [Hin [Hc Hp]%andb_prop]%list_elem_of_In%filter_In. by rewrite list_elem_of_In. Qed.

(** The walk visits the wanted files in order and stops when there is one too many; stopping at a
    name greater than the prefix loses nothing. *)
Lemma walk_spec d cursor prefix m names l :
  sorted_names names -> l_count l <= m ->
  walk_files (walk_cb d cursor prefix m false) names l =
  let W := wanted cursor prefix names in
  let k := Z.to_nat (m - l_count l) in
  let l' := foldl (note d prefix) l (take k W) in
  if (k <? length W)%nat then set_more l' else l'.
Proof.
  intros Hs. revert l. induction names as [|n names IH]; intros l Hm; [cbn; by rewrite take_nil|]. apply StronglySorted_inv in Hs as [Hs Hall].
  specialize (IH Hs). cbn [walk_files]. destruct (greaterThanPrefix n prefix) eqn:Eg.
  { assert (Hnone : wanted cursor prefix (n :: names) = []).
    { apply wanted_none. destruct (greater_spec _ _ Eg) as [H1 H2]. intros n' [->|Hin]%elem_of_cons; [done|]. apply H2. rewrite List.Forall_forall in Hall. apply Hall. by apply list_elem_of_In. }
    cbn zeta. rewrite Hnone, take_nil. cbn. unfold walk_cb. by rewrite Eg. }
  unfold wanted. cbn [List.filter]. destruct (str_ltb cursor n && HasPrefix n prefix) eqn:Ew; fold (wanted cursor prefix names).
  - destruct (decide (m <= l_count l)) as [Hfull|Hfree].
    + rewrite cb_full by done. assert (Hz : Z.to_nat (m - l_count l) = 0%nat) by lia. cbn zeta. by rewrite Hz.
    + rewrite cb_wanted by (done || lia). rewrite IH by (rewrite (proj1 (note_count d prefix l n)); lia). cbn zeta. rewrite (proj1 (note_count d prefix l n)).
      assert (Hk : Z.to_nat (m - l_count l) = S (Z.to_nat (m - (l_count l + 1)))) by lia. rewrite Hk. done.
  - rewrite cb_unwanted by done. by apply IH.
Qed.

Lemma note_plain prefix l W : foldl (note [] prefix) l W = mkListing (l_found l ++ W) (l_prefixes l) (l_count l + blen W) (l_more l).
Proof.
  revert l. induction W as [|n W IH]; intros l; cbn [foldl].
  - rewrite blen_nil, app_nil_r, Z.add_0_r. by destruct l.
  - rewrite IH. unfold note. rewrite decide_True by done. cbn. rewrite <- app_assoc. rewrite blen_cons. f_equal. lia.
Qed.

(** ** Pages *)

Lemma sorted_wanted cursor prefix names : sorted_names names -> sorted_names (wanted cursor prefix names).
Proof.
  intros Hs. induction Hs as [|n names Hs IH Hall]; [constructor|]. cbn. destruct (_ && _); [|done]. constructor; [done|].
  rewrite List.Forall_forall in Hall |- *. intros x Hx. apply Hall. by apply filter_In in Hx as [? _].
Qed.

Lemma sorted_app_lt l1 l2 a b : sorted_names (l1 ++ l2) -> (a ∈ l1) -> (b ∈ l2) -> str_ltb a b = true.
Proof.
  induction l1 as [|x l1 IH]; intros Hs Ha Hb; [by apply elem_of_nil in Ha|]. cbn in Hs. apply StronglySorted_inv in Hs as [Hs Hall].
  apply elem_of_cons in Ha as [->|Ha]; [|by apply IH]. rewrite List.Forall_forall in Hall. apply Hall. apply list_elem_of_In, elem_of_app. by right.
Qed.

(** The page after the first [k] files begins behind the last of them. *)
Lemma wanted_next cursor prefix names k x :
  sorted_names names -> last (take k (wanted cursor prefix names)) [] = x -> take k (wanted cursor prefix names) <> [] ->
  wanted x prefix names = drop k (wanted cursor prefix names).
Proof.
  intros Hs Hx Hne. set (W := wanted cursor prefix names) in *.
  assert (Hsw : sorted_names W) by by apply sorted_wanted.
  assert (Hin : x ∈ take k W) by (subst x; destruct (exists_last Hne) as (l & a & ->); rewrite last_last; apply elem_of_app; right; by left).
  assert (Hcx : str_ltb cursor x = true) by (apply (wanted_prefix cursor prefix names); change (x ∈ W); rewrite <- (take_drop k W); apply elem_of_app; by left).
  assert (E : wanted x prefix names = List.filter (fun n => str_ltb x n) W).
  { unfold W, wanted. clear -Hcx. induction names as [|n names IH]; [done|]. cbn. destruct (str_ltb cursor n && HasPrefix n prefix) eqn:E; cbn.
    - apply andb_prop in E as [_ ->]. rewrite andb_true_r. destruct (str_ltb x n); by rewrite IH.
    - destruct (HasPrefix n prefix); [|by rewrite andb_false_r]. rewrite andb_true_r in E. destruct (str_ltb x n) eqn:Ex; [|done].
      rewrite (str_ltb_trans _ _ _ Hcx Ex) in E. done. }
  rewrite E. rewrite <- (take_drop k W) at 1. rewrite List.filter_app.
  assert (Hno : forall l, (forall y, y ∈ l -> str_ltb x y = false) -> List.filter (fun n => str_ltb x n) l = []).
  { clear. induction l as [|y l IH]; intros Hl; [done|]. cbn. rewrite Hl by by left. apply IH. intros z Hz. apply Hl. by right. }
  assert (Hyes : forall l, (forall y, y ∈ l -> str_ltb x y = true) -> List.filter (fun n => str_ltb x n) l = l).
  { clear. induction l as [|y l IH]; intros Hl; [done|]. cbn. rewrite Hl by by left. f_equal. apply IH. intros z Hz. apply Hl. by right. }
  rewrite Hno, Hyes; [done| |].
  - intros y Hy. rewrite <- (take_drop k W) in Hsw. by apply (sorted_app_lt (take k W) (drop k W)).
  - intros y Hy. destruct (exists_last Hne) as (l & a & El). rewrite El in Hx, Hy. rewrite last_last in Hx. subst a.
    apply elem_of_app in Hy as [Hy|Hy%list_elem_of_singleton]; [|subst; apply str_ltb_irrefl]. apply str_ltb_asym.
    rewrite <- (take_drop k W), El, <- app_assoc in Hsw. apply (sorted_app_lt l ([x] ++ drop k W)); [done|done|by left].
Qed.

Lemma last_fmap {A B} (f : A -> B) (l : list A) a b : l <> [] -> last (f <$> l) b = f (last l a).
Proof. intros Hne. destruct (exists_last Hne) as (l' & x & ->). rewrite fmap_app. cbn. by rewrite !last_last. Qed.

Section Pages.
Context (ProtoMarshal : gostring -> option (list byte)) (ProtoUnmarshal : list byte -> option gostring).
Context (b64_Encode : list byte -> gostring) (b64_Decode : gostring -> option (list byte)).
Context (TypeByExtension : gostring -> gostring).
Context {T : Type} `{HB : BTree T} `{HL : !BTreeLaws T}.

Abbreviation list_bucket := (handleGcsListBucket ProtoMarshal ProtoUnmarshal b64_Encode b64_Decode TypeByExtension).
Abbreviation meta_of := (GetMeta TypeByExtension).

Definition bucket_names (b : memBucket T) : list gostring := f_name <$> bt_Ascend (mb_files b).

Lemma find_name (ms : memstore T) bucket b n : getBucket ms bucket = Some b -> bt_ok (mb_files b) -> (n ∈ bucket_names b) -> exists f, find ms bucket n = Some f /\ f_name f = n.
Proof.
  intros Hb Hok (f & -> & Hin)%list_elem_of_fmap. exists f. split; [|done]. unfold find. rewrite Hb. cbn. apply bt_get; [done|]. by split.
Qed.

Lemma meta_name (ms : memstore T) baseUrl bucket b n :
  getBucket ms bucket = Some b -> bt_ok (mb_files b) -> (n ∈ bucket_names b) -> exists o, meta_of ms baseUrl bucket n = Some o /\ o_Name o = n.
Proof. intros Hb Hok Hin. destruct (find_name ms bucket b n Hb Hok Hin) as (f & Hf & _). unfold GetMeta. rewrite Hf. cbn. by eexists. Qed.

(** A client that asks for a page and follows the tokens: the objects of each page. *)
Definition list_params (prefix : gostring) (m : Z) (token : gostring) : Values :=
  <[lit "prefix" := [prefix]]> (<[lit "maxResults" := [FormatInt m]]> (<[lit "pageToken" := [token]]> ∅)).

Fixpoint list_all (fuel : nat) (ms : memstore T) (baseUrl prefix : gostring) (m : Z) (bucket token : gostring) : run (list (list (option Object))) :=
  match fuel with
  | O => OutOfFuel
  | S fuel =>
      r ← list_bucket ms baseUrl (list_params prefix m token) bucket;
      match r with
      | JsonObjects next items _ =>
          if decide (next = []) then Ok [items]
          else rest ← list_all fuel ms baseUrl prefix m bucket next; Ok (items :: rest)
      | _ => Crash
      end
  end.

Hypothesis b64_ok : forall b, b64_Decode (b64_Encode b) = Some b.

(** The name can be put into a page token and found there again. *)
Definition token_ok (n : gostring) : Prop :=
  exists bytes, ProtoMarshal n = Some bytes /\ ProtoUnmarshal bytes = Some n /\ b64_Encode bytes <> [].

Lemma FormatInt_nonempty m : FormatInt m <> [].
Proof.
  unfold FormatInt. destruct (m <? 0) eqn:E; [done|]. destruct (FormatUint_cons m) as (c & s & -> & _); [lia|done].
Qed.

(** One page: the first [m] wanted files behind the cursor, and a token for the last of them if there are more. *)
Lemma page_spec (ms : memstore T) baseUrl prefix m bucket b token cursor :
  getBucket ms bucket = Some b -> bt_ok (mb_files b) -> 1 <= m < 2 ^ 63 ->
  (token = [] /\ cursor = [] \/ token <> [] /\ DecodePageToken ProtoUnmarshal b64_Decode token = Some cursor) ->
  let W := wanted cursor prefix (bucket_names b) in
  list_bucket ms baseUrl (list_params prefix m token) bucket =
  (tok ← (if (Z.to_nat m <? length W)%nat then EncodePageToken ProtoMarshal b64_Encode (last (take (Z.to_nat m) W) []) else Ok []);
   Ok (JsonObjects tok (meta_of ms baseUrl bucket <$> take (Z.to_nat m) W) [])).
Proof.
  intros Hb Hok Hm Htok W. unfold handleGcsListBucket.
  assert (Ed : vals_Get (list_params prefix m token) (lit "delimiter") = []) by (unfold vals_Get, list_params; by rewrite !lookup_insert_ne).
  assert (Ep : vals_Get (list_params prefix m token) (lit "prefix") = prefix) by (unfold vals_Get, list_params; by rewrite lookup_insert_eq).
  assert (Em : vals_Get (list_params prefix m token) (lit "maxResults") = FormatInt m) by (unfold vals_Get, list_params; by rewrite lookup_insert_ne, lookup_insert_eq).
  assert (Et : vals_Get (list_params prefix m token) (lit "pageToken") = token) by (unfold vals_Get, list_params; by rewrite lookup_insert_ne, lookup_insert_ne, lookup_insert_eq).
  rewrite Ed, Ep, Em, Et. cbn zeta.
  assert (Ec : (if decide (token = []) then Some [] else DecodePageToken ProtoUnmarshal b64_Decode token) = Some cursor).
  { destruct Htok as [[-> ->]|[Hne Hd]]; [done|]. by rewrite decide_False. }
  rewrite Ec. rewrite decide_False by apply FormatInt_nonempty. unfold ParseInt_opt. rewrite ParseInt_Format by (unfold is_i64; lia).
  rewrite (proj2 (Z.ltb_ge m 1)) by lia. rewrite andb_false_r. unfold makeBucketListResults. rewrite Hb. fold (bucket_names b).
  rewrite walk_spec by first [by apply bt_sorted | cbn; lia]. cbn [l_count]. rewrite Z.sub_0_r. cbn zeta. fold W. rewrite note_plain. cbn [l_found l_prefixes app].
  unfold list_items. destruct (Z.to_nat m <? length W)%nat eqn:El; cbn [set_more l_more l_found l_prefixes]; [|done].
  assert (Hne : take (Z.to_nat m) W <> []).
  { apply Nat.ltb_lt in El. intros E. apply (f_equal length) in E. rewrite length_take in E. cbn in E. lia. }
  rewrite (last_fmap _ _ []) by done.
  assert (Hin : last (take (Z.to_nat m) W) [] ∈ bucket_names b).
  { apply (wanted_prefix cursor prefix). fold W. destruct (exists_last Hne) as (l & x & E). rewrite E, last_last. rewrite <- (take_drop (Z.to_nat m) W), E.
    apply elem_of_app. left. apply elem_of_app. right. by left. }
  destruct (meta_name ms baseUrl bucket b _ Hb Hok Hin) as (o & -> & ->). done.
Qed.

(** The number of pages of [m] that hold [n] objects; there is always one. *)
Definition page_count (n m : nat) : nat := 1 `max` ((n + m - 1) / m).

Lemma page_count_one n m : (0 < m)%nat -> (n <= m)%nat -> page_count n m = 1%nat.
Proof.
  intros Hm Hn. unfold page_count. assert ((n + m - 1) / m < 2)%nat; [|lia]. apply Nat.Div0.div_lt_upper_bound. lia.
Qed.

Lemma page_count_more n m : (0 < m)%nat -> (m < n)%nat -> page_count n m = S (page_count (n - m) m).
Proof.
  intros Hm Hn. unfold page_count. replace (n + m - 1)%nat with ((n - m + m - 1) + 1 * m)%nat by lia.
  rewrite Nat.div_add by lia. assert (1 <= (n - m + m - 1) / m)%nat; [|lia]. apply Nat.div_le_lower_bound; lia.
Qed.

(** The pages of a listing: all objects in order, on as many full pages as needed. *)
Definition paged {A} (m : nat) (objects : list A) (pages : list (list A)) : Prop :=
  concat pages = objects /\ length pages = page_count (length objects) m /\
  forall i page, pages !! i = Some page -> (S i < length pages)%nat -> length page = m.

Lemma paged_one {A} m (objects : list A) : (0 < m)%nat -> (length objects <= m)%nat -> paged m objects [objects].
Proof.
  intros Hm Hl. split_and!; [cbn; by rewrite app_nil_r|by rewrite page_count_one|]. intros i page _ Hi. cbn in Hi. lia.
Qed.

Lemma paged_more {A} m (objects : list A) pages : (0 < m)%nat -> (m < length objects)%nat ->
  paged m (drop m objects) pages -> paged m objects (take m objects :: pages).
Proof.
  intros Hm Hl (Hc & Hn & Hf). rewrite length_drop in Hn. split_and!.
  - cbn. by rewrite Hc, take_drop.
  - cbn. by rewrite page_count_more, Hn.
  - intros [|i] page; cbn; [intros [= <-] _; rewrite length_take; lia|]. intros Hp Hi. apply (Hf i); [done|lia].
Qed.

Lemma pages_spec fuel (ms : memstore T) baseUrl prefix m bucket b token cursor :
  getBucket ms bucket = Some b -> bt_ok (mb_files b) -> 1 <= m < 2 ^ 63 -> (forall n, n ∈ bucket_names b -> token_ok n) ->
  (token = [] /\ cursor = [] \/ token <> [] /\ DecodePageToken ProtoUnmarshal b64_Decode token = Some cursor) ->
  let W := wanted cursor prefix (bucket_names b) in
  (page_count (length W) (Z.to_nat m) <= fuel)%nat ->
  exists pages, list_all fuel ms baseUrl prefix m bucket token = Ok pages /\ paged (Z.to_nat m) (meta_of ms baseUrl bucket <$> W) pages.
Proof.
  intros Hb Hok Hm Hnames. revert token cursor. induction fuel as [|fuel IH]; intros token cursor Htok W Hlt; [unfold page_count in Hlt; lia|]. cbn [list_all].
  rewrite (page_spec ms baseUrl prefix m bucket b token cursor Hb Hok Hm Htok). fold W. destruct (Z.to_nat m <? length W)%nat eqn:El; cbn [mbind run_bind].
  - apply Nat.ltb_lt in El. set (x := last (take (Z.to_nat m) W) []).
    assert (Hne : take (Z.to_nat m) W <> []) by (intros E; apply (f_equal length) in E; rewrite length_take in E; cbn in E; lia).
    assert (Hx : token_ok x).
    { apply Hnames, (wanted_prefix cursor prefix). fold W. subst x. destruct (exists_last Hne) as (l & y & E). rewrite E, last_last. rewrite <- (take_drop (Z.to_nat m) W), E.
      apply elem_of_app. left. apply elem_of_app. right. by left. }
    destruct Hx as (bytes & Hpm & Hpu & Hnz). unfold EncodePageToken. rewrite Hpm. cbn [mbind run_bind]. rewrite decide_False by done.
    assert (Hnext : wanted x prefix (bucket_names b) = drop (Z.to_nat m) W)
      by (rewrite (wanted_next cursor prefix (bucket_names b) (Z.to_nat m) x) by (by apply bt_sorted || done); done).
    destruct (IH (b64_Encode bytes) x) as (pages & -> & Hp).
    + right. split; [done|]. unfold DecodePageToken. rewrite b64_ok. cbn. done.
    + rewrite Hnext, length_drop. rewrite page_count_more in Hlt by lia. lia.
    + cbn [mbind run_bind]. eexists. split; [done|]. rewrite Hnext, fmap_drop in Hp. rewrite fmap_take. apply paged_more; [lia|by rewrite length_fmap|done].
  - apply Nat.ltb_ge in El. rewrite decide_True by done. eexists. split; [done|]. rewrite take_ge by done. apply paged_one; [lia|by rewrite length_fmap].
Qed.

(** C26. A client that lists a bucket page by page, for any page size and prefix and without a
    delimiter, gets every object whose name begins with the prefix, once and in the order of the
    names.  All pages but the last are full and there is no page more than needed, which is one
    for an empty listing.  Names must not be empty, and a page token must hold each of them. *)
Theorem gcs_pages fuel (ms : memstore T) baseUrl prefix m bucket b :
  getBucket ms bucket = Some b -> bt_ok (mb_files b) -> 1 <= m < 2 ^ 63 ->
  (forall n, n ∈ bucket_names b -> n <> [] /\ token_ok n) ->
  let objects := meta_of ms baseUrl bucket <$> List.filter (fun n => HasPrefix n prefix) (bucket_names b) in
  (page_count (length objects) (Z.to_nat m) <= fuel)%nat ->
  exists pages, list_all fuel ms baseUrl prefix m bucket [] = Ok pages /\ paged (Z.to_nat m) objects pages.
Proof.
  intros Hb Hok Hm Hnames objects Hfuel.
  assert (E : wanted [] prefix (bucket_names b) = List.filter (fun n => HasPrefix n prefix) (bucket_names b)).
  { apply List.filter_ext_in. intros n Hn%list_elem_of_In. destruct (Hnames n Hn) as [Hne _]. by destruct n. }
  subst objects. rewrite length_fmap in Hfuel. rewrite <- E in *. eapply pages_spec; eauto. intros n Hn; by apply Hnames.
Qed.
End Pages.

(** ** Directories *)

(** The prefix a name is listed under when there is a delimiter behind the common prefix. *)
Definition group (delimiter prefix n : gostring) : option gostring :=
  (fun i => take (length prefix + Z.to_nat i + length delimiter) n) <$> Index (drop (length prefix) n) delimiter.

Definition ungrouped (delimiter prefix : gostring) (W : list gostring) : list gostring := List.filter (fun n => bool_decide (group delimiter prefix n = None)) W.

Lemma note_group d prefix l n : d <> [] ->
  note d prefix l n =
  match group d prefix n with
  | Some p => mkListing (l_found l) (if decide (p ∈ l_prefixes l) then l_prefixes l else l_prefixes l ++ [p]) (l_count l + 1) (l_more l)
  | None => mkListing (l_found l ++ [n]) (l_prefixes l) (l_count l + 1) (l_more l)
  end.
Proof. intros Hd. unfold note, group. rewrite decide_False by done. by destruct (Index _ _). Qed.

Lemma add_once (p : gostring) ps : NoDup ps ->
  let ps' := if decide (p ∈ ps) then ps else ps ++ [p] in NoDup ps' /\ forall q, q ∈ ps' <-> (q ∈ ps) \/ q = p.
Proof.
  intros Hnd. cbn zeta. case_decide as Hin.
  - split; [done|]. intros q. split; [by left|]. by intros [?| ->].
  - split.
    + apply list.NoDup_app. split_and!; [done| |apply list.NoDup_singleton]. intros x Hx ->%list_elem_of_singleton. done.
    + intros q. by rewrite elem_of_app, list_elem_of_singleton.
Qed.

Lemma note_groups d prefix W l : d <> [] -> NoDup (l_prefixes l) ->
  let l' := foldl (note d prefix) l W in
  l_found l' = l_found l ++ ungrouped d prefix W /\ l_more l' = l_more l /\ NoDup (l_prefixes l') /\
  forall p, p ∈ l_prefixes l' <-> (p ∈ l_prefixes l) \/ exists n, (n ∈ W) /\ group d prefix n = Some p.
Proof.
  intros Hd. revert l. induction W as [|n W IH]; intros l Hnd; cbn [foldl].
  - cbn. rewrite app_nil_r. split_and!; [done..|]. intros p. split; [by left|]. intros [?|(n & Hn & _)]; [done|]. by apply elem_of_nil in Hn.
  - rewrite note_group by done. unfold ungrouped. cbn [List.filter]. fold (ungrouped d prefix W). destruct (group d prefix n) as [p|] eqn:Eg.
    + rewrite bool_decide_eq_false_2 by done. destruct (add_once p (l_prefixes l) Hnd) as [Hnd' Hadd].
      destruct (IH (mkListing (l_found l) (if decide (p ∈ l_prefixes l) then l_prefixes l else l_prefixes l ++ [p]) (l_count l + 1) (l_more l)) Hnd') as (Hf & Hm & Hn & Hp).
      split_and!; [done..|]. intros q. rewrite Hp. cbn [l_prefixes]. rewrite Hadd. set_solver.
    + rewrite bool_decide_eq_true_2 by done.
      destruct (IH (mkListing (l_found l ++ [n]) (l_prefixes l) (l_count l + 1) (l_more l)) Hnd) as (Hf & Hm & Hn & Hp).
      split_and!; [|done..|]. { rewrite Hf. cbn. by rewrite <- app_assoc. }
      intros q. rewrite Hp. cbn [l_prefixes]. set_solver.
Qed.

Section Directories.
Context (ProtoMarshal : gostring -> option (list byte)) (b64_Encode : list byte -> gostring) (TypeByExtension : gostring -> gostring).
Context {T : Type} `{HB : BTree T} `{HL : !BTreeLaws T}.

(** A listing with a delimiter that fits into one page gives the objects behind the prefix whose
    names have no further delimiter, in order, and of the others each name up to and including the
    delimiter, once; and no token. *)
Theorem gcs_directories (ms : memstore T) baseUrl d prefix m bucket b :
  getBucket ms bucket = Some b -> bt_ok (mb_files b) -> d <> [] -> 0 <= m ->
  let W := wanted [] prefix (bucket_names b) in
  blen W <= m ->
  exists ps, makeBucketListResults ProtoMarshal b64_Encode TypeByExtension ms baseUrl d [] prefix bucket m =
             Ok (JsonObjects [] (GetMeta TypeByExtension ms baseUrl bucket <$> ungrouped d prefix W) ps) /\
  NoDup ps /\ forall p, p ∈ ps <-> exists n, (n ∈ W) /\ group d prefix n = Some p.
Proof.
  intros Hb Hok Hd Hm W Hfit. unfold makeBucketListResults. rewrite Hb. fold (bucket_names b). rewrite walk_spec by first [by apply bt_sorted | cbn; lia].
  cbn [l_count]. rewrite Z.sub_0_r. cbn zeta. fold W. unfold blen in Hfit. rewrite take_ge by lia. rewrite (proj2 (Nat.ltb_ge _ _)) by lia.
  destruct (note_groups d prefix W (mkListing [] [] 0 false) Hd ltac:(constructor)) as (Hf & Hmore & Hnd & Hp). cbn in Hf, Hmore, Hp.
  rewrite Hmore, Hf. eexists. split; [done|]. split; [done|]. intros p. rewrite Hp. set_solver.
Qed.
End Directories.

(** ** A tree *)

Module FileList.

Definition tree : Type := list memFile.

Fixpoint insert (f : memFile) (t : list memFile) : list memFile :=
  match t with
  | [] => [f]
  | g :: t' => if str_ltb (f_name f) (f_name g) then f :: t else if str_ltb (f_name g) (f_name f) then g :: insert f t' else f :: t'
  end.

Definition get (t : list memFile) (n : gostring) : option memFile := List.find (fun f => bool_decide (f_name f = n)) t.

#[export] Instance tree_BTree : BTree tree := {
  bt_New := [];
  bt_ReplaceOrInsert := fun t f => insert f t;
  bt_Get := get;
  bt_Delete := fun t n => match get t n with None => None | Some _ => Some (List.filter (fun f => negb (bool_decide (f_name f = n))) t) end;
  bt_Ascend := fun t => t
}.

Definition ok (t : list memFile) : Prop := sorted_names (f_name <$> t).

Lemma ok_cons f t : ok (f :: t) <-> ok t /\ forall g, g ∈ t -> str_ltb (f_name f) (f_name g) = true.
Proof.
  unfold ok, sorted_names. cbn. split.
  - intros [Hs Hall]%StronglySorted_inv. split; [done|]. rewrite List.Forall_forall in Hall. intros g Hg. apply Hall, list_elem_of_In, list_elem_of_fmap. by exists g.
  - intros [Hs Hall]. constructor; [done|]. apply List.Forall_forall. intros n Hn%list_elem_of_In. apply list_elem_of_fmap in Hn as (g & -> & Hg). by apply Hall.
Qed.

Lemma elem_insert f t g : ok t -> g ∈ insert f t <-> g = f \/ ((g ∈ t) /\ f_name g <> f_name f).
Proof.
  induction t as [|h t IH]; intros Ho; cbn; [set_solver|]. apply ok_cons in Ho as [Ho Hall].
  assert (Hdiff : forall x y : memFile, str_ltb (f_name x) (f_name y) = true -> f_name x <> f_name y).
  { intros x y Hl E. by rewrite E, str_ltb_irrefl in Hl. }
  destruct (str_ltb (f_name f) (f_name h)) eqn:E1; [|destruct (str_ltb (f_name h) (f_name f)) eqn:E2].
  - rewrite !elem_of_cons. split; [|tauto]. intros [->|[->|Hg]]; [by left|right|right].
    + split; [by left|]. by apply not_eq_sym, Hdiff.
    + split; [by right|]. apply not_eq_sym, Hdiff. by eapply str_ltb_trans, Hall.
  - rewrite !elem_of_cons, IH by done. pose proof (Hdiff _ _ E2). split; [|tauto]. intros [->|[->|[? ?]]]; auto.
  - assert (E : f_name f = f_name h) by (destruct (str_trichotomy (f_name f) (f_name h)) as [?|[?|?]]; congruence).
    rewrite !elem_of_cons. split; [|by intros [->|[[->|?] ?]]; auto; congruence]. intros [->|Hg]; [by left|]. right. split; [by right|].
    rewrite E. by apply not_eq_sym, Hdiff, Hall.
Qed.

Lemma ok_insert f t : ok t -> ok (insert f t).
Proof.
  induction t as [|h t IH]; intros Ho; cbn; [apply ok_cons; set_solver|]. pose proof Ho as Ho'. apply ok_cons in Ho' as [Ht Hall].
  destruct (str_ltb (f_name f) (f_name h)) eqn:E1; [|destruct (str_ltb (f_name h) (f_name f)) eqn:E2]; apply ok_cons.
  - split; [done|]. intros g [->|Hg]%elem_of_cons; [done|]. by eapply str_ltb_trans, Hall.
  - split; [by apply IH|]. intros g [->|[Hg _]]%elem_insert; [done| |done]. by apply Hall.
  - split; [done|]. intros g Hg. assert (E : f_name f = f_name h) by (destruct (str_trichotomy (f_name f) (f_name h)) as [?|[?|?]]; congruence).
    rewrite E. by apply Hall.
Qed.

Lemma ok_unique t f g : ok t -> (f ∈ t) -> (g ∈ t) -> f_name f = f_name g -> f = g.
Proof.
  induction t as [|h t IH]; intros Ho Hf Hg E; [by apply elem_of_nil in Hf|]. apply ok_cons in Ho as [Ho Hall].
  apply elem_of_cons in Hf as [->|Hf]; apply elem_of_cons in Hg as [->|Hg]; [done| | |by apply IH].
  - apply Hall in Hg. by rewrite E, str_ltb_irrefl in Hg.
  - apply Hall in Hf. by rewrite E, str_ltb_irrefl in Hf.
Qed.

Lemma get_spec t n f : ok t -> get t n = Some f <-> (f ∈ t) /\ f_name f = n.
Proof.
  intros Ho. unfold get. split.
  - intros [Hin Hn]%find_some. apply bool_decide_eq_true in Hn. split; [by apply list_elem_of_In|done].
  - intros [Hin Hn]. destruct (List.find _ t) as [g|] eqn:E.
    + apply find_some in E as [Hg Hgn]. apply bool_decide_eq_true in Hgn. f_equal. apply (ok_unique t); [done|by apply list_elem_of_In|done|congruence].
    + apply list_elem_of_In in Hin. pose proof (find_none _ _ E _ Hin) as Hc. by apply bool_decide_eq_false in Hc.
Qed.

Lemma ok_filter t p : ok t -> ok (List.filter p t).
Proof.
  induction t as [|h t IH]; intros Ho; [done|]. apply ok_cons in Ho as [Ho Hall]. cbn. destruct (p h); [|by apply IH]. apply ok_cons. split; [by apply IH|].
  intros g [Hg _]%list_elem_of_In%filter_In. apply Hall. by apply list_elem_of_In.
Qed.

#[export] Instance tree_Laws : BTreeLaws tree.
Proof.
  apply (Build_BTreeLaws tree _ ok); cbn.
  - split; [constructor|done].
  - done.
  - intros t n f. apply get_spec.
  - intros t f Ho. split; [by apply ok_insert|]. intros g. by apply elem_insert.
  - intros t n Ho. destruct (get t n) as [f|] eqn:E; [|done]. split; [by apply ok_filter|]. intros g.
    rewrite !list_elem_of_In, filter_In, negb_true_iff, bool_decide_eq_false. done.
Defined.

End FileList.

#[export] Existing Instance FileList.tree_BTree.
#[export] Existing Instance FileList.tree_Laws.

(** ** A small bucket *)

Module Shelf.

Definition file (n : gostring) : memFile := mkFile (set_name zero_object n) n.
Definition names : list gostring := [lit "a/1"; lit "a/2"; lit "b"].
Definition files : FileList.tree := file <$> names.
Definition ms : memstore FileList.tree := {[lit "shelf" := mkMemBucket 0 files]}.

(** A token that is the name itself. *)
Definition marshal (n : gostring) : option (list byte) := Some n.
Definition unmarshal (b : list byte) : option gostring := Some b.
Definition no_type (ext : gostring) : gostring := [].

Lemma files_ok : FileList.ok files.
Proof. repeat constructor. Qed.

End Shelf.

Lemma gcs_pages_witness :
  exists pages, list_all Shelf.marshal Shelf.unmarshal (fun b => b) Some Shelf.no_type 2 Shelf.ms [] (lit "a/") 1 (lit "shelf") [] = Ok pages /\
    paged 1 (GetMeta Shelf.no_type Shelf.ms [] (lit "shelf") <$> [lit "a/1"; lit "a/2"]) pages.
Proof.
  refine (gcs_pages Shelf.marshal Shelf.unmarshal (fun b => b) Some Shelf.no_type _ 2 Shelf.ms [] (lit "a/") 1 (lit "shelf") (mkMemBucket 0 Shelf.files) _ _ _ _ _).
  - done.
  - reflexivity.
  - apply Shelf.files_ok.
  - lia.
  - intros n Hn. assert (Hn' : n ∈ Shelf.names) by done. assert (n <> []) by (intros ->; revert Hn'; vm_compute; set_solver).
    split; [done|]. by exists n.
  - vm_compute. lia.
Defined.

Lemma gcs_directories_witness :
  exists ps, makeBucketListResults Shelf.marshal (fun b => b) Shelf.no_type Shelf.ms [] (lit "/") [] [] (lit "shelf") 5 =
             Ok (JsonObjects [] (GetMeta Shelf.no_type Shelf.ms [] (lit "shelf") <$> [lit "b"]) ps) /\ NoDup ps /\
             forall p, p ∈ ps <-> exists n, (n ∈ Shelf.names) /\ group (lit "/") [] n = Some p.
Proof.
  refine (gcs_directories Shelf.marshal (fun b => b) Shelf.no_type Shelf.ms [] (lit "/") [] 5 (lit "shelf") (mkMemBucket 0 Shelf.files) _ _ _ _ _).
  - reflexivity.
  - apply Shelf.files_ok.
  - done.
  - lia.
  - vm_compute. done.
Defined.

(** A page that only has prefixes carries no token: with a delimiter and one result to a page, the
    first page is the prefix of the first object and the last page of the listing; the object b is
    never listed. *)
Theorem delimiter_loses_objects :
  makeBucketListResults Shelf.marshal (fun b => b) Shelf.no_type Shelf.ms [] (lit "/") [] [] (lit "shelf") 1 = Ok (JsonObjects [] [] [lit "a/"]).
Proof. reflexivity. Qed.
