(* ===== verification/GcsUploads.v ===== *)
(** Theorems about the contents of the storage emulator: what each request changes, generations as
    versions of an object, and resumable uploads. *)

From Stdlib Require Import Sorting.Sorted.
From S2P Require Import Prelude GoSort Run Strconv GoText GcsStore GcsEmu GcsListing.

(** ** The store as a map of files *)

Section Files.
Context {T : Type} `{HB : BTree T} `{HL : !BTreeLaws T}.

Lemma bt_get_none t n : bt_ok t -> bt_Get t n = None <-> forall f, f ∈ bt_Ascend t -> f_name f <> n.
Proof.
  intros Hok. split.
  - intros Hn f Hf E. assert (bt_Get t n = Some f) by by apply bt_get. congruence.
  - intros Hn. destruct (bt_Get t n) as [f|] eqn:E; [|done]. apply bt_get in E as [Hin Hf]; [|done]. by apply Hn in Hin.
Qed.

Lemma bt_get_new n : bt_Get bt_New n = None.
Proof. destruct bt_new as [Hok Hn]. apply bt_get_none; [done|]. intros f Hf. rewrite Hn in Hf. by apply elem_of_nil in Hf. Qed.

Lemma bt_get_insert t f n : bt_ok t -> bt_Get (bt_ReplaceOrInsert t f) n = if decide (n = f_name f) then Some f else bt_Get t n.
Proof.
  intros Hok. destruct (bt_insert t f Hok) as [Hok' Hin]. case_decide as En.
  - subst. apply bt_get; [done|]. split; [|done]. apply Hin. by left.
  - destruct (bt_Get t n) as [g|] eqn:E.
    + apply bt_get in E as [Hg Hn]; [|done]. apply bt_get; [done|]. split; [|done]. apply Hin. right. split; [done|congruence].
    + apply bt_get_none; [done|]. intros g [->|[Hg _]]%Hin; [congruence|]. by apply (bt_get_none t n Hok).
Qed.

Lemma bt_get_delete t t' n m : bt_ok t -> bt_Delete t n = Some t' -> bt_ok t' /\ bt_Get t' m = if decide (m = n) then None else bt_Get t m.
Proof.
  intros Hok Hd. pose proof (bt_delete t n Hok) as Hl. rewrite Hd in Hl. destruct Hl as [Hok' Hin]. split; [done|]. case_decide as E.
  - subst. apply bt_get_none; [done|]. intros g [_ Hg]%Hin. done.
  - destruct (bt_Get t m) as [g|] eqn:Eg.
    + apply bt_get in Eg as [Hg Hn]; [|done]. apply bt_get; [done|]. split; [|done]. apply Hin. split; [done|congruence].
    + apply bt_get_none; [done|]. intros g [Hg _]%Hin. by apply (bt_get_none t m Hok).
Qed.

Definition store_ok (ms : memstore T) : Prop := forall b bk, getBucket ms b = Some bk -> bt_ok (mb_files bk).

Lemma store_ok_new : store_ok NewMemStore.
Proof. intros b bk H. unfold getBucket, NewMemStore in H. by rewrite lookup_empty in H. Qed.

Lemma get_set_bucket (ms : memstore T) b k bk : getBucket (<[b := bk]> (ms : gmap gostring (memBucket T))) k = if decide (k = b) then Some bk else getBucket ms k.
Proof. unfold getBucket. case_decide; subst; [by rewrite lookup_insert_eq|by rewrite lookup_insert_ne]. Qed.

Lemma create_ok now ms b : store_ok ms -> store_ok (CreateBucket now ms b) /\ is_Some (getBucket (CreateBucket now ms b) b) /\ forall k n, find (CreateBucket now ms b) k n = find ms k n.
Proof.
  intros Hok. unfold CreateBucket. destruct (getBucket ms b) as [bk|] eqn:E; [by split_and!|]. split_and!.
  - intros k bk. rewrite get_set_bucket. case_decide; [|apply Hok]. intros [= <-]. apply bt_new.
  - rewrite get_set_bucket. by rewrite decide_True by done.
  - intros k n. unfold find. rewrite get_set_bucket. case_decide; [|done]. subst. rewrite E. cbn. apply bt_get_new.
Qed.

Lemma put_ok ms b f : store_ok ms -> is_Some (getBucket ms b) ->
  store_ok (put ms b f) /\ forall k n, find (put ms b f) k n = if decide (k = b /\ n = f_name f) then Some f else find ms k n.
Proof.
  intros Hok [bk Hb]. unfold put. rewrite Hb. split.
  - intros k bk'. rewrite get_set_bucket. case_decide; [|apply Hok]. intros [= <-]. cbn. apply bt_insert. by eapply Hok.
  - intros k n. unfold find at 1. rewrite get_set_bucket. destruct (decide (k = b)) as [->|Hne].
    + cbn. rewrite bt_get_insert by by eapply Hok. unfold find. rewrite Hb. cbn. repeat case_decide; tauto.
    + rewrite decide_False by tauto. done.
Qed.

Lemma delete_ok ms b n ms' : store_ok ms -> Delete ms b n = Some ms' ->
  store_ok ms' /\ forall k x, find ms' k x = if decide (k = b /\ (n = [] \/ x = n)) then None else find ms k x.
Proof.
  intros Hok. unfold Delete. destruct (decide (n = [])) as [->|Hn].
  - destruct (getBucket ms b) eqn:Hb; [|done]. intros [= <-].
    assert (Hg : forall k, getBucket (delete b (ms : gmap gostring (memBucket T))) k = if decide (k = b) then None else getBucket ms k).
    { intros k. unfold getBucket. case_decide; subst; [apply lookup_delete_eq|by apply lookup_delete_ne]. }
    split.
    + intros k bk Hk. rewrite Hg in Hk. case_decide; [done|]. by eapply Hok.
    + intros k x. unfold find at 1. rewrite Hg. destruct (decide (k = b)) as [->|Hne]; [rewrite decide_True by tauto; done|]. by rewrite decide_False by tauto.
  - destruct (getBucket ms b) as [bk|] eqn:Hb; [|done]. intros (t & Ht & [= <-])%bind_Some. split.
    + intros k bk'. rewrite get_set_bucket. case_decide; [|apply Hok]. intros [= <-]. cbn. eapply (bt_get_delete (mb_files bk) t n []); [by eapply Hok|done].
    + intros k x. unfold find at 1. rewrite get_set_bucket. destruct (decide (k = b)) as [->|Hne].
      * cbn. destruct (bt_get_delete (mb_files bk) t n x) as [_ ->]; [by eapply Hok|done|]. unfold find. rewrite Hb. cbn. repeat case_decide; tauto.
      * by rewrite decide_False by tauto.
Qed.

Context (TypeByExtension : gostring -> gostring) (FormatTime : Z -> gostring).

Lemma init_name m n : o_Name (InitScrubbedMeta TypeByExtension m n) = n.
Proof. done. Qed.

Lemma add_meta_facts now b n m :
  o_Name (Add_meta TypeByExtension FormatTime now b n m) = n /\ o_Generation (Add_meta TypeByExtension FormatTime now b n m) = now /\
  o_Metageneration (Add_meta TypeByExtension FormatTime now b n m) = 1.
Proof. unfold Add_meta. by case_decide. Qed.

Lemma add_ok now ms b n c m : store_ok ms ->
  store_ok (Add TypeByExtension FormatTime now ms b n c m) /\
  forall k x, find (Add TypeByExtension FormatTime now ms b n c m) k x =
              if decide (k = b /\ x = n) then Some (mkFile (Add_meta TypeByExtension FormatTime now b n m) c) else find ms k x.
Proof.
  intros Hok. destruct (create_ok now ms b Hok) as (Hok1 & Hb & Hf). destruct (put_ok _ b (mkFile (Add_meta TypeByExtension FormatTime now b n m) c) Hok1 Hb) as [Hok2 Hf2].
  split; [done|]. intros k x. unfold Add. rewrite Hf2, Hf. unfold f_name. cbn [f_meta]. by rewrite (proj1 (add_meta_facts now b n m)).
Qed.

Lemma find_bucket ms b n f : find ms b n = Some f -> is_Some (getBucket (T := T) ms b).
Proof. unfold find. by destruct (getBucket ms b). Qed.

Lemma update_ok ms b n m mg ms' : store_ok ms -> UpdateMeta TypeByExtension ms b n m mg = Some ms' ->
  store_ok ms' /\ exists f, find ms b n = Some f /\
  forall k x, find ms' k x = if decide (k = b /\ x = n) then Some (mkFile (set_metagen (InitScrubbedMeta TypeByExtension m n) mg) (f_data f)) else find ms k x.
Proof.
  intros Hok (f & Hf & [= <-])%bind_Some.
  destruct (put_ok ms b (mkFile (set_metagen (InitScrubbedMeta TypeByExtension m n) mg) (f_data f)) Hok ltac:(by eapply find_bucket)) as [Hok' Hf']. split; [done|]. by exists f.
Qed.

End Files.

(** ** What a request changes *)

Section Requests.
Context (ProtoMarshal : gostring -> option (list byte)) (ProtoUnmarshal : list byte -> option gostring).
Context (b64_Encode : list byte -> gostring) (b64_Decode : gostring -> option (list byte)).
Context (TypeByExtension : gostring -> gostring) (FormatTime : Z -> gostring).
Context {T : Type} `{HB : BTree T} `{HL : !BTreeLaws T}.
Context {I : Type} `{HI : UploadIds I}.
Context (Gunzip : list byte -> option (list byte * bool)).
Context (DecodePatch : option (list byte) -> Object -> option (option Object)).
Context (Md5 : list byte -> list byte) (IsPrint : Z -> bool).
Context (DecodeObject : option (list byte) -> option Object) (DecodeBucket : option (list byte) -> option gostring).
Context (ParseMediaType : gostring -> option (gostring * gmap gostring gostring)) (MultipartParts : gostring -> option (list byte) -> list (option (list byte))).
Context (UnmarshalObject : list byte -> option Object).
Context (DecodeCompose : option (list byte) -> option ComposeRequest).

Abbreviation handler := (Handler ProtoMarshal ProtoUnmarshal b64_Encode b64_Decode TypeByExtension FormatTime Gunzip DecodePatch Md5 IsPrint
                           DecodeObject DecodeBucket ParseMediaType MultipartParts UnmarshalObject DecodeCompose).
Abbreviation locked := (finish_locked b64_Encode b64_Decode TypeByExtension FormatTime Md5 IsPrint).
Abbreviation upload := (finishUpload b64_Encode b64_Decode TypeByExtension FormatTime Md5 IsPrint).
Abbreviation add := (Add TypeByExtension FormatTime).
Abbreviation meta_of := (GetMeta TypeByExtension).

(** A file afterwards is new, with the time as its generation, or has the contents and the
    generation it had. *)
Definition change (now : Z) (ms ms' : memstore T) : Prop :=
  store_ok ms' /\ forall b n f', find ms' b n = Some f' ->
    o_Generation (f_meta f') = now \/
    exists f, find ms b n = Some f /\ f_data f' = f_data f /\ o_Generation (f_meta f') = o_Generation (f_meta f).

Lemma change_none now ms : store_ok ms -> change now ms ms.
Proof. intros Hok. split; [done|]. intros b n f Hf. right. by exists f. Qed.

Lemma change_add now ms b n c m : store_ok ms -> change now ms (add now ms b n c m).
Proof.
  intros Hok. destruct (add_ok TypeByExtension FormatTime now ms b n c m Hok) as [Hok' Hf]. split; [done|]. intros k x f'. rewrite Hf. case_decide.
  - intros [= <-]. left. apply add_meta_facts.
  - intros H'. right. by exists f'.
Qed.

Lemma change_create now ms b : store_ok ms -> change now ms (CreateBucket now ms b).
Proof.
  intros Hok. destruct (create_ok now ms b Hok) as (Hok' & _ & Hf). split; [done|]. intros k x f'. rewrite Hf. intros H'. right. by exists f'.
Qed.

Lemma change_delete now ms b n ms' : store_ok ms -> Delete ms b n = Some ms' -> change now ms ms'.
Proof.
  intros Hok Hd. destruct (delete_ok ms b n ms' Hok Hd) as [Hok' Hf]. split; [done|]. intros k x f'. rewrite Hf. case_decide; [done|]. intros H'. right. by exists f'.
Qed.

Lemma meta_of_find ms baseUrl b n o : meta_of ms baseUrl b n = Some o ->
  exists f, find ms b n = Some f /\ o_Generation o = o_Generation (f_meta f) /\ o_Metageneration o = o_Metageneration (f_meta f) /\ o_TimeCreated o = o_TimeCreated (f_meta f).
Proof.
  intros (f & Hf & [= <-])%bind_Some. exists f. split; [done|]. unfold InitMetaWithUrls. cbn. unfold default_ctype. by case_decide.
Qed.

Lemma meta_of_some ms baseUrl b n : is_Some (meta_of ms baseUrl b n) <-> is_Some (find ms b n).
Proof. unfold GetMeta. destruct (find ms b n) as [f|]; [split; intros _; by eexists|split; by intros [x Hx]]. Qed.

(** The critical section of an upload: nothing, or the file. *)
Lemma locked_spec now granted ms baseUrl obj c b conds :
  match locked now granted ms baseUrl obj c b conds with
  | (Some _, _, ms') => ms' = ms
  | (None, _, ms') =>
      validateConds (meta_of ms baseUrl b (o_Name obj)) conds = None /\ exists m, ms' = add now ms b (o_Name obj) c m
  end.
Proof.
  unfold finish_locked. destruct (if decide (o_Md5Hash obj = []) then _ else _); [done|]. destruct granted; [|done]. cbn [negb].
  destruct (validateConds _ conds) eqn:Ev; [done|]. split; [done|]. by eexists.
Qed.

(** Effects on the store, one for each way to change it. *)
Section Effects.
Context (now : Z) (P : memstore T -> memstore T -> Prop) (allowed : option (list byte) -> Prop).
Hypothesis P_none : forall ms, store_ok ms -> P ms ms.
Hypothesis P_add : forall ms b n c m, store_ok ms -> P ms (add now ms b n c m).
Hypothesis P_create : forall ms b, store_ok ms -> P ms (CreateBucket now ms b).
Hypothesis P_delete : forall ms b n ms', store_ok ms -> Delete ms b n = Some ms' -> P ms ms'.
Hypothesis P_update : forall ms baseUrl b n body obj obj' mg ms', store_ok ms -> meta_of ms baseUrl b n = Some obj ->
  allowed body -> DecodePatch body obj = Some (Some obj') -> UpdateMeta TypeByExtension ms b n obj' mg = Some ms' -> P ms ms'.

Lemma upload_effect granted ms baseUrl obj c b conds r obj' ms' :
  store_ok ms -> upload now granted ms baseUrl obj c b conds = Ok (r, obj', ms') -> P ms ms'.
Proof.
  intros Hok. unfold finishUpload. pose proof (locked_spec now granted ms baseUrl obj c b conds) as Hl.
  destruct (locked now granted ms baseUrl obj c b conds) as [[[code|] o] ms1].
  - intros [= _ _ <-]. subst. by apply P_none.
  - destruct Hl as (_ & m & ->). intros (m' & _ & [= _ _ <-])%bind_Ok_inv. by apply P_add.
Qed.

Lemma patch_effect granted g baseUrl body b n conds r g' :
  store_ok (store g) -> allowed body -> handleGcsUpdateMetadataRequest TypeByExtension (I := I) DecodePatch granted g baseUrl body b n conds = Ok (r, g') -> P (store g) (store g').
Proof.
  intros Hok Hall. unfold handleGcsUpdateMetadataRequest. destruct granted; cbn [negb]; [|by intros [= _ <-]; apply P_none].
  destruct (meta_of (store g) baseUrl b n) as [obj|] eqn:Em; [|by intros [= _ <-]; apply P_none].
  destruct (validateConds _ conds); [by intros [= _ <-]; apply P_none|].
  destruct (DecodePatch body obj) as [[obj'|]|] eqn:Ed; [|done|by intros [= _ <-]; apply P_none].
  destruct (UpdateMeta _ _ _ _ _ _) as [ms'|] eqn:Eu; [|by intros [= _ <-]; apply P_none]. intros [= _ <-].
  cbn. by eapply P_update.
Qed.

Lemma copy_effect granted g baseUrl b paths r g' :
  store_ok (store g) -> handleGcsCopy TypeByExtension FormatTime (I := I) now granted g baseUrl b paths = Ok (r, g') -> P (store g) (store g').
Proof.
  intros Hok. unfold handleGcsCopy. destruct (SplitS paths _) as [|f1 [|dest [|]]]; try (by intros [= _ <-]; apply P_none).
  destruct (SplitS dest _) as [|b2 [|f2 ?]]; try done. destruct granted; cbn [negb]; [|by intros [= _ <-]; apply P_none].
  unfold Copy. destruct (find (store g) b f1) as [src|]; [|by intros [= _ <-]; apply P_none].
  destruct (meta_of _ _ _ _); intros [= _ <-]; by apply P_add.
Qed.

Lemma compose_effect granted g baseUrl body b object conds r g' :
  store_ok (store g) -> handleGcsCompose TypeByExtension FormatTime (I := I) DecodeCompose now granted g baseUrl body b object conds = Ok (r, g') -> P (store g) (store g').
Proof.
  intros Hok. unfold handleGcsCompose. destruct (DecodeCompose body) as [req|]; [|by intros [= _ <-]; apply P_none].
  destruct (SplitS object _) as [|name [|? [|]]]; try (by intros [= _ <-]; apply P_none). destruct granted; cbn [negb]; [|by intros [= _ <-]; apply P_none].
  intros ([res ms] & Hf & [= _ <-])%bind_Ok_inv. cbn. revert Hf. unfold finishCompose. destruct (_ <? _); [by intros [= _ <-]; apply P_none|].
  destruct (compose_sources _ _ _) as [|[data metas]]; [by intros [= _ <-]; apply P_none|]. destruct (cr_Destination req); [|done].
  destruct (validateConds _ _); [by intros [= _ <-]; apply P_none|]. intros [= _ <-]. by apply P_add.
Qed.

Lemma new_object_effect granted g baseUrl q b conds r g' :
  store_ok (store g) ->
  handleGcsNewObject b64_Encode b64_Decode TypeByExtension FormatTime Md5 IsPrint DecodeObject ParseMediaType MultipartParts UnmarshalObject now granted g baseUrl q b conds = Ok (r, g') ->
  P (store g) (store g').
Proof.
  intros Hok. unfold handleGcsNewObject.
  assert (Hup : forall obj c, upload_now b64_Encode b64_Decode TypeByExtension FormatTime Md5 IsPrint now granted g baseUrl obj c b conds = Ok (r, g') -> P (store g) (store g')).
  { intros obj c ([[res obj'] ms] & Hu & [= _ <-])%bind_Ok_inv. by eapply upload_effect. }
  case_decide; [|case_decide; [|case_decide]].
  - case_decide; [by intros [= _ <-]; apply P_none|]. destruct (g_Body q); [|by intros [= _ <-]; apply P_none]. apply Hup.
  - destruct (DecodeObject _); intros [= _ <-]; by apply P_none.
  - destruct (readMultipartInsert _ _ _ _) as [[obj c]|]; [apply Hup|by intros [= _ <-]; apply P_none].
  - intros [= _ <-]; by apply P_none.
Qed.

Abbreviation resume := (handleGcsNewObjectResume b64_Encode b64_Decode TypeByExtension FormatTime Md5 IsPrint).

Lemma resume_effect granted g baseUrl q id r g' :
  store_ok (store g) -> resume now granted g baseUrl q id = Ok (r, g') -> P (store g) (store g').
Proof.
  intros Hok. unfold handleGcsNewObjectResume. destruct (ids_GetIFPresent (uploadIds g) id) as [[[a|]|] ids]; try (by intros [= _ <-]; apply P_none).
  cbn [uploads]. destruct (uploads g !! a) as [u|]; [|done]. destruct (g_Body q) as [c|]; [|by intros [= _ <-]; apply P_none].
  case_decide; [by intros [= _ <-]; apply P_none|]. destruct (parseByteRange _) as [br|]; [|by intros [= _ <-]; apply P_none].
  destruct (apply_range _ _ _) as [res|]; [|by intros [= _ <-]; apply P_none]. intros (data & _ & Hd)%bind_Ok_inv. cbn [store uploads idCounter uploadIds] in Hd.
  destruct (_ || _); [injection Hd as _ <-; by apply P_none|]. apply bind_Ok_inv in Hd as ([[rr obj'] ms] & Hu & [= _ <-]). by eapply upload_effect.
Qed.

(** Every request changes the store in that way. *)
Lemma handler_effect granted g q r g' : store_ok (store g) -> (g_Method q = lit "PATCH" -> allowed (g_Body q)) -> handler now granted g q = Ok (r, g') -> P (store g) (store g').
Proof.
  intros Hok Hall. unfold Handler. destruct (ParseGcsUrl _) as [p|]; [|by intros [= _ <-]; apply P_none].
  destruct (g_Form q) as [form|]; [|by intros [= _ <-]; apply P_none]. destruct (parseConds form) as [conds|]; [|by intros [= _ <-]; apply P_none].
  assert (Hro : forall x, read_only g x = Ok (r, g') -> P (store g) (store g')) by (intros x (y & _ & [= _ <-])%bind_Ok_inv; by apply P_none).
  case_decide as Hdel.
  { intros E. assert (E' : (handleGcsDelete TypeByExtension granted g (p_Bucket p) (p_Object p) conds).2 = g') by (injection E as E; by rewrite E). rewrite <- E'. unfold handleGcsDelete.
    destruct granted; [|by apply P_none]. cbn [negb]. destruct (validateConds _ _); [by apply P_none|]. destruct (Delete _ _ _) eqn:Ed; [by eapply P_delete|by apply P_none]. }
  case_decide as Hget.
  { case_decide; [destruct (HasSuffix _ _); [apply Hro|by intros [= _ <-]; apply P_none]|].
    destruct (_ || _); [apply Hro|]. destruct (_ || _); by intros [= _ <-]; apply P_none. }
  case_decide as Hpatch.
  { destruct (_ || _); [apply patch_effect; auto|by intros [= _ <-]; apply P_none]. }
  case_decide as Hpost.
  { case_decide. { unfold handleGcsNewBucket. destruct (DecodeBucket _); [|by intros [= _ <-]; apply P_none]. destruct granted; intros [= _ <-]; [by apply P_create|by apply P_none]. }
    case_decide; [by apply new_object_effect|]. destruct (Contains _ _); [by apply compose_effect|]. destruct (Contains _ _); [by apply copy_effect|].
    case_decide; [by apply resume_effect|by intros [= _ <-]; apply P_none]. }
  case_decide as Hput; [|by intros [= _ <-]; apply P_none]. case_decide; [by apply resume_effect|by intros [= _ <-]; apply P_none].
Qed.
End Effects.

(** The invariant of the store. *)
Lemma handler_ok now granted g q r g' : store_ok (store g) -> handler now granted g q = Ok (r, g') -> store_ok (store g').
Proof.
  intros Hok. apply (handler_effect now (fun _ ms' => store_ok ms') (fun _ => True)); try done.
  - intros ms b n c m Hms. by apply add_ok.
  - intros ms b Hms. by apply create_ok.
  - intros ms b n ms' Hms Hd. by eapply delete_ok.
  - intros ms baseUrl b n body obj obj' mg ms' Hms _ _ _ Hu. by eapply update_ok.
Qed.

(** A request that does not write the generation of an object itself: a patch is decoded into the
    whole object, so that it could. *)
Definition patch_keeps (body : option (list byte)) : Prop := forall obj obj', DecodePatch body obj = Some (Some obj') -> o_Generation obj' = o_Generation obj.
Definition keeps_generation (q : GRequest) : Prop := g_Method q = lit "PATCH" -> patch_keeps (g_Body q).

Lemma change_update now ms baseUrl b n body obj obj' mg ms' : store_ok ms -> meta_of ms baseUrl b n = Some obj ->
  patch_keeps body -> DecodePatch body obj = Some (Some obj') -> UpdateMeta TypeByExtension ms b n obj' mg = Some ms' -> change now ms ms'.
Proof.
  intros Hok Em Hkeep Ed Eu. destruct (update_ok _ _ _ _ _ _ _ Hok Eu) as (Hok' & f & Hf & Hf'). split; [done|]. intros k x f'. rewrite Hf'. case_decide as E.
  - destruct E as [-> ->]. intros [= <-]. right. exists f. split; [done|]. split; [done|].
    destruct (meta_of_find _ _ _ _ _ Em) as (f0 & Hf0 & Hg & _). assert (f0 = f) by congruence. subst f0. cbn. rewrite <- Hg, <- (Hkeep _ _ Ed).
    unfold default_ctype. by case_decide.
  - intros H'. right. by exists f'.
Qed.

Lemma handler_change now granted g q r g' : store_ok (store g) -> keeps_generation q -> handler now granted g q = Ok (r, g') -> change now (store g) (store g').
Proof.
  apply (handler_effect now (change now) patch_keeps).
  - intros ms Hok. by apply change_none.
  - intros ms b n c m Hok. by apply change_add.
  - intros ms b Hok. by apply change_create.
  - intros ms b n ms' Hok Hd. by eapply change_delete.
  - intros ms baseUrl b n body obj obj' mg ms' Hok Em Hk Ed Eu. by eapply change_update.
Qed.

(** ** Generations *)

Record event := mkEvent { ev_now : Z; ev_granted : bool; ev_req : GRequest }.

(** The server recovers from a panic of a handler. *)
Definition serve (g : GcsEmu (T := T) (I := I)) (e : event) : GcsEmu (T := T) (I := I) := match handler (ev_now e) (ev_granted e) g (ev_req e) with Ok (_, g') => g' | _ => g end.
Definition serve_all (g : GcsEmu (T := T) (I := I)) (es : list event) : GcsEmu (T := T) (I := I) := foldl serve g es.

(** The times increase, and no patch writes a generation. *)
Fixpoint increasing (t : Z) (es : list event) : Prop :=
  match es with [] => True | e :: es => t < ev_now e /\ keeps_generation (ev_req e) /\ increasing (ev_now e) es end.
Definition last_time (t : Z) (es : list event) : Z := foldl (fun _ e => ev_now e) t es.

Lemma serve_change g e : store_ok (store g) -> keeps_generation (ev_req e) -> change (ev_now e) (store g) (store (serve g e)).
Proof. intros Hok Hk. unfold serve. destruct (handler _ _ _ _) as [[r g']| |] eqn:E; [by eapply handler_change|by apply change_none..]. Qed.

(** The generations up to the time [t]. *)
Definition dated (t : Z) (g : GcsEmu (T := T) (I := I)) : Prop := store_ok (store g) /\ forall b n f, find (store g) b n = Some f -> 1 <= o_Generation (f_meta f) <= t.

Lemma serve_dated t g e : 0 <= t -> t < ev_now e -> keeps_generation (ev_req e) -> dated t g -> dated (ev_now e) (serve g e).
Proof.
  intros H0 Ht Hk [Hok Hd]. destruct (serve_change g e Hok Hk) as [Hok' Hc]. split; [done|]. intros b n f Hf. destruct (Hc b n f Hf) as [->|(f0 & Hf0 & _ & ->)]; [lia|].
  apply Hd in Hf0. lia.
Qed.

Lemma serve_all_dated t g es : 0 <= t -> increasing t es -> dated t g -> dated (last_time t es) (serve_all g es) /\ t <= last_time t es.
Proof.
  revert t g. induction es as [|e es IH]; intros t g H0 Hi Hd; [by split|]. destruct Hi as (Ht & Hk & Hi). cbn.
  destruct (IH (ev_now e) (serve g e) ltac:(lia) Hi (serve_dated t g e H0 Ht Hk Hd)) as [H1 H2]. unfold last_time in *. split; [done|lia].
Qed.

(** While an object has the same generation it has the same contents. *)
Lemma serve_all_version t g es b n gen d : 0 <= t -> increasing t es -> dated t g -> gen <= t ->
  (forall f, find (store g) b n = Some f -> o_Generation (f_meta f) = gen -> f_data f = d) ->
  forall f, find (store (serve_all g es)) b n = Some f -> o_Generation (f_meta f) = gen -> f_data f = d.
Proof.
  revert t g. induction es as [|e es IH]; intros t g H0 Hi Hd Hg Hv; [done|]. destruct Hi as (Ht & Hk & Hi).
  apply (IH (ev_now e) (serve g e) ltac:(lia) Hi (serve_dated t g e H0 Ht Hk Hd) ltac:(lia)). destruct Hd as [Hok _].
  destruct (serve_change g e Hok Hk) as [_ Hc]. intros f Hf Hgen. destruct (Hc b n f Hf) as [E|(f0 & Hf0 & -> & E)]; [lia|]. apply Hv; congruence.
Qed.

Lemma new_dated : dated 0 NewGcsEmu.
Proof. split; [apply store_ok_new|]. intros b n f Hf. unfold find in Hf. by apply bind_Some in Hf as (bk & Hbk & _). Qed.

(** C25. No update is lost.  Let an object be read after some requests, then let further requests
    come, and then an upload that asks for the generation that was read; the times of the requests
    increase, and no patch among them writes a generation.  If the upload is accepted, the object still has the contents that were read; now it has the uploaded contents and
    the time as its generation, and no other object has changed. *)
Theorem gcs_no_lost_update es1 es2 b f1 now granted baseUrl obj contents conds obj' ms' :
  let g1 := serve_all NewGcsEmu es1 in
  let g2 := serve_all g1 es2 in
  increasing 0 (es1 ++ es2) -> find (store g1) b (o_Name obj) = Some f1 -> GenerationMatch conds = o_Generation (f_meta f1) ->
  locked now granted (store g2) baseUrl obj contents b conds = (None, obj', ms') ->
  (exists f2, find (store g2) b (o_Name obj) = Some f2 /\ f_data f2 = f_data f1) /\
  (exists f, find ms' b (o_Name obj) = Some f /\ f_data f = contents /\ o_Generation (f_meta f) = now) /\
  forall b' n', ~ (b' = b /\ n' = o_Name obj) -> find ms' b' n' = find (store g2) b' n'.
Proof.
  intros g1 g2 Hinc Hf1 Hgen Hl. assert (Hinc' : increasing 0 es1 /\ increasing (last_time 0 es1) es2).
  { clear -Hinc. revert Hinc. generalize 0. induction es1 as [|e es1 IH]; intros t; [done|]. cbn. intros (Ht & Hk & Hi). by apply IH in Hi as [? ?]. }
  destruct Hinc' as [Hi1 Hi2]. destruct (serve_all_dated 0 NewGcsEmu es1 ltac:(lia) Hi1 new_dated) as [Hd1 Ht1]. fold g1 in Hd1.
  destruct (serve_all_dated _ g1 es2 Ht1 Hi2 Hd1) as [[Hok2 _] _]. fold g2 in Hok2. pose proof (proj2 Hd1 _ _ _ Hf1) as Hpos.
  pose proof (locked_spec now granted (store g2) baseUrl obj contents b conds) as Hs. rewrite Hl in Hs. destruct Hs as (Hv & m & ->).
  destruct (add_ok TypeByExtension FormatTime now (store g2) b (o_Name obj) contents m Hok2) as [_ Hf]. split_and!.
  - unfold validateConds in Hv. destruct (meta_of (store g2) baseUrl b (o_Name obj)) as [o|] eqn:Em.
    + destruct (meta_of_find _ _ _ _ _ Em) as (f2 & Hf2 & Hg2 & _). exists f2. split; [done|].
      destruct (DoesNotExist conds); [done|]. destruct (negb (GenerationMatch conds =? 0) && negb (o_Generation o =? GenerationMatch conds)) eqn:Eg; [done|].
      apply andb_false_iff in Eg. rewrite !negb_false_iff, !Z.eqb_eq in Eg. assert (o_Generation o = GenerationMatch conds) by lia.
      apply (serve_all_version (last_time 0 es1) g1 es2 b (o_Name obj) (o_Generation (f_meta f1)) (f_data f1)); [lia|done|done|lia| |done|lia].
      intros f Hf' _. congruence.
    + case_decide as E; [|done]. destruct E as [-> | ->]; cbn in Hgen; lia.
  - eexists. rewrite Hf, decide_True by done. split_and!; [done..|]. apply add_meta_facts.
  - intros b' n' Hne. by rewrite Hf, decide_False.
Qed.
End Requests.
