(* ===== verification/GcsResume.v ===== *)
(** Theorems about resumable uploads to the storage emulator: ranges in any order that leaves no gap
    give the whole object. *)

From S2P Require Import Prelude GoSort Run Strconv GoText GcsStore GcsEmu GcsListing GcsUploads.

(** ** Printing and parsing ranges *)

Lemma digits_loop_digits fuel n acc : 0 <= n -> (forall c, c ∈ acc -> is_digit c = true) -> forall c, c ∈ digits_loop fuel n acc -> is_digit c = true.
Proof.
  revert n acc. induction fuel as [|fuel IH]; intros n acc Hn Hacc; [done|]. cbn. destruct (n <? 10) eqn:E.
  - intros c [->|Hc]%elem_of_cons; [apply digit_is_digit; lia|by apply Hacc].
  - apply IH; [Z.to_euclidean_division_equations; lia|]. intros c [->|Hc]%elem_of_cons; [apply digit_is_digit; Z.to_euclidean_division_equations; lia|by apply Hacc].
Qed.

Lemma FormatInt_digits n c : 0 <= n -> c ∈ FormatInt n -> is_digit c = true.
Proof.
  intros Hn. unfold FormatInt. rewrite (proj2 (Z.ltb_ge _ _)) by lia. apply digits_loop_digits; [done|]. intros c' Hc. by apply elem_of_nil in Hc.
Qed.

Lemma FormatInt_without n sep : 0 <= n -> is_digit sep = false -> sep ∉ FormatInt n.
Proof. intros Hn Hs Hin. by rewrite (FormatInt_digits n sep) in Hs. Qed.

Lemma ParseInt_opt_Format n : 0 <= n < 2 ^ 63 -> ParseInt_opt (FormatInt n) = Some n.
Proof. intros Hn. unfold ParseInt_opt. by rewrite ParseInt_Format by (unfold is_i64; lia). Qed.

(** [Content-Range] of a piece at [lo], with the size of the object if it is known. *)
Definition content_range (lo len : Z) (size : option Z) : gostring :=
  lit "bytes " ++ FormatInt lo ++ Byte.x2d :: FormatInt (lo + len - 1) ++ Byte.x2f :: match size with Some n => FormatInt n | None => lit "*" end.

Lemma parse_content_range lo len size :
  0 <= lo -> 1 <= len -> lo + len < 2 ^ 63 -> (forall n, size = Some n -> 0 <= n < 2 ^ 63) ->
  parseByteRange (content_range lo len size) = Some (mkRange lo (lo + len - 1) (default (-1) size)).
Proof.
  intros Hlo Hlen Hsum Hsize. unfold parseByteRange, content_range. set (tl := match size with Some n => FormatInt n | None => lit "*" end).
  assert (Hpre : HasPrefix (lit "bytes " ++ FormatInt lo ++ Byte.x2d :: FormatInt (lo + len - 1) ++ Byte.x2f :: tl) (lit "bytes ") = true) by by apply HasPrefix_spec; eexists.
  rewrite Hpre. cbn [negb]. change 6%nat with (length (lit "bytes ")). rewrite drop_app_length.
  assert (Htl : Byte.x2f ∉ tl) by (subst tl; destruct size as [n|]; [apply FormatInt_without; [by apply Hsize|done]|vm_compute; set_solver]).
  change (FormatInt lo ++ Byte.x2d :: FormatInt (lo + len - 1) ++ Byte.x2f :: tl) with (FormatInt lo ++ (Byte.x2d :: FormatInt (lo + len - 1)) ++ Byte.x2f :: tl).
  rewrite app_assoc, Split_app, Split_none by (done || (rewrite elem_of_app, elem_of_cons; intros [H|[H|H]]; [|done|]; revert H; apply FormatInt_without; (lia || done))).
  assert (Hne : FormatInt lo ++ Byte.x2d :: FormatInt (lo + len - 1) <> lit "*").
  { destruct (FormatUint_cons lo Hlo) as (c & s & E & Hc). unfold FormatInt at 1. rewrite (proj2 (Z.ltb_ge _ _)) by lia. rewrite E. intros [= -> _]. done. }
  rewrite (decide_False (P := FormatInt lo ++ Byte.x2d :: FormatInt (lo + len - 1) = lit "*")) by exact Hne. rewrite Split_app, Split_none by (apply FormatInt_without; (lia || done)). rewrite !ParseInt_opt_Format by lia. cbn.
  subst tl. destruct size as [n|]; cbn; [|by rewrite decide_True by done]. specialize (Hsize n eq_refl).
  rewrite decide_False by (destruct (FormatUint_cons n) as (c & s & E & Hc); [lia|]; unfold FormatInt; rewrite (proj2 (Z.ltb_ge _ _)) by lia; rewrite E; intros [= -> _]; done).
  by rewrite ParseInt_opt_Format.
Qed.

(** ** Ranges never reach outside the data *)

Lemma parse_digits_range n s v : 0 <= n -> parse_digits n s = inr v -> 0 <= v.
Proof.
  revert n. induction s as [|c s IH]; intros n Hn; cbn; [by intros [= <-]|]. destruct (negb (is_digit c)) eqn:Ed; [done|]. destruct (_ <=? n); [done|].
  destruct (_ <=? _); [done|]. apply IH. apply negb_false_iff in Ed. unfold is_digit in Ed. lia.
Qed.

Lemma ParseInt_unsigned s v : (Byte.x2d ∉ s) -> ParseInt_opt s = Some v -> 0 <= v.
Proof.
  unfold ParseInt_opt, ParseInt. destruct s as [|c r]; [done|]. intros [Hc _]%not_elem_of_cons. rewrite (bool_decide_eq_false_2 (c = Byte.x2d)) by congruence. cbn [orb negb andb].
  assert (Hu : forall t u, ParseUint t = inr u -> 0 <= u) by (intros t u; unfold ParseUint; destruct t; [done|]; by apply parse_digits_range).
  destruct (if bool_decide (c = Byte.x2b) then _ else _) as [|un] eqn:E; [done|]. destruct (2 ^ 63 <=? un); [done|]. intros [= <-]. destruct (bool_decide _); by eapply Hu.
Qed.

Lemma range_lo s br : parseByteRange s = Some br -> br_lo br = -1 \/ 0 <= br_lo br.
Proof.
  unfold parseByteRange. destruct (negb _); [done|]. destruct (Split _ _) as [|p0 [|p1 [|]]]; try done. destruct (decide (p0 = lit "*")) as [E0|E0].
  - intros ([lo hi] & Hlh & (sz & _ & [= <-])%bind_Some)%bind_Some. left. cbn. congruence.
  - destruct (Split p0 Byte.x2d) as [|a [|b [|]]] eqn:Es; try done. intros ([lo hi] & Hlh & (sz & _ & [= <-])%bind_Some)%bind_Some.
    apply bind_Some in Hlh as (lo' & Ha & (hi' & _ & [= <- <-])%bind_Some). right. cbn. eapply ParseInt_unsigned, Ha. apply (Split_parts p0). rewrite Es. by left.
Qed.

Lemma apply_range_safe s br data c res : parseByteRange s = Some br -> apply_range br data c = Some res -> exists d, res = Ok d.
Proof.
  intros Hp. unfold apply_range. destruct (negb _); [done|]. destruct (blen data <? br_lo br); [done|]. intros [= <-].
  destruct (br_lo br =? -1) eqn:E1; [by eexists|]. destruct (range_lo s br Hp) as [El|H0]; [by rewrite El in E1|]. rewrite (proj2 (Z.ltb_ge _ _)) by lia. by eexists.
Qed.

(** ** Uploads in pieces *)

(** The cache of uploads: what was stored is found until it is removed, or until it gives way to others. *)
Class UploadIdsLaws (I : Type) `{UploadIds I} := {
  ids_get_new : forall id a, (ids_GetIFPresent ids_New id).1 <> Some (Some a);
  ids_get_set : forall i id a, (ids_GetIFPresent (ids_Set i id a) id).1 = Some (Some a);
  ids_set_other : forall i id a id' a', id' <> id -> (ids_GetIFPresent (ids_Set i id a) id').1 = Some (Some a') -> (ids_GetIFPresent i id').1 = Some (Some a');
  ids_get_get : forall i id id', (ids_GetIFPresent (ids_GetIFPresent i id).2 id').1 = (ids_GetIFPresent i id').1;
  ids_get_remove : forall i id id' a, (ids_GetIFPresent (ids_Remove i id) id').1 = Some (Some a) -> id' <> id /\ (ids_GetIFPresent i id').1 = Some (Some a)
}.

(** A request that sends a piece of the object. *)
Definition sends (q : GRequest) (lo : Z) (c : list byte) (size : option Z) : Prop :=
  g_Body q = Some c /\ vals_Get (g_Header q) (lit "Content-Range") = content_range lo (blen c) size.

(** The piece of [D] at [lo]. *)
Definition piece (D : list byte) (lo : Z) (c : list byte) : Prop := 0 <= lo /\ c <> [] /\ c = take (length c) (drop (Z.to_nat lo) D).

(** Pieces that leave no gap: each begins within what was received. *)
Inductive pieces (D : list byte) : Z -> list event -> Z -> Prop :=
| pieces_nil r : pieces D r [] r
| pieces_cons r e lo c es r' :
    sends (ev_req e) lo c None -> piece D lo c -> lo <= r -> pieces D (lo + blen c) es r' -> pieces D r (e :: es) r'.

Lemma piece_bound D lo c : piece D lo c -> lo + blen c <= blen D /\ 1 <= blen c.
Proof.
  intros (Hlo & Hne & Hc). assert (Hl : (length c <= length D - Z.to_nat lo)%nat) by (rewrite Hc at 1; rewrite length_take, length_drop; lia).
  unfold blen. destruct c as [|x c]; [done|]. cbn [length] in *. lia.
Qed.

Lemma piece_extends D lo c r : piece D lo c -> lo <= r -> take (Z.to_nat lo) (take (Z.to_nat r) D) ++ c = take (Z.to_nat (lo + blen c)) D.
Proof.
  intros Hp Hr. destruct (piece_bound D lo c Hp) as [Hb _]. destruct Hp as (Hlo & Hne & Hc). rewrite take_take, Nat.min_l by lia. rewrite Hc at 1.
  unfold blen. replace (Z.to_nat (lo + Z.of_nat (length c))) with (Z.to_nat lo + length c)%nat by lia. rewrite <- (take_take_drop D (Z.to_nat lo) (length c)). done.
Qed.

Section Resume.
Context (b64_Encode : list byte -> gostring) (b64_Decode : gostring -> option (list byte)).
Context (TypeByExtension : gostring -> gostring) (FormatTime : Z -> gostring).
Context {T : Type} `{HB : BTree T} `{HL : !BTreeLaws T}.
Context {I : Type} `{HI : UploadIds I} `{HIL : !UploadIdsLaws I}.
Context (Md5 : list byte -> list byte) (IsPrint : Z -> bool).
Context (DecodeObject : option (list byte) -> option Object).
Context (ParseMediaType : gostring -> option (gostring * gmap gostring gostring)) (MultipartParts : gostring -> option (list byte) -> list (option (list byte))).
Context (UnmarshalObject : list byte -> option Object).

Abbreviation resume := (handleGcsNewObjectResume b64_Encode b64_Decode TypeByExtension FormatTime Md5 IsPrint).
Abbreviation new_object := (handleGcsNewObject b64_Encode b64_Decode TypeByExtension FormatTime Md5 IsPrint DecodeObject ParseMediaType MultipartParts UnmarshalObject).
Abbreviation upload := (finishUpload b64_Encode b64_Decode TypeByExtension FormatTime Md5 IsPrint).
Abbreviation meta_of := (GetMeta TypeByExtension).

Fixpoint resume_all (g : GcsEmu (T := T) (I := I)) (baseUrl : HttpBaseUrl) (id : gostring) (es : list event) : run (GcsEmu (T := T) (I := I)) :=
  match es with
  | [] => Ok g
  | e :: es => '(_, g) ← resume (ev_now e) (ev_granted e) g baseUrl (ev_req e) id; resume_all g baseUrl id es
  end.

(** An upload in progress. *)
Definition in_progress (g : GcsEmu (T := T) (I := I)) (id : gostring) (a : nat) (u : uploadData) : Prop :=
  (ids_GetIFPresent (uploadIds g) id).1 = Some (Some a) /\ uploads g !! a = Some u.

(** The new contents after a piece. *)
Lemma apply_piece D lo c r size : piece D lo c -> lo <= r <= blen D -> blen D < 2 ^ 63 ->
  apply_range (mkRange lo (lo + blen c - 1) size) (take (Z.to_nat r) D) c = Some (Ok (take (Z.to_nat (lo + blen c)) D)).
Proof.
  intros Hp Hr HD. destruct (piece_bound D lo c Hp) as [Hb Hc1]. pose proof Hp as (Hlo & _ & _). unfold apply_range, range_matches. cbn [br_lo br_hi].
  rewrite (proj2 (Z.eqb_neq lo (-1))) by lia. replace (lo + blen c - 1 + 1 - lo) with (blen c) by lia. rewrite i64_id by (unfold is_i64; lia). rewrite Z.eqb_refl. cbn [andb negb orb].
  assert (Hlen : blen (take (Z.to_nat r) D) = r) by (unfold blen in *; rewrite length_take; lia). rewrite Hlen, (proj2 (Z.ltb_ge r lo)), (proj2 (Z.ltb_ge lo 0)) by lia.
  by rewrite (piece_extends D lo c r) by (done || lia).
Qed.

Lemma resume_found g baseUrl q id a u now granted lo c size : in_progress g id a u -> sends q lo c size ->
  0 <= lo -> 1 <= blen c -> lo + blen c < 2 ^ 63 -> (forall n, size = Some n -> 0 <= n < 2 ^ 63) ->
  resume now granted g baseUrl q id =
  match apply_range (mkRange lo (lo + blen c - 1) (default (-1) size)) (u_data u) c with
  | None => Ok (GapiError 400, mkEmu (store g) (ids_GetIFPresent (uploadIds g) id).2 (uploads g) (idCounter g))
  | Some result =>
      data ← result;
      let g := mkEmu (store g) (ids_GetIFPresent (uploadIds g) id).2 (<[a := mkUpload (u_Object u) (u_Conds u) data]> (uploads g)) (idCounter g) in
      if (default (-1) size <? 0) || (blen data <? default (-1) size) then
        Ok (Resume (blen data - 1) (o_ContentType (u_Object u)) (bool_decide (vals_Get (g_Header q) (lit "X-Guploader-No-308") = lit "yes")), g)
      else
        '(res, obj', ms) ← upload now granted (store g) baseUrl (u_Object u) data (o_Bucket (u_Object u)) (u_Conds u);
        Ok (upload_reply res,
            mkEmu ms (match res with inl _ => uploadIds g | inr _ => ids_Remove (uploadIds g) id end)
              (<[a := mkUpload obj' (u_Conds u) data]> (uploads g)) (idCounter g))
  end.
Proof.
  intros [Hid Hu] [Hb Hr] Hlo Hc Hsum Hsize. unfold handleGcsNewObjectResume. destruct (ids_GetIFPresent (uploadIds g) id) as [found ids] eqn:E. cbn [fst snd] in *. subst found.
  cbn [uploads]. rewrite Hu, Hb, Hr. rewrite decide_False by done. rewrite parse_content_range by done. reflexivity.
Qed.

(** A piece of the object that does not complete it. *)
Lemma resume_piece D g baseUrl q id a obj conds r now granted lo c :
  in_progress g id a (mkUpload obj conds (take (Z.to_nat r) D)) -> sends q lo c None -> piece D lo c -> lo <= r <= blen D -> blen D < 2 ^ 63 ->
  exists reply g', resume now granted g baseUrl q id = Ok (reply, g') /\ in_progress g' id a (mkUpload obj conds (take (Z.to_nat (lo + blen c)) D)) /\ store g' = store g.
Proof.
  intros Hp Hs Hpc Hr HD. destruct (piece_bound D lo c Hpc) as [Hb Hc1]. pose proof Hpc as (Hlo & _ & _).
  rewrite (resume_found g baseUrl q id a _ now granted lo c None Hp Hs) by (done || lia). cbn [u_data default]. rewrite apply_piece by (done || lia). cbn.
  eexists _, _. split; [done|]. split; [|done]. destruct Hp as [Hid _]. split; cbn; [by rewrite ids_get_get|by rewrite lookup_insert_eq].
Qed.

Lemma resume_pieces D g baseUrl id a obj conds r es r' :
  in_progress g id a (mkUpload obj conds (take (Z.to_nat r) D)) -> pieces D r es r' -> 0 <= r <= blen D -> blen D < 2 ^ 63 ->
  exists g', resume_all g baseUrl id es = Ok g' /\ in_progress g' id a (mkUpload obj conds (take (Z.to_nat r') D)) /\ store g' = store g /\ 0 <= r' <= blen D.
Proof.
  intros Hp Hps. revert g Hp. induction Hps as [r|r e lo c es r' Hs Hpc Hr Hps IH]; intros g Hp Hrange HD; [by exists g|].
  destruct (piece_bound D lo c Hpc) as [Hb Hc1]. pose proof Hpc as (Hlo & _ & _).
  destruct (resume_piece D g baseUrl (ev_req e) id a obj conds r (ev_now e) (ev_granted e) lo c Hp Hs Hpc ltac:(lia) HD) as (reply & g1 & Hres & Hp1 & Hst).
  destruct (IH g1 Hp1 ltac:(lia) HD) as (g2 & Hall & Hp2 & Hst2 & Hr2). exists g2. cbn. rewrite Hres. cbn. split_and!; [done|done|congruence|lia|lia].
Qed.

(** An upload that meets its conditions. *)
Lemma upload_ok now ms baseUrl obj c b conds :
  store_ok ms -> o_Md5Hash obj = [] -> validateConds (meta_of ms baseUrl b (o_Name obj)) conds = None ->
  exists m obj' ms' f, upload now true ms baseUrl obj c b conds = Ok (inr m, obj', ms') /\
    find ms' b (o_Name obj) = Some f /\ f_data f = c /\ o_Generation (f_meta f) = now /\
    forall b' n', ~ (b' = b /\ n' = o_Name obj) -> find ms' b' n' = find ms b' n'.
Proof.
  intros Hok Hmd Hv. unfold finishUpload.
  assert (E : exists obj' meta, finish_locked b64_Encode b64_Decode TypeByExtension FormatTime Md5 IsPrint now true ms baseUrl obj c b conds =
                                (None, obj', Add TypeByExtension FormatTime now ms b (o_Name obj) c meta)).
  { unfold finish_locked. rewrite decide_True by done. cbn [negb]. rewrite Hv. eexists _, _. reflexivity. }
  destruct E as (obj' & meta & ->). destruct (add_ok TypeByExtension FormatTime now ms b (o_Name obj) c meta Hok) as [_ Hf].
  set (ms' := Add TypeByExtension FormatTime now ms b (o_Name obj) c meta) in *.
  assert (Hn : find ms' b (o_Name obj) = Some (mkFile (Add_meta TypeByExtension FormatTime now b (o_Name obj) meta) c)) by (by rewrite Hf, decide_True).
  assert (Er : exists m, finish_respond TypeByExtension ms' baseUrl b (o_Name obj) = Ok m) by (unfold finish_respond, GetMeta; rewrite Hn; eexists; reflexivity).
  destruct Er as (m & ->). rewrite bind_Ok. eexists m, obj', ms', _. split; [reflexivity|]. split; [exact Hn|]. split; [reflexivity|]. split; [apply add_meta_facts|].
  intros b' n' Hne. by rewrite Hf, decide_False.
Qed.

(** C27. A resumable upload: after it was begun, pieces of the contents are sent in any order that
    leaves no gap, with repetitions, and then a piece that ends with the contents.  The emulator
    answers all requests without a panic; in the end the object has exactly the contents and the
    time of the last request as its generation, every other object is as before, and the upload is
    forgotten. *)
Theorem gcs_resumable D g0 baseUrl q0 b conds obj now0 granted0 es e lo c r :
  let id := FormatInt (i32 (idCounter g0 + 1)) in
  store_ok (store g0) -> form_Get q0 (lit "uploadType") = lit "resumable" -> DecodeObject (g_Body q0) = Some obj -> o_Md5Hash obj = [] ->
  validateConds (meta_of (store g0) baseUrl b (o_Name obj)) conds = None ->
  blen D < 2 ^ 63 -> pieces D 0 es r -> sends (ev_req e) lo c (Some (blen D)) -> piece D lo c -> lo <= r -> lo + blen c = blen D -> ev_granted e = true ->
  exists loc ct g1 g2 m g3 f,
    new_object now0 granted0 g0 baseUrl q0 b conds = Ok (Created loc ct, g1) /\
    resume_all g1 baseUrl id es = Ok g2 /\
    resume (ev_now e) (ev_granted e) g2 baseUrl (ev_req e) id = Ok (JsonUploaded m, g3) /\
    find (store g3) b (o_Name obj) = Some f /\ f_data f = D /\ o_Generation (f_meta f) = ev_now e /\
    (forall b' n', ~ (b' = b /\ n' = o_Name obj) -> find (store g3) b' n' = find (store g0) b' n') /\
    forall a, (ids_GetIFPresent (uploadIds g3) id).1 <> Some (Some a).
Proof.
  intros id Hok Hty Hdec Hmd Hv HD Hps Hs Hpc Hlor Hend Hgr. destruct (piece_bound D lo c Hpc) as [Hb Hc1]. pose proof Hpc as (Hlo & _ & _).
  set (a := fresh (dom (uploads g0))). set (obj1 := set_bucket obj b).
  set (g1 := mkEmu (store g0) (ids_Set (uploadIds g0) id a) (<[a := mkUpload obj1 conds []]> (uploads g0)) (i32 (idCounter g0 + 1))).
  assert (Hp1 : in_progress g1 id a (mkUpload obj1 conds (take (Z.to_nat 0) D))) by (split; cbn; [apply ids_get_set|by rewrite lookup_insert_eq]).
  destruct (resume_pieces D g1 baseUrl id a obj1 conds 0 es r Hp1 Hps ltac:(pose proof (blen_nonneg D); lia) HD) as (g2 & Hall & Hp2 & Hst & Hr).
  destruct (upload_ok (ev_now e) (store g2) baseUrl obj1 D b conds) as (m & obj' & ms' & f & Hup & Hf & Hdata & Hgen & Hother); [by rewrite Hst|done|by rewrite Hst|].
  eexists _, _, g1, g2, m, _, f. split_and!.
  - unfold handleGcsNewObject. rewrite Hty. rewrite decide_False, decide_True by done. rewrite Hdec. done.
  - done.
  - rewrite (resume_found g2 baseUrl (ev_req e) id a _ (ev_now e) (ev_granted e) lo c (Some (blen D)) Hp2 Hs) by first [done | lia | intros n [= <-]; pose proof (blen_nonneg D); lia].
    cbn [u_data default]. rewrite apply_piece by (done || lia). rewrite Hend, bind_Ok.
    assert (Efull : take (Z.to_nat (blen D)) D = D) by (unfold blen; by rewrite Nat2Z.id, firstn_all). rewrite Efull.
    rewrite (proj2 (Z.ltb_ge _ _)) by apply blen_nonneg. rewrite Z.ltb_irrefl. cbn [orb store u_Object u_Conds]. rewrite Hgr. change (o_Bucket obj1) with b. rewrite Hup. done.
  - done.
  - done.
  - done.
  - cbn [store]. intros b' n' Hne. rewrite Hother by done. by rewrite Hst.
  - cbn [uploadIds]. intros a' Ha'. by apply ids_get_remove in Ha' as [? _].
Qed.
End Resume.

(** ** URLs *)

Lemma span_not_app c s t : (c ∉ s) -> span_not c (s ++ t) = (s ++ (span_not c t).1, (span_not c t).2).
Proof.
  induction s as [|x s IH]; intros Hn; [cbn; by destruct (span_not c t)|]. apply not_elem_of_cons in Hn as [Hx Hn]. cbn. rewrite decide_False by congruence. by rewrite IH.
Qed.

Lemma strip_app p s : strip p (p ++ s) = Some s.
Proof. unfold strip. assert (E : HasPrefix (p ++ s) p = true) by (apply HasPrefix_spec; by eexists). by rewrite E, drop_app_length. Qed.

(** The path of an object's URL leads to the object. *)
Theorem object_url_roundtrip baseUrl bucket object :
  bucket <> [] -> (c_slash ∉ bucket) -> object <> [] -> (c_newline ∉ object) ->
  ParseGcsUrl (lit "/" ++ drop (length (normalizeBaseUrl baseUrl)) (ObjectUrl baseUrl bucket object)) = Some (mkParams bucket object false).
Proof.
  intros Hb Hbs Ho Hon. unfold ObjectUrl. rewrite drop_app_length.
  change (lit "/" ++ lit "storage/v1/b/" ++ bucket ++ lit "/o/" ++ object) with (lit "/storage/v1/b/" ++ bucket ++ lit "/o/" ++ object).
  assert (Em : match_object (lit "/storage/v1/b/") (lit "/storage/v1/b/" ++ bucket ++ lit "/o/" ++ object) = Some (mkParams bucket object false)).
  { unfold match_object. rewrite strip_app. cbn [mbind option_bind]. unfold segment. rewrite span_not_app by done.
    change (span_not c_slash (lit "/o/" ++ object)) with (@nil byte, lit "/o/" ++ object). cbn [fst snd]. rewrite app_nil_r, decide_False by done. cbn [mbind option_bind].
    change (lit "/o/" ++ object) with (lit "/o" ++ lit "/" ++ object). rewrite strip_app. cbn [mbind option_bind]. rewrite strip_app. cbn [mbind option_bind].
    unfold rest_of_line. rewrite <- (app_nil_r object) at 1. rewrite span_not_app by done. cbn. rewrite app_nil_r, decide_False by done. done. }
  unfold ParseGcsUrl. assert (Es : search (match_object (lit "/storage/v1/b/")) (lit "/storage/v1/b/" ++ bucket ++ lit "/o/" ++ object) = Some (mkParams bucket object false)).
  { destruct (lit "/storage/v1/b/" ++ bucket ++ lit "/o/" ++ object) as [|c s] eqn:E; [done|]. cbn [search]. by rewrite Em. }
  by rewrite Es.
Qed.
