(* ===== verification/GcsSafety.v ===== *)
(** Theorems about panics of the storage emulator: the only requests that make it panic, and examples
    where it departs from its documentation. *)

From S2P Require Import Prelude GoSort Run Strconv GoText GcsStore GcsEmu GcsListing GcsUploads GcsResume.

Section Panics.
Context (ProtoMarshal : gostring -> option (list byte)) (ProtoUnmarshal : list byte -> option gostring).
Context (b64_Encode : list byte -> gostring) (b64_Decode : gostring -> option (list byte)).
Context (TypeByExtension : gostring -> gostring) (FormatTime : Z -> gostring).
Context {T : Type} `{HB : BTree T} `{HL : !BTreeLaws T}.
Context {I : Type} `{HI : UploadIds I} `{HIL : !UploadIdsLaws I}.
Context (Gunzip : list byte -> option (list byte * bool)).
Context (DecodePatch : option (list byte) -> Object -> option (option Object)).
Context (Md5 : list byte -> list byte) (IsPrint : Z -> bool).
Context (DecodeObject : option (list byte) -> option Object) (DecodeBucket : option (list byte) -> option gostring).
Context (ParseMediaType : gostring -> option (gostring * gmap gostring gostring)) (MultipartParts : gostring -> option (list byte) -> list (option (list byte))).
Context (UnmarshalObject : list byte -> option Object).
Context (DecodeCompose : option (list byte) -> option ComposeRequest).

Abbreviation handler := (Handler ProtoMarshal ProtoUnmarshal b64_Encode b64_Decode TypeByExtension FormatTime Gunzip DecodePatch Md5 IsPrint
                           DecodeObject DecodeBucket ParseMediaType MultipartParts UnmarshalObject DecodeCompose).
Abbreviation serving := (serve ProtoMarshal ProtoUnmarshal b64_Encode b64_Decode TypeByExtension FormatTime Gunzip DecodePatch Md5 IsPrint
                           DecodeObject DecodeBucket ParseMediaType MultipartParts UnmarshalObject DecodeCompose).
Abbreviation served := (serve_all ProtoMarshal ProtoUnmarshal b64_Encode b64_Decode TypeByExtension FormatTime Gunzip DecodePatch Md5 IsPrint
                           DecodeObject DecodeBucket ParseMediaType MultipartParts UnmarshalObject DecodeCompose).
Abbreviation upload := (finishUpload b64_Encode b64_Decode TypeByExtension FormatTime Md5 IsPrint).
Abbreviation resume := (handleGcsNewObjectResume b64_Encode b64_Decode TypeByExtension FormatTime Md5 IsPrint).
Abbreviation new_object := (handleGcsNewObject b64_Encode b64_Decode TypeByExtension FormatTime Md5 IsPrint DecodeObject ParseMediaType MultipartParts UnmarshalObject).
Abbreviation emu := (GcsEmu (T := T) (I := I)).


(** ** Pointers to uploads *)









(** ** Panics *)


























End Panics.

(** ** A small emulator *)

Module Desk.

(** The cache of uploads as a map; a missing id is an error, as in the cache the emulator uses. *)
Definition ids : Type := gmap gostring nat.
#[export] Instance ids_UploadIds : UploadIds ids := {
  ids_New := (∅ : gmap gostring nat);
  ids_Set := fun i id a => <[id := a]> (i : gmap gostring nat);
  ids_GetIFPresent := fun i id => (Some <$> ((i : gmap gostring nat) !! id), i);
  ids_Remove := fun i id => delete id (i : gmap gostring nat)
}.

#[export] Instance ids_Laws : UploadIdsLaws ids.
Proof.
  split; cbn.
  - intros id a. by rewrite lookup_empty.
  - intros i id a. by rewrite lookup_insert_eq.
  - intros i id a id' a' Hne. by rewrite lookup_insert_ne.
  - done.
  - intros i id id' a Ha. destruct (decide (id' = id)) as [->|Hne]; [by rewrite lookup_delete_eq in Ha|]. rewrite lookup_delete_ne in Ha by done. done.
Qed.

Definition text (t : Z) : gostring := lit "now".
Definition gunzip (c : list byte) : option (list byte * bool) := None.
Definition patch (body : option (list byte)) (o : Object) : option (option Object) := match body with Some [] => Some None | _ => Some (Some o) end.
Definition md5 (c : list byte) : list byte := c.
Definition is_print (r : Z) : bool := true.
Definition object (body : option (list byte)) : option Object := Some (set_name zero_object (lit "doc")).
Definition bucket (body : option (list byte)) : option gostring := body.
Definition media (s : gostring) : option (gostring * gmap gostring gostring) := None.
Definition parts (boundary : gostring) (body : option (list byte)) : list (option (list byte)) := [].
Definition unmarshal (b : list byte) : option Object := None.
Definition compose (body : option (list byte)) : option ComposeRequest := Some (mkComposeReq [] None).

Definition values (l : list (gostring * gostring)) : Values := list_to_map ((fun p => (p.1, [p.2])) <$> l).

Definition request (method path : gostring) (header form : list (gostring * gostring)) (body : list byte) : GRequest :=
  mkGReq method path (lit "localhost") false (values header) (values form) (Some (values form)) (Some body).

Definition put (name : gostring) (body : list byte) : GRequest :=
  request (lit "POST") (lit "/storage/v1/b/desk/o") [] [(lit "uploadType", lit "media"); (lit "name", name)] body.

Definition emu : Type := GcsEmu (T := FileList.tree) (I := ids).

Definition handler : Z -> bool -> emu -> GRequest -> run (Reply * emu) :=
  Handler Shelf.marshal Shelf.unmarshal (fun b => b) Some Shelf.no_type text gunzip patch md5 is_print object bucket media parts unmarshal compose.
Definition serving : emu -> list event -> emu :=
  serve_all Shelf.marshal Shelf.unmarshal (fun b => b) Some Shelf.no_type text gunzip patch md5 is_print object bucket media parts unmarshal compose.
Definition served (es : list event) : emu := serving NewGcsEmu es.
Definition locked := finish_locked (T := FileList.tree) (fun b => b) Some Shelf.no_type text md5 is_print.

Definition first : list event := [mkEvent 1 true (put (lit "doc") (lit "one"))].
Definition second : list event := [mkEvent 2 true (put (lit "memo") (lit "two"))].
Definition doc : Object := set_name zero_object (lit "doc").
Definition if_first : Conditions := mkConds 1 0 false 0 0.

End Desk.

#[export] Existing Instance Desk.ids_UploadIds.
#[export] Existing Instance Desk.ids_Laws.





Lemma desk_first : exists f, find (store (Desk.served Desk.first)) (lit "desk") (lit "doc") = Some f /\ o_Generation (f_meta f) = 1 /\ f_data f = lit "one".
Proof. eexists. split; [vm_compute; reflexivity|]. by split. Qed.

Lemma desk_accepted : exists obj' ms',
  Desk.locked 3 true (store (Desk.serving (Desk.served Desk.first) Desk.second)) [] Desk.doc (lit "three") (lit "desk") Desk.if_first = (None, obj', ms').
Proof.
  assert (H : (Desk.locked 3 true (store (Desk.serving (Desk.served Desk.first) Desk.second)) [] Desk.doc (lit "three") (lit "desk") Desk.if_first).1.1 = None) by (vm_compute; reflexivity).
  destruct (Desk.locked _ _ _ _ _ _ _ _) as [[code obj'] ms']. cbn in H. subst. by exists obj', ms'.
Qed.

Lemma desk_patch body o o' : Desk.patch body o = Some (Some o') -> o_Generation o' = o_Generation o.
Proof. destruct body as [[|? ?]|]; cbn; congruence. Qed.

Lemma gcs_no_lost_update_witness :
  exists f2, find (store (Desk.serving (Desk.served Desk.first) Desk.second)) (lit "desk") (lit "doc") = Some f2 /\ f_data f2 = lit "one".
Proof.
  destruct desk_first as (f1 & H1 & H2 & H3). destruct desk_accepted as (obj' & ms' & Ha). rewrite <- H3.
  apply (gcs_no_lost_update Shelf.marshal Shelf.unmarshal (fun b => b) Some Shelf.no_type Desk.text Desk.gunzip Desk.patch Desk.md5 Desk.is_print Desk.object Desk.bucket Desk.media
           Desk.parts Desk.unmarshal Desk.compose Desk.first Desk.second (lit "desk") f1 3 true [] Desk.doc (lit "three") Desk.if_first obj' ms').
  - cbn. split_and!; [lia|intros _ o o'; apply desk_patch|lia|intros _ o o'; apply desk_patch|done].
  - exact H1.
  - symmetry. exact H2.
  - exact Ha.
Defined.

Module Letter.

Definition chunk (t : Z) (lo : Z) (c : list byte) (size : option Z) : event :=
  mkEvent t true (Desk.request (lit "PUT") (lit "/storage/v1/b/desk/o/doc") [(lit "Content-Range", content_range lo (blen c) size)] [] c).
Definition begin : GRequest := Desk.request (lit "POST") (lit "/storage/v1/b/desk/o") [] [(lit "uploadType", lit "resumable")] [].
Definition sent : list event := [chunk 2 0 (lit "hel") None; chunk 3 1 (lit "el") None].

Lemma chunk_sends t lo c size : sends (ev_req (chunk t lo c size)) lo c size.
Proof. split; [done|]. unfold vals_Get, chunk, Desk.request, Desk.values. cbn [ev_req g_Header list_to_map fmap list_fmap foldr fst snd]. by rewrite lookup_insert_eq. Qed.

Lemma sent_pieces : pieces (lit "hello") 0 sent 3.
Proof.
  eapply pieces_cons; [apply chunk_sends|split_and!; [lia|done|reflexivity]|lia|].
  eapply pieces_cons; [apply chunk_sends|split_and!; [lia|done|reflexivity]|by vm_compute|]. apply pieces_nil.
Qed.

End Letter.

Lemma gcs_resumable_witness :
  exists loc ct g1 g2 m g3 f,
    handleGcsNewObject (fun b => b) Some Shelf.no_type Desk.text Desk.md5 Desk.is_print Desk.object Desk.media Desk.parts Desk.unmarshal 1 true (NewGcsEmu : Desk.emu) [] Letter.begin
      (lit "desk") emptyConds = Ok (Created loc ct, g1) /\
    resume_all (fun b => b) Some Shelf.no_type Desk.text Desk.md5 Desk.is_print g1 [] (FormatInt (i32 (idCounter (NewGcsEmu : Desk.emu) + 1))) Letter.sent = Ok g2 /\
    handleGcsNewObjectResume (fun b => b) Some Shelf.no_type Desk.text Desk.md5 Desk.is_print 4 true g2 [] (ev_req (Letter.chunk 4 3 (lit "lo") (Some 5)))
      (FormatInt (i32 (idCounter (NewGcsEmu : Desk.emu) + 1))) = Ok (JsonUploaded m, g3) /\
    find (store g3) (lit "desk") (lit "doc") = Some f /\ f_data f = lit "hello".
Proof.
  destruct (gcs_resumable (fun b => b) Some Shelf.no_type Desk.text Desk.md5 Desk.is_print Desk.object Desk.media Desk.parts Desk.unmarshal
              (lit "hello") (NewGcsEmu : Desk.emu) [] Letter.begin (lit "desk") emptyConds Desk.doc 1 true Letter.sent (Letter.chunk 4 3 (lit "lo") (Some 5)) 3 (lit "lo") 3)
    as (loc & ct & g1 & g2 & m & g3 & f & H1 & H2 & H3 & H4 & H5 & _).
  - apply store_ok_new.
  - reflexivity.
  - reflexivity.
  - reflexivity.
  - reflexivity.
  - vm_compute. reflexivity.
  - apply Letter.sent_pieces.
  - apply Letter.chunk_sends.
  - split_and!; [lia|done|reflexivity].
  - lia.
  - reflexivity.
  - reflexivity.
  - exists loc, ct, g1, g2, m, g3, f. auto.
Defined.

(** ** Where the emulator departs from its documentation *)

Module GcsDepartures.

Definition with_doc : Desk.emu := Desk.served Desk.first.

(** The length that is checked before the destination is taken apart is that of the other split. *)
Theorem rewrite_without_object_panics :
  Desk.handler 2 true with_doc (Desk.request (lit "POST") (lit "/storage/v1/b/desk/o/doc/rewriteTo/b/other") [] [] []) = Crash.
Proof. vm_compute. reflexivity. Qed.

(** A body that is null makes the pointer to the metadata nil. *)
Theorem null_patch_panics :
  Desk.handler 2 true with_doc (Desk.request (lit "PATCH") (lit "/storage/v1/b/desk/o/doc") [] [(lit "alt", lit "json")] []) = Crash.
Proof. vm_compute. reflexivity. Qed.

Theorem compose_without_destination_panics :
  Desk.handler 2 true with_doc (Desk.request (lit "POST") (lit "/storage/v1/b/desk/o/doc/compose") [] [] []) = Crash.
Proof. vm_compute. reflexivity. Qed.

(** The name of an upload that is not there is reported as an internal error, not as missing. *)
Theorem missing_upload_is_internal_error :
  (fun r => fst r) <$> Desk.handler 2 true with_doc (Desk.request (lit "PUT") (lit "/storage/v1/b/desk/o") [] [(lit "upload_id", lit "7")] []) = Ok (GapiError 500).
Proof. vm_compute. reflexivity. Qed.

(** Between the critical section of an upload and its reply the object may be deleted, and the reply
    then uses a nil pointer. *)
Theorem deleted_before_reply_panics (TypeByExtension : gostring -> gostring) (ms ms' : memstore FileList.tree) baseUrl bucket filename :
  store_ok ms -> Delete ms bucket filename = Some ms' -> finish_respond TypeByExtension ms' baseUrl bucket filename = Crash.
Proof.
  intros Hok Hd. destruct (delete_ok ms bucket filename ms' Hok Hd) as [_ Hf]. unfold finish_respond, GetMeta. rewrite Hf, decide_True; [done|]. auto.
Qed.

(** A patch may write the generation of an object, which the service does not allow. *)
Definition patch_generation (body : option (list byte)) (o : Object) : option (option Object) := Some (Some (set_version o 1 (o_Updated o) (o_Id o) (o_Etag o))).
Theorem patch_writes_generation :
  forall (g g' : Desk.emu) r, handleGcsUpdateMetadataRequest Shelf.no_type patch_generation true g [] None (lit "desk") (lit "doc") emptyConds = Ok (r, g') ->
  store_ok (store g) -> forall f, find (store g') (lit "desk") (lit "doc") = Some f -> is_Some (find (store g) (lit "desk") (lit "doc")) -> o_Generation (f_meta f) = 1.
Proof.
  intros g g' r. unfold handleGcsUpdateMetadataRequest. cbn [negb]. destruct (GetMeta _ _ _ _ _) as [obj|] eqn:Em.
  - cbn [validateConds emptyConds DoesNotExist GenerationMatch GenerationNotMatch MetagenerationMatch MetagenerationNotMatch Z.eqb negb andb].
    unfold patch_generation at 1. destruct (UpdateMeta _ _ _ _ _ _) as [ms'|] eqn:Eu.
    + intros [= _ <-] Hok f Hf _. destruct (update_ok _ _ _ _ _ _ _ Hok Eu) as (_ & f0 & _ & Hf'). change (find ms' (lit "desk") (lit "doc") = Some f) in Hf. rewrite Hf', decide_True in Hf by done. injection Hf as <-.
      cbn. unfold default_ctype. by case_decide.
    + intros _ _ f _ [f0 Hf0]. exfalso. unfold UpdateMeta in Eu. by rewrite Hf0 in Eu.
  - intros _ _ f _ [f0 Hf0]. exfalso. unfold GetMeta in Em. by rewrite Hf0 in Em.
Qed.

(** [mime.TypeByExtension] knows extensions with their dot; the emulator asks without it. *)
Theorem content_type_not_guessed (TypeByExtension : gostring -> gostring) m filename :
  (forall ext, (Byte.x2e ∉ ext) -> TypeByExtension ext = []) -> o_ContentType (InitScrubbedMeta TypeByExtension m filename) = o_ContentType m.
Proof.
  intros Hmime. unfold InitScrubbedMeta, default_ctype. case_decide as E; [|done]. cbn. rewrite E. apply Hmime. unfold extension.
  apply (Split_parts filename). assert (Hne : Split filename Byte.x2e <> []). { destruct filename as [|c s]; [done|]. cbn. case_decide; [done|]. by destruct (Split s Byte.x2e). }
  destruct (exists_last Hne) as (l & x & ->). rewrite last_last. apply elem_of_app. right. by left.
Qed.

(** The hash of a refused upload stays with it: when the rest is sent again with other contents, the
    upload is refused because of a hash the client never sent. *)
Theorem refused_upload_keeps_hash :
  let '(code1, obj1, _) := Desk.locked 2 true (store with_doc) [] Desk.doc (lit "two") (lit "desk") doesNotExistConds in
  let '(code2, _, _) := Desk.locked 3 true NewMemStore [] obj1 (lit "three") (lit "desk") doesNotExistConds in
  o_Md5Hash Desk.doc = [] /\ code1 = Some 412 /\ code2 = Some 400.
Proof. vm_compute. auto. Qed.

End GcsDepartures.
