(* ===== verification/SvcAuth.v ===== *)
(** Metadata of requests between services, their callers and their authentication
    ([appruntime/apisdk/api/transport], [callers.go] and [svcauth]).

    The signing package [platform-sdk/pkg/auth] and the hash SHA3-256 are not in the repository:
    class [SigningKit] lists what the code calls and [SigningKitLaws] what it relies on.  An
    authentication method is a record of the three operations of the interface [ServiceAuth];
    [AuthPair] states what the signing side of a method promises to the verifying side. *)

From stdpp Require Import sorting.
From S2P Require Import Prelude GoSort Utf8 GoText HttpCache.

(** ** transport/http.go *)

Definition str_le (s t : gostring) : Prop := str_geb t s = true.

#[export] Instance str_le_dec s t : Decision (str_le s t) := decide (str_geb t s = true).

(** [sort.Strings] *)
Definition sort_Strings (l : list gostring) : list gostring := merge_sort str_le l.

Definition TraceParentKey : gostring := lit "Traceparent".
Definition TraceStateKey : gostring := lit "Tracestate".
Definition CorrelationIDKey : gostring := lit "Correlation-ID".

Definition metaPrefix : gostring := lit "X-Encore-Meta-".

Definition metaKeyToHTTPHeader (key : gostring) : gostring :=
  if decide (key = TraceParentKey) then lit "traceparent"
  else if decide (key = TraceStateKey) then lit "tracestate"
  else if decide (key = CorrelationIDKey) then lit "X-Correlation-ID"
  else metaPrefix ++ key.

Definition SetMeta (h : Header) (key value : gostring) : Header := header_Set h (metaKeyToHTTPHeader key) value.

Definition ReadMeta (h : Header) (key : gostring) : gostring * bool :=
  let value := header_Get h (metaKeyToHTTPHeader key) in (value, negb (bool_decide (value = []))).

Definition header_Values (h : Header) (name : gostring) : list gostring := default [] (h !! CanonicalHeaderKey name).

Definition ReadMetaValues (h : Header) (key : gostring) : list gostring * bool :=
  let values := header_Values h (metaKeyToHTTPHeader key) in (values, (0 <? blen values)).

(** The body of the loop of [ListMetaKeys]. *)
Definition listed_key (key : gostring) : option gostring :=
  let key := CanonicalHeaderKey key in
  if decide (key = lit "Traceparent") then Some TraceParentKey
  else if decide (key = lit "Tracestate") then Some TraceStateKey
  else if decide (key = lit "X-Correlation-Id") then Some CorrelationIDKey
  else if HasPrefix key metaPrefix then Some (drop 14 key)
  else None.

Definition ListMetaKeys (h : Header) : list gostring := sort_Strings (omap listed_key (map_to_list h).*1).

(** ** callers.go *)

Inductive Caller :=
  | ApiCaller (ServiceName Endpoint : gostring)
  | PubSubCaller (Topic Subscription MessageID : gostring)
  | AppCaller (DeployID : gostring)
  | GatewayCaller (GatewayName : gostring)
  | EncoreCaller (Principal : gostring).

#[export] Instance Caller_eq_dec : EqDecision Caller.
Proof. solve_decision. Defined.

Definition CallerString (c : Caller) : gostring :=
  match c with
  | ApiCaller s e => lit "api:" ++ s ++ lit "." ++ e
  | PubSubCaller t s m => lit "pubsub:" ++ t ++ lit ":" ++ s ++ lit ":" ++ m
  | AppCaller d => lit "app:" ++ d
  | GatewayCaller g => lit "gateway:" ++ g ++ lit ".none"
  | EncoreCaller p => lit "encore:" ++ p
  end.

Definition caller_PrivateAPIAccess (c : Caller) : bool :=
  match c with GatewayCaller _ => false | _ => true end.

Definition c_dot : byte := Byte.x2e.
Definition c_colon : byte := Byte.x3a.

Definition ParseCallerString (s : gostring) : option Caller :=
  let rest p := drop (length (lit p)) s in
  if HasPrefix s (lit "api:") then
    let '(service, endpoint, found) := Cut (rest "api:") c_dot in
    if negb found then None else Some (ApiCaller service endpoint)
  else if HasPrefix s (lit "pubsub:") then
    let '(topic, subscriptionAndMsgId, found) := Cut (rest "pubsub:") c_colon in
    if negb found then None
    else let '(subscription, msgId, found) := Cut subscriptionAndMsgId c_colon in
         if negb found then None else Some (PubSubCaller topic subscription msgId)
  else if HasPrefix s (lit "app:") then Some (AppCaller (rest "app:"))
  else if HasPrefix s (lit "gateway:") then
    let '(gateway, _, _) := Cut (rest "gateway:") c_dot in Some (GatewayCaller gateway)
  else if HasPrefix s (lit "encore:") then Some (EncoreCaller (rest "encore:"))
  else None.

(** ** svcauth.go: the interface *)

Inductive AuthError :=
  | ErrNoAuthorizationHeader | ErrNoDateHeader | ErrInvalidSignature | ErrAuthenticationExpired | ErrAuthenticationFailed
  | ErrReadMetadata | ErrOperationHash.

(** Building the operation hash sorts the values of the metadata in place, so that verifying
    a request may reorder its headers.  The first argument is the time the clock shows. *)
Record ServiceAuth := mkAuth {
  sa_method : gostring;
  sa_verify : Z -> Header -> Header * option AuthError;
  sa_sign : Z -> Header -> Header * option AuthError
}.

(** ** noop.go *)

Definition noop_method : gostring := lit "noop".
Definition noop_verify (now : Z) (h : Header) : Header * option AuthError := (h, None).
Definition noop_sign (now : Z) (h : Header) : Header * option AuthError := (h, None).
Definition noop : ServiceAuth := mkAuth noop_method noop_verify noop_sign.

(** ** encoreauth.go *)

Definition ecAuthHashHeader : gostring := lit "Svc-Auth".
Definition ecDateHeader : gostring := lit "Date".
Definition AuthMethodMetaKey : gostring := lit "Svc-Auth-Method".

(** [config.EncoreAuthKey] and [auth.Key]; the zero key has no data. *)
Record EncoreAuthKey := mkKey { KeyID : Z; Data : list byte }.
Definition zero_Key : EncoreAuthKey := mkKey 0 [].

Record AuthHeaders := mkAuthHeaders { Authorization : gostring; ah_Date : gostring }.

Record Components := mkComponents { co_keyID : Z; co_appSlug : gostring; co_envName : gostring; co_timestamp : Z; co_opHash : gostring }.

(** What the code calls of [platform-sdk/pkg/auth] and of SHA3-256; times are in nanoseconds. *)
Class SigningKit := {
  auth_Sign : EncoreAuthKey -> gostring -> gostring -> Z -> gostring -> AuthHeaders;
  auth_SignForVerification : EncoreAuthKey -> gostring -> gostring -> Z -> gostring -> AuthHeaders;
  auth_SigningComponents : AuthHeaders -> option Components;
  auth_Equal : AuthHeaders -> AuthHeaders -> bool;
  auth_NewOperationHash : gostring -> gostring -> list byte -> option gostring;
  sha3_Sum256 : list byte -> list byte
}.

(** Headers carry what was signed, with the time cut to seconds, and signing it again gives the
    same headers; an operation has a hash. *)
Class SigningKitLaws `{SigningKit} := {
  sign_components k slug env now op :
    exists t, auth_SigningComponents (auth_Sign k slug env now op) = Some (mkComponents (KeyID k) slug env t op) /\
      0 <= now - t < 10 ^ 9 /\
      auth_Equal (auth_SignForVerification k slug env t op) (auth_Sign k slug env now op) = true;
  sign_not_empty k slug env now op :
    Authorization (auth_Sign k slug env now op) <> [] /\ ah_Date (auth_Sign k slug env now op) <> [];
  operation_hashed payload : is_Some (auth_NewOperationHash (lit "internal-api") (lit "call") payload)
}.

Record encoreAuth := mkEncoreAuth { appSlug : gostring; envName : gostring; keys : list EncoreAuthKey; latestKey : EncoreAuthKey }.

Definition latest_loop (latest key : EncoreAuthKey) : EncoreAuthKey := if KeyID latest <? KeyID key then key else latest.

Definition newEncoreAuth (slug env : gostring) (ks : list EncoreAuthKey) : encoreAuth := mkEncoreAuth slug env ks (foldl latest_loop zero_Key ks).

Definition signed_key (key : gostring) : bool :=
  negb (bool_decide (key ∈ [AuthMethodMetaKey; ecAuthHashHeader; ecDateHeader; TraceParentKey; TraceStateKey])).

Definition hash_line (key value : gostring) : list byte := key ++ lit "=" ++ value ++ [Byte.x0a].

(** [sort.Strings(values)] on the slice the header holds. *)
Definition sort_values (h : Header) (key : gostring) : Header :=
  let name := CanonicalHeaderKey (metaKeyToHTTPHeader key) in <[name := sort_Strings (default [] (h !! name))]> h.

(** The loop over the keys: what is written to the hash. *)
Fixpoint hash_loop (h : Header) (ks : list gostring) (acc : list byte) : Header * option (list byte) :=
  match ks with
  | [] => (h, Some acc)
  | key :: ks =>
      if signed_key key then
        let '(values, found) := ReadMetaValues h key in
        if negb found then (h, None)
        else hash_loop (sort_values h key) ks (acc ++ mjoin (hash_line key <$> sort_Strings values))
      else hash_loop h ks acc
  end.

Section EncoreAuth.
Context `{SigningKit}.

Definition buildOpHash (h : Header) : Header * (AuthError + gostring) :=
  match hash_loop h (ListMetaKeys h) [] with
  | (h, None) => (h, inl ErrReadMetadata)
  | (h, Some written) =>
      match auth_NewOperationHash (lit "internal-api") (lit "call") (sha3_Sum256 written) with
      | None => (h, inl ErrOperationHash)
      | Some op => (h, inr op)
      end
  end.

Definition allowedClockSkew : Z := 2 * 60 * 10 ^ 9.

Definition find_key (ks : list EncoreAuthKey) (id : Z) : EncoreAuthKey := default zero_Key (head (filter (fun k => KeyID k = id) ks)).

Definition ea_verify (ea : encoreAuth) (now : Z) (h : Header) : Header * option AuthError :=
  let '(authStr, found) := ReadMeta h ecAuthHashHeader in
  if negb found then (h, Some ErrNoAuthorizationHeader) else
  let '(dateStr, found) := ReadMeta h ecDateHeader in
  if negb found then (h, Some ErrNoDateHeader) else
  let headers := mkAuthHeaders authStr dateStr in
  match auth_SigningComponents headers with
  | None => (h, Some ErrInvalidSignature)
  | Some (mkComponents keyID slug env timestamp opHash) =>
      let diff := since now timestamp in
      if (allowedClockSkew <? diff) || (diff <? - allowedClockSkew) then (h, Some ErrAuthenticationExpired) else
      let key := find_key (keys ea) keyID in
      if KeyID key =? 0 then (h, Some ErrAuthenticationFailed) else
      let expectedHeaders := auth_SignForVerification key slug env timestamp opHash in
      if negb (auth_Equal expectedHeaders headers) then (h, Some ErrAuthenticationFailed) else
      match buildOpHash h with
      | (h, inl err) => (h, Some err)
      | (h, inr expectedOpHash) => if decide (expectedOpHash = opHash) then (h, None) else (h, Some ErrAuthenticationFailed)
      end
  end.

Definition ea_sign (ea : encoreAuth) (now : Z) (h : Header) : Header * option AuthError :=
  match buildOpHash h with
  | (h, inl err) => (h, Some err)
  | (h, inr opHash) =>
      let headers := auth_Sign (latestKey ea) (appSlug ea) (envName ea) now opHash in
      (SetMeta (SetMeta h ecAuthHashHeader (Authorization headers)) ecDateHeader (ah_Date headers), None)
  end.

Definition ea_method : gostring := lit "encore-auth".

Definition encore_auth (ea : encoreAuth) : ServiceAuth := mkAuth ea_method (ea_verify ea) (ea_sign ea).

(** ** pkgfn.go *)

Definition Sign (a : ServiceAuth) (now : Z) (h : Header) : Header * option AuthError :=
  match sa_sign a now h with
  | (h, Some err) => (h, Some err)
  | (h, None) => (SetMeta h AuthMethodMetaKey (sa_method a), None)
  end.

Inductive VerifyError := VerifyFailed (err : AuthError) | UnknownMethod (method : gostring).

(** The loop over the loaded methods, in the order the map gives them. *)
Fixpoint verify_loop (now : Z) (ms : list ServiceAuth) (method : gostring) (h : Header) : Header * (VerifyError + bool) :=
  match ms with
  | [] => (h, inl (UnknownMethod method))
  | a :: ms =>
      if decide (sa_method a = method) then
        match sa_verify a now h with
        | (h, Some err) => (h, inl (VerifyFailed err))
        | (h, None) => (h, inr true)
        end
      else verify_loop now ms method h
  end.

Definition Verify (now : Z) (h : Header) (loadedAuthMethods : gmap gostring ServiceAuth) : Header * (VerifyError + bool) :=
  let '(method, found) := ReadMeta h AuthMethodMetaKey in
  if negb found then (h, inr false) else verify_loop now (map_to_list loadedAuthMethods).*2 method h.

(** The parts of [config.Runtime] that are read; a method is named by its string. *)
Record AuthConfig := mkAuthConfig {
  cfg_AppSlug : gostring;
  cfg_EnvName : gostring;
  cfg_AuthKeys : list EncoreAuthKey;
  cfg_ServiceAuth : list gostring;
  cfg_ServiceDiscovery : list gostring (* the methods of the services, in the order the map gives them *)
}.

Definition load_method (cfg : AuthConfig) (method : gostring) : option ServiceAuth :=
  if decide (method = noop_method) then Some noop
  else if decide (method = ea_method) then Some (encore_auth (newEncoreAuth (cfg_AppSlug cfg) (cfg_EnvName cfg) (cfg_AuthKeys cfg)))
  else None.

Fixpoint load_inbound (cfg : AuthConfig) (ms : list gostring) (inbound : gmap gostring ServiceAuth) : option (gmap gostring ServiceAuth) :=
  match ms with
  | [] => Some inbound
  | m :: ms => a ← load_method cfg m; load_inbound cfg ms (<[m := a]> inbound)
  end.

Fixpoint load_outbound (cfg : AuthConfig) (ms : list gostring) (outbound : gmap gostring ServiceAuth) : option (gmap gostring ServiceAuth) :=
  match ms with
  | [] => Some outbound
  | m :: ms =>
      match outbound !! m with
      | Some _ => load_outbound cfg ms outbound
      | None => a ← load_method cfg m; load_outbound cfg ms (<[m := a]> outbound)
      end
  end.

Definition LoadMethods (cfg : AuthConfig) : option (gmap gostring ServiceAuth * gmap gostring ServiceAuth) :=
  inbound ← load_inbound cfg (cfg_ServiceAuth cfg) ∅;
  outbound ← load_outbound cfg (cfg_ServiceDiscovery cfg) ∅;
  Some (inbound, outbound).

End EncoreAuth.
