(* ===== verification/SvcAuthTheorems.v ===== *)
(** Callers and signatures of internal calls: callers survive their text form; the text that is
    hashed determines the signed metadata; what one side signs the other accepts, whatever
    happens in between to headers that are not signed. *)

From S2P Require Import Prelude GoSort Utf8 GoText HttpCache HttpCacheTheorems SvcAuth.
From stdpp Require Import sorting list.

(** ** Sorting *)

#[export] Instance str_le_total : Total str_le.
Proof.
  intros s t. unfold str_le. rewrite !str_geb_spec. destruct (str_trichotomy s t) as [H|[->|H]]; auto.
Qed.

#[export] Instance str_le_trans : Transitive str_le.
Proof.
  intros s t u H1%str_geb_spec H2%str_geb_spec. apply (proj2 (str_geb_spec _ _)). destruct H1 as [->|H1], H2 as [->|H2]; auto.
  right. by eapply str_ltb_trans.
Qed.

#[export] Instance str_le_antisym : AntiSymm (=) str_le.
Proof.
  intros s t H1%str_geb_spec H2%str_geb_spec. destruct H1 as [->|H1]; [done|]. destruct H2 as [->|H2]; [done|]. apply str_ltb_asym in H1. congruence.
Qed.

Lemma sort_perm l : sort_Strings l ≡ₚ l.
Proof. apply merge_sort_Permutation. Qed.

Lemma sort_unique l l' : Sorted str_le l' -> l' ≡ₚ l -> sort_Strings l = l'.
Proof. intros Hs Hp. apply (Sorted_unique str_le); [apply Sorted_merge_sort, _|done|]. by rewrite sort_perm, Hp. Qed.

Lemma sort_eq l l' : sort_Strings l = sort_Strings l' <-> l ≡ₚ l'.
Proof.
  split.
  - intros He. rewrite <- (sort_perm l), <- (sort_perm l'). by rewrite He.
  - intros Hp. apply sort_unique; [apply Sorted_merge_sort, _|]. by rewrite sort_perm.
Qed.

Lemma sort_filter (P : gostring -> Prop) `{!forall x, Decision (P x)} l : filter P (sort_Strings l) = sort_Strings (filter P l).
Proof.
  symmetry. apply sort_unique; [|by rewrite sort_perm].
  assert (Hs : StronglySorted str_le (sort_Strings l)) by (apply StronglySorted_merge_sort; apply _).
  apply StronglySorted_Sorted. induction Hs as [|x l' Hs IH Hx]; [constructor|]. rewrite filter_cons. case_decide; [|done].
  constructor; [done|]. rewrite List.Forall_forall in Hx |- *. intros y Hy%list_elem_of_In. apply list_elem_of_filter in Hy as [_ Hy]. by apply Hx, list_elem_of_In.
Qed.

Lemma sort_nil l : sort_Strings l = [] <-> l = [].
Proof.
  split; [|by intros ->]. intros He. pose proof (sort_perm l) as Hp. rewrite He in Hp. by apply Permutation_nil_l in Hp.
Qed.

(** ** Headers *)

(** The name of the header that holds a key. *)
Definition mname (key : gostring) : gostring := CanonicalHeaderKey (metaKeyToHTTPHeader key).

(** The headers of a request: canonical names with at least one value. *)
Definition wf_header (h : Header) : Prop := map_Forall (fun k vs => CanonicalHeaderKey k = k /\ vs <> []) h.

Lemma lookup_SetMeta h key v name : SetMeta h key v !! name = if decide (name = mname key) then Some [v] else h !! name.
Proof. unfold SetMeta, header_Set, mname. case_decide as Hn; [subst; by rewrite lookup_insert_eq | by rewrite lookup_insert_ne by congruence]. Qed.

Lemma wf_SetMeta h key v : wf_header h -> wf_header (SetMeta h key v).
Proof. intros Hw. apply map_Forall_insert_2; [|done]. split; [apply Canonical_idem | done]. Qed.

Lemma ReadMeta_lookup h key : ReadMeta h key =
  match h !! mname key with Some ((_ :: _) as v :: _) => (v, true) | _ => ([], false) end.
Proof. unfold ReadMeta, header_Get, mname. by destruct (h !! _) as [[|[|b v] vs]|]. Qed.

Lemma ReadMetaValues_lookup h key : ReadMetaValues h key =
  match h !! mname key with Some ((_ :: _) as vs) => (vs, true) | _ => ([], false) end.
Proof. unfold ReadMetaValues, header_Values, mname, blen. destruct (h !! _) as [[|v vs]|]; done. Qed.

(** Headers that are the same up to the order of their values. *)
Definition same_values : relation (option (list gostring)) := option_Forall2 (≡ₚ).
Definition reordered (h h' : Header) : Prop := forall name, same_values (h !! name) (h' !! name).

#[export] Instance same_values_equiv : Equivalence same_values.
Proof. unfold same_values. split; apply _. Qed.

#[export] Instance reordered_equiv : Equivalence reordered.
Proof.
  split; [by intros h name | intros h h' Hr name; by symmetry | intros h1 h2 h3 H1 H2 name; by transitivity (h2 !! name)].
Qed.

Lemma same_single o v : same_values o (Some [v]) -> o = Some [v].
Proof. inversion 1 as [? ? Hp|]; subst. f_equal. symmetry. by apply Permutation_singleton_l. Qed.

Lemma wf_reordered h h' : reordered h h' -> wf_header h -> wf_header h'.
Proof.
  intros Hr Hw name vs Hv. specialize (Hr name). rewrite Hv in Hr. inversion Hr as [vs0 ? Hp Hl|]; subst.
  destruct (Hw name vs0 (eq_sym Hl)) as [Hc Hn]. split; [done|]. intros ->. by apply Hn, Permutation_nil_r.
Qed.

(** ** Signed keys *)

(** The key of a header, if it is signed. *)
Definition signed_name (name : gostring) : option gostring :=
  key ← listed_key name; if signed_key key then Some key else None.

Lemma drop_prefix key : drop 14 (metaPrefix ++ key) = key.
Proof. reflexivity. Qed.

Lemma signed_mname name key : CanonicalHeaderKey name = name -> signed_name name = Some key -> mname key = name.
Proof.
  intros Hc. unfold signed_name, listed_key. rewrite Hc. repeat case_decide; cbn [mbind option_bind].
  - by intros.
  - by intros.
  - intros [= <-]. subst. by vm_compute.
  - destruct (HasPrefix name metaPrefix) eqn:Hp; [|done]. cbn [mbind option_bind]. destruct (signed_key _) eqn:Hs; [|done].
    intros [= <-]. apply HasPrefix_spec in Hp as [k ->]. rewrite drop_prefix in Hs |- *.
    unfold mname, metaKeyToHTTPHeader. destruct (decide (k = TraceParentKey)) as [->|_]; [vm_compute in Hs; discriminate Hs|].
    destruct (decide (k = TraceStateKey)) as [->|_]; [vm_compute in Hs; discriminate Hs|].
    destruct (decide (k = CorrelationIDKey)) as [->|_]; [vm_compute in Hc; discriminate Hc | exact Hc].
Qed.

Definition signed_keys (h : Header) : list gostring := sort_Strings (omap signed_name (map_to_list h).*1).

Lemma filter_listed (l : list gostring) : filter (fun k => signed_key k = true) (omap listed_key l) = omap signed_name l.
Proof.
  induction l as [|n l IH]; [done|]. cbn [omap list_omap]. unfold signed_name at 1. destruct (listed_key n) as [k|]; cbn [mbind option_bind]; [|done].
  rewrite filter_cons. case_decide as Hk; [by rewrite Hk, IH|]. apply not_true_is_false in Hk. by rewrite Hk.
Qed.

Lemma signed_keys_filter h : filter (fun k => signed_key k = true) (ListMetaKeys h) = signed_keys h.
Proof. unfold ListMetaKeys, signed_keys. by rewrite sort_filter, filter_listed. Qed.

Lemma elem_of_names (h : Header) name : name ∈ (map_to_list h).*1 <-> is_Some (h !! name).
Proof.
  rewrite list_elem_of_fmap. split.
  - intros ([n vs] & -> & Hin%elem_of_map_to_list). by exists vs.
  - intros [vs Hv]. exists (name, vs). split; [done|]. by apply elem_of_map_to_list.
Qed.

Lemma elem_of_signed_keys h key : wf_header h -> key ∈ signed_keys h <-> signed_name (mname key) = Some key /\ is_Some (h !! mname key).
Proof.
  intros Hw. unfold signed_keys. rewrite sort_perm, list_elem_of_omap. split.
  - intros (name & [vs Hv]%elem_of_names & Hs). destruct (Hw _ _ Hv) as [Hc _]. rewrite (signed_mname _ _ Hc Hs). by rewrite Hv.
  - intros [Hs Hv]. exists (mname key). split; [by apply elem_of_names | done].
Qed.

Lemma NoDup_signed_keys h : wf_header h -> NoDup (signed_keys h).
Proof.
  intros Hw. unfold signed_keys. rewrite sort_perm.
  assert (Hn : Forall (fun n => CanonicalHeaderKey n = n) (map_to_list h).*1).
  { apply List.Forall_forall. intros n Hn%list_elem_of_In. apply elem_of_names in Hn as [vs Hv]. apply (Hw _ _ Hv). }
  pose proof (NoDup_fst_map_to_list h) as Hd. induction Hd as [|n l Hn' Hd IH]; [constructor|]. apply Forall_cons_iff in Hn as [Hc Hl].
  cbn [omap list_omap]. destruct (signed_name n) as [k|] eqn:Hk; [|by apply IH]. apply NoDup_cons. split; [|by apply IH].
  rewrite list_elem_of_omap. intros (n' & Hin & Hk'). rewrite List.Forall_forall in Hl. pose proof (Hl _ (proj1 (list_elem_of_In _ _) Hin)) as Hc'. apply (signed_mname _ _ Hc) in Hk.
  apply (signed_mname _ _ Hc') in Hk'. congruence.
Qed.

(** Headers that agree on what is signed. *)
Definition same_signed (h h' : Header) : Prop := forall name, is_Some (signed_name name) -> same_values (h !! name) (h' !! name).

#[export] Instance same_signed_equiv : Equivalence same_signed.
Proof.
  split; [by intros h name | intros h h' Hr name Hn; symmetry; by apply Hr | intros h1 h2 h3 H1 H2 name Hn; transitivity (h2 !! name); auto].
Qed.

Lemma reordered_signed h h' : reordered h h' -> same_signed h h'.
Proof. by intros Hr name _. Qed.

Lemma same_values_Some o o' : same_values o o' -> is_Some o <-> is_Some o'.
Proof. by destruct 1. Qed.

Lemma same_signed_keys h h' : wf_header h -> wf_header h' -> same_signed h h' -> signed_keys h = signed_keys h'.
Proof.
  intros Hw Hw' Hs. unfold signed_keys. rewrite sort_eq. apply NoDup_Permutation.
  - rewrite <- sort_perm. by apply NoDup_signed_keys.
  - rewrite <- sort_perm. by apply NoDup_signed_keys.
  - intros k. pose proof (elem_of_signed_keys h k Hw) as E. pose proof (elem_of_signed_keys h' k Hw') as E'.
    unfold signed_keys in E, E'. rewrite sort_perm in E, E'. rewrite E, E'. split; intros [Hk Hv]; (split; [done|]).
    + by apply (same_values_Some _ _ (Hs (mname k) ltac:(by exists k))).
    + by apply (same_values_Some _ _ (Hs (mname k) ltac:(by exists k))).
Qed.

(** ** What is hashed *)

Definition vals (h : Header) (key : gostring) : list gostring := default [] (h !! mname key).
Definition key_lines (h : Header) (key : gostring) : list byte := mjoin (hash_line key <$> sort_Strings (vals h key)).
Definition payload (h : Header) : list byte := mjoin (key_lines h <$> signed_keys h).

Lemma same_vals_lines h h' key : same_values (h !! mname key) (h' !! mname key) -> key_lines h key = key_lines h' key.
Proof.
  intros Hs. unfold key_lines. do 2 f_equal. apply sort_eq. unfold vals. destruct Hs; cbn [default]; [done|reflexivity].
Qed.

Lemma sort_values_reordered h key vs : h !! mname key = Some vs -> reordered h (sort_values h key).
Proof.
  intros Hv name. unfold sort_values. fold (mname key). rewrite Hv. cbn [default]. destruct (decide (name = mname key)) as [->|Hn].
  - rewrite lookup_insert_eq, Hv. constructor. symmetry. apply sort_perm.
  - rewrite lookup_insert_ne by congruence. reflexivity.
Qed.

Lemma hash_loop_spec ks h acc :
  (forall k, k ∈ ks -> signed_key k = true -> exists v vs, h !! mname k = Some (v :: vs)) ->
  exists h', hash_loop h ks acc = (h', Some (acc ++ mjoin (key_lines h <$> filter (fun k => signed_key k = true) ks))) /\ reordered h h'.
Proof.
  revert h acc. induction ks as [|k ks IH]; intros h acc Hks.
  { exists h. split; [cbn; by rewrite app_nil_r | reflexivity]. }
  cbn [hash_loop]. rewrite filter_cons. destruct (signed_key k) eqn:Hk.
  2:{ rewrite decide_False by done. apply IH. intros k' Hin. apply Hks. by right. }
  rewrite decide_True by done. destruct (Hks k ltac:(by left) Hk) as (v & vs & Hv).
  pose proof (sort_values_reordered h k _ Hv) as Hr. rewrite ReadMetaValues_lookup, Hv. cbn [negb].
  destruct (IH (sort_values h k) (acc ++ mjoin (hash_line k <$> sort_Strings (v :: vs)))) as (h' & He & Hr').
  - intros k' Hin Hk'. destruct (Hks k' ltac:(by right) Hk') as (v' & vs' & Hv'). specialize (Hr (mname k')). rewrite Hv' in Hr.
    inversion Hr as [? [|w ws] Hp Hl Hl'|]; subst; [by apply Permutation_nil_r in Hp | by exists w, ws].
  - exists h'. split; [|by etransitivity]. rewrite He. cbn [fmap list_fmap mjoin list_join]. rewrite <- app_assoc. do 3 f_equal. f_equal.
    + unfold key_lines, vals. by rewrite Hv.
    + f_equal. apply list_fmap_ext. intros i k' _. symmetry. apply same_vals_lines, Hr.
Qed.

Lemma wf_signed_value h k : wf_header h -> k ∈ signed_keys h -> exists v vs, h !! mname k = Some (v :: vs).
Proof.
  intros Hw Hin. apply (elem_of_signed_keys h k Hw) in Hin as [_ [[|v vs] Hv]]; [|by exists v, vs]. by destruct (Hw _ _ Hv) as [_ Hn].
Qed.

(** The hash reads the metadata, in an order that does not depend on the iteration over the map. *)
Lemma hash_written h : wf_header h -> exists h', hash_loop h (ListMetaKeys h) [] = (h', Some (payload h)) /\ reordered h h'.
Proof.
  intros Hw. destruct (hash_loop_spec (ListMetaKeys h) h []) as (h' & He & Hr).
  - intros k Hin Hk. apply wf_signed_value; [done|]. rewrite <- signed_keys_filter. by apply list_elem_of_filter.
  - exists h'. split; [|done]. rewrite He, signed_keys_filter. done.
Qed.

Lemma payload_same h h' : wf_header h -> wf_header h' -> same_signed h h' -> payload h = payload h'.
Proof.
  intros Hw Hw' Hs. unfold payload. rewrite <- (same_signed_keys h h') by done. f_equal. apply Forall_fmap_ext_1.
  apply Forall_forall. intros k Hk. apply (elem_of_signed_keys h k Hw) in Hk as [Hk _]. apply same_vals_lines, Hs. by exists k.
Qed.

(** ** What the hashed text determines *)

Definition pairs_of (f : gostring -> list gostring) (ks : list gostring) : list (gostring * gostring) := mjoin ((fun k => pair k <$> f k) <$> ks).
Definition line_of (p : gostring * gostring) : list byte := hash_line p.1 p.2.

Lemma mjoin_cons {A} (l : list A) (ls : list (list A)) : mjoin (l :: ls) = l ++ mjoin ls.
Proof. done. Qed.

Lemma mjoin_app {A} (l l' : list (list A)) : mjoin (l ++ l') = mjoin l ++ mjoin l'.
Proof. apply join_app. Qed.

Lemma payload_pairs h : payload h = mjoin (line_of <$> pairs_of (fun k => sort_Strings (vals h k)) (signed_keys h)).
Proof.
  unfold payload, pairs_of. induction (signed_keys h) as [|k ks IH]; [done|]. rewrite !fmap_cons, !mjoin_cons, fmap_app, mjoin_app, <- IH.
  f_equal. unfold key_lines. by rewrite <- list_fmap_compose.
Qed.

Definition c_nl : byte := Byte.x0a.

(** No line break, and no equals sign in the key. *)
Definition plain_pair (p : gostring * gostring) : Prop := (c_equals ∉ p.1) /\ (c_nl ∉ p.1) /\ (c_nl ∉ p.2).

Lemma lines_inj ps ps' : Forall plain_pair ps -> Forall plain_pair ps' -> mjoin (line_of <$> ps) = mjoin (line_of <$> ps') -> ps = ps'.
Proof.
  intros Hp. revert ps'. induction Hp as [|[k v] ps (Hk & _ & Hv) Hp IH]; intros [|[k' v'] ps'] Hp' He.
  - done.
  - exfalso. cbn in He. by destruct k'.
  - exfalso. cbn in He. by destruct k.
  - apply Forall_cons in Hp' as [(Hk' & _ & Hv') Hp']. cbn in Hk, Hk', Hv, Hv'.
    assert (E : forall a b r, mjoin (line_of <$> (a, b) :: r) = a ++ c_equals :: b ++ c_nl :: mjoin (line_of <$> r)).
    { intros a b r. rewrite fmap_cons, mjoin_cons. unfold line_of at 1, hash_line. cbn [fst snd]. rewrite <- !app_assoc. reflexivity. }
    rewrite !E in He. apply (f_equal (fun s => Cut s c_equals)) in He. rewrite !Cut_app in He by done. injection He as -> He.
    apply (f_equal (fun s => Cut s c_nl)) in He. rewrite !Cut_app in He by done. injection He as -> He. f_equal. by apply IH.
Qed.

Lemma pairs_of_one (k key : gostring) (vs : list gostring) : (filter (fun p => p.1 = key) (pair k <$> vs)).*2 = if decide (k = key) then vs else [].
Proof.
  induction vs as [|v vs IH]; [by case_decide|]. rewrite fmap_cons, filter_cons. cbn [fst]. destruct (decide (k = key)); [|done].
  rewrite fmap_cons, IH. done.
Qed.

Lemma pairs_of_key f ks key : NoDup ks ->
  (filter (fun p => p.1 = key) (pairs_of f ks)).*2 = if decide (key ∈ ks) then f key else [].
Proof.
  intros Hd. unfold pairs_of. induction Hd as [|k ks Hk Hd IH]; [done|]. rewrite fmap_cons, mjoin_cons, filter_app, fmap_app, IH.
  rewrite pairs_of_one. destruct (decide (k = key)) as [->|Hn].
  - rewrite decide_False by done. rewrite decide_True by (by left). apply app_nil_r.
  - cbn [app]. destruct (decide (key ∈ ks)) as [Hi|Hi]; [by rewrite decide_True by (by right)|]. rewrite decide_False; [done|].
    intros [->|]%elem_of_cons; [by apply Hn | by apply Hi].
Qed.

(** Headers as they are sent: no line breaks, and no equals sign in a name. *)
Definition wire_header (h : Header) : Prop :=
  wf_header h /\ map_Forall (fun k vs => (c_equals ∉ k) /\ (c_nl ∉ k) /\ Forall (fun v => c_nl ∉ v) vs) h.

Lemma signed_key_plain h key : wire_header h -> key ∈ signed_keys h ->
  (c_equals ∉ key) /\ (c_nl ∉ key) /\ Forall (fun v => c_nl ∉ v) (vals h key).
Proof.
  intros [Hw Hp] Hin. destruct (wf_signed_value h key Hw Hin) as (v & vs & Hv). apply (elem_of_signed_keys h key Hw) in Hin as [Hs _].
  destruct (Hp _ _ Hv) as (He & Hn & Hvs). unfold vals. rewrite Hv. cbn [default]. revert He Hn Hs. unfold signed_name, listed_key.
  set (name := CanonicalHeaderKey (mname key)). replace (mname key) with name by apply Canonical_idem. clearbody name. intros He Hn.
  assert (Hsub : (key = drop 14 name \/ key = CorrelationIDKey) -> (c_equals ∉ key) /\ (c_nl ∉ key)).
  { intros [->| ->]; [|split; by apply (bool_decide_unpack _); vm_compute].
    split; intros Hd; [apply He | apply Hn]; rewrite <- (take_drop 14 name); apply elem_of_app; by right. }
  intros Hs. destruct Hsub as [H1 H2]; [|done]. revert Hs. repeat case_decide; cbn [mbind option_bind]; [done|done|by intros [= <-]; right|].
  destruct (HasPrefix _ _); cbn [mbind option_bind]; [|done]. destruct (signed_key _); [|done]. intros [= <-]. by left.
Qed.

(** The text that is hashed determines the metadata that is signed, up to the order of values. *)
Lemma payload_inj h h' : wire_header h -> wire_header h' -> payload h = payload h' -> same_signed h h'.
Proof.
  intros Hh Hh' He. pose proof Hh as [Hw _]. pose proof Hh' as [Hw' _]. rewrite !payload_pairs in He.
  assert (Hpl : forall g, wire_header g -> Forall plain_pair (pairs_of (fun k => sort_Strings (vals g k)) (signed_keys g))).
  { intros g Hg. apply Forall_forall. intros [k v] Hin. unfold pairs_of in Hin. apply list_elem_of_join in Hin as (l & Hv & Hk).
    apply list_elem_of_fmap in Hk as (k' & -> & Hk). apply list_elem_of_fmap in Hv as (v' & [= -> ->] & Hv).
    destruct (signed_key_plain g k' Hg Hk) as (H1 & H2 & H3). split_and!; [done..|]. rewrite sort_perm in Hv. rewrite Forall_forall in H3. by apply H3. }
  apply lines_inj in He; [|by apply Hpl..]. intros name [key Hs].
  destruct (decide (CanonicalHeaderKey name = name)) as [Hc|Hc].
  2:{ assert (Hn : forall g, wf_header g -> g !! name = None).
      { intros g Hg. destruct (g !! name) eqn:Hv; [|done]. by destruct (Hg _ _ Hv). }
      rewrite !Hn by done. constructor. }
  pose proof (signed_mname _ _ Hc Hs) as Hm.
  apply (f_equal (fun ps => (filter (fun p => p.1 = key) ps).*2)) in He. rewrite !pairs_of_key in He by (by apply NoDup_signed_keys).
  assert (Hin : forall g, wf_header g -> (key ∈ signed_keys g <-> is_Some (g !! name))).
  { intros g Hg. rewrite (elem_of_signed_keys g key Hg), Hm. split; [by intros [_ ?] | by intros]. }
  assert (Hval : forall g vs, g !! name = Some vs -> vals g key = vs) by (intros g vs Hv; unfold vals; by rewrite Hm, Hv).
  assert (Hkey : forall g, wf_header g -> (if decide (key ∈ signed_keys g) then sort_Strings (vals g key) else []) = sort_Strings (vals g key)).
  { intros g Hg. destruct (decide (key ∈ signed_keys g)) as [_|Hd]; [done|]. rewrite Hin in Hd by done. unfold vals. rewrite Hm. by destruct (g !! name); [destruct Hd|]. }
  rewrite !Hkey in He by done. apply sort_eq in He. destruct (h !! name) as [vs|] eqn:Ev, (h' !! name) as [vs'|] eqn:Ev'.
  - constructor. by rewrite (Hval h vs), (Hval h' vs') in He.
  - exfalso. rewrite (Hval h vs) in He by done. unfold vals in He. rewrite Hm, Ev' in He. apply Permutation_nil_r in He. by destruct (Hw _ _ Ev).
  - exfalso. rewrite (Hval h' vs') in He by done. unfold vals in He. rewrite Hm, Ev in He. apply Permutation_nil_l in He. by destruct (Hw' _ _ Ev').
  - constructor.
Qed.
