(* ===== verification/SvcAuthSound.v ===== *)
(** What callers and signatures promise: callers survive their text form and keep their rights; a
    signature binds the metadata; what is signed with a method is accepted by the other side. *)

From S2P Require Import Prelude GoSort Utf8 GoText HttpCache HttpCacheTheorems SvcAuth SvcAuthTheorems.
From stdpp Require Import sorting list.
Local Open Scope Z_scope.
Opaque mname.

(** ** Callers *)

(** The parts of a caller that end at a separator do not contain it. *)
Definition wf_caller (c : Caller) : Prop :=
  match c with
  | ApiCaller s _ => c_dot ∉ s
  | PubSubCaller t s _ => (c_colon ∉ t) /\ (c_colon ∉ s)
  | GatewayCaller g => c_dot ∉ g
  | AppCaller _ | EncoreCaller _ => True
  end.

Lemma Cut_found s sep : sep ∈ s -> exists a b, Cut s sep = (a, b, true) /\ s = a ++ sep :: b /\ sep ∉ a.
Proof.
  intros Hin. destruct (Cut s sep) as [[a b] found] eqn:Hc. pose proof (Cut_spec _ _ _ _ _ Hc) as Hs. destruct found; [|by destruct Hs as (_ & _ & ?)].
  exists a, b. split; [done|]. by destruct Hs.
Qed.

Lemma Cut_first (s t a b : gostring) sep : s ++ sep :: t = a ++ sep :: b -> sep ∉ a -> (a = s <-> sep ∉ s).
Proof.
  intros He Ha. split; [by intros <-|]. intros Hs. apply (f_equal (fun x => Cut x sep)) in He. rewrite !Cut_app in He by done. by injection He.
Qed.

Lemma ParseCaller_text c : ParseCallerString (CallerString c) =
  match c with
  | ApiCaller s e => let '(s, e, _) := Cut (s ++ c_dot :: e) c_dot in Some (ApiCaller s e)
  | PubSubCaller t s m =>
      let '(t, r, _) := Cut (t ++ c_colon :: s ++ c_colon :: m) c_colon in
      let '(s, m, found) := Cut r c_colon in if negb found then None else Some (PubSubCaller t s m)
  | GatewayCaller g => let '(g, _, _) := Cut (g ++ c_dot :: lit "none") c_dot in Some (GatewayCaller g)
  | AppCaller _ | EncoreCaller _ => Some c
  end.
Proof.
  assert (Hin : forall a b sep, sep ∈ (a : gostring) ++ sep :: b) by (intros; apply elem_of_app; right; by left).
  destruct c as [s e|t s m|d|g|p]; try reflexivity.
  - change (ParseCallerString (CallerString (ApiCaller s e))) with
      (let '(service, endpoint, found) := Cut (s ++ c_dot :: e) c_dot in if negb found then None else Some (ApiCaller service endpoint)).
    destruct (Cut_found _ _ (Hin s e c_dot)) as (a & b & -> & _). done.
  - change (ParseCallerString (CallerString (PubSubCaller t s m))) with
      (let '(topic, r, found) := Cut (t ++ c_colon :: s ++ c_colon :: m) c_colon in
       if negb found then None else let '(s, m, found) := Cut r c_colon in if negb found then None else Some (PubSubCaller topic s m)).
    destruct (Cut_found _ _ (Hin t (s ++ c_colon :: m) c_colon)) as (a & b & -> & _). done.
Qed.

Lemma after_first (s t a b : gostring) sep : s ++ sep :: t = a ++ sep :: b -> sep ∉ a -> sep ∈ t -> sep ∈ b.
Proof.
  revert a. induction s as [|x s IH]; intros [|y a] He Ha Ht; cbn in He; simplify_eq.
  - done.
  - by destruct Ha; left.
  - apply elem_of_app. right. by right.
  - apply (IH a); [done| |done]. intros ?. apply Ha. by right.
Qed.

(** C13. Every caller can be read back, with the same access to private endpoints, and exactly the
    well-formed ones come back as they were. *)
Theorem caller_text c : exists c', ParseCallerString (CallerString c) = Some c' /\
  caller_PrivateAPIAccess c' = caller_PrivateAPIAccess c /\ (c' = c <-> wf_caller c).
Proof.
  rewrite ParseCaller_text. assert (Hin : forall a b sep, sep ∈ (a : gostring) ++ sep :: b) by (intros; apply elem_of_app; right; by left).
  destruct c as [s e|t s m|d|g|p]; cbn [wf_caller].
  - destruct (Cut_found _ _ (Hin s e c_dot)) as (a & b & -> & He & Ha). exists (ApiCaller a b). split_and!; [done..|].
    rewrite <- (Cut_first _ _ _ _ _ He Ha). split; [congruence|]. intros ->. by simplify_list_eq.
  - destruct (Cut_found _ _ (Hin t (s ++ c_colon :: m) c_colon)) as (a & b & -> & He & Ha).
    pose proof (after_first _ _ _ _ _ He Ha (Hin s m c_colon)) as Hb. destruct (Cut_found _ _ Hb) as (a' & b' & -> & He' & Ha').
    exists (PubSubCaller a a' b'). split_and!; [done..|]. split.
    + intros [= -> -> ->]. done.
    + intros [Ht Hs]. apply (Cut_first _ _ _ _ _ He Ha) in Ht as ->. apply app_inv_head in He. injection He as He. rewrite <- He in He'. apply (Cut_first _ _ _ _ _ He' Ha') in Hs as ->. by simplify_list_eq.
  - by exists (AppCaller d).
  - destruct (Cut_found _ _ (Hin g (lit "none") c_dot)) as (a & b & -> & He & Ha). exists (GatewayCaller a). split_and!; [done..|].
    rewrite <- (Cut_first _ _ _ _ _ He Ha). split; congruence.
  - by exists (EncoreCaller p).
Qed.

(** ** Keys *)

Definition valid_keys (ks : list EncoreAuthKey) : Prop := Forall (fun k => 0 <= KeyID k) ks.

Lemma latest_spec ks latest : valid_keys ks -> 0 <= KeyID latest ->
  let l := foldl latest_loop latest ks in
  (l = latest \/ head (filter (fun k => KeyID k = KeyID l) ks) = Some l) /\ KeyID latest <= KeyID l /\ Forall (fun k => KeyID k <= KeyID l) ks /\
  (KeyID l = KeyID latest -> l = latest).
Proof.
  intros Hv. revert latest. induction Hv as [|k ks Hk Hv IH]; intros latest Hl; [by split_and!; [left|..]|]. cbn [foldl].
  assert (H0 : 0 <= KeyID (latest_loop latest k)) by (unfold latest_loop; by destruct (_ <? _)).
  destruct (IH (latest_loop latest k) H0) as (Hor & Hle & Hall & Hsame). set (l := foldl _ _ _) in *. clearbody l.
  assert (Hkl : KeyID latest <= KeyID (latest_loop latest k) /\ KeyID k <= KeyID (latest_loop latest k)).
  { unfold latest_loop. destruct (Z.ltb_spec (KeyID latest) (KeyID k)); lia. }
  split_and!; [|lia|apply Forall_cons; split; [lia|done]|].
  - rewrite filter_cons. destruct (decide (KeyID k = KeyID l)) as [Hkl'|Hne].
    + assert (Hs : KeyID l = KeyID (latest_loop latest k)) by lia. apply Hsame in Hs as ->. unfold latest_loop in *.
      destruct (Z.ltb_spec (KeyID latest) (KeyID k)); [by right | by left].
    + destruct Hor as [Hor|Hor]; [|by right]. unfold latest_loop in Hor. destruct (_ <? _); [by subst | by left].
  - intros Hs. assert (He : l = latest_loop latest k) by (apply Hsame; lia). rewrite He. unfold latest_loop in *. destruct (Z.ltb_spec (KeyID latest) (KeyID k)); [lia|done].
Qed.

(** The key new requests are signed with has the largest id, and a verifier with the same keys
    finds it under its id. *)
Lemma newest_key slug env ks : valid_keys ks -> KeyID (latestKey (newEncoreAuth slug env ks)) <> 0 ->
  let k := latestKey (newEncoreAuth slug env ks) in find_key ks (KeyID k) = k /\ Forall (fun k' => KeyID k' <= KeyID k) ks.
Proof.
  intros Hv Hn k. destruct (latest_spec ks zero_Key Hv ltac:(done)) as (Hor & _ & Hall & _). fold k in Hn.
  change (foldl latest_loop zero_Key ks) with k in *. split; [|done]. unfold find_key. destruct Hor as [Hz|Hf]; [by rewrite Hz in Hn|].
  by rewrite Hf.
Qed.

(** ** Verification *)

Section Encore.
Context `{SigningKit}.

(** The operation hash of the metadata of a request. *)
Definition op_hash (h : Header) : option gostring := auth_NewOperationHash (lit "internal-api") (lit "call") (sha3_Sum256 (payload h)).

Lemma buildOpHash_spec h : wf_header h -> exists h', reordered h h' /\
  buildOpHash h = (h', match op_hash h with Some op => inr op | None => inl ErrOperationHash end).
Proof.
  intros Hw. destruct (hash_written h Hw) as (h' & He & Hr). exists h'. split; [done|]. unfold buildOpHash, op_hash. rewrite He. by destruct (auth_NewOperationHash _ _ _).
Qed.

(** The headers of the signature in a request. *)
Definition auth_headers (h : Header) : AuthHeaders := mkAuthHeaders (ReadMeta h ecAuthHashHeader).1 (ReadMeta h ecDateHeader).1.

(** A request is accepted exactly when its signature was made with a key that is loaded, at
    most two minutes from now, for the operation hash of this request. *)
Lemma ea_verify_accepts ea now h : wf_header h ->
  (ea_verify ea now h).2 = None <->
  (ReadMeta h ecAuthHashHeader).2 = true /\ (ReadMeta h ecDateHeader).2 = true /\
  exists id slug env t op, auth_SigningComponents (auth_headers h) = Some (mkComponents id slug env t op) /\
    - allowedClockSkew <= since now t <= allowedClockSkew /\ KeyID (find_key (keys ea) id) <> 0 /\
    auth_Equal (auth_SignForVerification (find_key (keys ea) id) slug env t op) (auth_headers h) = true /\ op_hash h = Some op.
Proof.
  intros Hw. unfold ea_verify, auth_headers. destruct (buildOpHash_spec h Hw) as (h' & _ & Hb).
  destruct (ReadMeta h ecAuthHashHeader) as [a fa], (ReadMeta h ecDateHeader) as [d fd]. cbn [fst snd].
  destruct fa; cbn [negb]; [|split; [done|by intros (? & _)]]. destruct fd; cbn [negb]; [|split; [done|by intros (_ & ? & _)]].
  destruct (auth_SigningComponents _) as [[id slug env t op]|].
  2:{ split; [done|]. by intros (_ & _ & ? & ? & ? & ? & ? & ? & _). }
  transitivity (- allowedClockSkew <= since now t <= allowedClockSkew /\ KeyID (find_key (keys ea) id) <> 0 /\
    auth_Equal (auth_SignForVerification (find_key (keys ea) id) slug env t op) (mkAuthHeaders a d) = true /\ op_hash h = Some op).
  2:{ split; [intros Hx; split; [done|]; split; [done|]; by exists id, slug, env, t, op|].
      intros (_ & _ & ? & ? & ? & ? & ? & [= <- <- <- <- <-] & Hx). done. }
  destruct (Z.ltb_spec allowedClockSkew (since now t)); cbn [orb]; [split; [done|intros (? & _); lia]|].
  destruct (Z.ltb_spec (since now t) (- allowedClockSkew)); [split; [done|intros (? & _); lia]|].
  destruct (Z.eqb_spec (KeyID (find_key (keys ea) id)) 0); [split; [done|by intros (_ & ? & _)]|].
  destruct (auth_Equal _ _); cbn [negb]; [|split; [done|by intros (_ & _ & ? & _)]]. rewrite Hb.
  destruct (op_hash h) as [op'|]; [|split; [done|by intros (_ & _ & _ & ?)]].
  destruct (decide (op' = op)) as [->|Hn]; cbn [snd]; [by split; intros; [split; [lia|]|]|]. split; [done|]. intros (_ & _ & _ & [= ->]). done.
Qed.

Lemma ea_verify_reorders ea now h : wf_header h -> reordered h (ea_verify ea now h).1.
Proof.
  intros Hw. unfold ea_verify. destruct (buildOpHash_spec h Hw) as (h' & Hr & Hb).
  destruct (ReadMeta h ecAuthHashHeader) as [a []]; cbn [negb]; [|reflexivity]. destruct (ReadMeta h ecDateHeader) as [d []]; cbn [negb]; [|reflexivity].
  destruct (auth_SigningComponents _) as [[id slug env t op]|]; [|reflexivity]. destruct (_ || _); [reflexivity|]. destruct (_ =? 0); [reflexivity|].
  destruct (negb _); [reflexivity|]. rewrite Hb. destruct (op_hash h); [|done]. by case_decide.
Qed.

(** C8. Two requests accepted with the same signature carry the same signed metadata, or there is
    a collision of the operation hash. *)
Theorem signature_binds ea ea' now now' h h' :
  wire_header h -> wire_header h' ->
  (ea_verify ea now h).2 = None -> (ea_verify ea' now' h').2 = None ->
  auth_headers h = auth_headers h' ->
  same_signed h h' \/ (payload h <> payload h' /\ is_Some (op_hash h) /\ op_hash h = op_hash h').
Proof.
  intros Hh Hh' Hv Hv' He. pose proof Hh as [Hw _]. pose proof Hh' as [Hw' _].
  apply (ea_verify_accepts ea now h Hw) in Hv as (_ & _ & id & slug & env & t & op & Hc & _ & _ & _ & Ho).
  apply (ea_verify_accepts ea' now' h' Hw') in Hv' as (_ & _ & id' & slug' & env' & t' & op' & Hc' & _ & _ & _ & Ho').
  rewrite He, Hc' in Hc. injection Hc as -> -> -> -> ->. destruct (decide (payload h = payload h')) as [Hp|Hp]; [left; by apply payload_inj|].
  right. split; [done|]. rewrite Ho, Ho'. by eauto.
Qed.

End Encore.

(** ** The two sides of a method *)

(** The headers a method adds. *)
Definition auth_names : list gostring := [mname ecAuthHashHeader; mname ecDateHeader].

(** What signing with [out] at time [sent] promises to [inb], which verifies at time [received]:
    signing succeeds and only adds its own headers; the request is accepted if the signed
    metadata and these headers arrive; verifying at most reorders values. *)
Class AuthPair (out inb : ServiceAuth) (sent received : Z) := {
  pair_method : sa_method out = sa_method inb /\ sa_method out <> [];
  pair_signs h : wf_header h -> exists h', sa_sign out sent h = (h', None) /\ wf_header h' /\
    forall name, name ∉ auth_names -> same_values (h !! name) (h' !! name);
  pair_verifies h h1 h2 : wf_header h -> sa_sign out sent h = (h1, None) -> wf_header h2 -> same_signed h1 h2 ->
    (forall name, name ∈ auth_names -> h2 !! name = h1 !! name) -> (sa_verify inb received h2).2 = None;
  pair_reorders h : wf_header h -> reordered h (sa_verify inb received h).1
}.

#[export] Instance noop_pair sent received : AuthPair noop noop sent received.
Proof. split; [done|..]; cbn; [intros h Hw; by exists h|done|done]. Qed.

Lemma unsigned_auth name : name ∈ auth_names -> signed_name name = None.
Proof. intros Hin. assert (Ha : Forall (fun n => signed_name n = None) auth_names) by (repeat constructor). rewrite Forall_forall in Ha. by apply Ha. Qed.

Section EncorePair.
Context `{SigningKitLaws}.

Definition in_time (sent received : Z) : Prop := - allowedClockSkew <= received - sent <= allowedClockSkew - 10 ^ 9.

Lemma since_small now t : - allowedClockSkew <= now - t <= allowedClockSkew -> since now t = now - t.
Proof. unfold since, clip, allowedClockSkew. lia. Qed.

Lemma ea_sign_spec ea sent h : wf_header h -> exists h' op, op_hash h = Some op /\ reordered h h' /\
  let s := auth_Sign (latestKey ea) (appSlug ea) (envName ea) sent op in
  ea_sign ea sent h = (SetMeta (SetMeta h' ecAuthHashHeader (Authorization s)) ecDateHeader (ah_Date s), None).
Proof.
  intros Hw. destruct (buildOpHash_spec h Hw) as (h' & Hr & Hb). destruct (operation_hashed (sha3_Sum256 (payload h))) as [op Hop].
  assert (Ho : op_hash h = Some op) by done. exists h', op. split; [done|]. split; [done|]. unfold ea_sign. by rewrite Hb, Ho.
Qed.

Lemma ReadMeta_single h key v : h !! mname key = Some [v] -> v <> [] -> ReadMeta h key = (v, true).
Proof. intros Hv Hn. rewrite ReadMeta_lookup, Hv. by destruct v. Qed.

Lemma auth_names_ne : mname ecAuthHashHeader <> mname ecDateHeader.
Proof. intros He. vm_compute in He. discriminate He. Qed.

Lemma lookup_signed_with h' a d :
  let h1 := SetMeta (SetMeta h' ecAuthHashHeader a) ecDateHeader d in
  h1 !! mname ecAuthHashHeader = Some [a] /\ h1 !! mname ecDateHeader = Some [d] /\ (forall name, name ∉ auth_names -> h1 !! name = h' !! name).
Proof.
  cbn. pose proof auth_names_ne. split_and!.
  - rewrite !lookup_SetMeta, decide_False, decide_True by done. done.
  - rewrite lookup_SetMeta, decide_True by done. done.
  - intros name Hn. unfold auth_names in Hn. rewrite !not_elem_of_cons in Hn. destruct Hn as (Hn1 & Hn2 & _). rewrite !lookup_SetMeta, !decide_False by done. done.
Qed.

(** Two instances that share the newest key, with clocks that agree within the allowed skew. *)
Lemma encore_pair ea ea' sent received :
  KeyID (latestKey ea) <> 0 -> find_key (keys ea') (KeyID (latestKey ea)) = latestKey ea -> in_time sent received ->
  AuthPair (encore_auth ea) (encore_auth ea') sent received.
Proof.
  intros Hid Hfind Htime. split; [done|..]; cbn [sa_sign sa_verify encore_auth].
  - intros h Hw. destruct (ea_sign_spec ea sent h Hw) as (h' & op & _ & Hr & ->). eexists. split; [done|]. split.
    + apply wf_SetMeta, wf_SetMeta. by apply (wf_reordered h).
    + intros name Hn. destruct (lookup_signed_with h' (Authorization (auth_Sign (latestKey ea) (appSlug ea) (envName ea) sent op))
        (ah_Date (auth_Sign (latestKey ea) (appSlug ea) (envName ea) sent op))) as (_ & _ & Hf). rewrite Hf by done. apply Hr.
  - intros h h1 h2 Hw Hs Hw2 Hss Hn. destruct (ea_sign_spec ea sent h Hw) as (h' & op & Hop & Hr & Hs'). rewrite Hs in Hs'. injection Hs' as ->.
    set (s := auth_Sign _ _ _ _ _) in *. destruct (lookup_signed_with h' (Authorization s) (ah_Date s)) as (Ha & Hd & Hf).
    destruct (sign_not_empty (latestKey ea) (appSlug ea) (envName ea) sent op) as [Hna Hnd]. fold s in Hna, Hnd.
    assert (Ra : ReadMeta h2 ecAuthHashHeader = (Authorization s, true)) by (apply ReadMeta_single; [rewrite Hn; [done|by left]|done]).
    assert (Rd : ReadMeta h2 ecDateHeader = (ah_Date s, true)) by (apply ReadMeta_single; [rewrite Hn; [done|by right; left]|done]).
    apply (ea_verify_accepts ea' received h2 Hw2). unfold auth_headers. rewrite Ra, Rd. cbn [fst snd]. split; [done|]. split; [done|].
    destruct (sign_components (latestKey ea) (appSlug ea) (envName ea) sent op) as (t & Hc & Ht & He). fold s in Hc, He.
    replace (mkAuthHeaders (Authorization s) (ah_Date s)) with s by (by destruct s).
    do 5 eexists. split; [exact Hc|]. unfold in_time in Htime. rewrite Hfind, since_small by lia. split_and!; [lia|lia|done|done|].
    rewrite <- Hop. unfold op_hash. do 2 f_equal. symmetry. apply payload_same; [done|done|]. transitivity h'; [by apply reordered_signed|].
    transitivity (SetMeta (SetMeta h' ecAuthHashHeader (Authorization s)) ecDateHeader (ah_Date s)); [|done].
    intros name [k Hk]. rewrite Hf; [done|]. intros Hin. apply unsigned_auth in Hin. congruence.
  - intros h Hw. by apply ea_verify_reorders.
Qed.

End EncorePair.

(** ** Loaded methods *)

(** Each method is stored under its name. *)
Definition loaded_ok (ms : gmap gostring ServiceAuth) : Prop := map_Forall (fun m a => sa_method a = m) ms.

Lemma verify_loop_one now ms m a h : a ∈ ms -> (forall a', a' ∈ ms -> sa_method a' = m <-> a' = a) ->
  verify_loop now ms m h = match sa_verify a now h with (h, Some err) => (h, inl (VerifyFailed err)) | (h, None) => (h, inr true) end.
Proof.
  induction ms as [|a' ms IH]; intros Hin Hu; [by apply elem_of_nil in Hin|]. cbn [verify_loop]. destruct (decide (sa_method a' = m)) as [Hm|Hm].
  - by apply (Hu a') in Hm as ->; [|by left].
  - apply IH; [|intros a'' Ha; apply Hu; by right]. apply elem_of_cons in Hin as [->|Hin]; [|done]. destruct Hm. apply Hu; [by left|done].
Qed.

Lemma verify_loop_none now ms m h : (forall a, a ∈ ms -> sa_method a <> m) -> verify_loop now ms m h = (h, inl (UnknownMethod m)).
Proof.
  induction ms as [|a ms IH]; intros Hn; [done|]. cbn [verify_loop]. rewrite decide_False by (apply Hn; by left). apply IH. intros a' Ha. apply Hn. by right.
Qed.

(** The order of the iteration over the map does not matter: the method of the request is looked up. *)
Lemma Verify_lookup now h ms : loaded_ok ms -> Verify now h ms =
  let '(m, found) := ReadMeta h AuthMethodMetaKey in
  if negb found then (h, inr false)
  else match ms !! m with
       | None => (h, inl (UnknownMethod m))
       | Some a => match sa_verify a now h with (h, Some err) => (h, inl (VerifyFailed err)) | (h, None) => (h, inr true) end
       end.
Proof.
  intros Hok. unfold Verify. destruct (ReadMeta h AuthMethodMetaKey) as [m found]. destruct (negb found); [done|].
  assert (Hel : forall a, a ∈ (map_to_list ms).*2 <-> exists k, ms !! k = Some a).
  { intros a. rewrite list_elem_of_fmap. split.
    - intros ([k a'] & -> & Hin%elem_of_map_to_list). by exists k.
    - intros [k Hk]. exists (k, a). split; [done|]. by apply elem_of_map_to_list. }
  destruct (ms !! m) as [a|] eqn:Hm.
  - apply verify_loop_one; [apply Hel; by exists m|]. intros a' [k Hk]%Hel. pose proof (Hok _ _ Hk) as Hk'. pose proof (Hok _ _ Hm) as Hm'. cbn in Hk', Hm'.
    split; [intros He; congruence | by intros ->].
  - apply verify_loop_none. intros a [k Hk]%Hel He. pose proof (Hok _ _ Hk) as Hk'. cbn in Hk'. congruence.
Qed.

Section Loading.
Context `{SigningKit}.

Lemma load_method_ok cfg m a : load_method cfg m = Some a -> sa_method a = m.
Proof. unfold load_method. destruct (decide (m = noop_method)) as [->|]; [by intros [= <-]|]. destruct (decide (m = ea_method)) as [->|]; [by intros [= <-]|done]. Qed.

Lemma load_inbound_spec cfg l ms ms' : loaded_ok ms -> load_inbound cfg l ms = Some ms' ->
  loaded_ok ms' /\ (forall m, is_Some (ms' !! m) <-> is_Some (ms !! m) \/ m ∈ l).
Proof.
  revert ms. induction l as [|m l IH]; intros ms Hok; cbn [load_inbound].
  { intros [= <-]. split; [done|]. intros m. rewrite elem_of_nil. by split; [left|intros [?|[]]]. }
  destruct (load_method cfg m) as [a|] eqn:Hm; [|done]. cbn [mbind option_bind]. intros He. apply IH in He as [Hok' Hin].
  - split; [done|]. intros m'. rewrite Hin, elem_of_cons, lookup_insert_is_Some. destruct (decide (m = m')) as [->|]; [by split; auto|]. naive_solver.
  - apply map_Forall_insert_2; [by apply (load_method_ok cfg) | done].
Qed.

Lemma load_outbound_spec cfg l ms ms' : loaded_ok ms -> load_outbound cfg l ms = Some ms' ->
  loaded_ok ms' /\ (forall m, is_Some (ms' !! m) <-> is_Some (ms !! m) \/ m ∈ l).
Proof.
  revert ms. induction l as [|m l IH]; intros ms Hok; cbn [load_outbound].
  { intros [= <-]. split; [done|]. intros m. rewrite elem_of_nil. by split; [left|intros [?|[]]]. }
  destruct (ms !! m) as [b|] eqn:Hb.
  { intros He. apply IH in He as [Hok' Hin]; [|done]. split; [done|]. intros m'. rewrite Hin, elem_of_cons.
    destruct (decide (m' = m)) as [->|]; [|naive_solver]. rewrite Hb. split; [by left|]. intros _. left. by exists b. }
  destruct (load_method cfg m) as [a|] eqn:Hm; [|done]. cbn [mbind option_bind]. intros He. apply IH in He as [Hok' Hin].
  - split; [done|]. intros m'. rewrite Hin, elem_of_cons, lookup_insert_is_Some. destruct (decide (m = m')) as [->|]; [by split; auto|]. naive_solver.
  - apply map_Forall_insert_2; [by apply (load_method_ok cfg) | done].
Qed.

Lemma LoadMethods_ok cfg inb outb : LoadMethods cfg = Some (inb, outb) -> loaded_ok inb /\ loaded_ok outb /\
  (forall m, is_Some (inb !! m) <-> m ∈ cfg_ServiceAuth cfg) /\ (forall m, is_Some (outb !! m) <-> m ∈ cfg_ServiceDiscovery cfg).
Proof.
  unfold LoadMethods. destruct (load_inbound _ _ _) as [i|] eqn:Hi; [|done]. destruct (load_outbound _ _ _) as [o|] eqn:Ho; [|done]. cbn [mbind option_bind].
  intros [= <- <-]. apply load_inbound_spec in Hi as [H1 H2]; [|apply map_Forall_empty]. apply load_outbound_spec in Ho as [H3 H4]; [|apply map_Forall_empty].
  split_and!; [done|done|..]; intros m; [rewrite H2|rewrite H4]; rewrite lookup_empty; split; auto; by intros [[? [=]]|?].
Qed.

End Loading.

(** ** A signed request is accepted *)

Definition method_name : gostring := mname AuthMethodMetaKey.

Lemma unsigned_method : signed_name method_name = None.
Proof. reflexivity. Qed.

Lemma method_name_new : method_name ∉ auth_names.
Proof. apply (bool_decide_unpack _). by vm_compute. Qed.

(** What has to arrive of a signed request: the signed metadata and the headers of the signature. *)
Definition delivered (h1 h2 : Header) : Prop :=
  wf_header h2 /\ same_signed h1 h2 /\ forall name, name ∈ method_name :: auth_names -> h2 !! name = h1 !! name.

Lemma Sign_Verify out inb sent received ms h `{!AuthPair out inb sent received} :
  loaded_ok ms -> ms !! sa_method inb = Some inb -> wf_header h ->
  exists h1, Sign out sent h = (h1, None) /\ wf_header h1 /\
    (forall name, name ∉ method_name :: auth_names -> same_values (h !! name) (h1 !! name)) /\
    forall h2, delivered h1 h2 -> exists h3, Verify received h2 ms = (h3, inr true) /\ reordered h2 h3.
Proof.
  intros Hok Hms Hw. destruct (pair_signs (inb := inb) h Hw) as (h' & Hs & Hw' & Hf). destruct (pair_method (out := out) (inb := inb)) as [Hm Hne].
  exists (SetMeta h' AuthMethodMetaKey (sa_method out)). unfold Sign. rewrite Hs. split; [done|]. split; [by apply wf_SetMeta|]. split.
  - intros name Hn. apply not_elem_of_cons in Hn as [H1 H2]. rewrite lookup_SetMeta, decide_False by exact H1. apply Hf, H2.
  - intros h2 (Hw2 & Hss & Hn). exists (sa_verify inb received h2).1.
    assert (Hr : ReadMeta h2 AuthMethodMetaKey = (sa_method inb, true)).
    { apply ReadMeta_single; [|congruence]. rewrite Hn by left. rewrite lookup_SetMeta, decide_True by reflexivity. by rewrite Hm. }
    assert (Hv : (sa_verify inb received h2).2 = None).
    { apply (pair_verifies h h'); [done|done|done|..].
      - transitivity (SetMeta h' AuthMethodMetaKey (sa_method out)); [|done]. intros name [k Hk]. rewrite lookup_SetMeta.
        destruct (decide _) as [->|]; [|reflexivity]. fold method_name in Hk. rewrite unsigned_method in Hk. discriminate Hk.
      - intros name Hin. rewrite Hn by (right; exact Hin). rewrite lookup_SetMeta, decide_False; [reflexivity|]. intros ->. exact (method_name_new Hin). }
    rewrite Verify_lookup, Hr by done. cbn [negb]. rewrite Hms. pose proof (pair_reorders (out := out) h2 Hw2) as Hre.
    destruct (sa_verify inb received h2) as [h3 e]. cbn [fst snd] in *. by rewrite Hv.
Qed.
