(* ===== verification/CallMeta.v ===== *)
(** Metadata of calls between services ([appruntime/apisdk/api/call_meta.go]) and the trace
    identifiers of cloud providers ([appruntime/shared/cloudtrace]).

    The data an authentication handler returns has a type of the application; its JSON form is a
    parameter (class [AuthJSON]).  Every internal call names its caller, so that the caller is not
    optional here. *)

From S2P Require Import Prelude GoSort Run Utf8 GoText Strconv TraceBuffer TraceModel Base32 Uuid HttpCache SvcAuth.

(** ** Numbers in base 36 and hexadecimal text *)

Definition digit36 (d : Z) : byte := byte_of_Z (if d <? 10 then 48 + d else 87 + d).

Fixpoint digits36_loop (fuel : nat) (n : Z) (acc : gostring) : gostring :=
  match fuel with
  | O => acc
  | S fuel => if n <? 36 then digit36 n :: acc else digits36_loop fuel (n / 36) (digit36 (n mod 36) :: acc)
  end.

(** [strconv.FormatUint(n, 36)] *)
Definition FormatUint36 (n : Z) : gostring := digits36_loop (S (Z.to_nat (Z.log2 n))) n [].

Definition value36 (c : byte) : option Z :=
  let z := Z_of_byte c in
  let l := Z.lor z 32 in
  if (48 <=? z) && (z <=? 57) then Some (z - 48)
  else if (97 <=? l) && (l <=? 122) then Some (l - 97 + 10)
  else None.

Fixpoint parse36_loop (n : Z) (s : gostring) : option Z :=
  match s with
  | [] => Some n
  | c :: s =>
      d ← value36 c;
      if (2^64 - 1) / 36 + 1 <=? n then None
      else let n1 := n * 36 + d in if 2^64 <=? n1 then None else parse36_loop n1 s
  end.

(** [strconv.ParseUint(s, 36, 64)] *)
Definition ParseUint36 (s : gostring) : option Z := match s with [] => None | _ => parse36_loop 0 s end.

(** [hex.DecodeString] *)
Definition hex_DecodeString (s : gostring) : option (list byte) :=
  if Nat.even (length s) then let '(bs, ok) := hex_Decode s in if ok then Some bs else None else None.

Definition slice {A} (s : list A) (i j : nat) : list A := take (j - i) (drop i s).

(** ** call_meta.go: trace context *)

Definition eventTraceStateEventIDKey : gostring := lit "encore/event-id".
Definition eventTraceStateSpanIDKey : gostring := lit "encore/span-id".

Definition dash_at (s : gostring) (i : nat) : bool := bool_decide (s !! i = Some Byte.x2d).

(** The results: trace id, span id, sampled, ok. *)
Definition no_parent : list byte * list byte * bool * bool := (zero_TraceID, zero_SpanID, false, false).

Definition parseTraceParent (s : gostring) : list byte * list byte * bool * bool :=
  if negb (bool_decide (length s = 55%nat)) || negb (bool_decide (slice s 0 2 = lit "00"))
     || negb (dash_at s 2) || negb (dash_at s 35) || negb (dash_at s 52) then no_parent
  else
    let '(traceID, ok) := hex_Decode (slice s 3 35) in
    if negb ok then no_parent else
    let '(spanID, ok) := hex_Decode (slice s 36 52) in
    if negb ok then no_parent else
    let '(flags, ok) := hex_Decode (slice s 53 55) in
    if negb ok then no_parent else
    (traceID, spanID, Z.land (Z_of_byte (default Byte.x00 (head flags))) 1 =? 1, true).

(** One field of a tracestate header; [None] makes the whole parse fail. *)
Definition trace_state_field (st : Z * list byte) (field : gostring) : option (Z * list byte) :=
  match Split field c_equals with
  | [k; v] =>
      if decide (k = eventTraceStateSpanIDKey) then
        bs ← hex_DecodeString v; if decide (length bs = 8%nat) then Some (st.1, bs) else None
      else if decide (k = eventTraceStateEventIDKey) then e ← ParseUint36 v; Some (e, st.2)
      else Some st
  | _ => Some st
  end.

Fixpoint trace_state_loop (st : Z * list byte) (fields : list gostring) : option (Z * list byte) :=
  match fields with
  | [] => Some st
  | f :: fields => st ← trace_state_field st f; trace_state_loop st fields
  end.

(** The results: event id, parent span id, ok. *)
Definition parseTraceState (headerValues : list gostring) : Z * list byte * bool :=
  match trace_state_loop (0, zero_SpanID) (mjoin ((fun h => Split h c_sep) <$> headerValues)) with
  | None => (0, zero_SpanID, false)
  | Some (eventID, spanID) => (eventID, spanID, negb (eventID =? 0))
  end.

Definition trace_parent_text (traceID spanID : list byte) (sampled : bool) : gostring :=
  lit "00-" ++ hex_Encode traceID ++ lit "-" ++ hex_Encode spanID ++ lit "-" ++ (if sampled then lit "01" else lit "00").

Definition span_state_text (spanID : list byte) (event : Z) : gostring :=
  eventTraceStateSpanIDKey ++ lit "=" ++ hex_Encode spanID ++ lit "," ++ eventTraceStateEventIDKey ++ lit "=" ++ FormatUint36 event.

Definition event_state_text (event : Z) : gostring := eventTraceStateEventIDKey ++ lit "=" ++ FormatUint36 event.

(** ** call_meta.go: the metadata *)

Class AuthJSON (D T : Type) := {
  typeOf : D -> T;
  authJSON_Marshal : D -> option gostring;
  (** Decoding into a new object of the registered type, or into nil if there is none. *)
  authJSON_Unmarshal : option T -> gostring -> option (option D)
}.

Class AuthJSONLaws (D T : Type) `{AuthJSON D T} := {
  auth_json_roundtrip d s : authJSON_Marshal d = Some s -> s <> [] /\ authJSON_Unmarshal (Some (typeOf d)) s = Some (Some d)
}.

Record InternalCallMeta (D : Type) := mkInternal { Caller_ : Caller; AuthUID : gostring; AuthData : option D }.
Arguments mkInternal {D} Caller_ AuthUID AuthData.
Arguments Caller_ {D} i.
Arguments AuthUID {D} i.
Arguments AuthData {D} i.

Record CallMeta (D : Type) := mkMeta {
  TraceID_ : list byte;
  SpanID_ : list byte;
  ParentSpanID : list byte;
  ParentEventID : Z;
  CorrelationID : gostring;
  TraceSampled : bool;
  Internal_ : option (InternalCallMeta D)
}.
Arguments mkMeta {D} TraceID_ SpanID_ ParentSpanID ParentEventID CorrelationID TraceSampled Internal_.
Arguments TraceID_ {D} c.
Arguments SpanID_ {D} c.
Arguments ParentSpanID {D} c.
Arguments ParentEventID {D} c.
Arguments CorrelationID {D} c.
Arguments TraceSampled {D} c.
Arguments Internal_ {D} c.

Definition zero_meta {D} : CallMeta D := mkMeta zero_TraceID zero_SpanID zero_SpanID 0 [] false None.

Definition callerMetaName : gostring := lit "Caller".
Definition calleeMetaName : gostring := lit "Callee".
Definition versionMetaName : gostring := lit "Version".
Definition userMetaName : gostring := lit "UserID".
Definition dataMetaName : gostring := lit "AuthData".

Inductive MetaError :=
  | UnknownVersion | NotVerified (err : VerifyError) | NoInternalAuth | BadCaller | BadAuthData
  | MarshalFailed | NoAuthMethod | SignFailed (err : AuthError)
  | EmptyUIDWithData | MissingAuthData | WrongAuthDataType | UnexpectedAuthData.

Section CallMeta.
Context {D T : Type} `{EqDecision T} `{AuthJSON D T}.

(** The parts of [Server] that are read, and the registered type of the authentication data. *)
Record Server := mkServer {
  s_EnvCloud : gostring;
  s_DeployID : gostring;
  s_inbound : gmap gostring ServiceAuth;
  s_outbound : gmap gostring ServiceAuth;
  RegisteredAuthDataType : option T
}.

Definition CheckAuthData (registered : option T) (uid : gostring) (userData : option D) : option MetaError :=
  match uid, userData with
  | [], Some _ => Some EmptyUIDWithData
  | _, _ =>
      match registered with
      | Some t =>
          match userData with
          | None => if decide (uid = []) then None else Some MissingAuthData
          | Some d => if decide (typeOf d = t) then None else Some WrongAuthDataType
          end
      | None => match userData with Some _ => Some UnexpectedAuthData | None => None end
      end
  end.

(** [model.APICall] with its user. *)
Definition metaFromAPICall (s : Server) (userID : gostring) (authData : option D) (call : APICall) : MetaError + CallMeta D :=
  match CheckAuthData (RegisteredAuthDataType s) userID authData with
  | Some err => inl err
  | None =>
      let internal c := Some (mkInternal c userID authData) in
      let app := AppCaller (s_DeployID s) in
      match call_Source call with
      | None => inr (mkMeta zero_TraceID zero_SpanID zero_SpanID 0 [] false (internal app))
      | Some src =>
          let msg_caller :=
            match req_MsgData src with
            | Some m => if decide (msg_MessageID m = []) then app else PubSubCaller (msg_Topic m) (msg_Subscription m) (msg_MessageID m)
            | None => app
            end in
          let caller :=
            match req_RPCData src with
            | Some d => match rpc_Desc d with Some desc => ApiCaller (desc_Service desc) (desc_Endpoint desc) | None => msg_caller end
            | None => msg_caller
            end in
          inr (mkMeta (req_TraceID src) zero_SpanID (req_SpanID src) (call_StartEventID call) (req_ExtCorrelationID src) (req_Traced src) (internal caller))
      end
  end.

Definition add_trace (s : Server) (meta : CallMeta D) (h : Header) : Header :=
  if decide (TraceID_ meta = zero_TraceID) then h
  else
    let h := SetMeta h TraceParentKey (trace_parent_text (TraceID_ meta) (ParentSpanID meta) (TraceSampled meta)) in
    if decide (ParentSpanID meta = zero_SpanID) then h
    else if bool_decide (s_EnvCloud s = lit "gcp") || bool_decide (s_EnvCloud s = lit "encore")
         then SetMeta h TraceStateKey (span_state_text (ParentSpanID meta) (ParentEventID meta))
         else SetMeta h TraceStateKey (event_state_text (ParentEventID meta)).

Definition add_user (i : InternalCallMeta D) (h : Header) : Header * option MetaError :=
  if decide (AuthUID i = []) then (h, None)
  else
    let h := SetMeta h userMetaName (AuthUID i) in
    match AuthData i with
    | None => (h, None)
    | Some d =>
        match authJSON_Marshal d with
        | None => (h, Some MarshalFailed)
        | Some s => (SetMeta h dataMetaName s, None)
        end
    end.

(** The target service is given by the name of its authentication method. *)
Definition AddToRequest (s : Server) (now : Z) (target : gostring) (meta : CallMeta D) (h : Header) : Header * option MetaError :=
  let h := SetMeta h versionMetaName (lit "1") in
  let h := add_trace s meta h in
  let h := if decide (CorrelationID meta = []) then h else SetMeta h CorrelationIDKey (CorrelationID meta) in
  match Internal_ meta with
  | None => (h, None)
  | Some i =>
      let h := SetMeta h callerMetaName (CallerString (Caller_ i)) in
      match add_user i h with
      | (h, Some err) => (h, Some err)
      | (h, None) =>
          match s_outbound s !! target with
          | None => (h, Some NoAuthMethod)
          | Some targetAuth =>
              match Sign targetAuth now h with
              | (h, Some err) => (h, Some (SignFailed err))
              | (h, None) => (h, None)
              end
          end
      end
  end.

Definition IsServiceToService (meta : CallMeta D) : bool := bool_decide (is_Some (Internal_ meta)).

Definition PrivateAPIAccess (meta : CallMeta D) : bool :=
  match Internal_ meta with Some i => caller_PrivateAPIAccess (Caller_ i) | None => false end.

(** The user of an internal call. *)
Definition read_user (s : Server) (h : Header) (caller : Caller) : MetaError + InternalCallMeta D :=
  let '(uid, found) := ReadMeta h userMetaName in
  if negb found then inr (mkInternal caller [] None)
  else
    let '(data, found) := ReadMeta h dataMetaName in
    if negb found then inr (mkInternal caller uid None)
    else match authJSON_Unmarshal (RegisteredAuthDataType s) data with
         | None => inl BadAuthData
         | Some d => inr (mkInternal caller uid d)
         end.

(** The internal part; the headers come back with their values reordered. *)
Definition read_internal (s : Server) (now : Z) (h : Header) : Header * (MetaError + option (InternalCallMeta D)) :=
  let '(callerStr, found) := ReadMeta h callerMetaName in
  if negb found then (h, inr None)
  else
    match Verify now h (s_inbound s) with
    | (h, inl err) => (h, inl (NotVerified err))
    | (h, inr false) => (h, inl NoInternalAuth)
    | (h, inr true) =>
        match ParseCallerString callerStr with
        | None => (h, inl BadCaller)
        | Some caller =>
            match read_user s h caller with
            | inl err => (h, inl err)
            | inr i => (h, inr (Some i))
            end
        end
    end.

(** Trace id, parent span, parent event, sampled. *)
Definition read_trace (h : Header) (internal : option (InternalCallMeta D)) : list byte * list byte * Z * bool :=
  match internal with
  | None => (zero_TraceID, zero_SpanID, 0, false)
  | Some i =>
      let '(traceParent, found) := ReadMeta h TraceParentKey in
      if negb found then (zero_TraceID, zero_SpanID, 0, false)
      else
        let '(traceID, spanID, sampled, _) := parseTraceParent traceParent in
        let spanID := match Caller_ i with GatewayCaller _ => zero_SpanID | _ => spanID end in
        let '(traceState, found) := ReadMetaValues h TraceStateKey in
        if negb found then (traceID, spanID, 0, sampled)
        else
          let '(parentEventID, parentSpanID, ok) := parseTraceState traceState in
          if negb ok then (traceID, spanID, 0, sampled)
          else (traceID, (if decide (parentSpanID = zero_SpanID) then spanID else parentSpanID), parentEventID, sampled)
  end.

(** The code looks at the length of the field it is about to set, which is empty. *)
Definition read_correlation (h : Header) (current : gostring) : gostring :=
  let '(correlationID, found) := ReadMeta h CorrelationIDKey in
  if negb found then current
  else if 64 <? blen current then take 64 correlationID else correlationID.

Definition MetaFromRequest (s : Server) (now : Z) (h : Header) : Header * (MetaError + CallMeta D) :=
  let '(metaVersion, found) := ReadMeta h versionMetaName in
  if found && negb (bool_decide (metaVersion = lit "1")) then (h, inl UnknownVersion)
  else
    match read_internal s now h with
    | (h, inl err) => (h, inl err)
    | (h, inr internal) =>
        let '(traceID, spanID, event, sampled) := read_trace h internal in
        (h, inr (mkMeta traceID zero_SpanID spanID event (read_correlation h []) sampled internal))
    end.

End CallMeta.
Arguments Server T : clear implicits.
