(* ===== verification/CallMetaTheorems.v ===== *)
(** Metadata of calls: the trace context survives its text forms, and what a caller adds to a
    request is what the called service reads, however the headers that are not signed change on the way. *)

From S2P Require Import Prelude GoSort Run Utf8 GoText Strconv TraceBuffer TraceModel Base32 Uuid UuidTheorems HttpCache HttpCacheTheorems.
From S2P Require Import SvcAuth SvcAuthTheorems SvcAuthSound CallMeta.
From stdpp Require Import list.
Local Open Scope Z_scope.
Opaque mname.

(** A byte does not occur in a constant text. *)
Ltac not_in := apply (bool_decide_unpack _); vm_compute; exact I.

(** ** Base 36 *)

Lemma value36_digit d : 0 <= d < 36 -> value36 (digit36 d) = Some d.
Proof.
  intros Hd. assert (Ha : Forall (fun n => value36 (digit36 (Z.of_nat n)) = Some (Z.of_nat n)) (seq 0 36)) by (repeat constructor).
  rewrite Forall_forall in Ha. specialize (Ha (Z.to_nat d)). rewrite Z2Nat.id in Ha by lia. apply Ha, elem_of_seq. lia.
Qed.

Lemma parse36_digits fuel n acc :
  0 <= n < 2 ^ 64 -> n < 2 ^ Z.of_nat fuel -> parse36_loop 0 (digits36_loop fuel n acc) = parse36_loop n acc.
Proof.
  revert n acc. induction fuel as [|fuel IH]; intros n acc Hn Hf; [cbn in Hf; by replace n with 0 by lia|].
  cbn [digits36_loop]. destruct (n <? 36) eqn:E36.
  - cbn [parse36_loop]. rewrite value36_digit by lia. cbn [mbind option_bind]. replace ((2 ^ 64 - 1) / 36 + 1 <=? 0) with false by done.
    replace (0 * 36 + n) with n by lia. by replace (2 ^ 64 <=? n) with false by lia.
  - rewrite Nat2Z.inj_succ, Z.pow_succ_r in Hf by lia. rewrite IH by (Z.to_euclidean_division_equations; lia).
    pose proof (Z.mod_pos_bound n 36). cbn [parse36_loop]. rewrite value36_digit by lia. cbn [mbind option_bind].
    change ((2 ^ 64 - 1) / 36 + 1) with 512409557603043101.
    replace (512409557603043101 <=? n / 36) with false by (Z.to_euclidean_division_equations; lia).
    replace (n / 36 * 36 + n mod 36) with n by (Z.to_euclidean_division_equations; lia). by replace (2 ^ 64 <=? n) with false by lia.
Qed.

Lemma digits36_chars fuel n acc : 0 <= n -> (forall c, c ∈ acc -> is_Some (value36 c)) -> forall c, c ∈ digits36_loop fuel n acc -> is_Some (value36 c).
Proof.
  revert n acc. induction fuel as [|fuel IH]; intros n acc Hn Hacc; [done|]. cbn [digits36_loop]. destruct (n <? 36) eqn:E.
  - intros c [->|Hc]%elem_of_cons; [rewrite value36_digit by lia; by eexists | by apply Hacc].
  - apply IH; [Z.to_euclidean_division_equations; lia|]. intros c [->|Hc]%elem_of_cons; [|by apply Hacc].
    rewrite value36_digit by (Z.to_euclidean_division_equations; lia). by eexists.
Qed.

Lemma digits36_length fuel n acc : (length acc < length (digits36_loop (S fuel) n acc))%nat.
Proof.
  revert n acc. induction fuel as [|fuel IH]; intros n acc.
  - cbn. destruct (n <? 36); cbn; lia.
  - remember (S fuel) as f. cbn [digits36_loop]. subst f. destruct (n <? 36); [cbn; lia|]. etransitivity; [|apply IH]. cbn. lia.
Qed.

Lemma ParseUint36_Format n : is_u64 n -> ParseUint36 (FormatUint36 n) = Some n.
Proof.
  intros Hn. unfold is_u64 in Hn. unfold ParseUint36, FormatUint36. pose proof (digits36_length (Z.to_nat (Z.log2 n)) n []) as Hl.
  destruct (digits36_loop _ n []) as [|c s] eqn:E; [cbn in Hl; lia|]. rewrite <- E, parse36_digits; [done|done|].
  rewrite Nat2Z.inj_succ, Z2Nat.id by apply Z.log2_nonneg. destruct (decide (n = 0)) as [->|H0]; [done|]. apply Z.log2_spec. lia.
Qed.

(** No separator is a digit. *)
Lemma FormatUint36_no n c : 0 <= n -> value36 c = None -> c ∉ FormatUint36 n.
Proof.
  intros Hn Hc Hin. apply digits36_chars in Hin; [|done|intros ? []%elem_of_nil]. rewrite Hc in Hin. by destruct Hin.
Qed.

Lemma hex_Encode_no bs c : hex_value c = None -> c ∉ hex_Encode bs.
Proof.
  intros Hc. induction bs as [|b bs IH]; [apply not_elem_of_nil|]. rewrite hex_Encode_cons. destruct (nibbles b) as (H1 & H2 & _).
  assert (Hd : forall v, 0 <= v < 16 -> c <> hex_digit v).
  { intros v Hv ->. assert (Hx : Forall (fun n => is_Some (hex_value (hex_digit (Z.of_nat n)))) (seq 0 16)) by (repeat constructor; by eexists).
    rewrite Forall_forall in Hx. specialize (Hx (Z.to_nat v)). rewrite Z2Nat.id, Hc in Hx by lia. destruct Hx; [apply elem_of_seq; lia | done]. }
  rewrite !not_elem_of_cons. auto.
Qed.

Lemma hex_Decode_Encode bs : hex_Decode (hex_Encode bs) = (bs, true).
Proof. apply (hex_Decode_spec (length bs)); [apply length_hex_Encode|]. split; [done|]. apply lower_hex_Encode. Qed.

Lemma hex_DecodeString_Encode bs : hex_DecodeString (hex_Encode bs) = Some bs.
Proof. unfold hex_DecodeString. rewrite length_hex_Encode, hex_Decode_Encode, Nat.even_mul. done. Qed.

(** ** Trace context *)

Lemma slice_mid {A} (a b c : list A) i j : i = length a -> j = (length a + length b)%nat -> slice (a ++ b ++ c) i j = b.
Proof.
  intros -> ->. unfold slice. rewrite drop_app_length. replace (length a + length b - length a)%nat with (length b) by lia. by rewrite take_app_length.
Qed.

Lemma dash_mid (a c : gostring) i : i = length a -> dash_at (a ++ lit "-" ++ c) i = true.
Proof. intros ->. unfold dash_at. apply bool_decide_eq_true. by rewrite lookup_app_r, Nat.sub_diag by lia. Qed.

Lemma trace_parent_read t s b : is_TraceID t -> is_SpanID s -> parseTraceParent (trace_parent_text t s b) = (t, s, b, true).
Proof.
  intros Ht Hs. unfold is_TraceID, is_SpanID in *. set (T := hex_Encode t). set (S := hex_Encode s). set (F := if b then lit "01" else lit "00").
  assert (HT : length T = 32%nat) by (unfold T; rewrite length_hex_Encode; lia). assert (HS : length S = 16%nat) by (unfold S; rewrite length_hex_Encode; lia).
  assert (HF : length F = 2%nat) by (by destruct b). unfold parseTraceParent.
  change (trace_parent_text t s b) with (lit "00" ++ lit "-" ++ T ++ lit "-" ++ S ++ lit "-" ++ F).
  assert (E1 : lit "00" ++ lit "-" ++ T ++ lit "-" ++ S ++ lit "-" ++ F = lit "00-" ++ T ++ lit "-" ++ S ++ lit "-" ++ F) by done.
  assert (E2 : lit "00" ++ lit "-" ++ T ++ lit "-" ++ S ++ lit "-" ++ F = (lit "00-" ++ T) ++ lit "-" ++ S ++ lit "-" ++ F) by (by rewrite <- app_assoc).
  assert (E3 : lit "00" ++ lit "-" ++ T ++ lit "-" ++ S ++ lit "-" ++ F = (lit "00-" ++ T ++ lit "-") ++ S ++ lit "-" ++ F) by (by rewrite <- !app_assoc).
  assert (E4 : lit "00" ++ lit "-" ++ T ++ lit "-" ++ S ++ lit "-" ++ F = (lit "00-" ++ T ++ lit "-" ++ S) ++ lit "-" ++ F) by (by rewrite <- !app_assoc).
  assert (E5 : lit "00" ++ lit "-" ++ T ++ lit "-" ++ S ++ lit "-" ++ F = (lit "00-" ++ T ++ lit "-" ++ S ++ lit "-") ++ F ++ []) by (rewrite app_nil_r; by rewrite <- !app_assoc).
  set (text := lit "00" ++ lit "-" ++ T ++ lit "-" ++ S ++ lit "-" ++ F) in *.
  assert (L : length text = 55%nat) by (rewrite E4, !length_app, HT, HS, HF; done).
  rewrite (bool_decide_eq_true_2 (length text = 55%nat)) by done. rewrite (bool_decide_eq_true_2 (slice text 0 2 = lit "00")) by done.
  assert (D1 : dash_at text 2 = true) by done. assert (D2 : dash_at text 35 = true) by (rewrite E2; apply dash_mid; rewrite length_app, HT; done).
  assert (D3 : dash_at text 52 = true) by (rewrite E4; apply dash_mid; rewrite !length_app, HT, HS; done). rewrite D1, D2, D3. cbn [negb orb].
  assert (S1 : slice text 3 35 = T) by (rewrite E1; apply slice_mid; [done|rewrite HT; done]).
  assert (S2 : slice text 36 52 = S) by (rewrite E3; apply slice_mid; rewrite ?length_app, ?HT, ?HS; done).
  assert (S3 : slice text 53 55 = F) by (rewrite E5; apply slice_mid; rewrite ?length_app, ?HT, ?HS, ?HF; done).
  rewrite S1, S2, S3. unfold T, S. rewrite !hex_Decode_Encode. unfold F. by destruct b.
Qed.

Lemma field_event st e : is_u64 e -> trace_state_field st (event_state_text e) = Some (e, st.2).
Proof.
  intros He. unfold trace_state_field. change (event_state_text e) with (eventTraceStateEventIDKey ++ c_equals :: FormatUint36 e).
  assert (Hne : c_equals ∉ FormatUint36 e) by (apply FormatUint36_no; [apply He | done]).
  rewrite Split_app, Split_none by (done || not_in). rewrite decide_False, decide_True by done. by rewrite ParseUint36_Format.
Qed.

Lemma field_span st sp : is_SpanID sp -> trace_state_field st (eventTraceStateSpanIDKey ++ lit "=" ++ hex_Encode sp) = Some (st.1, sp).
Proof.
  intros Hs. unfold trace_state_field. change (lit "=" ++ hex_Encode sp) with (c_equals :: hex_Encode sp).
  assert (Hne : c_equals ∉ hex_Encode sp) by (by apply hex_Encode_no).
  rewrite Split_app, Split_none by (done || not_in). rewrite decide_True, hex_DecodeString_Encode by done.
  cbn [mbind option_bind]. by rewrite decide_True.
Qed.

Lemma event_text_no_sep e : is_u64 e -> c_sep ∉ event_state_text e.
Proof.
  intros He. unfold event_state_text. rewrite !not_elem_of_app. split_and!; [not_in|not_in|]. apply FormatUint36_no; [apply He|done].
Qed.

(** What a service reads from the tracestate another one wrote. *)
Lemma event_state_read e : is_u64 e -> parseTraceState [event_state_text e] = (e, zero_SpanID, negb (e =? 0)).
Proof.
  intros He. unfold parseTraceState. cbn [fmap list_fmap mjoin list_join]. rewrite app_nil_r, Split_none by (by apply event_text_no_sep).
  cbn [trace_state_loop]. rewrite field_event by done. done.
Qed.

Lemma span_state_read sp e : is_SpanID sp -> is_u64 e -> parseTraceState [span_state_text sp e] = (e, sp, negb (e =? 0)).
Proof.
  intros Hs He. unfold parseTraceState. cbn [fmap list_fmap mjoin list_join]. rewrite app_nil_r.
  assert (E : span_state_text sp e = (eventTraceStateSpanIDKey ++ lit "=" ++ hex_Encode sp) ++ c_sep :: event_state_text e) by (unfold span_state_text; by rewrite <- !app_assoc).
  rewrite E, Split_app, Split_none.
  - cbn [trace_state_loop]. rewrite field_span by done. cbn [mbind option_bind fst]. rewrite field_event by done. done.
  - by apply event_text_no_sep.
  - rewrite !not_elem_of_app. split_and!; [not_in|not_in|by apply hex_Encode_no].
Qed.

(** ** What is added to a request *)

Lemma lookup_meta_eq h k v : SetMeta h k v !! mname k = Some [v].
Proof. by rewrite lookup_SetMeta, decide_True. Qed.

Lemma lookup_meta_ne h k k' v : mname k' <> mname k -> SetMeta h k v !! mname k' = h !! mname k'.
Proof. intros Hn. by rewrite lookup_SetMeta, decide_False. Qed.

(** Names of different keys differ. *)
Ltac name_ne := let E := fresh in intros E; vm_compute in E; discriminate E.
Ltac look := repeat first [rewrite lookup_meta_eq | rewrite lookup_meta_ne by name_ne]; try reflexivity.

Section Added.
Context {D T : Type} `{EqDecision T} `{AuthJSON D T}.
Implicit Types (meta : CallMeta D) (i : InternalCallMeta D) (s : Server T) (h : HttpCache.Header).

(** The request before it is signed. *)
Definition unsigned_part s meta i h : Header :=
  let h := add_trace s meta (SetMeta h versionMetaName (lit "1")) in
  let h := if decide (CorrelationID meta = []) then h else SetMeta h CorrelationIDKey (CorrelationID meta) in
  SetMeta h callerMetaName (CallerString (Caller_ i)).

Definition prepared s meta i h : Header := (add_user i (unsigned_part s meta i h)).1.

Lemma AddToRequest_prepared s now target meta i h out :
  Internal_ meta = Some i -> (add_user i (unsigned_part s meta i h)).2 = None -> s_outbound s !! target = Some out ->
  AddToRequest s now target meta h = let '(h, e) := Sign out now (prepared s meta i h) in (h, SignFailed <$> e).
Proof.
  intros Hi Hu Ho. unfold AddToRequest, prepared. rewrite Hi. fold (unsigned_part s meta i h). destruct (add_user i _) as [h1 e]. cbn [fst snd] in *. subst e. rewrite Ho.
  by destruct (Sign out now h1) as [h' [e|]].
Qed.

Lemma wf_prepared s meta i h : wf_header h -> wf_header (prepared s meta i h).
Proof.
  intros Hw. unfold prepared, unsigned_part, add_user, add_trace.
  repeat first [apply wf_SetMeta | done | match goal with |- context [if ?b then _ else _] => destruct b | |- context [match ?x with Some _ => _ | None => _ end] => destruct x end; cbn [fst]].
Qed.

Ltac look_prepared :=
  unfold prepared, unsigned_part, add_user, add_trace;
  repeat (match goal with |- context [if ?b then _ else _] => destruct b | |- context [match ?x with Some _ => _ | None => _ end] => destruct x end; cbn [fst]; look).

Lemma prepared_version s meta i h : prepared s meta i h !! mname versionMetaName = Some [lit "1"].
Proof. look_prepared. Qed.

Lemma prepared_caller s meta i h : prepared s meta i h !! mname callerMetaName = Some [CallerString (Caller_ i)].
Proof. look_prepared. Qed.

Lemma prepared_user s meta i h : prepared s meta i h !! mname userMetaName = if decide (AuthUID i = []) then h !! mname userMetaName else Some [AuthUID i].
Proof. look_prepared. Qed.

Lemma prepared_data s meta i h : prepared s meta i h !! mname dataMetaName =
  if decide (AuthUID i = []) then h !! mname dataMetaName
  else match AuthData i with
       | None => h !! mname dataMetaName
       | Some d => match authJSON_Marshal d with Some v => Some [v] | None => h !! mname dataMetaName end
       end.
Proof. look_prepared. Qed.

Lemma prepared_correlation s meta i h : prepared s meta i h !! mname CorrelationIDKey =
  if decide (CorrelationID meta = []) then h !! mname CorrelationIDKey else Some [CorrelationID meta].
Proof. look_prepared. Qed.

Lemma prepared_parent s meta i h : prepared s meta i h !! mname TraceParentKey =
  if decide (TraceID_ meta = zero_TraceID) then h !! mname TraceParentKey
  else Some [trace_parent_text (TraceID_ meta) (ParentSpanID meta) (TraceSampled meta)].
Proof. look_prepared. Qed.

Lemma prepared_callee s meta i h : prepared s meta i h !! mname calleeMetaName = h !! mname calleeMetaName.
Proof. look_prepared. Qed.

Definition cloud_span s : bool := bool_decide (s_EnvCloud s = lit "gcp") || bool_decide (s_EnvCloud s = lit "encore").

Lemma prepared_state s meta i h : TraceID_ meta <> zero_TraceID -> ParentSpanID meta <> zero_SpanID ->
  prepared s meta i h !! mname TraceStateKey =
  Some [if cloud_span s then span_state_text (ParentSpanID meta) (ParentEventID meta) else event_state_text (ParentEventID meta)].
Proof.
  intros Ht Hp. unfold prepared, unsigned_part, add_user, add_trace, cloud_span. rewrite (decide_False (P := TraceID_ meta = _)), (decide_False (P := ParentSpanID meta = _)) by done.
  repeat (match goal with |- context [if ?b then _ else _] => destruct b | |- context [match ?x with Some _ => _ | None => _ end] => destruct x end; cbn [fst]; look).
Qed.

End Added.

(** ** What arrives *)

Lemma arrives h1 h2 h3 k v : is_Some (signed_name (mname k)) -> h1 !! mname k = Some [v] -> delivered h1 h2 -> reordered h2 h3 ->
  h2 !! mname k = Some [v] /\ h3 !! mname k = Some [v].
Proof.
  intros Hs H1 (_ & Hss & _) Hr. assert (H2 : h2 !! mname k = Some [v]) by (apply same_single; symmetry; rewrite <- H1; by apply Hss). split; [done|].
  apply same_single. symmetry. rewrite <- H2. apply Hr.
Qed.

Lemma same_none o : same_values None o -> o = None.
Proof. by inversion 1. Qed.

Lemma arrives_none h1 h2 h3 k : is_Some (signed_name (mname k)) -> h1 !! mname k = None -> delivered h1 h2 -> reordered h2 h3 -> h3 !! mname k = None.
Proof.
  intros Hs H1 (_ & Hss & _) Hr. apply same_none. transitivity (h2 !! mname k); [|apply Hr]. rewrite <- H1. by apply Hss.
Qed.

Lemma ReadMeta_none h k : h !! mname k = None -> ReadMeta h k = ([], false).
Proof. intros Hv. by rewrite ReadMeta_lookup, Hv. Qed.

Lemma signed_keys_meta : Forall (fun k => is_Some (signed_name (mname k))) [versionMetaName; callerMetaName; userMetaName; dataMetaName; CorrelationIDKey].
Proof. repeat (apply Forall_cons; split; [eexists; vm_compute; reflexivity|]). apply Forall_nil_2. Qed.

Lemma meta_not_auth : Forall (fun k => mname k ∉ method_name :: auth_names)
  [versionMetaName; callerMetaName; userMetaName; dataMetaName; CorrelationIDKey; TraceParentKey; TraceStateKey].
Proof. repeat (apply Forall_cons; split; [not_in|]). apply Forall_nil_2. Qed.

Lemma CallerString_ne c : CallerString c <> [].
Proof. by destruct c. Qed.

Section Roundtrip.
Context {D T : Type} `{EqDecision T} `{AuthJSONLaws D T}.
Implicit Types (meta : CallMeta D) (i : InternalCallMeta D) (s : Server T) (h : HttpCache.Header).

(** The user of a call can be sent to a service with this registered type. *)
Definition sendable (registered : option T) i : Prop :=
  CheckAuthData registered (AuthUID i) (AuthData i) = None /\ forall d, AuthData i = Some d -> is_Some (authJSON_Marshal d).

(** The request carries no user of its own. *)
Definition no_user h : Prop := h !! mname userMetaName = None /\ h !! mname dataMetaName = None.

Lemma CheckAuthData_ok registered uid d : CheckAuthData registered uid (Some d) = None -> uid <> [] /\ registered = Some (typeOf d).
Proof.
  unfold CheckAuthData. destruct uid; [done|]. destruct registered as [t|]; [|done]. by destruct (decide (typeOf d = t)) as [->|].
Qed.

Lemma add_user_ok registered i h : sendable registered i -> (add_user i h).2 = None.
Proof.
  intros [_ Hm]. unfold add_user. destruct (decide _); [done|]. destruct (AuthData i) as [d|]; [|done]. by destruct (Hm d eq_refl) as [v ->].
Qed.

(** The user that is read is the one that was added. *)
Lemma user_back s s' meta i h h1 h2 h3 :
  sendable (RegisteredAuthDataType s') i -> no_user h ->
  (forall k, k ∈ [userMetaName; dataMetaName] -> same_values (prepared s meta i h !! mname k) (h1 !! mname k)) ->
  delivered h1 h2 -> reordered h2 h3 -> read_user s' h3 (Caller_ i) = inr i.
Proof.
  intros [Hc Hm] [Hu Hd] Hf Hdel Hr. pose proof signed_keys_meta as Hk. rewrite !Forall_cons in Hk. destruct Hk as (_ & _ & Ku & Kd & _).
  pose proof (Hf userMetaName ltac:(by left)) as Fu. pose proof (Hf dataMetaName ltac:(by right; left)) as Fd.
  rewrite prepared_user in Fu. rewrite prepared_data in Fd. destruct i as [c uid data]. cbn [AuthUID AuthData Caller_] in *. unfold read_user.
  destruct (decide (uid = [])) as [->|Hne].
  - rewrite Hu in Fu. apply same_none in Fu. rewrite (ReadMeta_none h3) by (by apply (arrives_none h1 h2)). cbn [negb].
    destruct data as [d|]; [|done]. by apply CheckAuthData_ok in Hc as [? _].
  - symmetry in Fu. apply same_single in Fu. rewrite (ReadMeta_single h3 userMetaName uid); [|by apply (arrives h1 h2)|done]. cbn [negb].
    destruct data as [d|].
    + destruct (Hm d eq_refl) as [v Hv]. rewrite Hv in Fd. symmetry in Fd. apply same_single in Fd. destruct (auth_json_roundtrip d v Hv) as [Hvne Hback].
      rewrite (ReadMeta_single h3 dataMetaName v); [|by apply (arrives h1 h2)|done]. cbn [negb]. apply CheckAuthData_ok in Hc as [_ ->]. by rewrite Hback.
    + rewrite Hd in Fd. apply same_none in Fd. rewrite (ReadMeta_none h3) by (by apply (arrives_none h1 h2)). done.
Qed.

Definition trace_of meta : list byte * list byte * Z * bool := (TraceID_ meta, ParentSpanID meta, ParentEventID meta, TraceSampled meta).

(** A trace context with a parent, as the runtime hands it on. *)
Definition has_parent meta : Prop :=
  is_TraceID (TraceID_ meta) /\ is_SpanID (ParentSpanID meta) /\ is_u64 (ParentEventID meta) /\ TraceID_ meta <> zero_TraceID /\ ParentSpanID meta <> zero_SpanID.

Lemma trace_back s meta i h h3 : has_parent meta ->
  h3 !! mname TraceParentKey = prepared s meta i h !! mname TraceParentKey ->
  h3 !! mname TraceStateKey = prepared s meta i h !! mname TraceStateKey ->
  (forall g, Caller_ i <> GatewayCaller g) -> read_trace h3 (Some i) = trace_of meta.
Proof.
  intros (Ht & Hs & He & Htz & Hsz) Hp Hst Hg. rewrite prepared_parent, decide_False in Hp by done. rewrite prepared_state in Hst by done.
  unfold read_trace. rewrite (ReadMeta_single h3 TraceParentKey _ Hp) by done. cbn [negb]. rewrite trace_parent_read by done.
  assert (Hc : (match Caller_ i with GatewayCaller _ => zero_SpanID | _ => ParentSpanID meta end) = ParentSpanID meta).
  { destruct (Caller_ i) eqn:Ec; try done. by destruct (Hg GatewayName). }
  rewrite Hc, ReadMetaValues_lookup, Hst. cbn [negb]. unfold trace_of. destruct (cloud_span s).
  - rewrite span_state_read by done. destruct (Z.eqb_spec (ParentEventID meta) 0) as [->|]; cbn [negb]; [done|]. by rewrite decide_False.
  - rewrite event_state_read by done. destruct (Z.eqb_spec (ParentEventID meta) 0) as [->|]; cbn [negb]; [done|]. by rewrite decide_True.
Qed.

(** The request that is sent, and what is read from it. *)
Lemma call_arrives s s' out inb sent received target meta i h :
  AuthPair out inb sent received ->
  s_outbound s !! target = Some out -> loaded_ok (s_inbound s') -> s_inbound s' !! sa_method inb = Some inb ->
  Internal_ meta = Some i -> wf_caller (Caller_ i) -> sendable (RegisteredAuthDataType s') i -> wf_header h -> no_user h ->
  exists h1, AddToRequest s sent target meta h = (h1, None) /\ wf_header h1 /\
    (forall name, name ∉ method_name :: auth_names -> same_values (prepared s meta i h !! name) (h1 !! name)) /\
    forall h2, delivered h1 h2 -> exists h3 m, MetaFromRequest s' received h2 = (h3, inr m) /\ reordered h2 h3 /\
      Internal_ m = Some i /\ (CorrelationID meta <> [] -> CorrelationID m = CorrelationID meta) /\
      (has_parent meta -> (forall g, Caller_ i <> GatewayCaller g) ->
       (forall k, k ∈ [TraceParentKey; TraceStateKey] -> h2 !! mname k = h1 !! mname k) -> trace_of m = trace_of meta).
Proof.
  intros Hpair Hout Hok Hin Hi Hwc Hsend Hw Hnu. set (P := prepared s meta i h).
  destruct (Sign_Verify out inb sent received (s_inbound s') P Hok Hin (wf_prepared s meta i h Hw)) as (h1 & Hsign & Hw1 & Hframe & Hver).
  exists h1. split. { rewrite (AddToRequest_prepared s sent target meta i h out); [by fold P; rewrite Hsign|done|by apply (add_user_ok (RegisteredAuthDataType s'))|done]. }
  split; [done|]. split; [done|]. intros h2 Hdel. destruct (Hver h2 Hdel) as (h3 & Hv & Hr).
  pose proof signed_keys_meta as Hk. rewrite !Forall_cons in Hk. destruct Hk as (Kv & Kc & Ku & Kd & Kx & _).
  pose proof meta_not_auth as Hna. rewrite Forall_forall in Hna.
  assert (One : forall k v, k ∈ [versionMetaName; callerMetaName; userMetaName; dataMetaName; CorrelationIDKey; TraceParentKey; TraceStateKey] ->
    P !! mname k = Some [v] -> h1 !! mname k = Some [v]).
  { intros k v Hkin Hp. apply same_single. symmetry. rewrite <- Hp. apply Hframe, Hna, Hkin. }
  assert (Fv : h1 !! mname versionMetaName = Some [lit "1"]) by (apply One; [by left|apply prepared_version]).
  assert (Fc : h1 !! mname callerMetaName = Some [CallerString (Caller_ i)]) by (apply One; [by right; left|apply prepared_caller]).
  destruct (arrives h1 h2 h3 _ _ Kv Fv Hdel Hr) as [Av _]. destruct (arrives h1 h2 h3 _ _ Kc Fc Hdel Hr) as [Ac _].
  destruct (caller_text (Caller_ i)) as (c' & Hparse & _ & Hback). apply Hback in Hwc as ->.
  assert (Hread : read_user s' h3 (Caller_ i) = inr i).
  { apply (user_back s s' meta i h h1 h2); [done|done| |done|done]. intros k Hkin. apply Hframe, Hna. set_solver. }
  unfold MetaFromRequest. rewrite (ReadMeta_single h2 versionMetaName _ Av) by done. rewrite (bool_decide_eq_true_2 (lit "1" = lit "1")) by done. cbn [negb andb].
  unfold read_internal. rewrite (ReadMeta_single h2 callerMetaName _ Ac) by apply CallerString_ne. cbn [negb]. rewrite Hv, Hparse, Hread.
  destruct (read_trace h3 (Some i)) as [[[t sp] e] b] eqn:Htr. do 2 eexists. split; [done|]. split; [done|]. split; [done|]. split.
  - intros Hcor. assert (Fx : h1 !! mname CorrelationIDKey = Some [CorrelationID meta]).
    { apply One; [by do 4 right; left|]. unfold P. rewrite prepared_correlation. by rewrite decide_False. }
    destruct (arrives h1 h2 h3 _ _ Kx Fx Hdel Hr) as [_ Ax]. cbn [CorrelationID]. unfold read_correlation. by rewrite (ReadMeta_single h3 CorrelationIDKey _ Ax).
  - intros Hpar Hg Htn. unfold trace_of at 1. cbn [TraceID_ ParentSpanID ParentEventID TraceSampled]. rewrite <- Htr.
    assert (Two : forall k v, k ∈ [TraceParentKey; TraceStateKey] -> P !! mname k = Some [v] -> h3 !! mname k = P !! mname k).
    { intros k v Hkin Hp. rewrite Hp. apply same_single. symmetry. rewrite <- (One k v ltac:(do 5 right; exact Hkin) Hp), <- (Htn k Hkin). apply Hr. }
    pose proof Hpar as (_ & _ & _ & Htz & Hsz). apply (trace_back s meta i h); [done|..|done].
    + eapply Two; [by left|]. unfold P. rewrite prepared_parent. by rewrite decide_False.
    + eapply Two; [by right; left|]. unfold P. by rewrite prepared_state.
Qed.

(** C6. An internal call is understood by the service it calls, if the outgoing request carries no
    user metadata of its own.  The request is signed, and whatever happens on the way to headers that
    are not signed, the service reads the caller, the user and the correlation id that were sent; it
    reads the trace context too if there is a parent span, these headers arrive and the caller is not
    a gateway. *)
Theorem call_roundtrip s s' out inb sent received target meta i h :
  AuthPair out inb sent received ->
  s_outbound s !! target = Some out -> loaded_ok (s_inbound s') -> s_inbound s' !! sa_method inb = Some inb ->
  Internal_ meta = Some i -> wf_caller (Caller_ i) -> sendable (RegisteredAuthDataType s') i -> wf_header h -> no_user h ->
  exists h1, AddToRequest s sent target meta h = (h1, None) /\ wf_header h1 /\
    forall h2, delivered h1 h2 -> exists h3 m, MetaFromRequest s' received h2 = (h3, inr m) /\ reordered h2 h3 /\
      Internal_ m = Some i /\ (CorrelationID meta <> [] -> CorrelationID m = CorrelationID meta) /\
      (has_parent meta -> (forall g, Caller_ i <> GatewayCaller g) ->
       (forall k, k ∈ [TraceParentKey; TraceStateKey] -> h2 !! mname k = h1 !! mname k) -> trace_of m = trace_of meta).
Proof.
  intros Hpair Hout Hok Hin Hi Hwc Hsend Hw Hnu.
  destruct (call_arrives s s' out inb sent received target meta i h Hpair Hout Hok Hin Hi Hwc Hsend Hw Hnu) as (h1 & Hadd & Hw1 & _ & Hread). by exists h1.
Qed.

End Roundtrip.
