(* ===== verification/Access.v ===== *)
(** Which requests reach which endpoints: the HTTP entry points of the runtime
    ([appruntime/apisdk/api/server.go], [services.go], [gateway.go], [auth.go], [auth_remote.go],
    the checks at the start of [handler.go]), the requests of the platform
    ([appruntime/shared/platform/platform.go]) and the trace identifiers of cloud providers
    ([appruntime/shared/cloudtrace]).

    Parameters: HMAC-SHA256 and the text form of dates, the router (class [HTTPRouter]), the
    authentication handler of the application and its JSON.  What an endpoint does after its checks
    is not modelled here: it is served, with the user it sees. *)

From S2P Require Import Prelude GoSort Run Utf8 GoText Strconv Errs TraceBuffer TraceModel Base32 Uuid HttpCache SvcAuth CallMeta.

(** ** cloudtrace *)

Record TraceContext := mkTraceContext { tc_TraceID : list byte; tc_SpanID : list byte }.

Definition c_dash : byte := Byte.x2d.
Definition c_slash : byte := Byte.x2f.
Definition c_semicolon : byte := Byte.x3b.

(** A pair of hexadecimal ids of the right lengths. *)
Definition hex_context (traceIDHex spanIDHex : gostring) : option TraceContext :=
  traceID ← hex_DecodeString traceIDHex;
  spanID ← hex_DecodeString spanIDHex;
  if negb (bool_decide (length traceID = 16%nat)) then None
  else if negb (bool_decide (length spanID = 8%nat)) then None
  else Some (mkTraceContext traceID spanID).

Definition parseB3Headers (h : Header) : option TraceContext :=
  let traceIDHex := header_Get h (lit "X-B3-TraceId") in
  let spanIDHex := header_Get h (lit "X-B3-SpanId") in
  if bool_decide (traceIDHex = []) || bool_decide (spanIDHex = []) then None else hex_context traceIDHex spanIDHex.

Definition parseB3SingleHeader (h : Header) : option TraceContext :=
  match Split (header_Get h (lit "b3")) c_dash with
  | p0 :: p1 :: _ => hex_context p0 p1
  | _ => None
  end.

Definition parseGCloudTraceContext (h : Header) : option TraceContext :=
  let '(traceIDHex, rest, found) := Cut (header_Get h (lit "X-Cloud-Trace-Context")) c_slash in
  if negb found then None
  else
    let spanIDDecStr := (Cut rest c_semicolon).1.1 in
    traceID ← hex_DecodeString traceIDHex;
    match ParseUint spanIDDecStr with
    | inl _ => None
    | inr spanIDDec =>
        if negb (bool_decide (length traceID = 16%nat)) then None
        else Some (mkTraceContext traceID (reverse (le_bytes 8 spanIDDec)))
    end.

Definition aws_part (traceIDHex part : gostring) : gostring :=
  match Split part c_equals with
  | [k; v] => if decide (k = lit "Root") then match Split v c_dash with [_; _; t] => t | _ => traceIDHex end else traceIDHex
  | _ => traceIDHex
  end.

(** Every branch returns nil. *)
Definition parseAWSXRayTraceContext (h : Header) : option TraceContext :=
  let traceIDHex := foldl aws_part [] (Split (header_Get h (lit "X-Amzn-Trace-Id")) c_semicolon) in
  if decide (traceIDHex = []) then None
  else traceID ← hex_DecodeString traceIDHex; if negb (bool_decide (length traceID = 16%nat)) then None else None.

Definition cloud_parseTraceParent (h : Header) : option TraceContext :=
  match Split (header_Get h (lit "traceparent")) c_dash with
  | _ :: p1 :: _ :: _ =>
      traceID ← hex_DecodeString p1;
      if negb (bool_decide (length traceID = 16%nat)) then None else Some (mkTraceContext traceID zero_SpanID)
  | _ => None
  end.

Definition ExtractCloudTraceIDs (h : Header) : TraceContext :=
  match parseB3Headers h with
  | Some c => c
  | None =>
      match parseB3SingleHeader h with
      | Some c => c
      | None => match cloud_parseTraceParent h with Some c => c | None => mkTraceContext zero_TraceID zero_SpanID end
      end
  end.

(** The trace context is used without a check: a header that does not parse is a nil dereference. *)
Definition StructuredLogFields (gcpProjectID : gostring) (req : option Header) : run (gmap gostring gostring) :=
  match req with
  | None => Ok ∅
  | Some h =>
      if bool_decide (header_Get h (lit "X-Cloud-Trace-Context") = []) || bool_decide (gcpProjectID = []) then Ok ∅
      else match parseGCloudTraceContext h with
           | None => Crash
           | Some ctx =>
               if decide (tc_TraceID ctx = zero_TraceID) then Ok ∅
               else
                 let fields := {[ lit "logging.googleapis.com/trace" := lit "projects/" ++ gcpProjectID ++ lit "/traces/" ++ hex_Encode (tc_TraceID ctx) ]} in
                 Ok (if decide (tc_SpanID ctx = zero_SpanID) then fields else <[lit "logging.googleapis.com/spanId" := hex_Encode (tc_SpanID ctx)]> fields)
           end
  end.

(** ** platform.go *)

(** [base64.RawStdEncoding] *)
Definition b64_alphabet : gostring := lit "ABCDEFGHIJKLMNOPQRSTUVWXYZabcdefghijklmnopqrstuvwxyz0123456789+/".
Definition b64_digit (v : Z) : byte := nth (Z.to_nat v) b64_alphabet Byte.x00.
Definition b64_value (c : byte) : option Z := '(i, _) ← list_find (fun d => d = c) b64_alphabet; Some (Z.of_nat i).

Fixpoint b64_encode (src : list byte) : gostring :=
  match src with
  | a :: b :: c :: src =>
      let v := Z_of_byte a * 2^16 + Z_of_byte b * 2^8 + Z_of_byte c in
      b64_digit (v / 2^18) :: b64_digit (v / 2^12 mod 64) :: b64_digit (v / 2^6 mod 64) :: b64_digit (v mod 64) :: b64_encode src
  | [a; b] =>
      let v := Z_of_byte a * 2^16 + Z_of_byte b * 2^8 in
      [b64_digit (v / 2^18); b64_digit (v / 2^12 mod 64); b64_digit (v / 2^6 mod 64)]
  | [a] => let v := Z_of_byte a * 2^16 in [b64_digit (v / 2^18); b64_digit (v / 2^12 mod 64)]
  | [] => []
  end.

Fixpoint b64_groups (s : gostring) : option (list byte) :=
  match s with
  | [] => Some []
  | [_] => None
  | [p; q] => a ← b64_value p; b ← b64_value q; Some [byte_of_Z ((a * 2^18 + b * 2^12) / 2^16)]
  | [p; q; r] =>
      a ← b64_value p; b ← b64_value q; c ← b64_value r;
      let v := a * 2^18 + b * 2^12 + c * 2^6 in Some [byte_of_Z (v / 2^16); byte_of_Z (v / 2^8 mod 256)]
  | p :: q :: r :: t :: s =>
      a ← b64_value p; b ← b64_value q; c ← b64_value r; d ← b64_value t;
      let v := a * 2^18 + b * 2^12 + c * 2^6 + d in
      rest ← b64_groups s; Some (byte_of_Z (v / 2^16) :: byte_of_Z (v / 2^8 mod 256) :: byte_of_Z (v mod 256) :: rest)
  end.

(** Line breaks are skipped. *)
Definition b64_DecodeString (s : gostring) : option (list byte) := b64_groups (filter (fun c => c <> Byte.x0a /\ c <> Byte.x0d) s).

Record URL := mkURL { u_Path : gostring; u_RawPath : gostring; u_EscapedPath : gostring }.

Record HTTPRequest := mkHTTPRequest { r_Method : gostring; r_URL : URL; r_Header : Header }.

Section Platform.
Context (hmac_sha256 : list byte -> list byte -> list byte) (http_ParseTime : gostring -> option Z) (http_FormatTime : Z -> gostring).

Definition mac_text (date path : gostring) : list byte := date ++ [Byte.x00] ++ path.

(** [None]: there is no key to index. *)
Definition addAuthKey (authKeys : list EncoreAuthKey) (now : Z) (req : HTTPRequest) : option HTTPRequest :=
  k ← head authKeys;
  let date := http_FormatTime now in
  let h := header_Set (r_Header req) (lit "Date") date in
  let mac := hmac_sha256 (Data k) (mac_text date (u_Path (r_URL req))) in
  let bytes := reverse (le_bytes 4 (KeyID k)) ++ mac in
  Some (mkHTTPRequest (r_Method req) (r_URL req) (header_Set h (lit "X-Encore-Auth") (b64_encode bytes))).

Definition threshold : Z := 15 * 60 * 10 ^ 9.

Definition checkAuthKey (now : Z) (key : EncoreAuthKey) (req : HTTPRequest) (gotMac : list byte) : bool :=
  let dateStr := header_Get (r_Header req) (lit "Date") in
  if decide (dateStr = []) then false
  else match http_ParseTime dateStr with
       | None => false
       | Some date =>
           let diff := since now date in
           if (threshold <? diff) || (diff <? - threshold) then false
           else bool_decide (hmac_sha256 (Data key) (mac_text dateStr (u_Path (r_URL req))) = gotMac)
       end.

(** The error the code may return is always nil. *)
Definition ValidatePlatformRequest (authKeys : list EncoreAuthKey) (now : Z) (req : HTTPRequest) (macSig : gostring) : bool :=
  match b64_DecodeString macSig with
  | None => false
  | Some macBytes =>
      if blen macBytes <? 4 then false
      else
        let keyID := le_value (reverse (take 4 macBytes)) in
        let mac := drop 4 macBytes in
        match head (filter (fun k => KeyID k = keyID) authKeys) with
        | Some k => checkAuthKey now k req mac
        | None => false
        end
  end.

End Platform.

(** ** server.go: registration *)

Inductive Access := Public | RequiresAuth | Private.

#[export] Instance Access_eq_dec : EqDecision Access.
Proof. solve_decision. Defined.

Record Endpoint := mkEndpoint {
  ServiceName : gostring;
  EndpointName : gostring;
  AccessType : Access;
  HTTPRouterPath : gostring;
  HTTPMethods : list gostring;
  IsFallback : bool
}.

(** What a route leads to: an endpoint served here, an endpoint of another service behind the
    gateway, or one of the runtime's own routes. *)
Inductive Handle :=
  | ServiceAdapter (h : Endpoint)
  | GatewayAdapter (h : Endpoint) (authMethod : gostring)
  | HandleHealthz | HandlePubsubPush | HandleRemoteAuthCall.

Class HTTPRouter (R : Type) := {
  router_New : R;
  router_Handle : R -> gostring -> gostring -> Handle -> option R; (** [None]: it panics *)
  router_Lookup : R -> gostring -> gostring -> option (Handle * list gostring);
  routes : R -> list (gostring * gostring * Handle)
}.

(** A lookup only finds what was registered for the method. *)
Class HTTPRouterLaws (R : Type) `{HTTPRouter R} := {
  routes_New : routes router_New = [];
  routes_Handle r m p h r' : router_Handle r m p h = Some r' -> routes r' = (m, p, h) :: routes r;
  lookup_routed r m path h ps : router_Lookup r m path = Some (h, ps) -> exists p, (m, p, h) ∈ routes r
}.

(** [HostedServices], [Gateways], and for each service in [ServiceDiscovery] its authentication
    method if its URL can be parsed. *)
Record Deployment := mkDeployment {
  HostedServices : list gostring;
  Gateways : list gostring;
  ServiceDiscovery : gmap gostring (option gostring)
}.

Definition IsGateway (d : Deployment) : bool := 0 <? blen (Gateways d).

Definition IsHostedService (d : Deployment) (serviceName : gostring) : bool :=
  if bool_decide (HostedServices d = []) && bool_decide (Gateways d = []) then true
  else if bool_decide (serviceName = []) && negb (bool_decide (HostedServices d = [])) then true
  else bool_decide (serviceName ∈ HostedServices d).

Definition wildcardMethod : gostring := lit "__ENCORE_WILDCARD__".

Section Routing.
Context {R : Type} `{HTTPRouter R}.

Record Routers := mkRouters { public : R; publicFallback : R; private : R; privateFallback : R; encore : R }.

Definition registerEncoreRoutes (r : R) : option R :=
  r ← router_Handle r wildcardMethod (lit "/healthz") HandleHealthz;
  r ← router_Handle r (lit "POST") (lit "/pubsub/push/:subscription_id") HandlePubsubPush;
  router_Handle r (lit "POST") (lit "/authhandler") HandleRemoteAuthCall.

Definition NewRouters : option Routers :=
  e ← registerEncoreRoutes router_New; Some (mkRouters router_New router_New router_New router_New e).

Definition createGatewayHandlerAdapter (d : Deployment) (h : Endpoint) : option Handle :=
  service ← ServiceDiscovery d !! ServiceName h;
  method ← service;
  Some (GatewayAdapter h method).

(** The loop over the methods: the private and the public router of the endpoint. *)
Fixpoint register_methods (h : Endpoint) (adapter : Handle) (ms : list gostring) (priv pub : R) : option (R * R) :=
  match ms with
  | [] => Some (priv, pub)
  | m :: ms =>
      let m := if decide (m = lit "*") then wildcardMethod else m in
      priv ← router_Handle priv m (HTTPRouterPath h) adapter;
      pub ← (if bool_decide (AccessType h = Public) || bool_decide (AccessType h = RequiresAuth)
             then router_Handle pub m (HTTPRouterPath h) adapter else Some pub);
      register_methods h adapter ms priv pub
  end.

(** [None]: registration panics. *)
Definition registerEndpoint (d : Deployment) (rs : Routers) (h : Endpoint) : option Routers :=
  let add adapter :=
    if IsFallback h then
      '(priv, pub) ← register_methods h adapter (HTTPMethods h) (privateFallback rs) (publicFallback rs);
      Some (mkRouters (public rs) pub (private rs) priv (encore rs))
    else
      '(priv, pub) ← register_methods h adapter (HTTPMethods h) (private rs) (public rs);
      Some (mkRouters pub (publicFallback rs) priv (privateFallback rs) (encore rs)) in
  if IsHostedService d (ServiceName h) then add (ServiceAdapter h)
  else if IsGateway d then adapter ← createGatewayHandlerAdapter d h; add adapter
  else Some rs.

Fixpoint register_all (d : Deployment) (rs : Routers) (hs : list Endpoint) : option Routers :=
  match hs with
  | [] => Some rs
  | h :: hs => rs ← registerEndpoint d rs h; register_all d rs hs
  end.

(** ** server.go: finding the route *)

Definition lookup_any (r : R) (method path : gostring) : option (Handle * list gostring) :=
  match router_Lookup r method path with
  | Some f => Some f
  | None => router_Lookup r wildcardMethod path
  end.

Definition determineRequestPath (u : URL) : gostring := if decide (u_RawPath u = []) then u_Path u else u_EscapedPath u.

Definition other_slash (path : gostring) : gostring :=
  if (1 <? blen path) && bool_decide (path !! (length path - 1)%nat = Some c_slash) then take (length path - 1) path else path ++ [c_slash].

(** The status and the path of the redirect. *)
Definition handleTrailingSlashRedirect (r : R) (method path : gostring) : option (Z * gostring) :=
  if decide (method = lit "CONNECT") then None
  else
    let path := other_slash path in
    match lookup_any r method path with
    | None => None
    | Some _ => Some ((if decide (method = GET) then 301 else 308), path)
    end.

Inductive Found := NoRoute | FoundRoute (h : Handle) (ps : list gostring) | HandledTSR (code : Z) (path : gostring).

Definition findRoute (r : R) (method path : gostring) : Found :=
  match lookup_any r method path with
  | Some (h, ps) => FoundRoute h ps
  | None =>
      match handleTrailingSlashRedirect r method path with
      | Some (code, path) => HandledTSR code path
      | None => NoRoute
      end
  end.

Definition internalPrefix : gostring := lit "/__encore".

(** The router for the request, then the fallback router. *)
Definition route (rs : Routers) (privateAccess : bool) (method path : gostring) : Found :=
  let '(router, fallback) := if privateAccess then (private rs, Some (privateFallback rs)) else (public rs, Some (publicFallback rs)) in
  let '(router, fallback, path) :=
    if HasPrefix path (internalPrefix ++ [c_slash]) then (encore rs, None, drop (length internalPrefix) path) else (router, fallback, path) in
  match findRoute router method path, fallback with
  | NoRoute, Some fallback => findRoute fallback method path
  | f, _ => f
  end.

End Routing.
Arguments Routers R : clear implicits.

(** ** server.go: the handler of requests *)

Record AuthInfo (D : Type) := mkInfo { UID : gostring; UserData : option D }.
Arguments mkInfo {D} UID UserData.
Arguments UID {D} a.
Arguments UserData {D} a.

Definition no_info {D} : AuthInfo D := mkInfo [] None.

Inductive Outcome (D : Type) :=
  | HttpError (status : Z)
  | Redirect (code : Z) (path : gostring)
  | EndpointNotFound
  | Dispatch (h : Handle) (ps : list gostring) (meta : CallMeta D) (platform : bool) (req : HTTPRequest).
Arguments HttpError {D} status.
Arguments Redirect {D} code path.
Arguments EndpointNotFound {D}.
Arguments Dispatch {D} h ps meta platform req.

(** The answer of an endpoint: an error, or its own with the user it sees. *)
Inductive Reply (D : Type) := ErrorReply (code : Z) | Served (h : Endpoint) (auth : AuthInfo D) (meta : CallMeta D).
Arguments ErrorReply {D} code.
Arguments Served {D} h auth meta.

(** What the gateway does with a request: an error, or the headers it sends on. *)
Inductive Forward := ForwardError (code : Z) | Forwarded (h : Header).

Section Handling.
Context {R : Type} `{HTTPRouter R}.
Context {D T : Type} `{EqDecision T} `{AuthJSON D T}.
Context (hmac_sha256 : list byte -> list byte -> list byte) (http_ParseTime : gostring -> option Z).

Definition with_headers (req : HTTPRequest) (h : Header) : HTTPRequest := mkHTTPRequest (r_Method req) (r_URL req) h.

(** [genTraceID] is what the generator of trace ids returns. *)
Definition extractCallMeta (s : Server T) (now : Z) (genTraceID : list byte) (req : HTTPRequest) : HTTPRequest * option (CallMeta D) :=
  match MetaFromRequest s now (r_Header req) with
  | (h, inl _) => (with_headers req h, None)
  | (h, inr meta) =>
      let cloud := ExtractCloudTraceIDs h in
      let traceID := if decide (TraceID_ meta = zero_TraceID) then tc_TraceID cloud else TraceID_ meta in
      let '(traceID, parent) := if decide (traceID = zero_TraceID) then (genTraceID, zero_SpanID) else (traceID, ParentSpanID meta) in
      (with_headers req h, Some (mkMeta traceID (tc_SpanID cloud) parent (ParentEventID meta) (CorrelationID meta) (TraceSampled meta) (Internal_ meta)))
  end.

(** [pc]: the keys of the platform client, if there is one. *)
Definition handler (s : Server T) (pc : option (list EncoreAuthKey)) (rs : Routers R) (now : Z) (genTraceID : list byte) (req : HTTPRequest) : Outcome D :=
  let sig := header_Get (r_Header req) (lit "X-Encore-Auth") in
  let checked :=
    match pc with
    | Some authKeys =>
        if decide (sig = []) then Some false
        else if ValidatePlatformRequest hmac_sha256 http_ParseTime authKeys now req sig then Some true else None
    | None => Some false
    end in
  match checked with
  | None => HttpError 401
  | Some platform =>
      match extractCallMeta s now genTraceID req with
      | (_, None) => HttpError 500
      | (req, Some meta) =>
          match route rs (platform || PrivateAPIAccess meta) (r_Method req) (determineRequestPath (r_URL req)) with
          | FoundRoute h ps => Dispatch h ps meta platform req
          | HandledTSR code path => Redirect code path
          | NoRoute => EndpointNotFound
          end
      end
  end.

(** ** auth.go, services.go, handler.go *)

(** [newExecContext]: the user an internal call brings along. *)
Definition context_auth (meta : CallMeta D) : AuthInfo D :=
  match Internal_ meta with Some i => mkInfo (AuthUID i) (AuthData i) | None => no_info end.

(** The authentication handler answers with a user or an error code. *)
Abbreviation Authenticate := (HTTPRequest -> CallMeta D -> Z + AuthInfo D).

Definition runAuthHandler (authHandler : option Authenticate) (h : Endpoint) (meta : CallMeta D) (req : HTTPRequest) : run (Z + AuthInfo D) :=
  let requiresAuth := bool_decide (AccessType h = RequiresAuth) in
  match authHandler with
  | None => if requiresAuth then Crash else Ok (inr no_info)
  | Some authenticate =>
      if IsServiceToService meta then
        if bool_decide (UID (context_auth meta) = []) && requiresAuth then Ok (inl Unauthenticated) else Ok (inr (context_auth meta))
      else
        match authenticate req meta with
        | inl code => if (code =? Unauthenticated) && negb requiresAuth then Ok (inr no_info) else Ok (inl code)
        | inr info => Ok (inr info)
        end
  end.

Definition callee_name (h : Endpoint) : gostring := ServiceName h ++ lit "." ++ EndpointName h.

(** The check of [Desc.begin]: the code of its error. *)
Definition begin_check (h : Endpoint) (auth : AuthInfo D) : option Z :=
  if bool_decide (AccessType h = RequiresAuth) && bool_decide (UID auth = []) then Some Unauthenticated else None.

(** [Desc.Handle] up to the end of the checks of [begin]. *)
Definition desc_Handle (h : Endpoint) (auth : AuthInfo D) (meta : CallMeta D) (req : HTTPRequest) : Reply D :=
  if IsServiceToService meta && negb (bool_decide ((ReadMeta (r_Header req) calleeMetaName).1 = callee_name h)) then ErrorReply PermissionDenied
  else match begin_check h auth with Some code => ErrorReply code | None => Served h auth meta end.

Definition processRequest (authHandler : option Authenticate) (h : Endpoint) (meta : CallMeta D) (req : HTTPRequest) : run (Reply D) :=
  r ← runAuthHandler authHandler h meta req;
  match r with
  | inl code => Ok (ErrorReply code)
  | inr info => Ok (desc_Handle h info meta req)
  end.

Definition header_Del (h : Header) (name : gostring) : Header := delete (CanonicalHeaderKey name) h.

Definition clampTo64Chars (s : gostring) : gostring := if 64 <? blen s then take 64 s else s.

(** [createServiceHandlerAdapter]: the headers of the response, and the reply. *)
Definition serve (authHandler : option Authenticate) (h : Endpoint) (meta : CallMeta D) (req : HTTPRequest) : Header * run (Reply D) :=
  let req := with_headers req (header_Del (r_Header req) (lit "X-Encore-Auth")) in
  let traceIDStr := TraceID_String (TraceID_ meta) in
  let w := header_Set ∅ (lit "X-Encore-Trace-ID") traceIDStr in
  let reqID := header_Get (r_Header req) (lit "X-Request-ID") in
  let w := header_Set w (lit "X-Request-ID") (if decide (reqID = []) then traceIDStr else clampTo64Chars reqID) in
  let w := if decide (CorrelationID meta = []) then w else header_Set w (lit "X-Correlation-ID") (CorrelationID meta) in
  (w, processRequest authHandler h meta req).

(** ** gateway.go *)

Definition gateway_meta (meta : CallMeta D) (info : AuthInfo D) : CallMeta D :=
  mkMeta (TraceID_ meta) (SpanID_ meta) (ParentSpanID meta) (ParentEventID meta) (CorrelationID meta) (TraceSampled meta)
    (Some (mkInternal (GatewayCaller (lit "api-gateway")) (UID info) (UserData info))).

(** [ProxyRequest.SetXForwarded]: the address of the client if it is known, the host and whether
    the connection is encrypted. *)
Definition SetXForwarded (client : option gostring) (host : gostring) (tls : bool) (out : Header) : Header :=
  let out :=
    match client with
    | Some ip =>
        match header_Values out (lit "X-Forwarded-For") with
        | [] => header_Set out (lit "X-Forwarded-For") ip
        | prior => header_Set out (lit "X-Forwarded-For") (Join prior (lit ", ") ++ lit ", " ++ ip)
        end
    | None => header_Del out (lit "X-Forwarded-For")
    end in
  let out := header_Set out (lit "X-Forwarded-Host") host in
  header_Set out (lit "X-Forwarded-Proto") (if tls then lit "https" else lit "http").

(** The function [Rewrite]: [out] are the headers the reverse proxy made of those of the client,
    [inn].  A failure to add the metadata is only logged. *)
Definition rewrite (s : Server T) (now : Z) (target : gostring) (h : Endpoint) (meta : CallMeta D)
    (client : option gostring) (host : gostring) (tls : bool) (inn out : Header) : Header :=
  let out := SetMeta out calleeMetaName (callee_name h) in
  let '(out, _) := AddToRequest s now target meta out in
  let name := lit "X-Forwarded-For" in
  SetXForwarded client host tls (<[name := default [] (inn !! name)]> out).

(** [createGatewayHandlerAdapter]; [proxied] is what the reverse proxy makes of the headers. *)
Definition gateway (s : Server T) (authHandler : option Authenticate) (now : Z) (target : gostring) (h : Endpoint) (meta : CallMeta D)
    (client : option gostring) (host : gostring) (tls : bool) (proxied : Header -> Header) (req : HTTPRequest) : run Forward :=
  r ← runAuthHandler authHandler h meta req;
  match r with
  | inl code => Ok (ForwardError code)
  | inr info => Ok (Forwarded (rewrite s now target h (gateway_meta meta info) client host tls (r_Header req) (proxied (r_Header req))))
  end.

(** ** auth_remote.go *)

Definition auth_caller : Caller := ApiCaller (lit "gateway") (lit "__encore/authhandler").

(** The headers of the request to the service that hosts the authentication handler. *)
Definition remote_auth_request (s : Server T) (now : Z) (target : gostring) (meta : CallMeta D) (h : Header) : Header * option MetaError :=
  let h := delete (lit "X-Encore-Auth") h in
  AddToRequest s now target
    (mkMeta (TraceID_ meta) (SpanID_ meta) (ParentSpanID meta) (ParentEventID meta) (CorrelationID meta) (TraceSampled meta) (Some (mkInternal auth_caller [] None))) h.

(** The check of [handleRemoteAuthCall]; the metadata the handler then sees. *)
Definition remote_auth_gate (meta : CallMeta D) : Z + CallMeta D :=
  match Internal_ meta with
  | Some (mkInternal (ApiCaller service endpoint) _ _) =>
      if bool_decide (service = lit "gateway") && bool_decide (endpoint = lit "__encore/authhandler")
      then inr (mkMeta (TraceID_ meta) (SpanID_ meta) (ParentSpanID meta) (ParentEventID meta) (CorrelationID meta) (TraceSampled meta) None)
      else inl PermissionDenied
  | _ => inl PermissionDenied
  end.

Definition handleRemoteAuthCall (authenticate : Authenticate) (meta : CallMeta D) (req : HTTPRequest) : Z + AuthInfo D :=
  match remote_auth_gate meta with
  | inl code => inl code
  | inr meta => authenticate req meta
  end.

End Handling.
