(* ===== verification/AccessTheorems.v ===== *)
(** Which requests reach which endpoints: private endpoints need the platform or a verified caller,
    endpoints that require a user have one, and the gateway hands its user to the service it calls. *)

From S2P Require Import Prelude GoSort Run Utf8 GoText Strconv Errs TraceBuffer TraceModel Base32 Uuid UuidTheorems HttpCache HttpCacheTheorems.
From S2P Require Import SvcAuth SvcAuthTheorems SvcAuthSound CallMeta CallMetaTheorems Access.
From stdpp Require Import list.
Local Open Scope Z_scope.
Opaque mname.

(** ** Routers *)

Definition endpoint_of (hd : Handle) : option Endpoint :=
  match hd with ServiceAdapter h | GatewayAdapter h _ => Some h | _ => None end.

Section Routers.
Context {R : Type} `{HTTPRouterLaws R}.

(** The endpoint of every route of [r] satisfies [P]. *)
Definition all_routes (r : R) (P : Handle -> Prop) : Prop := forall m p hd, (m, p, hd) ∈ routes r -> P hd.

Definition is_endpoint (hd : Handle) : Prop := is_Some (endpoint_of hd).
Definition is_exposed (hd : Handle) : Prop := exists h, endpoint_of hd = Some h /\ AccessType h <> Private.

(** Public routers only lead to exposed endpoints, the internal router only to the runtime's own routes. *)
Definition routers_ok (rs : Routers R) : Prop :=
  all_routes (public rs) is_exposed /\ all_routes (publicFallback rs) is_exposed /\
  all_routes (private rs) is_endpoint /\ all_routes (privateFallback rs) is_endpoint /\
  all_routes (encore rs) (fun hd => endpoint_of hd = None).

Lemma all_routes_New P : all_routes router_New P.
Proof. intros m p hd. rewrite routes_New. by intros ?%elem_of_nil. Qed.

Lemma all_routes_Handle r m p hd r' P : router_Handle r m p hd = Some r' -> all_routes r P -> P hd -> all_routes r' P.
Proof. intros Hh Ha Hp m' p' hd'. rewrite (routes_Handle _ _ _ _ _ Hh). intros [[= -> -> ->]|Hin]%elem_of_cons; [done|]. by apply (Ha m' p'). Qed.

Lemma all_routes_lookup r method path hd ps P : lookup_any r method path = Some (hd, ps) -> all_routes r P -> P hd.
Proof.
  unfold lookup_any. destruct (router_Lookup r method path) as [[hd' ps']|] eqn:El.
  - intros [= -> ->] Ha. destruct (lookup_routed _ _ _ _ _ El) as [p Hp]. by apply (Ha method p).
  - intros El' Ha. destruct (lookup_routed _ _ _ _ _ El') as [p Hp]. by apply (Ha wildcardMethod p).
Qed.

Lemma NewRouters_ok rs : NewRouters = Some rs -> routers_ok rs.
Proof.
  unfold NewRouters, registerEncoreRoutes. destruct (router_Handle router_New _ _ _) as [r1|] eqn:E1; [|done]. cbn [mbind option_bind].
  destruct (router_Handle r1 _ _ _) as [r2|] eqn:E2; [|done]. cbn [mbind option_bind]. destruct (router_Handle r2 _ _ _) as [r3|] eqn:E3; [|done]. intros [= <-].
  split_and!; try apply all_routes_New. eapply all_routes_Handle; [exact E3| |done]. eapply all_routes_Handle; [exact E2| |done].
  eapply all_routes_Handle; [exact E1|apply all_routes_New|done].
Qed.

Lemma register_methods_ok h adapter ms priv pub priv' pub' :
  endpoint_of adapter = Some h -> register_methods h adapter ms priv pub = Some (priv', pub') ->
  all_routes priv is_endpoint -> all_routes pub is_exposed -> all_routes priv' is_endpoint /\ all_routes pub' is_exposed.
Proof.
  intros Hep. revert priv pub. induction ms as [|m ms IH]; intros priv pub; cbn [register_methods]; [by intros [= -> ->]|].
  destruct (router_Handle priv _ _ _) as [priv1|] eqn:E1; [|done]. cbn [mbind option_bind].
  destruct (bool_decide (AccessType h = Public) || bool_decide (AccessType h = RequiresAuth)) eqn:Ea.
  - destruct (router_Handle pub _ _ _) as [pub1|] eqn:E2; [|done]. cbn [mbind option_bind]. intros He Hpriv Hpub. apply (IH priv1 pub1 He).
    + eapply all_routes_Handle; [exact E1|done|]. by exists h.
    + eapply all_routes_Handle; [exact E2|done|]. exists h. split; [done|]. intros Hp. by rewrite Hp in Ea.
  - cbn [mbind option_bind]. intros He Hpriv Hpub. apply (IH priv1 pub He); [|done]. eapply all_routes_Handle; [exact E1|done|]. by exists h.
Qed.

Lemma registerEndpoint_ok d rs h rs' : routers_ok rs -> registerEndpoint d rs h = Some rs' -> routers_ok rs'.
Proof.
  intros (H1 & H2 & H3 & H4 & H5). unfold registerEndpoint.
  assert (Hadd : forall adapter, endpoint_of adapter = Some h ->
    (if IsFallback h then
      '(priv, pub) ← register_methods h adapter (HTTPMethods h) (privateFallback rs) (publicFallback rs);
      Some (mkRouters (public rs) pub (private rs) priv (encore rs))
    else
      '(priv, pub) ← register_methods h adapter (HTTPMethods h) (private rs) (public rs);
      Some (mkRouters pub (publicFallback rs) priv (privateFallback rs) (encore rs))) = Some rs' -> routers_ok rs').
  { intros adapter Ha. destruct (IsFallback h).
    - destruct (register_methods _ _ _ _ _) as [[priv pub]|] eqn:E; [|done]. cbn [mbind option_bind]. intros [= <-].
      apply (register_methods_ok h adapter) in E as [? ?]; [|done..]. by split_and!.
    - destruct (register_methods _ _ _ _ _) as [[priv pub]|] eqn:E; [|done]. cbn [mbind option_bind]. intros [= <-].
      apply (register_methods_ok h adapter) in E as [? ?]; [|done..]. by split_and!. }
  destruct (IsHostedService _ _); [by apply Hadd|]. destruct (IsGateway d); [|by intros [= <-]].
  unfold createGatewayHandlerAdapter. destruct (ServiceDiscovery d !! ServiceName h) as [[m|]|]; [|done|done]. cbn [mbind option_bind]. by apply Hadd.
Qed.

Lemma register_all_ok d hs rs rs' : routers_ok rs -> register_all d rs hs = Some rs' -> routers_ok rs'.
Proof.
  revert rs. induction hs as [|h hs IH]; intros rs Hok; cbn [register_all]; [by intros [= <-]|].
  destruct (registerEndpoint d rs h) as [rs1|] eqn:E; [|done]. cbn [mbind option_bind]. apply IH. by apply (registerEndpoint_ok d rs h).
Qed.

Lemma findRoute_lookup r method path hd ps : findRoute r method path = FoundRoute hd ps -> lookup_any r method path = Some (hd, ps).
Proof. unfold findRoute. destruct (lookup_any r method path) as [[hd' ps']|]; [by intros [= -> ->]|]. by destruct (handleTrailingSlashRedirect _ _ _) as [[? ?]|]. Qed.

(** A private endpoint is only found with private access. *)
Lemma route_private rs access method path hd ps h : routers_ok rs -> route rs access method path = FoundRoute hd ps ->
  endpoint_of hd = Some h -> AccessType h = Private -> access = true.
Proof.
  intros (H1 & H2 & _ & _ & H5) Hr He Hp. destruct access; [done|]. exfalso.
  assert (Hexp : forall r path', all_routes r is_exposed -> findRoute r method path' = FoundRoute hd ps -> False).
  { intros r path' Ha Hf. destruct (all_routes_lookup r method path' hd ps _ (findRoute_lookup _ _ _ _ _ Hf) Ha) as (h' & Hh' & Hn). congruence. }
  unfold route in Hr. destruct (HasPrefix path _).
  - destruct (findRoute (encore rs) _ _) eqn:Hf; simplify_eq. pose proof (all_routes_lookup _ _ _ _ _ _ (findRoute_lookup _ _ _ _ _ Hf) H5) as Hn. cbn in Hn. congruence.
  - destruct (findRoute (public rs) method path) eqn:Hf; simplify_eq; [by apply (Hexp _ _ H2 Hr) | by apply (Hexp _ _ H1 Hf)].
Qed.

End Routers.

(** ** Trust *)

Section Trust.
Context {R : Type} `{HTTPRouterLaws R}.
Context {D T : Type} `{EqDecision T} `{AuthJSON D T}.
Context (hmac_sha256 : list byte -> list byte -> list byte) (http_ParseTime : gostring -> option Z).
Implicit Types (meta : CallMeta D) (s : Server T) (h : HttpCache.Header).

(** A method the server has loaded accepted the headers. *)
Definition verified s now h : Prop :=
  exists m a, ReadMeta h AuthMethodMetaKey = (m, true) /\ s_inbound s !! m = Some a /\ (sa_verify a now h).2 = None.

Lemma Verify_true s now h h' : loaded_ok (s_inbound s) -> Verify now h (s_inbound s) = (h', inr true) -> verified s now h.
Proof.
  intros Hok. rewrite Verify_lookup by done. destruct (ReadMeta h AuthMethodMetaKey) as [m []] eqn:Hm; cbn [negb]; [|done].
  destruct (s_inbound s !! m) as [a|] eqn:Ha; [|done]. destruct (sa_verify a now h) as [h1 [e|]] eqn:Hv; [done|]. intros _. exists m, a. by rewrite Hv.
Qed.

(** Internal metadata comes from a verified request. *)
Lemma internal_verified s now h h' meta i : loaded_ok (s_inbound s) -> MetaFromRequest s now h = (h', inr meta) -> Internal_ meta = Some i -> verified s now h.
Proof.
  intros Hok. unfold MetaFromRequest. destruct (ReadMeta h versionMetaName) as [v fv]. destruct (fv && _); [done|].
  destruct (read_internal s now h) as [h1 [e|int]] eqn:Hi; [done|]. destruct (read_trace h1 int) as [[[t sp] e] b]. intros [= <- <-]. cbn [Internal_]. intros ->.
  unfold read_internal in Hi. destruct (ReadMeta h callerMetaName) as [c fc]. destruct fc; cbn [negb] in Hi; [|done].
  destruct (Verify now h (s_inbound s)) as [h2 [e'|[]]] eqn:Hv; [done| |done]. by apply (Verify_true s now h h2).
Qed.

(** C7. A private endpoint is only reached by a request the platform signed, or by one whose
    metadata a loaded method verified and whose caller may use private endpoints.  This holds for
    any endpoints registered in any order, whatever the paths and fallbacks. *)
Theorem private_reached s pc d hs rs0 rs now genTraceID req hd ps meta platform req' ep :
  loaded_ok (s_inbound s) -> NewRouters = Some rs0 -> register_all d rs0 hs = Some rs ->
  handler (R := R) hmac_sha256 http_ParseTime s pc rs now genTraceID req = Dispatch hd ps meta platform req' ->
  endpoint_of hd = Some ep -> AccessType ep = Private ->
  (exists authKeys, pc = Some authKeys /\ header_Get (r_Header req) (lit "X-Encore-Auth") <> [] /\
     ValidatePlatformRequest hmac_sha256 http_ParseTime authKeys now req (header_Get (r_Header req) (lit "X-Encore-Auth")) = true) \/
  (exists i, Internal_ meta = Some i /\ caller_PrivateAPIAccess (Caller_ i) = true /\ verified s now (r_Header req)).
Proof.
  intros Hok Hnew Hall Hd He Hp. apply NewRouters_ok in Hnew. apply (register_all_ok d hs rs0 rs Hnew) in Hall. unfold handler in Hd.
  set (checked := match pc with Some _ => _ | None => _ end) in Hd. destruct checked as [pl|] eqn:Hc; [|done]. unfold extractCallMeta in Hd.
  destruct (MetaFromRequest s now (r_Header req)) as [h1 [e|m]] eqn:Hm; [done|].
  destruct (if decide (_ = zero_TraceID) then _ else _) as [tid parent]. cbn [r_Method r_URL with_headers] in Hd.
  set (m' := mkMeta tid _ parent _ _ _ _) in Hd. destruct (route rs _ _ _) eqn:Hr; [done| |done]. injection Hd as -> -> <- -> <-.
  apply (route_private rs _ _ _ hd ps ep Hall) in Hr; [|done|done]. apply orb_true_iff in Hr as [->|Hpa].
  - left. unfold checked in Hc. destruct pc as [authKeys|]; [|done]. exists authKeys. destruct (decide _); [done|].
    destruct (ValidatePlatformRequest _ _ _ _ _ _); [done|done].
  - right. unfold PrivateAPIAccess in Hpa. subst m'. cbn [Internal_] in *. destruct (Internal_ m) as [i|] eqn:Hi; [|done]. exists i. split; [done|]. split; [done|].
    by apply (internal_verified s now _ h1 m i).
Qed.

(** ** Users *)

Lemma runAuthHandler_proceeds auth hd meta req info : runAuthHandler auth hd meta req = Ok (inr info) ->
  (IsServiceToService meta = true /\ info = context_auth meta /\ is_Some auth) \/
  (IsServiceToService meta = false /\ exists a, auth = Some a /\ a req meta = inr info) \/ (AccessType hd <> RequiresAuth /\ info = no_info).
Proof.
  unfold runAuthHandler. destruct auth as [a|].
  - destruct (IsServiceToService meta).
    + destruct (_ && _); [done|]. intros [= <-]. left. by split_and!.
    + destruct (a req meta) as [code|info'] eqn:Ha.
      * destruct (code =? Unauthenticated); cbn [andb]; [|done]. destruct (bool_decide_reflect (AccessType hd = RequiresAuth)); [done|]. intros [= <-]. by right; right.
      * intros [= <-]. right. left. split; [done|]. by exists a.
  - destruct (bool_decide_reflect (AccessType hd = RequiresAuth)); [done|]. intros [= <-]. by right; right.
Qed.

Lemma dispatch_meta s pc (rs : Routers R) now genTraceID req hd ps meta platform req' :
  handler hmac_sha256 http_ParseTime s pc rs now genTraceID req = Dispatch hd ps meta platform req' ->
  exists h1 m, MetaFromRequest s now (r_Header req) = (h1, inr m) /\ Internal_ meta = Internal_ m /\ r_Header req' = h1.
Proof.
  unfold handler. destruct (match pc with Some _ => _ | None => _ end); [|done]. unfold extractCallMeta.
  destruct (MetaFromRequest s now (r_Header req)) as [h1 [e|m]] eqn:Hm; [done|]. destruct (if decide (_ = zero_TraceID) then _ else _) as [tid parent].
  destruct (route rs _ _ _); [done| |done]. intros [= -> -> <- -> <-]. by exists h1, m.
Qed.

(** C10. An endpoint that requires a user is served with one: the user the authentication handler
    returned for this request, or the user of an internal call that was verified and that
    names this endpoint as its callee. *)
Theorem user_required s pc (rs : Routers R) now genTraceID req ep ps meta platform req' auth w info m :
  loaded_ok (s_inbound s) ->
  handler hmac_sha256 http_ParseTime s pc rs now genTraceID req = Dispatch (ServiceAdapter ep) ps meta platform req' ->
  serve auth ep meta req' = (w, Ok (Served ep info m)) -> AccessType ep = RequiresAuth ->
  UID info <> [] /\
  ((exists a, auth = Some a /\ Internal_ meta = None /\ a (with_headers req' (header_Del (r_Header req') (lit "X-Encore-Auth"))) meta = inr info) \/
   (verified s now (r_Header req) /\ info = context_auth meta /\
    (ReadMeta (header_Del (r_Header req') (lit "X-Encore-Auth")) calleeMetaName).1 = callee_name ep)).
Proof.
  intros Hok Hd. destruct (dispatch_meta _ _ _ _ _ _ _ _ _ _ _ Hd) as (h1 & meta0 & Hm & Hint & _). unfold serve. set (req'' := with_headers req' _). intros [= _ Hs] Ha. unfold processRequest in Hs.
  destruct (runAuthHandler auth ep meta req'') as [[code|info']| |] eqn:Hr; try done. injection Hs as Hs. unfold desc_Handle, begin_check in Hs.
  destruct (IsServiceToService meta && _) eqn:Hcallee; [done|]. rewrite Ha in Hs. rewrite (bool_decide_eq_true_2 (RequiresAuth = _)) in Hs by done. cbn [andb] in Hs.
  destruct (bool_decide_reflect (UID info' = [])) as [|Huid]; [done|]. injection Hs as -> ->. split; [done|].
  apply runAuthHandler_proceeds in Hr as [(Hss & -> & _)|[(Hss & a & -> & Hi)|[Hn _]]]; [right|left|done].
  - rewrite Hss in Hcallee. cbn [andb] in Hcallee. apply negb_false_iff, bool_decide_eq_true in Hcallee. split_and!; [|done|done].
    unfold IsServiceToService in Hss. apply bool_decide_eq_true in Hss as [i Hi]. apply (internal_verified s now (r_Header req) h1 meta0 i); [done|done|congruence].
  - exists a. split_and!; [done| |done]. unfold IsServiceToService in Hss. apply bool_decide_eq_false in Hss. by apply eq_None_not_Some.
Qed.

End Trust.
