(* ===== verification/GatewayTheorems.v ===== *)
(** The gateway and the services behind it, the remote authentication handler, and requests of
    the platform: what one side sends the other accepts. *)

From S2P Require Import Prelude GoSort Run Utf8 GoText Strconv Errs TraceBuffer TraceModel Base32 Uuid UuidTheorems HttpCache HttpCacheTheorems.
From S2P Require Import SvcAuth SvcAuthTheorems SvcAuthSound CallMeta CallMetaTheorems Access AccessTheorems.
From stdpp Require Import list.
Local Open Scope Z_scope.
Opaque mname.

(** ** Headers the proxy sets after signing *)

Definition forwarded_names : list gostring := [lit "X-Forwarded-For"; lit "X-Forwarded-Host"; lit "X-Forwarded-Proto"].

Lemma forwarded_unsigned : Forall (fun n => signed_name n = None /\ (n ∉ method_name :: auth_names) /\ CanonicalHeaderKey n = n) forwarded_names.
Proof. repeat (apply Forall_cons; split; [split; [vm_compute; reflexivity|split; [not_in|vm_compute; reflexivity]]|]). apply Forall_nil_2. Qed.

Lemma SetXForwarded_frame (client : option gostring) (host : gostring) (tls : bool) (out : HttpCache.Header) (name : gostring) : name ∉ forwarded_names -> SetXForwarded client host tls out !! name = out !! name.
Proof.
  intros Hn. unfold forwarded_names in Hn. rewrite !not_elem_of_cons in Hn. destruct Hn as (N1 & N2 & N3 & _).
  unfold SetXForwarded, header_Set, header_Del.
  change (CanonicalHeaderKey (lit "X-Forwarded-For")) with (lit "X-Forwarded-For"). change (CanonicalHeaderKey (lit "X-Forwarded-Host")) with (lit "X-Forwarded-Host").
  change (CanonicalHeaderKey (lit "X-Forwarded-Proto")) with (lit "X-Forwarded-Proto"). rewrite !lookup_insert_ne by congruence.
  destruct client as [ip|]; [|by rewrite lookup_delete_ne by congruence]. destruct (header_Values out _); by rewrite lookup_insert_ne by congruence.
Qed.

(** What the service needs of a request is not changed by these headers. *)
Lemma delivered_forwarded h1 h2 h3 : (forall name, name ∉ forwarded_names -> h2 !! name = h1 !! name) -> delivered h2 h3 -> delivered h1 h3.
Proof.
  intros Hf (Hw & Hs & Hn). pose proof forwarded_unsigned as Hu. rewrite Forall_forall in Hu. split; [done|]. split.
  - transitivity h2; [|done]. intros name [k Hk]. rewrite Hf; [done|]. intros Hin. destruct (Hu name Hin) as (He & _). congruence.
  - intros name Hin. rewrite Hn by done. apply Hf. intros Hin'. by destruct (Hu name Hin') as (_ & He & _).
Qed.

Lemma callee_signed : is_Some (signed_name (mname calleeMetaName)).
Proof. eexists. vm_compute. reflexivity. Qed.

Section Gateway.
Context {D T : Type} `{EqDecision T} `{AuthJSONLaws D T}.
Implicit Types (meta : CallMeta D) (s : Server T) (h : HttpCache.Header) (host : gostring) (tls : bool) (client : option gostring).

Definition gateway_caller : Caller := GatewayCaller (lit "api-gateway").

Lemma wf_gateway_caller : wf_caller gateway_caller.
Proof. cbn. not_in. Qed.

(** The request behind the gateway, as the service reads it. *)
Lemma rewrite_arrives s s' out inb sent received target ep meta info client host tls inn h :
  AuthPair out inb sent received ->
  s_outbound s !! target = Some out -> loaded_ok (s_inbound s') -> s_inbound s' !! sa_method inb = Some inb ->
  sendable (RegisteredAuthDataType s') (mkInternal gateway_caller (UID info) (UserData info)) -> wf_header h -> no_user h ->
  forall h2, delivered (rewrite s sent target ep (gateway_meta meta info) client host tls inn h) h2 ->
  exists h3 m, MetaFromRequest s' received h2 = (h3, inr m) /\ Internal_ m = Some (mkInternal gateway_caller (UID info) (UserData info)) /\
    (ReadMeta h3 calleeMetaName).1 = callee_name ep.
Proof.
  intros Hpair Hout Hok Hin Hsend Hw [Hnu Hnd] h2 Hdel. set (h0 := SetMeta h calleeMetaName (callee_name ep)). set (i := mkInternal gateway_caller (UID info) (UserData info)).
  assert (Hnu0 : no_user h0) by (split; unfold h0; rewrite lookup_meta_ne by name_ne; done).
  destruct (call_arrives s s' out inb sent received target (gateway_meta meta info) i h0 Hpair Hout Hok Hin eq_refl wf_gateway_caller Hsend (wf_SetMeta _ _ _ Hw) Hnu0)
    as (h1 & Hadd & Hw1 & Hframe & Hread).
  assert (Hd1 : delivered h1 h2).
  { eapply delivered_forwarded; [|exact Hdel]. intros name Hn. unfold rewrite. fold h0. rewrite Hadd. rewrite SetXForwarded_frame by done.
    apply lookup_insert_ne. intros <-. apply Hn. by left. }
  destruct (Hread h2 Hd1) as (h3 & m & Hm & Hr & Hi & _). exists h3, m. split; [done|]. split; [done|].
  assert (Hc1 : h1 !! mname calleeMetaName = Some [callee_name ep]).
  { apply same_single. symmetry. assert (Hp : prepared s (gateway_meta meta info) i h0 !! mname calleeMetaName = Some [callee_name ep]) by (rewrite prepared_callee; unfold h0; apply lookup_meta_eq).
    rewrite <- Hp. apply Hframe. not_in. }
  destruct (arrives h1 h2 h3 _ _ callee_signed Hc1 Hd1 Hr) as [_ Hc3].
  rewrite (ReadMeta_single h3 _ _ Hc3); [done|]. unfold callee_name. by destruct (ServiceName ep).
Qed.

(** C9. The gateway and the service agree.  A request the gateway lets through to an endpoint is served
    by that endpoint with the user the gateway determined, without access to private endpoints,
    provided the client sent no user metadata of its own. *)
Theorem gateway_served s s' out inb sent received target ep meta info client host tls proxied req authG authS :
  AuthPair out inb sent received ->
  s_outbound s !! target = Some out -> loaded_ok (s_inbound s') -> s_inbound s' !! sa_method inb = Some inb ->
  runAuthHandler authG ep meta req = Ok (inr info) -> (AccessType ep = RequiresAuth -> UID info <> []) ->
  sendable (RegisteredAuthDataType s') (mkInternal gateway_caller (UID info) (UserData info)) ->
  wf_header (proxied (r_Header req)) -> no_user (proxied (r_Header req)) ->
  exists out, gateway s authG sent target ep meta client host tls proxied req = Ok (Forwarded out) /\
    forall h2, delivered out h2 -> exists h3 m, MetaFromRequest s' received h2 = (h3, inr m) /\ PrivateAPIAccess m = false /\
      processRequest (Some authS) ep m (with_headers req h3) = Ok (Served ep info m).
Proof.
  intros Hpair Hout Hok Hin Hrun Huid Hsend Hw Hnu. unfold gateway. rewrite Hrun, bind_Ok. eexists. split; [done|]. intros h2 Hdel.
  destruct (rewrite_arrives s s' _ inb sent received target ep meta info client host tls _ _ Hpair Hout Hok Hin Hsend Hw Hnu h2 Hdel) as (h3 & m & Hm & Hi & Hc).
  exists h3, m. split; [done|]. split; [unfold PrivateAPIAccess; by rewrite Hi|]. unfold processRequest, runAuthHandler.
  assert (Hss : IsServiceToService m = true) by (unfold IsServiceToService; rewrite Hi; by apply bool_decide_eq_true).
  assert (Hca : context_auth m = info) by (unfold context_auth; rewrite Hi; by destruct info). rewrite Hss, Hca.
  replace (bool_decide (UID info = []) && bool_decide (AccessType ep = RequiresAuth)) with false.
  2:{ destruct (bool_decide_reflect (UID info = [])); [|done]. destruct (bool_decide_reflect (AccessType ep = RequiresAuth)); [by destruct Huid|done]. }
  rewrite bind_Ok. unfold desc_Handle, begin_check. rewrite Hss. cbn [r_Header with_headers]. rewrite Hc, (bool_decide_eq_true_2 (callee_name ep = _)) by done. cbn [negb andb].
  destruct (bool_decide_reflect (AccessType ep = RequiresAuth)); cbn [andb]; [|done]. destruct (bool_decide_reflect (UID info = [])); [by destruct Huid|done].
Qed.

(** ** The remote authentication handler *)

Lemma wf_auth_caller : wf_caller auth_caller.
Proof. cbn. not_in. Qed.

Lemma sendable_nobody registered (c : Caller) : sendable registered (mkInternal (D := D) c [] None).
Proof. split; [by destruct registered|done]. Qed.

(** The service that hosts the authentication handler lets the gateway's request through to the
    handler, which does not see that the call was internal. *)
Theorem remote_auth_passes s s' out inb sent received target meta h :
  AuthPair out inb sent received ->
  s_outbound s !! target = Some out -> loaded_ok (s_inbound s') -> s_inbound s' !! sa_method inb = Some inb ->
  wf_header h -> no_user h ->
  exists h1, remote_auth_request s sent target meta h = (h1, None) /\ wf_header h1 /\
    forall h2, delivered h1 h2 -> exists h3 m m', MetaFromRequest s' received h2 = (h3, inr m) /\
      remote_auth_gate m = inr m' /\ Internal_ m' = None /\
      forall authenticate req, handleRemoteAuthCall authenticate m req = authenticate req m'.
Proof.
  intros Hpair Hout Hok Hin Hw [Hnu Hnd]. unfold remote_auth_request. set (h0 := delete (lit "X-Encore-Auth") h). set (i := mkInternal auth_caller [] None).
  assert (Hw0 : wf_header h0) by (by apply map_Forall_delete). assert (Hdel0 : forall k, lit "X-Encore-Auth" <> mname k -> h !! mname k = None -> h0 !! mname k = None).
  { intros k Hk Hn. unfold h0. by rewrite lookup_delete_ne. }
  assert (Hnu0 : no_user h0) by (split; (apply Hdel0; [name_ne|done])).
  destruct (call_arrives s s' out inb sent received target (mkMeta (TraceID_ meta) (SpanID_ meta) (ParentSpanID meta) (ParentEventID meta) (CorrelationID meta) (TraceSampled meta) (Some i)) i h0
    Hpair Hout Hok Hin eq_refl wf_auth_caller (sendable_nobody _ _) Hw0 Hnu0) as (h1 & Hadd & Hw1 & _ & Hread).
  exists h1. split; [done|]. split; [done|]. intros h2 Hdel. destruct (Hread h2 Hdel) as (h3 & m & Hm & _ & Hi & _). exists h3, m. eexists. split; [done|].
  unfold handleRemoteAuthCall, remote_auth_gate. rewrite Hi. cbn. done.
Qed.

End Gateway.

(** ** Base 64 *)

Lemma b64_value_digit v : 0 <= v < 64 -> b64_value (b64_digit v) = Some v /\ b64_digit v <> Byte.x0a /\ b64_digit v <> Byte.x0d.
Proof.
  intros Hv. assert (Ha : Forall (fun n => b64_value (b64_digit (Z.of_nat n)) = Some (Z.of_nat n) /\ b64_digit (Z.of_nat n) <> Byte.x0a /\ b64_digit (Z.of_nat n) <> Byte.x0d) (seq 0 64)).
  { cbn [seq]. repeat (apply Forall_cons; split; [split; [vm_compute; reflexivity|split; discriminate]|]). apply Forall_nil_2. }
  rewrite Forall_forall in Ha. specialize (Ha (Z.to_nat v)). rewrite Z2Nat.id in Ha by lia. apply Ha, elem_of_seq. lia.
Qed.

(** Induction in steps of three. *)
Lemma list_ind3 {A} (P : list A -> Prop) : P [] -> (forall a, P [a]) -> (forall a b, P [a; b]) -> (forall a b c l, P l -> P (a :: b :: c :: l)) -> forall l, P l.
Proof.
  intros H0 H1 H2 H3. fix IH 1. intros [|a [|b [|c l]]]; [exact H0|apply H1|apply H2|apply H3, IH].
Qed.

Lemma byte_of a z : z = Z_of_byte a -> byte_of_Z z = a.
Proof. intros ->. apply byte_of_Z_of_byte. Qed.

Lemma b64_no_break bs : Forall (fun c => c <> Byte.x0a /\ c <> Byte.x0d) (b64_encode bs).
Proof.
  assert (Hd : forall v, 0 <= v < 64 -> b64_digit v <> Byte.x0a /\ b64_digit v <> Byte.x0d) by (intros v Hv; by destruct (b64_value_digit v Hv)).
  induction bs as [|a|a b|a b c bs IH] using list_ind3; [constructor|..]; cbn [b64_encode]; pose proof (Z_of_byte_range a); try pose proof (Z_of_byte_range b); try pose proof (Z_of_byte_range c);
    repeat (apply Forall_cons; split; [apply Hd; Z.to_euclidean_division_equations; lia|]); (exact IH || apply Forall_nil_2).
Qed.

Lemma b64_groups_encode bs : b64_groups (b64_encode bs) = Some bs.
Proof.
  assert (Hd : forall v, 0 <= v < 64 -> b64_value (b64_digit v) = Some v) by (intros v Hv; by destruct (b64_value_digit v Hv)).
  induction bs as [|a|a b|a b c bs IH] using list_ind3; [done|..]; cbn [b64_encode b64_groups]; pose proof (Z_of_byte_range a) as Ra; try pose proof (Z_of_byte_range b) as Rb; try pose proof (Z_of_byte_range c) as Rc.
  - rewrite !Hd by (Z.to_euclidean_division_equations; lia). cbn [mbind option_bind]. do 2 f_equal. apply byte_of. Z.to_euclidean_division_equations; lia.
  - rewrite !Hd by (Z.to_euclidean_division_equations; lia). cbn [mbind option_bind]. repeat f_equal; apply byte_of; Z.to_euclidean_division_equations; lia.
  - rewrite !Hd by (Z.to_euclidean_division_equations; lia). cbn [mbind option_bind]. rewrite IH. cbn [mbind option_bind]. repeat f_equal; apply byte_of; Z.to_euclidean_division_equations; lia.
Qed.

Lemma b64_roundtrip bs : b64_DecodeString (b64_encode bs) = Some bs.
Proof.
  unfold b64_DecodeString. assert (Hf : filter (fun c => c <> Byte.x0a /\ c <> Byte.x0d) (b64_encode bs) = b64_encode bs).
  { pose proof (b64_no_break bs) as Hn. induction Hn as [|c l Hc Hn IH]; [done|]. rewrite filter_cons, decide_True by done. by rewrite IH. }
  rewrite Hf. apply b64_groups_encode.
Qed.

(** ** Requests of the platform *)

Lemma auth_header_names : CanonicalHeaderKey (lit "X-Encore-Auth") <> CanonicalHeaderKey (lit "Date").
Proof. name_ne. Qed.

Lemma header_Get_Set h name name' v : header_Get (header_Set h name v) name' =
  if decide (CanonicalHeaderKey name' = CanonicalHeaderKey name) then v else header_Get h name'.
Proof.
  unfold header_Get, header_Set. destruct (decide _) as [->|Hn]; [by rewrite lookup_insert_eq | by rewrite lookup_insert_ne by congruence].
Qed.

Section Platform.
Context (hmac_sha256 : list byte -> list byte -> list byte) (http_ParseTime : gostring -> option Z) (http_FormatTime : Z -> gostring).

(** A date is read back, cut to seconds. *)
Hypothesis date_text : forall now, http_FormatTime now <> [] /\ exists t, http_ParseTime (http_FormatTime now) = Some t /\ 0 <= now - t < 10 ^ 9.

(** The parts of a request the signature is about. *)
Definition same_for_platform (r r' : HTTPRequest) : Prop :=
  u_Path (r_URL r) = u_Path (r_URL r') /\ forall name, name ∈ [lit "X-Encore-Auth"; lit "Date"] -> header_Get (r_Header r) name = header_Get (r_Header r') name.

(** C14. A request signed with the first key is accepted by a server that finds this key under its
    id, if it arrives within fifteen minutes (less the second the date is cut by); only the path,
    the date and the signature have to arrive. *)
Theorem platform_accepted authKeys authKeys' sent received req req' arrived k :
  head authKeys = Some k -> is_u32 (KeyID k) -> head (filter (fun k' => KeyID k' = KeyID k) authKeys') = Some k ->
  - threshold <= received - sent <= threshold - 10 ^ 9 ->
  addAuthKey hmac_sha256 http_FormatTime authKeys sent req = Some req' -> same_for_platform arrived req' ->
  ValidatePlatformRequest hmac_sha256 http_ParseTime authKeys' received arrived (header_Get (r_Header arrived) (lit "X-Encore-Auth")) = true.
Proof.
  intros Hk Hid Hfind Htime. unfold addAuthKey. rewrite Hk. cbn [mbind option_bind]. intros Hr%(inj Some) [Hpath Hnames]. subst req'.
  destruct (date_text sent) as [Hne (t & Ht & Hcut)].
  pose proof (Hnames (lit "Date") ltac:(by right; left)) as Hdate. rewrite (Hnames (lit "X-Encore-Auth")) by (by left). cbn [r_Header r_URL] in *.
  rewrite header_Get_Set, decide_False, header_Get_Set, decide_True in Hdate by (done || apply not_eq_sym, auth_header_names).
  rewrite header_Get_Set, decide_True by done. unfold ValidatePlatformRequest. rewrite b64_roundtrip. set (mac := hmac_sha256 _ _).
  assert (Hl : length (reverse (le_bytes 4 (KeyID k))) = 4%nat) by (by rewrite length_reverse, length_le_bytes).
  assert (Hb : (blen (reverse (le_bytes 4 (KeyID k)) ++ mac) <? 4) = false) by (unfold blen; rewrite length_app, Hl; apply Z.ltb_ge; lia). rewrite Hb, take_app_length', drop_app_length' by done.
  rewrite reverse_involutive, le_value_bytes, Z.mod_small by (unfold is_u32 in Hid; cbn; lia). rewrite Hfind. unfold checkAuthKey. rewrite Hdate, decide_False, Ht by done.
  assert (Hs : since received t = received - t) by (unfold since, clip, threshold in *; lia). rewrite Hs.
  replace (threshold <? received - t) with false by lia. replace (received - t <? - threshold) with false by lia. cbn [orb]. apply bool_decide_eq_true. by rewrite Hpath.
Qed.

End Platform.
