(* ===== verification/AccessWitnesses.v ===== *)
(** Requests between two services and through a gateway, evaluated: the theorems of the components
    at these inputs, and where the code departs from what it says. *)

From S2P Require Import Prelude GoSort Run Utf8 GoText Strconv Errs TraceBuffer TraceModel Base32 Uuid UuidTheorems HttpCache HttpCacheTheorems.
From S2P Require Import SvcAuth SvcAuthTheorems SvcAuthSound CallMeta CallMetaTheorems Access AccessTheorems GatewayTheorems.
From stdpp Require Import list.
Local Open Scope Z_scope.
Opaque mname.

(** A signing kit that writes down what it signs, JSON that quotes, and a router that compares paths. *)
Module Demo.

Definition seal (k : EncoreAuthKey) (slug env : gostring) (t : Z) (op : gostring) : AuthHeaders :=
  mkAuthHeaders (Byte.x41 :: Wire.of_pos (encode (KeyID k, slug, env, t, op))) (lit "now").

Definition unseal (h : AuthHeaders) : option Components :=
  match Authorization h with
  | _ :: b => '(id, slug, env, t, op) ← decode (Wire.to_pos b); Some (mkComponents id slug env t op)
  | [] => None
  end.

Definition same_headers (a b : AuthHeaders) : bool := bool_decide (Authorization a = Authorization b) && bool_decide (ah_Date a = ah_Date b).

#[export] Instance kit : SigningKit := {
  auth_Sign k slug env now op := seal k slug env (now - now mod 10 ^ 9) op;
  auth_SignForVerification := seal;
  auth_SigningComponents := unseal;
  auth_Equal := same_headers;
  auth_NewOperationHash _ _ payload := Some payload;
  sha3_Sum256 p := p
}.

Lemma unseal_seal k slug env t op : unseal (seal k slug env t op) = Some (mkComponents (KeyID k) slug env t op).
Proof. unfold unseal, seal. cbn [Authorization]. rewrite Wire.to_of_pos, countable.decode_encode. done. Qed.

#[export] Instance kit_laws : SigningKitLaws.
Proof.
  split.
  - intros k slug env now op. exists (now - now mod 10 ^ 9). split; [apply unseal_seal|]. split; [pose proof (Z.mod_pos_bound now (10 ^ 9)); lia|].
    cbn. unfold same_headers. by rewrite !bool_decide_eq_true_2.
  - done.
  - intros payload. by exists payload.
Qed.

#[export] Instance json : AuthJSON gostring unit := {
  typeOf _ := tt;
  authJSON_Marshal d := Some (Byte.x22 :: d);
  authJSON_Unmarshal t s := match t, s with Some _, _ :: d => Some (Some d) | _, _ => None end
}.

#[export] Instance json_laws : AuthJSONLaws gostring unit.
Proof. split. by intros d s [= <-]. Qed.

#[export] Instance router : HTTPRouter (list (gostring * gostring * Handle)) := {
  router_New := [];
  router_Handle r m p h := Some ((m, p, h) :: r);
  router_Lookup r m p := '(_, h) ← head (filter (fun e => e.1 = (m, p)) r); Some (h, []);
  routes r := r
}.

#[export] Instance router_laws : HTTPRouterLaws (list (gostring * gostring * Handle)).
Proof.
  split; [done|by intros r m p h r' [= <-]|]. intros r m p h ps. cbn. destruct (head (filter _ r)) as [[[m' p'] h']|] eqn:Hh; [|done]. cbn. intros [= -> _].
  assert (Hin : (m', p', h) ∈ filter (fun e : gostring * gostring * Handle => e.1 = (m, p)) r) by (destruct (filter _ r); [done|]; injection Hh as ->; by left).
  apply list_elem_of_filter in Hin as [[= -> ->] Hin]. by exists p.
Qed.

Definition key : EncoreAuthKey := mkKey 7 (lit "secret").
Definition auth : encoreAuth := newEncoreAuth (lit "shop") (lit "prod") [mkKey 3 (lit "old"); key].
Definition signer : ServiceAuth := encore_auth auth.
Definition methods : gmap gostring ServiceAuth := {[ ea_method := signer ]}.
Definition node (cloud : gostring) : Server unit := mkServer cloud (lit "dep-1") methods methods (Some tt).

(** Half a minute passes. *)
Definition sent : Z := 1700000000 * 10 ^ 9.
Definition received : Z := sent + 30 * 10 ^ 9.

Lemma pair : AuthPair signer signer sent received.
Proof. apply encore_pair; [done|done|]. split; vm_compute; discriminate. Qed.

Lemma methods_ok : loaded_ok methods.
Proof. by apply map_Forall_singleton. Qed.

Lemma methods_signer : methods !! sa_method signer = Some signer.
Proof. apply lookup_singleton_eq. Qed.

Definition trace : list byte := lit "0123456789abcdef".
Definition span : list byte := lit "87654321".
Definition caller : InternalCallMeta gostring := mkInternal (ApiCaller (lit "cart") (lit "Checkout")) (lit "u42") (Some (lit "gold")).
Definition meta : CallMeta gostring := mkMeta trace zero_SpanID span 1234 (lit "corr-1") true (Some caller).

Definition users : list (gostring * list gostring) := [(lit "Accept", [lit "text/html"])].
Definition plain_request : Header := list_to_map users.

Lemma wf_plain : wf_header plain_request.
Proof. apply map_Forall_insert_2; [by split|]. apply map_Forall_empty. Qed.

Lemma no_user_plain : no_user plain_request.
Proof. split; vm_compute; reflexivity. Qed.

End Demo.
Existing Instances Demo.kit Demo.kit_laws Demo.json Demo.json_laws Demo.router Demo.router_laws.

Module Exchange.
Import Demo.

(** ** A call between services *)

Definition request : Header := (AddToRequest (node (lit "aws")) sent ea_method meta plain_request).1.

Lemma delivered_all h : wf_header h -> delivered h h.
Proof. intros Hw. split; [exact Hw|]. split; [reflexivity|]. intros; reflexivity. Qed.

Lemma has_parent_meta : has_parent meta.
Proof. split_and!; vm_compute; first [reflexivity | discriminate | split; [discriminate|reflexivity]]. Qed.

(** [call_roundtrip] for a call of one service by another. *)
Lemma call_roundtrip_witness : exists h1 h3 m, AddToRequest (node (lit "aws")) sent ea_method meta plain_request = (h1, None) /\
  MetaFromRequest (node (lit "gcp")) received h1 = (h3, inr m) /\ Internal_ m = Some caller /\ CorrelationID m = lit "corr-1" /\ trace_of m = trace_of meta.
Proof.
  destruct (call_roundtrip (node (lit "aws")) (node (lit "gcp")) signer signer sent received ea_method meta caller plain_request) as (h1 & Ha & Hw & Hr).
  - exact pair.
  - apply methods_signer.
  - apply methods_ok.
  - apply methods_signer.
  - reflexivity.
  - cbn. not_in.
  - split; [reflexivity|]. intros d _. by eexists.
  - apply wf_plain.
  - apply no_user_plain.
  - destruct (Hr h1) as (h3 & m & Hm & _ & Hi & Hc & Ht); [exact (delivered_all h1 Hw)|]. exists h1, h3, m. split; [exact Ha|]. split; [exact Hm|]. split; [exact Hi|]. split; [apply Hc; discriminate|].
    apply Ht; [exact has_parent_meta|discriminate|reflexivity].
Defined.

(** The same request with another trace header. *)
Definition retraced : Header := SetMeta request TraceParentKey (lit "00-x-y-00").

Lemma wire_demo : wire_header request /\ wire_header retraced.
Proof. split; unfold wire_header, wf_header; apply (bool_decide_unpack _); vm_compute; exact I. Qed.

(** [signature_binds] for a request a load balancer gave another trace header. *)
Lemma signature_binds_witness :
  (ea_verify auth received request).2 = None /\ (ea_verify auth (received + 10 ^ 9) retraced).2 = None /\
  (same_signed request retraced \/ (payload request <> payload retraced /\ is_Some (op_hash request) /\ op_hash request = op_hash retraced)).
Proof.
  split; [vm_compute; reflexivity|]. split; [vm_compute; reflexivity|].
  apply (signature_binds auth auth received (received + 10 ^ 9) request retraced); [apply wire_demo|apply wire_demo|vm_compute; reflexivity|vm_compute; reflexivity|vm_cast_no_check (eq_refl (auth_headers request))].
Defined.

(** ** Requests at a server *)

Definition charge : Endpoint := mkEndpoint (lit "billing") (lit "Charge") Private (lit "/charge") [lit "POST"] false.
Definition invoice : Endpoint := mkEndpoint (lit "billing") (lit "Invoice") RequiresAuth (lit "/invoice") [lit "GET"; lit "*"] false.
Definition deployment : Deployment := mkDeployment [lit "billing"] [] ∅.

Abbreviation table := (list (gostring * gostring * Handle)).

Definition no_routes : Routers table := mkRouters [] [] [] [] [].
Definition routers0 : Routers table := default no_routes NewRouters.
Definition routers : Routers table := default no_routes (register_all deployment routers0 [charge; invoice]).

Definition hmac (k m : list byte) : list byte := k ++ m.
Definition parse_time (s : gostring) : option Z := match s with _ :: b => decode (Wire.to_pos b) | [] => None end.
Definition format_time (now : Z) : gostring := Byte.x44 :: Wire.of_pos (encode (now - now mod 10 ^ 9)).

Definition to_ (method path : gostring) (h : Header) : HTTPRequest := mkHTTPRequest method (mkURL path [] []) h.
Definition call (ep : Endpoint) : Header := (AddToRequest (node (lit "aws")) sent ea_method meta (SetMeta plain_request calleeMetaName (callee_name ep))).1.

Definition answer (pc : option (list EncoreAuthKey)) (req : HTTPRequest) : Outcome gostring := handler hmac parse_time (node (lit "gcp")) pc routers received trace req.
Definition meta_of (o : Outcome gostring) : CallMeta gostring := match o with Dispatch _ _ m _ _ => m | _ => zero_meta end.
Definition req_of (o : Outcome gostring) : HTTPRequest := match o with Dispatch _ _ _ _ r => r | _ => to_ [] [] ∅ end.

Definition charged : Outcome gostring := answer None (to_ (lit "POST") (lit "/charge") (call charge)).

(** [private_reached] for a call of a private endpoint by a service. *)
Lemma private_reached_witness :
  charged = Dispatch (ServiceAdapter charge) [] (meta_of charged) false (req_of charged) /\
  ((exists authKeys, None = Some authKeys /\ header_Get (call charge) (lit "X-Encore-Auth") <> [] /\
      ValidatePlatformRequest hmac parse_time authKeys received (to_ (lit "POST") (lit "/charge") (call charge)) (header_Get (call charge) (lit "X-Encore-Auth")) = true) \/
   (exists i, Internal_ (meta_of charged) = Some i /\ caller_PrivateAPIAccess (Caller_ i) = true /\ verified (node (lit "gcp")) received (call charge))).
Proof.
  assert (E : charged = Dispatch (ServiceAdapter charge) [] (meta_of charged) false (req_of charged)) by (vm_cast_no_check (eq_refl charged)). split; [exact E|].
  apply (private_reached hmac parse_time (node (lit "gcp")) None deployment [charge; invoice] routers0 routers received trace
    (to_ (lit "POST") (lit "/charge") (call charge)) (ServiceAdapter charge) [] (meta_of charged) false (req_of charged) charge).
  - apply methods_ok.
  - reflexivity.
  - vm_compute. reflexivity.
  - exact E.
  - reflexivity.
  - reflexivity.
Defined.

Definition nobody (_ : HTTPRequest) (_ : CallMeta gostring) : Z + AuthInfo gostring := inl Unauthenticated.
Definition invoiced : Outcome gostring := answer None (to_ (lit "GET") (lit "/invoice") (call invoice)).

(** [user_required] for a call of an endpoint that requires a user. *)
Lemma user_required_witness :
  (serve (Some nobody) invoice (meta_of invoiced) (req_of invoiced)).2 = Ok (Served invoice (mkInfo (lit "u42") (Some (lit "gold"))) (meta_of invoiced)) /\
  UID (mkInfo (lit "u42") (Some (lit "gold"))) <> [].
Proof.
  set (o := invoiced). set (info := mkInfo (lit "u42") (Some (lit "gold"))).
  assert (E : invoiced = Dispatch (ServiceAdapter invoice) [] (meta_of o) false (req_of o)) by (vm_cast_no_check (eq_refl invoiced)).
  assert (Hr : (serve (Some nobody) invoice (meta_of o) (req_of o)).2 = Ok (Served invoice info (meta_of o))) by (vm_cast_no_check (eq_refl (Ok (Served invoice info (meta_of o))))).
  clearbody o. assert (Hs := surjective_pairing (serve (Some nobody) invoice (meta_of o) (req_of o))). rewrite Hr in Hs.
  split; [exact Hr|]. unfold invoiced, answer in E.
  exact (proj1 (user_required hmac parse_time (node (lit "gcp")) None routers received trace (to_ (lit "GET") (lit "/invoice") (call invoice)) invoice []
    (meta_of o) false (req_of o) (Some nobody) _ _ (meta_of o) methods_ok E Hs eq_refl)).
Defined.

(** ** The gateway *)

Definition outside : CallMeta gostring := mkMeta trace zero_SpanID zero_SpanID 0 [] false None.
Definition known (_ : HTTPRequest) (_ : CallMeta gostring) : Z + AuthInfo gostring := inr (mkInfo (lit "u42") (Some (lit "gold"))).
Definition visit : HTTPRequest := to_ (lit "GET") (lit "/invoice") plain_request.

(** [gateway_served] for a user the gateway knows. *)
Lemma gateway_served_witness :
  exists out, gateway (node (lit "aws")) (Some known) sent ea_method invoice outside (Some (lit "10.0.0.1")) (lit "shop.example") true id visit = Ok (Forwarded out) /\
    forall h2, delivered out h2 -> exists h3 m, MetaFromRequest (node (lit "gcp")) received h2 = (h3, inr m) /\ PrivateAPIAccess m = false /\
      processRequest (Some nobody) invoice m (with_headers visit h3) = Ok (Served invoice (mkInfo (lit "u42") (Some (lit "gold"))) m).
Proof.
  apply (gateway_served (node (lit "aws")) (node (lit "gcp")) signer signer sent received ea_method invoice outside _ (Some (lit "10.0.0.1")) (lit "shop.example") true id visit (Some known) nobody).
  - exact pair.
  - apply methods_signer.
  - apply methods_ok.
  - apply methods_signer.
  - reflexivity.
  - discriminate.
  - split; [reflexivity|]. intros d _. by eexists.
  - apply wf_plain.
  - apply no_user_plain.
Defined.

(** [remote_auth_passes] for the request of a gateway. *)
Lemma remote_auth_passes_witness :
  exists h1 h3 m m', remote_auth_request (node (lit "aws")) sent ea_method outside plain_request = (h1, None) /\
    MetaFromRequest (node (lit "gcp")) received h1 = (h3, inr m) /\ handleRemoteAuthCall known m visit = known visit m' /\ Internal_ m' = None.
Proof.
  destruct (remote_auth_passes (node (lit "aws")) (node (lit "gcp")) signer signer sent received ea_method outside plain_request) as (h1 & Ha & Hw & Hr).
  - exact pair.
  - apply methods_signer.
  - apply methods_ok.
  - apply methods_signer.
  - apply wf_plain.
  - apply no_user_plain.
  - destruct (Hr h1) as (h3 & m & m' & Hm & _ & Hi & Hg); [exact (delivered_all h1 Hw)|]. exists h1, h3, m, m'. split_and!; [exact Ha|exact Hm|apply Hg|exact Hi].
Defined.

(** ** The platform *)

Lemma date_text now : format_time now <> [] /\ exists t, parse_time (format_time now) = Some t /\ 0 <= now - t < 10 ^ 9.
Proof.
  split; [done|]. exists (now - now mod 10 ^ 9). split; [|pose proof (Z.mod_pos_bound now (10 ^ 9)); lia]. unfold parse_time, format_time.
  rewrite Wire.to_of_pos, countable.decode_encode. done.
Qed.

Definition signed_by_platform : HTTPRequest := default visit (addAuthKey hmac format_time [key] sent visit).

(** [platform_accepted] for a request that took half a minute. *)
Lemma platform_accepted_witness :
  ValidatePlatformRequest hmac parse_time [mkKey 3 (lit "old"); key] received signed_by_platform (header_Get (r_Header signed_by_platform) (lit "X-Encore-Auth")) = true.
Proof.
  apply (platform_accepted hmac parse_time format_time date_text [key] [mkKey 3 (lit "old"); key] sent received visit signed_by_platform signed_by_platform key).
  - reflexivity.
  - split; vm_compute; [discriminate|reflexivity].
  - reflexivity.
  - split; vm_compute; discriminate.
  - reflexivity.
  - by split.
Defined.

End Exchange.

(** ** Where the code departs from what it says *)

Module AccessDepartures.
Import Demo Exchange.

Definition offers : Endpoint := mkEndpoint (lit "billing") (lit "Offers") Public (lit "/offers") [lit "GET"] false.

(** A client without credentials that sends user metadata of its own. *)
Definition forged : Header := SetMeta (SetMeta plain_request userMetaName (lit "admin")) dataMetaName (Byte.x22 :: lit "root").

Definition through_gateway (client : Header) : Header :=
  match gateway (node (lit "aws")) (Some nobody) sent ea_method offers outside None (lit "shop.example") true id (to_ (lit "GET") (lit "/offers") client) with
  | Ok (Forwarded h) => h
  | _ => ∅
  end.

Definition at_service (h : Header) : option (CallMeta gostring) :=
  match (MetaFromRequest (node (lit "gcp")) received h).2 with inr m => Some m | inl _ => None end.

(** The gateway signs the user metadata of a client that is not authenticated, and the service
    takes it for the user: without it the endpoint sees no user. *)
Theorem forged_user_trusted :
  (context_auth <$> at_service (through_gateway plain_request)) = Some no_info /\
  (context_auth <$> at_service (through_gateway forged)) = Some (mkInfo (lit "admin") (Some (lit "root"))).
Proof. split; vm_compute; reflexivity. Qed.

(** The service is said to ignore the parent span of requests from a gateway; the tracestate of the client brings one back. *)
Theorem client_sets_parent_span :
  let client := <[lit "Tracestate" := [span_state_text span 1]]> plain_request in
  (ParentSpanID <$> at_service (through_gateway plain_request)) = Some zero_SpanID /\
  (ParentSpanID <$> at_service (through_gateway client)) = Some span.
Proof. split; vm_compute; reflexivity. Qed.

(** Correlation ids are said to be limited to 64 bytes; they never are. *)
Theorem correlation_unlimited h : read_correlation h [] = (ReadMeta h CorrelationIDKey).1.
Proof. unfold read_correlation. rewrite ReadMeta_lookup. by destruct (h !! _) as [[|[|c v] vs]|]. Qed.

(** A trace header of Google Cloud that does not parse is a nil dereference once the project is known. *)
Theorem log_fields_panic project h : project <> [] -> header_Get h (lit "X-Cloud-Trace-Context") <> [] ->
  StructuredLogFields project (Some h) = Crash <-> parseGCloudTraceContext h = None.
Proof.
  intros Hp Hh. unfold StructuredLogFields. rewrite (bool_decide_eq_false_2 _ Hh), (bool_decide_eq_false_2 _ Hp). cbn [orb].
  destruct (parseGCloudTraceContext h) as [c|]; [|done]. destruct (decide _); [done|]. by split.
Qed.

Theorem log_fields_panic_reached : StructuredLogFields (lit "p") (Some (<[lit "X-Cloud-Trace-Context" := [lit "x"]]> ∅)) = Crash.
Proof. vm_compute. reflexivity. Qed.

(** The trace id of AWS is parsed and dropped. *)
Theorem xray_dropped h : parseAWSXRayTraceContext h = None.
Proof. unfold parseAWSXRayTraceContext. destruct (decide _); [done|]. destruct (hex_DecodeString _); [|done]. cbn [mbind option_bind]. by destruct (negb _). Qed.

(** A redirect to an internal route without its trailing slash leaves out the internal prefix. *)
Theorem redirect_loses_prefix :
  answer None (to_ (lit "POST") (lit "/__encore/healthz/") ∅) = Redirect 308 (lit "/healthz") /\
  answer None (to_ (lit "POST") (lit "/healthz") ∅) = EndpointNotFound.
Proof. split; vm_compute; reflexivity. Qed.

(** Listed keys are said to be without duplicates. *)
Theorem listed_twice :
  ListMetaKeys (<[lit "Traceparent" := [lit "a"]]> (<[lit "X-Encore-Meta-Traceparent" := [lit "b"]]> ∅)) = [TraceParentKey; TraceParentKey].
Proof. vm_compute. reflexivity. Qed.

End AccessDepartures.
