(* ===== verification/Middleware.v ===== *)
(** The middleware of an endpoint and the call of its handler
    ([appruntime/apisdk/api/handler.go], [middleware.go] and [runtimes/go/middleware]).

    A middleware is code of the application.  Running it is a strategy: it returns a response,
    panics, or calls [next] and goes on with the response it gets, any number of times.  Built errors
    keep their code and message; stacks and the metadata with the stack of a panic are left
    out.  The types of requests and payloads are parameters. *)

From S2P Require Import Prelude Run Strconv Errs HttpCache.

Section Middleware.
Context {Rq P : Type}.

(** [middleware.Response] *)
Record MwResponse := mkMwResponse { mr_Payload : option P; mr_Err : error; mr_HTTPStatus : Z; mr_headers : option Header }.

Definition zero_Response : MwResponse := mkMwResponse None [] 0 None.

Inductive strategy :=
  | Return (r : MwResponse)
  | Throw (value : gostring)
  | CallNext (req : Rq) (k : MwResponse -> strategy).

(** [api.Middleware]: the fields that are read. *)
Record Middleware := mkMiddleware { mw_ID : gostring; PkgName : gostring; mw_Name : gostring; Invoke : Rq -> strategy }.

(** [errs.B().Code(code).Msg(msg).Err()] *)
Definition err_of (code : Z) (msg : gostring) : error := [EncoreLink (mkError code msg None None empty_stack)].

(** The deferred function of [nextFn] that sets the status. *)
Definition set_status (r : MwResponse) : MwResponse :=
  if mr_HTTPStatus r =? 0 then mkMwResponse (mr_Payload r) (mr_Err r) (HTTPStatus (mr_Err r)) (mr_headers r) else r.

(** The response after a panic was caught. *)
Definition panic_response (msg : gostring) : MwResponse := mkMwResponse None (err_of Internal msg) 500 None.

Definition too_many : MwResponse := mkMwResponse None (err_of Internal (lit "middleware called next() too many times")) 500 None.

Definition middleware_panic (mw : Middleware) (value : gostring) : gostring :=
  lit "panic executing middleware " ++ PkgName mw ++ lit "." ++ mw_Name mw ++ lit ": " ++ value.
Definition handler_panic (value : gostring) : gostring := lit "panic handling request: " ++ value.

(** A handler panics with a value or returns a response. *)
Abbreviation invoke := (Rq -> gostring + MwResponse).

(** What is called: a middleware, or the handler. *)
Inductive callee := CallMiddleware (mw : Middleware) | CallHandler.

(** The counter of [executeEndpoint], and the calls made so far. *)
Record chain_state := mkChain { counter : nat; invoked : list callee }.

(** The strategy of a middleware against [next]. *)
Fixpoint run_strategy (next : Rq -> chain_state -> option (MwResponse * chain_state)) (p : strategy) (st : chain_state) : option ((gostring + MwResponse) * chain_state) :=
  match p with
  | Return r => Some (inr r, st)
  | Throw v => Some (inl v, st)
  | CallNext req k => '(r, st) ← next req st; run_strategy next (k r) st
  end.

Section Chain.
Context (globalMiddleware svcMiddleware : list Middleware) (invokeHandler : invoke).

Definition numGlobalMiddleware : nat := length globalMiddleware.
Definition numTotalMiddleware : nat := (length globalMiddleware + length svcMiddleware)%nat.

Definition pick (idx : nat) : option Middleware :=
  if decide (idx < numGlobalMiddleware)%nat then globalMiddleware !! idx else svcMiddleware !! (idx - numGlobalMiddleware)%nat.

(** [nextFn]; a call in turn calls it with a larger counter, so that the fuel bounds the depth.
    [None]: the fuel does not suffice, or an index is out of range. *)
Fixpoint nextFn (fuel : nat) (req : Rq) (st : chain_state) : option (MwResponse * chain_state) :=
  match fuel with
  | O => None
  | S fuel =>
      let idx := counter st in
      if decide (idx < numTotalMiddleware)%nat then
        mw ← pick idx;
        '(out, st) ← run_strategy (nextFn fuel) (Invoke mw req) (mkChain (S idx) (invoked st ++ [CallMiddleware mw]));
        Some (set_status (match out with inr r => r | inl v => panic_response (middleware_panic mw v) end), st)
      else if decide (idx = numTotalMiddleware) then
        Some (set_status (match invokeHandler req with inr r => r | inl v => panic_response (handler_panic v) end), mkChain (S idx) (invoked st ++ [CallHandler]))
      else Some (set_status too_many, mkChain (S idx) (invoked st))
  end.

End Chain.

(** [getGlobalMiddleware]; [None]: a middleware is not registered, which panics. *)
Fixpoint lookup_all (registered : gmap gostring Middleware) (ids : list gostring) : option (list Middleware) :=
  match ids with
  | [] => Some []
  | id :: ids => mw ← registered !! id; rest ← lookup_all registered ids; Some (mw :: rest)
  end.

Definition getGlobalMiddleware (testing : bool) (registered : gmap gostring Middleware) (ids : list gostring) : option (list Middleware) :=
  if testing then Some [] else lookup_all registered ids.

(** The results of [executeEndpoint]; no data is the zero value. *)
Record Executed := mkExecuted { x_resp : option P; x_httpStatus : Z; x_headers : option Header; x_respErr : error }.

(** What [executeEndpoint] reads of its [Desc]: the names of the endpoint, whether it returns
    nothing, whether a payload has its type, and how [%T] prints the type of a payload and its
    own. *)
Record EndpointType := mkEndpointType {
  et_Service : gostring; et_Endpoint : gostring; isVoid : bool; typed : P -> bool;
  type_text : option P -> gostring; own_type : gostring }.

Definition wrong_payload (d : EndpointType) (p : option P) : gostring :=
  lit "invalid middleware: cannot return payload of type " ++ type_text d p ++ lit " for endpoint " ++ et_Service d ++ lit "." ++ et_Endpoint d
    ++ lit " (expected type " ++ own_type d ++ lit ")".

(** [mwResp.Payload.(Resp)] *)
Definition assert_payload (d : EndpointType) (p : option P) : option P :=
  v ← p; if typed d v then Some v else None.

(** The end of [executeEndpoint]. *)
Definition check_payload (d : EndpointType) (mwResp : MwResponse) : Executed :=
  match mr_Err mwResp with
  | [] =>
      match assert_payload d (mr_Payload mwResp), isVoid d with
      | None, false => mkExecuted None 500 (mr_headers mwResp) (err_of Internal (wrong_payload d (mr_Payload mwResp)))
      | resp, _ => mkExecuted resp (mr_HTTPStatus mwResp) (mr_headers mwResp) []
      end
  | err => mkExecuted None (mr_HTTPStatus mwResp) (mr_headers mwResp) err
  end.

Definition executeEndpoint (testing : bool) (registered : gmap gostring Middleware) (ids : list gostring) (svcMiddleware : list Middleware)
    (d : EndpointType) (invokeHandler : invoke) (mwReq : Rq) : run (Executed * list callee) :=
  match getGlobalMiddleware testing registered ids with
  | None => Crash
  | Some globalMiddleware =>
      match nextFn globalMiddleware svcMiddleware invokeHandler (S (S (numTotalMiddleware globalMiddleware svcMiddleware))) mwReq (mkChain 0 []) with
      | None => OutOfFuel
      | Some (mwResp, st) => Ok (check_payload d mwResp, invoked st)
      end
  end.

(** [invokeHandlerNonRaw] on the result of the application's handler; a panic of [errs.Convert]
    has no value of interest. *)
Definition invokeHandlerNonRaw (built : Stack) (d : EndpointType) (handler : Rq -> gostring + (P * error)) : invoke := fun req =>
  match handler req with
  | inl v => inl v
  | inr (resp, []) => inr (mkMwResponse (if isVoid d then None else Some resp) [] 200 None)
  | inr (_, handlerErr) =>
      match Convert built handlerErr with
      | None => inl []
      | Some err => inr (mkMwResponse None err (HTTPStatus err) None)
      end
  end.

(** [invokeHandlerRaw]: [code] is the status the raw handler wrote, [statusText] the text of a
    status, if it has one. *)
Definition invokeHandlerRaw (statusText : Z -> gostring) (handler : Rq -> gostring + Z) : invoke := fun req =>
  match handler req with
  | inl v => inl v
  | inr code =>
      if 400 <=? code then
        let text := if decide (statusText code = []) then lit "HTTP " ++ FormatInt code else statusText code in
        inr (mkMwResponse None (err_of (HTTPStatusToCode code) text) code None)
      else inr (mkMwResponse None [] code None)
  end.

(** [runValidate] on what [Validate] returned, [None] if the payload has no such method. *)
Definition runValidate (built : Stack) (h : metaheap) (validated : option error) : option (metaheap * error) :=
  match validated with
  | None | Some [] => Some (h, [])
  | Some (EncoreLink e :: u) => Some (h, EncoreLink e :: u)
  | Some err => WrapCode built h err InvalidArgument (lit "validation failed") []
  end.

(** The status and error of [newErrResp] (no payload, no headers). *)
Definition newErrResp (err : error) (httpStatus : Z) : Z * error := ((if httpStatus =? 0 then HTTPStatus err else httpStatus), err).

(** [handleIncoming] up to the building of the response from the results: [validated] is what the
    [Validate] method of the payload returns. *)
Definition handleIncoming (built : Stack) (h : metaheap) (validated : option error) (testing : bool) (registered : gmap gostring Middleware)
    (ids : list gostring) (svcMiddleware : list Middleware) (d : EndpointType) (invokeHandler : invoke) (mwReq : Rq) : run (Executed * list callee) :=
  match runValidate built h validated with
  | None => Crash
  | Some (_, []) => executeEndpoint testing registered ids svcMiddleware d invokeHandler mwReq
  | Some (_, err) => let '(httpStatus, err) := newErrResp err 0 in Ok (mkExecuted None httpStatus None err, [])
  end.

End Middleware.
Arguments MwResponse P : clear implicits.
Arguments strategy Rq P : clear implicits.
Arguments Middleware Rq P : clear implicits.
Arguments Executed P : clear implicits.
Arguments EndpointType P : clear implicits.
Arguments callee Rq P : clear implicits.
Arguments chain_state Rq P : clear implicits.
