(* ===== verification/MiddlewareTheorems.v ===== *)
(** The chain of middleware: whatever the middleware does a request is answered, each middleware
    and the handler run at most once and in order; middleware that calls [next] at most once
    composes, the first one outermost. *)

From S2P Require Import Prelude Run Strconv Errs HttpCache Middleware.

(** ** The composition of middleware *)

Section Composition.
Context {Rq P : Type}.
Implicit Types (p : strategy Rq P) (mw : Middleware Rq P).

(** A middleware against the rest of the chain as a function. *)
Fixpoint respond (next : Rq -> MwResponse P) (p : strategy Rq P) : gostring + MwResponse P :=
  match p with
  | Return r => inr r
  | Throw v => inl v
  | CallNext req k => respond next (k (next req))
  end.

(** A panic is an internal error, and a response without a status has that of its error. *)
Definition answered (text : gostring -> gostring) (out : gostring + MwResponse P) : MwResponse P :=
  set_status (match out with inr r => r | inl v => panic_response (text v) end).

Fixpoint compose (mws : list (Middleware Rq P)) (handler : Rq -> gostring + MwResponse P) (req : Rq) : MwResponse P :=
  match mws with
  | [] => answered handler_panic (handler req)
  | mw :: mws => answered (middleware_panic mw) (respond (compose mws handler) (Invoke mw req))
  end.

(** A middleware that does not call [next], and one that calls it at most once. *)
Definition ends p : Prop := match p with CallNext _ _ => False | _ => True end.
Definition calls_once p : Prop := match p with CallNext _ k => forall r, ends (k r) | _ => True end.

Definition well_behaved mw : Prop := forall req, calls_once (Invoke mw req).

Lemma run_ends next p st : ends p -> run_strategy next p st = Some (respond (fun _ => zero_Response) p, st).
Proof. by destruct p. Qed.

Lemma respond_ends f g p : ends p -> respond f p = respond g p.
Proof. by destruct p. Qed.

Lemma set_status_nonzero (r : MwResponse P) : mr_HTTPStatus (set_status r) <> 0.
Proof.
  unfold set_status. destruct (Z.eqb_spec (mr_HTTPStatus r) 0) as [E|E]; [|done]. cbn.
  unfold HTTPStatus. repeat case_match; discriminate.
Qed.

End Composition.

(** ** Running a chain *)

Section Chain.
Context {Rq P : Type} (globals svc : list (Middleware Rq P)) (handler : Rq -> gostring + MwResponse P).
Local Abbreviation total := (numTotalMiddleware globals svc).
Local Abbreviation next := (nextFn globals svc handler).

Lemma pick_app i : pick globals svc i = (globals ++ svc) !! i.
Proof.
  unfold pick, numGlobalMiddleware. case_decide as H.
  - by rewrite lookup_app_l.
  - rewrite lookup_app_r; [done|lia].
Qed.

Lemma pick_total i : (i < total)%nat -> is_Some (pick globals svc i).
Proof. intros H. rewrite pick_app. apply lookup_lt_is_Some. rewrite length_app. exact H. Qed.

(** The calls in the order of the chain. *)
Definition calls : list (callee Rq P) := (CallMiddleware <$> globals ++ svc) ++ [CallHandler].

(** The calls made are those the counter passed. *)
Definition in_order (st : chain_state Rq P) : Prop := invoked st = take (counter st) calls.

Lemma length_calls : length calls = S total.
Proof. unfold calls. rewrite length_app, length_fmap, length_app. cbn. unfold numTotalMiddleware. lia. Qed.

Lemma calls_middleware i mw : pick globals svc i = Some mw -> calls !! i = Some (CallMiddleware mw).
Proof.
  rewrite pick_app. intros H. unfold calls. rewrite lookup_app_l; [by rewrite list_lookup_fmap, H|].
  rewrite length_fmap. by eapply lookup_lt_Some.
Qed.

Lemma calls_handler : calls !! total = Some CallHandler.
Proof. unfold calls, numTotalMiddleware. rewrite <- length_app, <- (length_fmap CallMiddleware). by apply list_lookup_middle. Qed.

Lemma in_order_next st c : in_order st -> calls !! counter st = Some c -> in_order (mkChain (S (counter st)) (invoked st ++ [c])).
Proof. unfold in_order. cbn [invoked counter]. intros -> H. by rewrite (take_S_r _ _ _ H). Qed.

Lemma in_order_past st : in_order st -> (total < counter st)%nat -> in_order (mkChain (S (counter st)) (invoked st)).
Proof. unfold in_order. cbn [invoked counter]. intros -> H. rewrite !take_ge by (rewrite length_calls; lia). done. Qed.

(** What a call of [next] guarantees. *)
Definition answers (st : chain_state Rq P) (r : MwResponse P) (st' : chain_state Rq P) : Prop :=
  in_order st' /\ (counter st < counter st')%nat /\ mr_HTTPStatus r <> 0.

Lemma run_strategy_total (nxt : Rq -> chain_state Rq P -> option (MwResponse P * chain_state Rq P)) c p st :
  (forall req st, in_order st -> (c <= counter st)%nat -> exists r st', nxt req st = Some (r, st') /\ answers st r st') ->
  in_order st -> (c <= counter st)%nat ->
  exists out st', run_strategy nxt p st = Some (out, st') /\ in_order st' /\ (counter st <= counter st')%nat.
Proof.
  intros Hn. revert st. induction p as [r|v|req k IH]; intros st Ho Hc; cbn [run_strategy].
  1-2: by eexists _, _.
  destruct (Hn req st Ho Hc) as (r & st1 & -> & Ho1 & Hc1 & _). cbn.
  destruct (IH r st1 Ho1) as (out & st' & E & Ho' & Hc'); [lia|].
  exists out, st'. repeat split; [exact E|exact Ho'|lia].
Qed.

(** For every behaviour of the middleware and of the handler, [next] returns. *)
Lemma nextFn_total fuel req st :
  in_order st -> (S total < fuel + counter st)%nat -> (0 < fuel)%nat ->
  exists r st', next fuel req st = Some (r, st') /\ answers st r st'.
Proof.
  revert req st. induction fuel as [|fuel IH]; intros req st Ho Hf H0; [lia|]. cbn [nextFn].
  case_decide as Hi.
  - destruct (pick_total _ Hi) as [mw Hmw]. rewrite Hmw. cbn.
    edestruct (run_strategy_total (next fuel) (S (counter st)) (Invoke mw req)) as (out & st' & E & Ho' & Hc').
    + intros req' st1 Ho1 Hc1. apply IH; [exact Ho1|lia|lia].
    + apply in_order_next; [exact Ho|by apply calls_middleware].
    + cbn. lia.
    + rewrite E. cbn in Hc' |- *. eexists _, _. split; [reflexivity|]. split_and!; [exact Ho'|lia|apply set_status_nonzero].
  - case_decide as He.
    + eexists _, _. split; [reflexivity|]. split_and!; [apply in_order_next; [exact Ho|rewrite He; apply calls_handler]|cbn; lia|apply set_status_nonzero].
    + eexists _, _. split; [reflexivity|]. split_and!; [apply in_order_past; [exact Ho|lia]|cbn; lia|apply set_status_nonzero].
Qed.

(** [next] at the start of well-behaved middleware is the composition of what is left. *)
Lemma nextFn_compose fuel req st :
  Forall well_behaved (globals ++ svc) -> (counter st <= total)%nat -> (total < fuel + counter st)%nat ->
  exists st', next fuel req st = Some (compose (drop (counter st) (globals ++ svc)) handler req, st').
Proof.
  intros Hw. revert req st. induction fuel as [|fuel IH]; intros req st Hc Hf; [lia|]. cbn [nextFn].
  case_decide as Hi.
  - destruct (pick_total _ Hi) as [mw Hmw]. rewrite Hmw. cbn. rewrite pick_app in Hmw.
    rewrite (drop_S _ _ _ Hmw). cbn [compose].
    pose proof (Forall_lookup_1 _ _ _ _ Hw Hmw req) as Hone.
    destruct (Invoke mw req) as [r|v|req' k]; cbn [run_strategy calls_once respond] in *; [by eexists..|].
    destruct (IH req' (mkChain (S (counter st)) (invoked st ++ [CallMiddleware mw]))) as [st' ->]; [cbn; lia..|]. cbn.
    rewrite run_ends by apply Hone. cbn [counter].
    rewrite (respond_ends _ (compose (drop (S (counter st)) (globals ++ svc)) handler)) by apply Hone. by eexists.
  - rewrite decide_True by lia. rewrite drop_ge; [by eexists|]. rewrite length_app. unfold numTotalMiddleware in *. lia.
Qed.

End Chain.

(** ** Serving a request *)

Section Serve.
Context {Rq P : Type}.
Implicit Types (d : EndpointType P) (mw : Middleware Rq P).

Lemma assert_payload_typed d p v : assert_payload d p = Some v -> p = Some v /\ typed d v = true.
Proof. unfold assert_payload. intros (v' & -> & H)%bind_Some. case_match; by simplify_eq. Qed.

(** What an endpoint answers: data of its type, nothing if it returns nothing, or an error. *)
Definition typed_answer d (x : Executed P) : Prop :=
  x_httpStatus x <> 0 /\
  (x_respErr x = [] -> match x_resp x with Some v => typed d v = true | None => isVoid d = true end) /\
  (x_respErr x <> [] -> x_resp x = None).

Lemma check_payload_typed d r : mr_HTTPStatus r <> 0 -> typed_answer d (check_payload d r).
Proof.
  intros H. unfold typed_answer, check_payload.
  destruct (mr_Err r); [|by cbn].
  destruct (assert_payload d (mr_Payload r)) as [v|] eqn:E.
  - apply assert_payload_typed in E as [_ E]. by cbn.
  - destruct (isVoid d); by cbn.
Qed.

Lemma start_in_order globals svc : in_order (Rq := Rq) (P := P) globals svc (mkChain 0 []).
Proof. reflexivity. Qed.

(** C11. Whatever middleware and handler do, calling [next] any number of
    times and panicking included, a request to an endpoint whose global middleware is registered
    is answered with a status and with data of the type of the endpoint or an error.  The calls
    made are the first ones of the chain, which consists of the global middleware, that of the
    service and the handler, in this order: each was called at most once, and the handler only
    after all middleware. *)
Theorem middleware_in_order testing registered ids globals svc d (handler : Rq -> gostring + MwResponse P) req :
  getGlobalMiddleware testing registered ids = Some globals ->
  exists x k, executeEndpoint testing registered ids svc d handler req = Ok (x, take k ((CallMiddleware <$> globals ++ svc) ++ [CallHandler])) /\
    typed_answer d x.
Proof.
  intros Hg. unfold executeEndpoint. rewrite Hg.
  destruct (nextFn_total globals svc handler (S (S (numTotalMiddleware globals svc))) req _ (start_in_order _ _))
    as (r & st & E & Ho & _ & Hs); [cbn; lia..|].
  rewrite E, Ho. eexists _, _. split; [reflexivity|by apply check_payload_typed].
Qed.

(** C12. If every middleware calls [next] at most once, the answer to a
    request is that of the composition of the global middleware and that of the service around the
    handler, the first one outermost: what a middleware gets from [next] is the answer of the
    middleware after it, or of the handler after the last one. *)
Theorem middleware_composes testing registered ids globals svc d (handler : Rq -> gostring + MwResponse P) req :
  getGlobalMiddleware testing registered ids = Some globals -> Forall well_behaved (globals ++ svc) ->
  exists invoked, executeEndpoint testing registered ids svc d handler req =
    Ok (check_payload d (compose (globals ++ svc) handler req), invoked).
Proof.
  intros Hg Hw. unfold executeEndpoint. rewrite Hg.
  destruct (nextFn_compose globals svc handler (S (S (numTotalMiddleware globals svc))) req (mkChain 0 []) Hw) as [st E]; [cbn; lia..|].
  rewrite E. by eexists.
Qed.

Lemma Convert_error built l u err : Convert built (l :: u) = Some err -> err <> [].
Proof.
  unfold Convert. destruct l as [e|t]; [congruence|].
  destruct (errors_As _) as [ee|]; [|congruence].
  intros (text & _ & H)%bind_Some. congruence.
Qed.

Lemma mergeMeta_none h md : exists h', mergeMeta h md [] = Some (h', md).
Proof. destruct md; eexists; reflexivity. Qed.

(** A request whose payload is not valid is answered without any middleware or the handler being
    invoked: with the error of [Validate] if it is one of this library, and with 400 and a wrapped
    error otherwise. *)
Theorem invalid_rejected built h l u testing registered ids svc d (handler : Rq -> gostring + MwResponse P) req :
  exists err, handleIncoming built h (Some (l :: u)) testing registered ids svc d handler req = Ok (mkExecuted None (HTTPStatus err) None err, []) /\
    err <> [] /\ match l with EncoreLink _ => err = l :: u | OtherLink _ => errs_Code err = InvalidArgument /\ HTTPStatus err = 400 /\ tail err = l :: u end.
Proof.
  unfold handleIncoming, runValidate. destruct l as [e|t].
  - by exists (EncoreLink e :: u).
  - unfold WrapCode. cbn [Z.eqb InvalidArgument OK].
    destruct (errors_As _) as [ee|]; [destruct (mergeMeta_none h (Meta ee)) as [h' ->]|destruct (mergeMeta_none h None) as [h' ->]];
      eexists; (split; [reflexivity|]); by split_and!.
Qed.

(** Without middleware an endpoint answers with what its handler returned: its data, or its error
    converted, with the status of that error. *)
Theorem handler_answer built d testing registered (h : Rq -> gostring + (P * error)) req resp e :
  h req = inr (resp, e) -> typed d resp = true ->
  executeEndpoint testing registered [] [] d (invokeHandlerNonRaw built d h) req =
    Ok (match e, Convert built e with
        | [], _ => mkExecuted (if isVoid d then None else Some resp) 200 None []
        | _, Some err => mkExecuted None (HTTPStatus err) None err
        | _, None => mkExecuted None 500 None (err_of Internal (handler_panic []))
        end, [CallHandler]).
Proof.
  intros Hh Ht. unfold executeEndpoint.
  replace (getGlobalMiddleware testing registered []) with (Some (@nil (Middleware Rq P))) by (by destruct testing).
  cbn [nextFn numTotalMiddleware length Nat.add counter]. rewrite decide_False by lia. rewrite decide_True by done.
  unfold invokeHandlerNonRaw. rewrite Hh. destruct e as [|l u].
  - unfold check_payload, set_status. cbn. destruct (isVoid d) eqn:Hv; cbn; rewrite ?Ht; reflexivity.
  - destruct (Convert built (l :: u)) as [err|] eqn:Hc; [|reflexivity].
    pose proof (Convert_error _ _ _ _ Hc) as Hne.
    unfold set_status, check_payload. cbn [mr_HTTPStatus]. destruct (_ =? 0); destruct err; done.
Qed.

End Serve.

(** ** Applied to requests *)

Module MiddlewareDemo.

(** Requests and payloads are numbers; the endpoint returns even ones. *)
Definition even_endpoint : EndpointType Z := mkEndpointType (lit "svc") (lit "Even") false Z.even (fun _ => lit "int") (lit "Even").

Definition double : Z -> gostring + MwResponse Z := fun req => inr (mkMwResponse (Some (2 * req)) [] 200 None).

(** Middleware that adds one to the request, that rejects it, and that tries twice. *)
Definition increment := mkMiddleware (lit "a") (lit "app") (lit "Increment") (fun req => CallNext (req + 1) (fun r : MwResponse Z => Return r)).
Definition reject := mkMiddleware (lit "b") (lit "app") (lit "Reject")
  (fun _ : Z => Return (mkMwResponse (P := Z) None (err_of PermissionDenied (lit "no")) 0 None)).
Definition again := mkMiddleware (lit "c") (lit "app") (lit "Again")
  (fun req : Z => CallNext req (fun r : MwResponse Z => match mr_Err r with [] => Return r | _ => CallNext req (fun r => Return r) end)).

Definition registered : gmap gostring (Middleware Z Z) := {[lit "a" := increment; lit "c" := again]}.

Lemma middleware_in_order_witness : exists x k,
  executeEndpoint false registered [lit "c"] [reject] even_endpoint double 5 =
    Ok (x, take k [CallMiddleware again; CallMiddleware reject; CallHandler]) /\ typed_answer even_endpoint x.
Proof. apply (middleware_in_order false registered [lit "c"] [again] [reject] even_endpoint double 5). vm_compute. reflexivity. Defined.

Lemma middleware_composes_witness : exists invoked,
  executeEndpoint false registered [lit "a"] [increment] even_endpoint double 5 = Ok (mkExecuted (Some 14) 200 None [], invoked).
Proof.
  apply (middleware_composes false registered [lit "a"] [increment] [increment] even_endpoint double 5).
  - vm_compute. reflexivity.
  - repeat constructor; intros req; cbn; done.
Defined.

(** A middleware that calls [next] again after a failure does not get the answer of the next
    middleware, nor the error for calling it too often: the chain goes on where it stopped, so
    that the handler serves a request the middleware before it has just rejected. *)
Theorem second_next_skips :
  executeEndpoint false registered [] [again; reject] even_endpoint double 5 = Ok (mkExecuted (Some 10) 200 None [], [CallMiddleware again; CallMiddleware reject; CallHandler]) /\
  x_respErr (check_payload even_endpoint (compose [again; reject] double 5)) = err_of PermissionDenied (lit "no").
Proof. split; vm_compute; reflexivity. Qed.

End MiddlewareDemo.
