(* ===== verification/NameAlloc.v ===== *)
(** Allocating names in generated code ([pkg/namealloc]): [Get] returns, and never the same name
    twice. *)

From S2P Require Import Prelude Run Strconv.

(** [Allocator.used]; the map only holds true values.  [Reserved], or [token.IsKeyword] where it is
    nil, is an argument. *)
Abbreviation Allocator := (gset gostring).

(** The loop over candidates; [fuel] bounds its rounds. *)
Fixpoint candidate_loop (fuel : nat) (used : Allocator) (input candidate : gostring) (i : Z) : run gostring :=
  match fuel with
  | O => OutOfFuel
  | S fuel => if decide (candidate ∈ used) then candidate_loop fuel used input (input ++ FormatInt i) (i64 (i + 1)) else Ok candidate
  end.

Definition base_name (isReserved : gostring -> bool) (input : gostring) : gostring :=
  if isReserved input then input ++ lit "_" else input.

Definition alloc_Get (fuel : nat) (isReserved : gostring -> bool) (used : Allocator) (input : gostring) : run (gostring * Allocator) :=
  let input := base_name isReserved input in
  candidate ← candidate_loop fuel used input input 2;
  Ok (candidate, {[candidate]} ∪ used).

(** Names for inputs one after the other. *)
Fixpoint get_all (fuel : nat) (isReserved : gostring -> bool) (used : Allocator) (inputs : list gostring) : run (list gostring * Allocator) :=
  match inputs with
  | [] => Ok ([], used)
  | input :: inputs =>
      '(name, used) ← alloc_Get fuel isReserved used input;
      '(names, used) ← get_all fuel isReserved used inputs;
      Ok (name :: names, used)
  end.

(** The candidates in the order they are tried. *)
Definition nth_candidate (input : gostring) (j : nat) : gostring :=
  match j with O => input | S _ => input ++ FormatInt (Z.of_nat j + 1) end.

Lemma FormatInt_longer input n : is_i64 n -> input <> input ++ FormatInt n.
Proof.
  intros Hn%ParseInt_Format E%(f_equal length). rewrite length_app in E.
  destruct (FormatInt n); [done|cbn in E; lia].
Qed.

Lemma nth_candidate_inj input j k :
  Z.of_nat j < 2 ^ 62 -> Z.of_nat k < 2 ^ 62 -> nth_candidate input j = nth_candidate input k -> j = k.
Proof.
  intros Hj Hk. destruct j as [|j], k as [|k]; cbn [nth_candidate]; intros E; [done|..].
  1: destruct (FormatInt_longer input (Z.of_nat (S k) + 1)); [unfold is_i64; lia|done].
  1: destruct (FormatInt_longer input (Z.of_nat (S j) + 1)); [unfold is_i64; lia|done].
  apply (inj (app input)), FormatInt_inj in E; unfold is_i64; lia.
Qed.

(** The loop stops at the first candidate that is free. *)
Lemma candidate_loop_spec (fuel : nat) (used : Allocator) (input : gostring) (j : nat) :
  Z.of_nat (j + fuel) < 2 ^ 62 ->
  (exists k, (k < fuel)%nat /\ (nth_candidate input (j + k) ∉ used) /\
     candidate_loop fuel used input (nth_candidate input j) (Z.of_nat j + 2) = Ok (nth_candidate input (j + k))) \/
  (forall k, (k < fuel)%nat -> nth_candidate input (j + k) ∈ used).
Proof.
  revert j. induction fuel as [|fuel IH]; intros j Hb; [right; lia|]. cbn [candidate_loop].
  case_decide as Hin.
  - replace (input ++ FormatInt (Z.of_nat j + 2)) with (nth_candidate input (S j)) by (cbn; do 2 f_equal; lia).
    rewrite i64_id by (unfold is_i64; lia). replace (Z.of_nat j + 2 + 1) with (Z.of_nat (S j) + 2) by lia.
    destruct (IH (S j)) as [(k & Hk & Hn & E)|Hall]; [lia|left|right].
    + exists (S k). replace (j + S k)%nat with (S j + k)%nat by lia. split_and!; [lia|done|done].
    + intros [|k] Hk; [by rewrite Nat.add_0_r|]. replace (j + S k)%nat with (S j + k)%nat by lia. apply Hall. lia.
  - left. exists O. rewrite Nat.add_0_r. split_and!; [lia|done|done].
Qed.

(** As many candidates as there are names and one more are not all used. *)
Lemma candidates_not_all (used : Allocator) input :
  Z.of_nat (S (size used)) < 2 ^ 62 -> ~ (forall k, (k < S (size used))%nat -> nth_candidate input k ∈ used).
Proof.
  intros Hb Hall. set (l := nth_candidate input <$> seq 0 (S (size used))).
  assert (NoDup l) as Hnd.
  { apply NoDup_fmap_2_strong; [|apply NoDup_seq]. intros j k Hj%elem_of_seq Hk%elem_of_seq. apply nth_candidate_inj; lia. }
  assert (list_to_set l ⊆ used) as Hsub%subseteq_size.
  { intros x Hx%elem_of_list_to_set. apply list_elem_of_fmap in Hx as (k & -> & Hk%elem_of_seq). apply Hall. lia. }
  rewrite size_list_to_set in Hsub by done. subst l. rewrite length_fmap, length_seq in Hsub. lia.
Qed.

(** [Get] returns after at most as many rounds as there are used names and one more, with a name
    that was not used: the input, marked if it is reserved, or that with a number. *)
Lemma alloc_Get_fresh (isReserved : gostring -> bool) (used : Allocator) (input : gostring) (fuel : nat) :
  Z.of_nat fuel < 2 ^ 62 -> (size used < fuel)%nat ->
  exists j, let name := nth_candidate (base_name isReserved input) j in
    alloc_Get fuel isReserved used input = Ok (name, {[name]} ∪ used) /\ name ∉ used.
Proof.
  intros Hb Hs. unfold alloc_Get. set (b := base_name isReserved input).
  destruct (candidate_loop_spec fuel used b 0) as [(k & Hk & Hn & E)|Hall]; [lia| |].
  - exists k. split; [|exact Hn]. change (candidate_loop fuel used b b 2) with (candidate_loop fuel used b (nth_candidate b 0) (Z.of_nat 0 + 2)).
    by rewrite E.
  - exfalso. apply (candidates_not_all used b); [lia|]. intros k Hk. apply Hall. lia.
Qed.

(** The names for a sequence of inputs, whatever they are, are distinct and were not used before. *)
Theorem names_distinct (isReserved : gostring -> bool) (inputs : list gostring) (used : Allocator) (fuel : nat) :
  Z.of_nat fuel < 2 ^ 62 -> (size used + length inputs <= fuel)%nat ->
  exists names, get_all fuel isReserved used inputs = Ok (names, list_to_set names ∪ used) /\
    length names = length inputs /\ NoDup names /\ (forall name, name ∈ names -> name ∉ used).
Proof.
  revert used. induction inputs as [|input inputs IH]; intros used Hb Hs; cbn [get_all length] in *.
  - exists []. split_and!; [|done|constructor|]; [by rewrite list_to_set_nil, union_empty_l_L|]. by intros ? ?%elem_of_nil.
  - destruct (alloc_Get_fresh isReserved used input fuel) as (j & E & Hn); [lia..|].
    set (name := nth_candidate _ j) in *. rewrite E, bind_Ok.
    destruct (IH ({[name]} ∪ used)) as (names & E' & Hl & Hd & Hf); [lia|rewrite size_union, size_singleton by set_solver; lia|].
    rewrite E', bind_Ok. exists (name :: names). split_and!.
    + do 2 f_equal. set_solver.
    + cbn. lia.
    + constructor; [|done]. intros H%Hf. set_solver.
    + intros x [->|H%Hf]%elem_of_cons; set_solver.
Qed.

Lemma names_distinct_witness : exists names,
  get_all 4 (fun s => bool_decide (s = lit "type")) ∅ [lit "a"; lit "type"; lit "a"; lit "type_"] = Ok (names, list_to_set names ∪ ∅) /\
  length names = 4%nat /\ NoDup names /\ (forall name, name ∈ names -> name ∉ (∅ : Allocator)).
Proof. apply (names_distinct (fun s => bool_decide (s = lit "type")) [lit "a"; lit "type"; lit "a"; lit "type_"] ∅ 4); [lia|vm_compute; lia]. Defined.

(** Only the input is compared with the reserved names: a numbered name can be reserved. *)
Theorem numbered_name_reserved :
  fst <$> alloc_Get 2 (fun s => bool_decide (s = lit "u2")) {[lit "u"]} (lit "u") = Ok (lit "u2").
Proof. vm_compute. reflexivity. Qed.
